(* ===== verification/_CoqProject ===== *)
-Q . S2P
Prelude.v
Safety.v
Engine.v
KvsArray.v
ArraySafe.v
KvsHash.v
HashOld.v
KvsRbtree.v
RbtreeRep.v
RbtreeInsert.v
RbtreeMap.v
RbtreeDelete.v
RbtreeRemove.v
Mempool.v
PoolBench.v
Slab.v
PageCache.v
PageCacheSpec.v
CentralCache.v
CentralCacheSpec.v
ThreadCache.v
ThreadCacheSpec.v
UnitTest.v
KvsSkiptable.v
SkipRep.v
SkipSpec.v
CNum.v
Crc.v
Stdio.v
Rss.v
World.v
RdbConfig.v
Rdb.v
RdbSave.v
RdbLoad.v
Durable.v
Protocol.v
ProtocolSpec.v
DbSpec.v
Ntyco.v
NtycoSpec.v
TestClient.v
TestClientSpec.v
Server.v
ServerSpec.v
Reactor.v
ReactorSpec.v
Proactor.v
ProactorSpec.v
AutoSave.v
AutoSaveSpec.v
