(* ===== verification/Prelude.v ===== *)
(** * kvstore: verification library

    A development for the key-value server of this repository: a TCP server with four
    storage engines, snapshots on disk and memory pools, written in C and C++.

    ** The program and where each part is modelled

    - [src/kvs_array.c], the array engine: [KvsArray], Module [Array].  The table is a block
      of cells that are indeterminate until written.  [ArraySafe]: no call leaves the table.
    - [src/kvs_hash.c], the hash engine: [KvsHash], Module [Hash].  Chains are lists, slots a
      block of cells.
    - [src/kvs_rbtree.c], the red-black tree engine: [KvsRbtree], Module [Rbtree], over a heap
      of nodes with parent pointers; [RbtreeRep] (trees in the heap), [RbtreeInsert] (the
      insertion fixup), [RbtreeMap] (the engine as a map), [RbtreeDelete] (the deletion
      fixup) and [RbtreeRemove] (the whole deletion) prove it.
    - [src/hash.c], the hash table with keys and values in arrays: [HashOld].
    - [src/kvs_skiptable.c], the skip list of scored members: [KvsSkiptable], Module [Skip];
      [SkipRep] (levels as lists) and [SkipSpec] (sorted sets).
    - [src/kv_mempool.c] with [kvs_malloc] and [kvs_free] of [src/kvstore.c]: [Mempool];
      [src/kv_mempool_slab.c]: [Slab], and [Rss] for its reading of [/proc].
      [src/test.c], which times the pool: [PoolBench].
    - [src/mempool], the C++ pool, from the bottom: [PageCache] (spans of pages from the
      system), [CentralCache] (spans cut into blocks of a size class), [ThreadCache] (the
      blocks a thread keeps), each with a [Spec] file; its unit test: [UnitTest].
    - [src/kv_RDB.c]: [Crc] (checksum), [RdbConfig] (kvs.conf), [Rdb] (snapshots); [RdbSave]
      and [RdbLoad] prove what is written and read, [Durable] what is on disk between a save
      and the next start.  The thread of [check_auto_save]:
      [AutoSave], a step relation in which requests of the server run between the thread's
      own steps; [AutoSaveSpec].
    - [src/kvstore.c]: [Protocol] (the binary protocol and the commands); [ProtocolSpec]; [DbSpec],
      the abstract database of three maps, a sorted set and the last save, which the commands
      work on.  [main]
      is in [Server].
    - [src/ntyco.c]: [Ntyco] (the loop of a connection), [NtycoSpec]; [Server] (the listening
      coroutine and the readers it creates, resumed in any order), [ServerSpec].
    - [src/reactor.c]: [Reactor] (the table of connections, the callbacks, the event loop,
      over the events epoll reports); [ReactorSpec].
    - [src/proactor.c]: [Proactor] (the completion loop with its shared buffers, over what the
      kernel carries out in a round); [ProactorSpec].
    - [src/testcase.c], the load test: [TestClient] (a thread as a tree of what it does with
      its connection); [TestClientSpec].

    [World] puts the engines, the configuration and the file system into one state, on which
    the snapshots and the protocol run; [Engine] is the interface ([KvEngine], [KvEngineLaws])
    through which they set and get: the operations implement a finite map.  The array, hash
    and red-black tree files provide the instances.  A client of the server is the other side
    of the interface [Peer] of [TestClientSpec].

    ** How C is modelled

    An operation is a function in the state monad [M S]: it gets the component's state and
    the outcomes of the coming calls of [malloc] (an empty list: they all succeed), and
    returns a result with the new state, or a fault: reading through NULL or freed memory,
    reading a cell never written, an index or buffer out of bounds, a lock taken twice or
    released unlocked, a division by zero.  Integers are Z and wrapped where the code's width
    shows; doubles are the Standard Library's IEEE [spec_float]; strings are lists of bytes
    without NUL.  [printf] and other messages are left out, and so are the arguments that are
    NULL only when a caller of the server cannot pass NULL.  The C library is a model
    ([CNum], [Stdio]) or a parameter (the address [malloc] or [mmap] picks, [localtime], the
    values of [rand], the bytes of [recv], the clock).  [Safety] has triples for what must
    hold whatever [malloc] returns.

    Operations that hold their lock from start to end are atomic; where the code interleaves
    (the coroutines, the automatic save, the events of epoll and io_uring), the order is an
    explicit list of steps and the theorems hold for every order.

    Loops that are not structural take fuel: a node more than the heap has, a byte more than
    the buffer or the file has, a block more than the memory has words.  The functional
    theorems state results, so the fuel is enough wherever they apply; [reader_fuel_enough]
    and [rbtree_search_logarithmic] bound it.

    ** The theorems

    - the server: the coroutines serve any number of clients, with the commands of all engines
      mixed, as one database ([ntyco_refines_server]), as long as every new coroutine runs
      before the next [accept] and no [recv] returns bytes of two requests
      ([late_coroutine_loses_connection], [pipelined_request_lost] say what happens otherwise);
      what a client saved with [SAVE], checksums and backups being off and no automatic save
      running, is served after a crash, but of the tree one pair ([saved_data_survives_crash];
      for the save at the end of [main] [restart_serves_snapshot]); the event loops of
      [reactor.c] and [proactor.c] refine the same kind of abstract server for requests that
      arrive whole, one at a time in [proactor.c], and that fit their buffers with their answers
      ([reactor_refines_server], [proactor_refines_server], [proactor_batch_loses_request]). All
      of them serve the commands that [command_ok] admits, and the calls of [malloc] succeed;
    - engines: each refines a finite map ([array_op_refines_map], [hash_refines_map],
      [rbtree_refines_map]), insertion and deletion keep the red-black invariants and the
      order (deletion also returns exactly the node to the pool), search takes at most two
      steps per bit of the size; the skip list refines a sorted set
      ([zadd_refines_sorted_set], [zrange_selects_range], [zrem_removes_in_key_order]);
    - pools: the pool never hands out overlapping chunks, the bitmap pool hands out the first
      free chunk; the page cache never hands out overlapping spans, the central cache cuts a
      span into blocks side by side, the size classes fit, a block that a thread gives back
      is the next it gets, giving back loses no block between the thread and the central list
      ([deallocate_keeps_blocks]), and a new span is handed out block by block, but then again
      from its second block ([thread_gets_span_then_repeats]);
    - saving and loading a snapshot gives the engines back, except what saving leaves out of
      the tree; the configuration survives writing and reading;
    - protocol: answers fit, headers round-trip, every command that [command_ok] admits is
      answered as the database answers it and leaves the other engines alone ([tcp_command_refines_db]; for one engine
      [tcp_request_refines_map]), a whole connection refines the database however the pieces of
      its requests are cut, if none holds bytes of two ([session_refines_db]), the receive
      buffer never fills;
    - automatic save, without checksums: whatever requests other than SAVE run between its
      steps, the array part of a snapshot is the array at one moment
      ([autosave_array_is_atomic]), a round takes a bounded number of steps, and the saver alone
      always gets through the rest of it and releases the array
      ([autosave_round_is_bounded]), when the tree and the hash table are well formed;
      without requests it is [kvs_rdb_save];
    - the load test passes exactly when its script is answered as expected and a millisecond passes
      ([load_test_follows_script]), and blocks on this server ([load_test_blocks]); the timing
      test of the pool stays within the pool only for as many rounds as it has chunks
      ([rounds_within_pool], [main_frees_unset_pointers]), and the unit test of the C++ pool
      passes when the system has memory ([basic_allocation_passes]);
    - behaviours to know: the theorems of kind error state where the code faults, deadlocks,
      loses data or refuses valid input.  They are the findings of the manifest.

    ** Not modelled

    Socket calls and printing; the coroutine library (a submodule without sources) and the
    other libraries, which are parameters; code that is commented out or behind [#if 0];
    the timing loop [src/testmem.c], the client examples in other languages, and what CMake
    generated under [src/mempool/build]. *)

From Stdlib Require Export Strings.Byte ZArith Lia.
From stdpp Require Export base tactics option list list_numbers gmap strings numbers.

Declare Scope kvs_scope.
Delimit Scope kvs_scope with kvs.

(** ** Bytes and machine integers *)

Abbreviation byte := Corelib.Init.Byte.byte.

#[export] Instance byte_eq_dec : EqDecision byte := Byte.byte_eq_dec.

#[export] Instance byte_inhabited : Inhabited byte := populate x00.

(** The value of an [unsigned char]. *)
Definition b2z (b : byte) : Z := Z.of_N (Byte.to_N b).

(** Conversion of an integer to [unsigned char]: reduction modulo 256. *)
Definition z2b (z : Z) : byte :=
  match Byte.of_N (Z.to_N (z mod 256)) with
  | Some b => b
  | None => x00
  end.

(** The value of a (signed, as on x86-64) [char]. *)
Definition schar (b : byte) : Z :=
  if (b2z b <? 128)%Z then b2z b else (b2z b - 256)%Z.

(** Reduction of an integer to an unsigned type of [w] bits. *)
Definition wrap (w z : Z) : Z := (z mod 2 ^ w)%Z.

Lemma b2z_range b : (0 <= b2z b < 256)%Z.
Proof.
  unfold b2z. pose proof (Byte.to_N_bounded b) as H. lia.
Qed.

Lemma z2b_b2z b : z2b (b2z b) = b.
Proof.
  unfold z2b. pose proof (b2z_range b) as H.
  rewrite Z.mod_small by lia. unfold b2z. rewrite N2Z.id, Byte.of_to_N. reflexivity.
Qed.

Lemma b2z_z2b z : b2z (z2b z) = (z mod 256)%Z.
Proof.
  unfold z2b. pose proof (Z.mod_pos_bound z 256 ltac:(lia)) as H.
  destruct (Byte.of_N (Z.to_N (z mod 256))) as [b|] eqn:E.
  - apply Byte.to_of_N in E. unfold b2z. rewrite E, Z2N.id; lia.
  - apply Byte.of_N_None_iff in E. lia.
Qed.

Lemma b2z_inj b1 b2 : b2z b1 = b2z b2 -> b1 = b2.
Proof. intros H. rewrite <- (z2b_b2z b1), <- (z2b_b2z b2), H. reflexivity. Qed.

#[export] Program Instance byte_countable : Countable byte :=
  inj_countable Byte.to_N Byte.of_N _.
Next Obligation. intros b. apply Byte.of_to_N. Qed.

(** [n] bytes of [z], least significant first (the layout of an x86-64 integer). *)
Fixpoint le_bytes (n : nat) (z : Z) : list byte :=
  match n with
  | O => []
  | S n => z2b z :: le_bytes n (z / 256)
  end.

Fixpoint le_val (bs : list byte) : Z :=
  match bs with
  | [] => 0
  | b :: bs => b2z b + 256 * le_val bs
  end%Z.

(** Network byte order. *)
Definition be_bytes (n : nat) (z : Z) : list byte := reverse (le_bytes n z).
Definition be_val (bs : list byte) : Z := le_val (reverse bs).

Lemma length_le_bytes n z : length (le_bytes n z) = n.
Proof. revert z. induction n as [|n IH]; intros z; cbn; [done|]. by rewrite IH. Qed.

Lemma length_be_bytes n z : length (be_bytes n z) = n.
Proof. unfold be_bytes. by rewrite length_reverse, length_le_bytes. Qed.

Lemma le_val_le_bytes n z :
  le_val (le_bytes n z) = (z mod 2 ^ (8 * Z.of_nat n))%Z.
Proof.
  revert z. induction n as [|n IH]; intros z.
  - cbn. by rewrite Z.mod_1_r.
  - cbn [le_bytes le_val]. rewrite IH, b2z_z2b.
    replace (8 * Z.of_nat (S n))%Z with (8 + 8 * Z.of_nat n)%Z by lia.
    rewrite Z.pow_add_r by lia. change (2 ^ 8)%Z with 256%Z.
    rewrite Z.rem_mul_r by lia. lia.
Qed.

Lemma le_val_le_bytes_small n z :
  (0 <= z < 2 ^ (8 * Z.of_nat n))%Z -> le_val (le_bytes n z) = z.
Proof. intros H. rewrite le_val_le_bytes. by apply Z.mod_small. Qed.

Lemma be_val_be_bytes n z :
  be_val (be_bytes n z) = (z mod 2 ^ (8 * Z.of_nat n))%Z.
Proof. unfold be_val, be_bytes. rewrite reverse_involutive. apply le_val_le_bytes. Qed.

Lemma le_val_range bs : (0 <= le_val bs < 2 ^ (8 * Z.of_nat (length bs)))%Z.
Proof.
  induction bs as [|b bs IH]; [cbn; lia|].
  cbn [le_val length]. pose proof (b2z_range b) as Hb.
  replace (8 * Z.of_nat (S (length bs)))%Z with (8 + 8 * Z.of_nat (length bs))%Z by lia.
  rewrite Z.pow_add_r by lia. change (2 ^ 8)%Z with 256%Z. lia.
Qed.

Lemma le_val_app a b : le_val (a ++ b) = (le_val a + 2 ^ (8 * Z.of_nat (length a)) * le_val b)%Z.
Proof.
  induction a as [|x a IH]; cbn [app le_val length]; [rewrite Z.mul_1_l; lia|].
  rewrite IH. replace (8 * Z.of_nat (S (length a)))%Z with (8 + 8 * Z.of_nat (length a))%Z by lia.
  rewrite Z.pow_add_r by lia. change (2 ^ 8)%Z with 256%Z. lia.
Qed.

Lemma be_val_range bs : (0 <= be_val bs < 2 ^ (8 * Z.of_nat (length bs)))%Z.
Proof. unfold be_val. rewrite <- (length_reverse bs). apply le_val_range. Qed.

(** ** C strings

    A [char *] that points at a NUL-terminated string is the list of the bytes
    before the NUL.  A buffer is a list of bytes that may hold NULs. *)

Abbreviation cstr := (list byte).

(** A literal of the source. *)
Definition bs (s : string) : cstr := String.list_byte_of_string s.

(** No embedded NUL: every C string has this shape. *)
Definition cstr_ok (s : cstr) : Prop := x00 ∉ s.

#[export] Instance cstr_ok_dec s : Decision (cstr_ok s).
Proof. unfold cstr_ok. apply _. Defined.

(** [strlen] and the bytes before the first NUL of a buffer. *)
Fixpoint cut_nul (l : list byte) : cstr :=
  match l with
  | [] => []
  | b :: l => if decide (b = x00) then [] else b :: cut_nul l
  end.

Definition strlen (s : cstr) : Z := Z.of_nat (length s).

(** [strcmp]: bytes compare as [unsigned char] and a proper prefix is smaller;
    the C standard fixes the sign of the result only, so the model returns it. *)
Fixpoint strcmp (s t : cstr) : Z :=
  match s, t with
  | [], [] => 0
  | [], _ :: _ => -1
  | _ :: _, [] => 1
  | c :: s, d :: t =>
      if decide (c = d) then strcmp s t else Z.sgn (b2z c - b2z d)
  end%Z.

(** [strchr]: the offset of the first occurrence of [c]. *)
Fixpoint strchr (s : cstr) (c : byte) : option nat :=
  match s with
  | [] => None
  | b :: s => if decide (b = c) then Some 0 else S <$> strchr s c
  end.

Lemma cut_nul_ok l : cstr_ok (cut_nul l).
Proof.
  unfold cstr_ok. induction l as [|b l IH]; cbn; [set_solver|].
  case_decide; set_solver.
Qed.

Lemma cut_nul_id s : cstr_ok s -> cut_nul s = s.
Proof.
  unfold cstr_ok. induction s as [|b s IH]; cbn; intros H; [done|].
  case_decide; [set_solver|]. rewrite IH; set_solver.
Qed.

Lemma cut_nul_app_nul s l : cstr_ok s -> cut_nul (s ++ x00 :: l) = s.
Proof.
  unfold cstr_ok. induction s as [|b s IH]; cbn; intros H.
  - by rewrite decide_True by done.
  - case_decide; [set_solver|]. rewrite IH; set_solver.
Qed.

Lemma strcmp_refl s : strcmp s s = 0%Z.
Proof. induction s as [|b s IH]; cbn; [done|]. by rewrite decide_True. Qed.

Lemma strcmp_antisym s t : strcmp t s = (- strcmp s t)%Z.
Proof.
  revert t. induction s as [|b s IH]; intros [|c t]; cbn; try done.
  destruct (decide (b = c)) as [->|Hne].
  - rewrite decide_True by done. apply IH.
  - rewrite decide_False by congruence. rewrite <- Z.sgn_opp. f_equal. lia.
Qed.

Lemma strcmp_eq s t : strcmp s t = 0%Z <-> s = t.
Proof.
  split; [|intros ->; apply strcmp_refl].
  revert t. induction s as [|b s IH]; intros [|c t]; cbn; try done.
  destruct (decide (b = c)) as [->|Hne].
  - intros H. f_equal. by apply IH.
  - intros H. destruct Hne. apply b2z_inj. lia.
Qed.

Lemma strcmp_trans s t u :
  (strcmp s t < 0)%Z -> (strcmp t u < 0)%Z -> (strcmp s u < 0)%Z.
Proof.
  revert t u. induction s as [|b s IH]; intros [|c t] [|d u]; cbn; try lia.
  repeat case_decide; subst; try done; eauto; lia.
Qed.

Lemma strcmp_neq s t : strcmp s t <> 0%Z <-> s <> t.
Proof. by rewrite strcmp_eq. Qed.

(** The order the sorted structures use. *)
Definition cstr_lt (s t : cstr) : Prop := (strcmp s t < 0)%Z.

#[export] Instance cstr_lt_dec s t : Decision (cstr_lt s t).
Proof. unfold cstr_lt. apply _. Defined.

#[export] Instance cstr_lt_strict : StrictOrder cstr_lt.
Proof.
  split.
  - intros s H. unfold cstr_lt in H. rewrite strcmp_refl in H. lia.
  - intros s t u. apply strcmp_trans.
Qed.

Lemma strcmp_pos s t : (0 < strcmp s t)%Z <-> cstr_lt t s.
Proof. unfold cstr_lt. rewrite (strcmp_antisym t s). lia. Qed.

(** ** Outcomes and the state monad

    A C function runs on a state [S] and on the outcomes of the allocations to
    come.  It returns a value and the new state, or it runs into undefined
    behaviour (or a deadlock), which the model reports as a [Fault]; a loop
    that is given too little fuel gives [OutOfFuel]. *)

Inductive fault :=
  | NullDeref          (** a NULL pointer is dereferenced *)
  | BadPointer         (** a pointer to freed or foreign memory is used *)
  | Indeterminate      (** memory that was never written is read *)
  | OutOfBounds        (** an array index outside the array *)
  | BufferOverflow     (** a write past the end of a fixed buffer *)
  | Deadlock           (** a thread locks a mutex it holds *)
  | BadUnlock          (** a mutex that is not held is unlocked *)
  | DivByZero.         (** an integer division by zero *)

Inductive outcome (A : Type) :=
  | Ret (a : A)
  | Fault (f : fault)
  | OutOfFuel.
Arguments Ret {A} _.
Arguments Fault {A} _.
Arguments OutOfFuel {A}.

(** The outcomes of the allocations to come; after the listed ones, every
    allocation succeeds. *)
Abbreviation alloc := (list bool).

Definition M (S A : Type) : Type := S * alloc -> outcome (A * (S * alloc)).

#[export] Instance M_ret S : MRet (M S) := fun A a s => Ret (a, s).
#[export] Instance M_bind S : MBind (M S) := fun A B f m s =>
  match m s with
  | Ret (a, s') => f a s'
  | Fault x => Fault x
  | OutOfFuel => OutOfFuel
  end.

Definition get {S} : M S S := fun s => Ret (s.1, s).
Definition put {S} (x : S) : M S unit := fun s => Ret (tt, (x, s.2)).
Definition modify {S} (f : S -> S) : M S unit := fun s => Ret (tt, (f s.1, s.2)).
Definition raise {S A} (f : fault) : M S A := fun _ => Fault f.
Definition out_of_fuel {S A} : M S A := fun _ => OutOfFuel.

(** Whether the next call of the allocator returns memory. *)
Definition malloc_ok {S} : M S bool := fun s =>
  match s.2 with
  | [] => Ret (true, s)
  | b :: al => Ret (b, (s.1, al))
  end.

Definition alloc_next (al : alloc) : bool := match al with [] => true | b :: _ => b end.
Definition alloc_rest (al : alloc) : alloc := tail al.

(** Runs an operation of a part of the state. *)
Definition zoom {W S A} (gt : W -> S) (st : S -> W -> W) (m : M S A) : M W A :=
  fun w =>
    match m (gt w.1, w.2) with
    | Ret (a, (s, al)) => Ret (a, (st s w.1, al))
    | Fault x => Fault x
    | OutOfFuel => OutOfFuel
    end.

(** Total correctness: [m] returns, and what it returns satisfies [Q]. *)
Definition wp {S A} (m : M S A) (Q : A -> S * alloc -> Prop) (s : S * alloc) : Prop :=
  match m s with
  | Ret (a, s') => Q a s'
  | _ => False
  end.

Section monad.
  Context {S : Type}.

Lemma bind_ret {A B} (m : M S A) (k : A -> M S B) s a s' :
    m s = Ret (a, s') -> (m ≫= k) s = k a s'.
  Proof. intros H. unfold mbind, M_bind. by rewrite H. Qed.

Lemma run_get s : get s = Ret (s.1, s : S * alloc).
  Proof. done. Qed.

Lemma run_modify f s : modify f s = Ret (tt, (f s.1 : S, s.2)).
  Proof. done. Qed.

Lemma run_put x s : put x s = Ret (tt, (x : S, s.2)).
  Proof. done. Qed.

Lemma run_mret {A} (a : A) s : (mret a : M S A) s = Ret (a, s).
  Proof. done. Qed.

Lemma run_raise {A} f s : (raise f : M S A) s = Fault f.
  Proof. done. Qed.

Lemma bind_get {B} (k : S -> M S B) s : (get ≫= k) s = k s.1 s.
  Proof. done. Qed.

Lemma bind_put {B} (k : unit -> M S B) x s : (put x ≫= k) s = k tt (x, s.2).
  Proof. done. Qed.

Lemma bind_modify {B} (k : unit -> M S B) f s : (modify f ≫= k) s = k tt (f s.1, s.2).
  Proof. done. Qed.

Lemma bind_mret {A B} (k : A -> M S B) a s : ((mret a : M S A) ≫= k) s = k a s.
  Proof. done. Qed.

Lemma bind_raise {A B} (k : A -> M S B) f s : (raise f ≫= k) s = Fault f.
  Proof. done. Qed.

Lemma bind_malloc_nil {B} (k : bool -> M S B) x :
    (malloc_ok ≫= k) (x, []) = k true (x, []).
  Proof. done. Qed.

Lemma bind_malloc_cons {B} (k : bool -> M S B) x b al :
    (malloc_ok ≫= k) (x, b :: al) = k b (x, al).
  Proof. done. Qed.

Lemma bind_malloc {B} (k : bool -> M S B) x al :
    (malloc_ok ≫= k) (x, al) = k (alloc_next al) (x, alloc_rest al).
  Proof. by destruct al. Qed.

Lemma bind_bind {A B C} (m : M S A) (k : A -> M S B) (k' : B -> M S C) s :
    ((m ≫= k) ≫= k') s = (m ≫= (fun a => k a ≫= k')) s.
  Proof. unfold mbind, M_bind. by destruct (m s) as [[a s']| |]. Qed.

Lemma bind_fault {A B} (m : M S A) (k : A -> M S B) s f :
    m s = Fault f -> (m ≫= k) s = Fault f.
  Proof. intros H. unfold mbind, M_bind. by rewrite H. Qed.

Lemma bind_ext {A B} (m : M S A) (k k' : A -> M S B) s :
    (forall a s', k a s' = k' a s') -> (m ≫= k) s = (m ≫= k') s.
Proof. intros H. unfold mbind, M_bind. destruct (m s) as [[a s']| |]; [apply H|done..]. Qed.

Lemma bind_eq {A B} (m m' : M S A) (k : A -> M S B) s :
    m s = m' s -> (m ≫= k) s = (m' ≫= k) s.
Proof. intros H. unfold mbind, M_bind. by rewrite H. Qed.

(** Inverting a run. *)
Lemma bind_inv {A B} (m : M S A) (k : A -> M S B) s b s' :
    (m ≫= k) s = Ret (b, s') -> exists a s1, m s = Ret (a, s1) /\ k a s1 = Ret (b, s').
  Proof. unfold mbind, M_bind. destruct (m s) as [[a s1]|f|]; [|done|done]. eauto. Qed.

Lemma mret_inv {A} (a b : A) (s s' : S * alloc) : (mret a : M S A) s = Ret (b, s') -> a = b /\ s = s'.
  Proof. intros H. injection H as <- <-. done. Qed.

Lemma wp_ret {A} (a : A) Q (s : S * alloc) : Q a s -> wp (mret a) Q s.
  Proof. done. Qed.

Lemma wp_bind {A B} (m : M S A) (k : A -> M S B) Q s :
    wp m (fun a s' => wp (k a) Q s') s -> wp (m ≫= k) Q s.
  Proof.
    unfold wp, mbind, M_bind. by destruct (m s) as [[a s']| |].
  Qed.

Lemma wp_mono {A} (m : M S A) (Q R : A -> S * alloc -> Prop) s :
    wp m Q s -> (forall a s', Q a s' -> R a s') -> wp m R s.
  Proof. unfold wp. destruct (m s) as [[a s']| |]; naive_solver. Qed.

Lemma wp_eq {A} (m : M S A) s a s' :
    m s = Ret (a, s') <-> wp m (fun b t => b = a /\ t = s') s.
  Proof. unfold wp. destruct (m s) as [[b t]| |]; naive_solver. Qed.

Lemma wp_inv {A} (m : M S A) Q s :
    wp m Q s -> exists a s', m s = Ret (a, s') /\ Q a s'.
  Proof. unfold wp. destruct (m s) as [[a s']| |]; naive_solver. Qed.
End monad.

Section zooms.
Context {Wd S A : Type} (gt : Wd -> S) (st : S -> Wd -> Wd).

(** Running a part. *)
Lemma zoom_run (m : M S A) w al a s al' :
  m (gt w, al) = Ret (a, (s, al')) -> zoom gt st m (w, al) = Ret (a, (st s w, al')).
Proof. intros H. unfold zoom. cbn. by rewrite H. Qed.

Lemma zoom_fault (m : M S A) w al f :
  m (gt w, al) = Fault f -> zoom gt st m (w, al) = Fault f.
Proof. intros H. unfold zoom. cbn. by rewrite H. Qed.
End zooms.

(** Symbolic execution: [mrun H] runs the next operation with the equation [H];
    [mcbn] runs the operations that only read or write the state. *)
Tactic Notation "mrun" uconstr(H) :=
  erewrite bind_ret; [|solve [eapply H; eauto]]; cbn beta iota.
Tactic Notation "mrun" uconstr(H) "by" tactic3(t) :=
  erewrite bind_ret; [|eapply H; t]; cbn beta iota.
Ltac mcbn :=
  repeat (first
    [ rewrite bind_get | rewrite bind_modify | rewrite bind_mret
    | rewrite bind_malloc_nil | rewrite bind_malloc_cons | rewrite bind_bind
    | rewrite bind_put | rewrite bind_raise
    | rewrite run_get | rewrite run_modify | rewrite run_put | rewrite run_mret
    | rewrite run_raise ];
    cbn beta iota delta [fst snd negb]).

(** A pointer to a string: NULL, a live string, or memory already freed. *)
Inductive cptr :=
  | Null
  | Str (s : cstr)
  | Freed.

#[export] Instance cptr_eq_dec : EqDecision cptr.
Proof. solve_decision. Defined.

(** Reading the string behind a pointer. *)
Definition deref {S} (p : cptr) : M S cstr :=
  match p with
  | Null => raise NullDeref
  | Str s => mret s
  | Freed => raise BadPointer
  end.

(** Handing a string back to the allocator: [free] of NULL does nothing. *)
Definition free_str {S} (p : cptr) : M S unit :=
  match p with
  | Freed => raise BadPointer
  | _ => mret tt
  end.

(** An array on the heap: a cell that was never written is [None]. *)
Inductive blk (A : Type) :=
  | BNull
  | BLive (cells : list (option A))
  | BFreed.
Arguments BNull {A}.
Arguments BLive {A} _.
Arguments BFreed {A}.

(** [b[i]], with [i] an index that may be negative or past the end. *)
Definition blk_read {S A} (b : blk A) (i : Z) : M S A :=
  match b with
  | BNull => raise NullDeref
  | BFreed => raise BadPointer
  | BLive c =>
      if (i <? 0)%Z then raise OutOfBounds else
      match c !! Z.to_nat i with
      | None => raise OutOfBounds
      | Some None => raise Indeterminate
      | Some (Some x) => mret x
      end
  end.

(** [b[i] = x]. *)
Definition blk_write {S A} (b : blk A) (i : Z) (x : A) : M S (blk A) :=
  match b with
  | BNull => raise NullDeref
  | BFreed => raise BadPointer
  | BLive c =>
      if (i <? 0)%Z then raise OutOfBounds else
      if (Z.of_nat (length c) <=? i)%Z then raise OutOfBounds
      else mret (BLive (<[Z.to_nat i := Some x]> c))
  end.

Lemma blk_read_app {S A} (pre : list (option A)) x post (s : S * alloc) :
  blk_read (BLive (pre ++ Some x :: post)) (Z.of_nat (length pre)) s = Ret (x, s).
Proof.
  unfold blk_read. destruct (Z.ltb_spec (Z.of_nat (length pre)) 0); [lia|].
  by rewrite Nat2Z.id, list_lookup_middle.
Qed.

Lemma blk_read_indet {S A} (pre : list (option A)) post (s : S * alloc) :
  blk_read (BLive (pre ++ None :: post)) (Z.of_nat (length pre)) s = Fault Indeterminate.
Proof.
  unfold blk_read. destruct (Z.ltb_spec (Z.of_nat (length pre)) 0); [lia|].
  by rewrite Nat2Z.id, list_lookup_middle.
Qed.

Lemma blk_write_app {S A} (pre : list (option A)) y x post (s : S * alloc) :
  blk_write (BLive (pre ++ y :: post)) (Z.of_nat (length pre)) x s
  = Ret (BLive (pre ++ Some x :: post), s).
Proof.
  unfold blk_write. destruct (Z.ltb_spec (Z.of_nat (length pre)) 0); [lia|].
  rewrite length_app. cbn [length]. rewrite Nat2Z.id.
  destruct (Z.leb_spec (Z.of_nat (length pre + Datatypes.S (length post)))
              (Z.of_nat (length pre))); [lia|].
  by rewrite insert_app_r_alt, Nat.sub_diag by lia.
Qed.

(** A mutex: [pthread_mutex_lock] on one the thread holds blocks forever. *)
Inductive mutex := Unlocked | Locked | Destroyed.

#[export] Instance mutex_eq_dec : EqDecision mutex.
Proof. solve_decision. Defined.

Definition mutex_lock {S} (m : mutex) : M S mutex :=
  match m with
  | Unlocked => mret Locked
  | Locked => raise Deadlock
  | Destroyed => raise BadPointer
  end.

Definition mutex_unlock {S} (m : mutex) : M S mutex :=
  match m with
  | Locked => mret Unlocked
  | Unlocked => raise BadUnlock
  | Destroyed => raise BadPointer
  end.
