(* ===== verification/Safety.v ===== *)
(** * Safety triples

    [safe bad P m Q]: from a state with [P], whatever the allocations do, the operation [m]
    returns a result and a state with [Q], or faults in a way that is not [bad]; it never
    runs out of fuel.  The rules follow the shape of the program. *)

From S2P Require Import Prelude.

Definition safe {S A} (bad : fault -> Prop) (P : S -> Prop) (m : M S A) (Q : A -> S -> Prop) : Prop :=
  forall s al, P s ->
    match m (s, al) with
    | Ret (x, (s', _)) => Q x s'
    | Fault f => ~ bad f
    | OutOfFuel => False
    end.

Section rules.
Context {S : Type} (bad : fault -> Prop).

Lemma safe_ret {A} (P : S -> Prop) (a : A) (Q : A -> S -> Prop) : (forall s, P s -> Q a s) -> safe bad P (mret a) Q.
Proof. intros H s al Hs. by apply H. Qed.

Lemma safe_bind {A B} P (m : M S A) R (k : A -> M S B) Q :
  safe bad P m R -> (forall a, safe bad (R a) (k a) Q) -> safe bad P (m ≫= k) Q.
Proof.
  intros Hm Hk s al Hs. specialize (Hm s al Hs). unfold mbind, M_bind.
  destruct (m (s, al)) as [[a [s' al']]|f|]; [by apply Hk|done|done].
Qed.

(** Reading the state names it for the rest. *)
Lemma safe_get {B} (P : S -> Prop) (k : S -> M S B) Q :
  (forall s, P s -> safe bad (fun s' => s' = s /\ P s') (k s) Q) -> safe bad P (get ≫= k) Q.
Proof. intros H s al Hs. rewrite bind_get. by apply (H s Hs). Qed.

Lemma safe_modify (P : S -> Prop) f (Q : unit -> S -> Prop) : (forall s, P s -> Q tt (f s)) -> safe bad P (modify f) Q.
Proof. intros H s al Hs. by apply H. Qed.

Lemma safe_raise {A} P f (Q : A -> S -> Prop) : ~ bad f -> safe bad P (raise f) Q.
Proof. by intros H s al _. Qed.

Lemma safe_malloc (P : S -> Prop) (Q : bool -> S -> Prop) : (forall b s, P s -> Q b s) -> safe bad P malloc_ok Q.
Proof. intros H s [|b al] Hs; by apply H. Qed.

Lemma safe_conseq {A} (P P' : S -> Prop) (m : M S A) (Q Q' : A -> S -> Prop) :
  safe bad P' m Q' -> (forall s, P s -> P' s) -> (forall a s, Q' a s -> Q a s) -> safe bad P m Q.
Proof.
  intros Hm HP HQ s al Hs. specialize (Hm s al (HP s Hs)).
  destruct (m (s, al)) as [[a [s' al']]|f|]; [by apply HQ|done|done].
Qed.

Lemma safe_pre {A} (P P' : S -> Prop) (m : M S A) Q : safe bad P' m Q -> (forall s, P s -> P' s) -> safe bad P m Q.
Proof. intros Hm HP. by eapply safe_conseq. Qed.

(** A step that keeps an assertion, and the rest. *)
Lemma safe_step {A B} P (m : M S A) (k : A -> M S B) Q :
  safe bad P m (fun _ => P) -> (forall a, safe bad P (k a) Q) -> safe bad P (m ≫= k) Q.
Proof. intros Hm Hk. by eapply safe_bind. Qed.

(** An operation that does not touch the state. *)
Definition pure_op {A} (m : M S A) (R : A -> Prop) : Prop :=
  forall s al, match m (s, al) with Ret (x, (s', _)) => s' = s /\ R x | Fault f => ~ bad f | OutOfFuel => False end.

Lemma safe_pure {A} P (m : M S A) R (Q : A -> S -> Prop) :
  pure_op m R -> (forall a s, P s -> R a -> Q a s) -> safe bad P m Q.
Proof.
  intros Hm HQ s al Hs. specialize (Hm s al). destruct (m (s, al)) as [[a [s' al']]|f|]; [|done|done].
  destruct Hm as [-> Hr]. by apply HQ.
Qed.

Lemma pure_deref p : ~ bad NullDeref -> ~ bad BadPointer -> pure_op (deref p) (fun _ => True).
Proof. intros H1 H2 s al. by destruct p. Qed.

Lemma pure_free_str p : ~ bad BadPointer -> pure_op (free_str p) (fun _ => True).
Proof. intros H s al. by destruct p. Qed.

(** Reading and writing a cell of a block. *)
Lemma pure_blk_read {X} (b : blk X) i :
  ~ bad NullDeref -> ~ bad BadPointer -> ~ bad Indeterminate ->
  (forall c, b = BLive c -> (0 <= i < Z.of_nat (length c))%Z) -> pure_op (blk_read b i) (fun _ => True).
Proof.
  intros H1 H2 H3 Hi s al. destruct b as [|c|]; [done| |done]. specialize (Hi c eq_refl). unfold blk_read.
  destruct (Z.ltb_spec i 0); [lia|]. destruct (lookup_lt_is_Some_2 c (Z.to_nat i) ltac:(lia)) as [[x|] ->]; done.
Qed.

Lemma pure_blk_write {X} (b : blk X) i x :
  ~ bad NullDeref -> ~ bad BadPointer ->
  (forall c, b = BLive c -> (0 <= i < Z.of_nat (length c))%Z) ->
  pure_op (blk_write b i x)
    (fun b' => exists c, b = BLive c /\ b' = BLive (<[Z.to_nat i := Some x]> c)).
Proof.
  intros H1 H2 Hi s al. destruct b as [|c|]; [done| |done]. specialize (Hi c eq_refl). unfold blk_write.
  destruct (Z.ltb_spec i 0); [lia|]. destruct (Z.leb_spec (Z.of_nat (length c)) i); [lia|]. cbn. eauto.
Qed.
End rules.
