(* ===== verification/Engine.v ===== *)
(** * The interface of the key/value engines

    The protocol layer and the persistence layer call the array, the red-black
    tree and the hash table in the same way.  [KvEngine] is the part of an engine
    they use and [KvEngineLaws] is its contract: the engine implements a finite
    map from keys to values. *)

From S2P Require Import Prelude.

Class KvEngine (E : Type) := {
  (** the operations *)
  eng_set : option cstr -> option cstr -> M E Z;
  eng_get : option cstr -> M E cptr;
  (** [eng_rep e m]: the engine state [e] is well formed and holds the map [m] *)
  eng_rep : E -> gmap cstr cstr -> Prop;
  (** the keys the engine can take *)
  eng_key : cstr -> Prop;
  (** the engine has room for one more key *)
  eng_room : gmap cstr cstr -> Prop;
  (** what [eng_set] returns for a key that is present *)
  eng_dup : Z
}.

Class KvEngineLaws (E : Type) `{KvEngine E} := {
  eng_get_spec e m k al :
    eng_rep e m -> eng_key k ->
    eng_get (Some k) (e, al) = Ret (from_option Str Null (m !! k), (e, al));
  eng_set_new e m k v :
    eng_rep e m -> eng_key k -> eng_room m -> m !! k = None ->
    exists e', eng_set (Some k) (Some v) (e, []) = Ret (0%Z, (e', [])) /\
      eng_rep e' (<[k := v]> m);
  eng_set_old e m k v w :
    eng_rep e m -> eng_key k -> eng_room m -> m !! k = Some w ->
    exists e', eng_set (Some k) (Some v) (e, []) = Ret (eng_dup, (e', [])) /\
      eng_rep e' m
}.

(** Both cases of [eng_set] as one: the first value of a key stays. *)
Lemma eng_set_spec `{KvEngineLaws E} e m k v :
  eng_rep e m -> eng_key k -> eng_room m ->
  exists e',
    eng_set (Some k) (Some v) (e, [])
    = Ret ((if decide (is_Some (m !! k)) then eng_dup else 0)%Z, (e', [])) /\
    eng_rep e' (m ∪ {[k := v]}).
Proof.
  intros Hr Hk Hm. destruct (m !! k) as [w|] eqn:E0.
  - destruct (eng_set_old e m k v w Hr Hk Hm E0) as (e' & -> & Hr').
    exists e'. rewrite decide_True by eauto. split; [done|].
    replace (m ∪ {[k := v]}) with m; [done|].
    apply map_eq. intros j. rewrite lookup_union.
    destruct (decide (j = k)) as [->|Hj].
    + rewrite lookup_singleton_eq, E0. done.
    + rewrite lookup_singleton_ne by done. by destruct (m !! j).
  - destruct (eng_set_new e m k v Hr Hk Hm E0) as (e' & -> & Hr').
    exists e'. rewrite decide_False by (intros [? [=]]). split; [done|].
    rewrite insert_union_singleton_l in Hr'.
    by rewrite map_union_comm in Hr' by (by apply map_disjoint_singleton_l).
Qed.
