(* ===== verification/KvsArray.v ===== *)
(** * The array engine ([src/kvs_array.c])

    The table is a block of [KVS_ARRAY_SIZE] items that [kvs_malloc] returns
    without initialising it; [total] items of it are in use, and a deleted item
    that is not the last stays as a hole (a NULL key).  Every operation takes the
    instance's mutex.  [rep a l] says that the instance [a] holds the items [l],
    where [None] is a hole. *)

From S2P Require Import Prelude Engine.

Module Array.

Definition KVS_ARRAY_SIZE : Z := 1024.

Record kvs_array_item_t := mk_item { key : cptr; value : cptr }.

Record kvs_array_t := mk_array {
  table : blk kvs_array_item_t;
  idx : Z;
  total : Z;
  array_mutex : mutex
}.

Abbreviation ar A := (M kvs_array_t A).

Definition set_table (t : blk kvs_array_item_t) (a : kvs_array_t) :=
  mk_array t (idx a) (total a) (array_mutex a).
Definition set_total (n : Z) (a : kvs_array_t) :=
  mk_array (table a) (idx a) n (array_mutex a).
Definition set_mutex (m : mutex) (a : kvs_array_t) :=
  mk_array (table a) (idx a) (total a) m.

(** The zero-initialised global. *)
Definition global_array0 : kvs_array_t := mk_array BNull 0 0 Unlocked.

Definition pthread_mutex_lock : ar unit :=
  a ← get; m ← mutex_lock (array_mutex a); modify (set_mutex m).
Definition pthread_mutex_unlock : ar unit :=
  a ← get; m ← mutex_unlock (array_mutex a); modify (set_mutex m).

(** [inst->table[i]]. *)
Definition get_item (i : nat) : ar kvs_array_item_t :=
  a ← get; blk_read (table a) (Z.of_nat i).
Definition set_item (i : nat) (it : kvs_array_item_t) : ar unit :=
  a ← get; t ← blk_write (table a) (Z.of_nat i) it; modify (set_table t).
Definition incr_total : ar unit := modify (fun a => set_total (total a + 1) a).

(** [fresh] is the content of the block the allocator returns. *)
Definition kvs_array_create (fresh : list (option kvs_array_item_t)) : ar Z :=
  a ← get;
  match table a with
  | BNull =>
      ok ← malloc_ok;
      if negb ok then mret (-1)%Z else
      modify (set_table (BLive fresh)) ;;
      modify (set_total 0) ;;
      modify (set_mutex Unlocked) ;;
      mret 0%Z
  | _ => mret (-1)%Z
  end.

Definition kvs_array_destory : ar unit :=
  a ← get;
  match table a with
  | BNull => mret tt
  | BLive _ => modify (set_table BFreed)
  | BFreed => raise BadPointer
  end ;;
  modify (set_mutex Destroyed).

(** The search loop of set, get, mod and exist: it skips items without a key. *)
Fixpoint find_key (key0 : cstr) (i n : nat) : ar (option nat) :=
  match n with
  | O => mret None
  | S n =>
      it ← get_item i;
      match key it with
      | Null => find_key key0 (S i) n
      | p =>
          k ← deref p;
          if (strcmp k key0 =? 0)%Z then mret (Some i) else find_key key0 (S i) n
      end
  end.

(** The loop of set that looks for an item without a key. *)
Fixpoint find_hole (i n : nat) : ar (option nat) :=
  match n with
  | O => mret None
  | S n =>
      it ← get_item i;
      if decide (key it = Null) then mret (Some i) else find_hole (S i) n
  end.

Definition kvs_array_set (key0 value0 : option cstr) : ar Z :=
  pthread_mutex_lock ;;
  match key0, value0 with
  | Some key0, Some value0 =>
      a ← get;
      if (total a =? KVS_ARRAY_SIZE)%Z then pthread_mutex_unlock ;; mret (-1)%Z else
      r ← find_key key0 0 (Z.to_nat (total a));
      match r with
      | Some _ => pthread_mutex_unlock ;; mret 1%Z
      | None =>
          ok ← malloc_ok;
          if negb ok then pthread_mutex_unlock ;; mret (-2)%Z else
          ok ← malloc_ok;
          if negb ok then pthread_mutex_unlock ;; mret (-2)%Z else
          h ← find_hole 0 (Z.to_nat (total a));
          match h with
          | Some i =>
              set_item i (mk_item (Str key0) (Str value0)) ;;
              incr_total ;;
              pthread_mutex_unlock ;; mret 0%Z
          | None =>
              (if (total a <? KVS_ARRAY_SIZE)%Z then
                 set_item (Z.to_nat (total a)) (mk_item (Str key0) (Str value0)) ;;
                 incr_total
               else mret tt) ;;
              pthread_mutex_unlock ;; mret 0%Z
          end
      end
  | _, _ => pthread_mutex_unlock ;; mret (-1)%Z
  end.

(** A NULL key returns with the mutex held. *)
Definition kvs_array_get (key0 : option cstr) : ar cptr :=
  pthread_mutex_lock ;;
  match key0 with
  | None => mret Null
  | Some key0 =>
      a ← get;
      r ← find_key key0 0 (Z.to_nat (total a));
      match r with
      | Some i => pthread_mutex_unlock ;; it ← get_item i; mret (value it)
      | None => pthread_mutex_unlock ;; mret Null
      end
  end.

(** The loop of del, which compares every key without a NULL test. *)
Fixpoint find_key_del (key0 : cstr) (i n : nat) : ar (option nat) :=
  match n with
  | O => mret None
  | S n =>
      it ← get_item i;
      k ← deref (key it);
      if (strcmp k key0 =? 0)%Z then mret (Some i) else find_key_del key0 (S i) n
  end.

Definition kvs_array_del (key0 : option cstr) : ar Z :=
  pthread_mutex_lock ;;
  match key0 with
  | None => mret (-1)%Z
  | Some key0 =>
      a ← get;
      r ← find_key_del key0 0 (Z.to_nat (total a));
      match r with
      | Some i =>
          it ← get_item i;
          free_str (key it) ;;
          set_item i (mk_item Null (value it)) ;;
          free_str (value it) ;;
          set_item i (mk_item Null Null) ;;
          (if (total a - 1 =? Z.of_nat i)%Z then modify (set_total (total a - 1))
           else mret tt) ;;
          pthread_mutex_unlock ;; mret 0%Z
      | None => pthread_mutex_unlock ;; mret (total a)
      end
  end.

Definition kvs_array_mod (key0 value0 : option cstr) : ar Z :=
  pthread_mutex_lock ;;
  match key0, value0 with
  | Some key0, Some value0 =>
      a ← get;
      if (total a =? 0)%Z then pthread_mutex_unlock ;; mret KVS_ARRAY_SIZE else
      r ← find_key key0 0 (Z.to_nat (total a));
      match r with
      | Some i =>
          it ← get_item i;
          free_str (value it) ;;
          set_item i (mk_item (key it) Freed) ;;
          ok ← malloc_ok;
          if negb ok then pthread_mutex_unlock ;; mret (-2)%Z else
          set_item i (mk_item (key it) (Str value0)) ;;
          pthread_mutex_unlock ;; mret 0%Z
      | None => pthread_mutex_unlock ;; mret (total a)
      end
  | _, _ => mret (-1)%Z
  end.

Definition kvs_array_exist (key0 : option cstr) : ar Z :=
  pthread_mutex_lock ;;
  match key0 with
  | None => pthread_mutex_unlock ;; mret (-1)%Z
  | Some key0 =>
      a ← get;
      r ← find_key key0 0 (Z.to_nat (total a));
      match r with
      | Some _ => pthread_mutex_unlock ;; mret 0%Z
      | None => pthread_mutex_unlock ;; mret 1%Z
      end
  end.

(** ** Representation *)

Definition item_of (o : option (cstr * cstr)) : kvs_array_item_t :=
  match o with
  | Some (k, v) => mk_item (Str k) (Str v)
  | None => mk_item Null Null
  end.

Abbreviation items := (list (option (cstr * cstr))).

Definition cells (l : items) : list (option kvs_array_item_t) :=
  (fun o => Some (item_of o)) <$> l.

(** The key/value pairs in use, and the map they define. *)
Definition pairs (l : items) : list (cstr * cstr) := omap id l.
Definition view (l : items) : gmap cstr cstr := list_to_map (pairs l).

(** The instance whose items in use are [l] and whose unused cells are [junk]. *)
Definition instt (m : mutex) (i n : Z) (l : items)
    (junk : list (option kvs_array_item_t)) : kvs_array_t :=
  mk_array (BLive (cells l ++ junk)) i n m.
Definition instm (m : mutex) (i : Z) (l : items)
    (junk : list (option kvs_array_item_t)) : kvs_array_t :=
  instt m i (Z.of_nat (length l)) l junk.
Abbreviation inst := (instm Unlocked).

Lemma table_inst m i l junk : table (instm m i l junk) = BLive (cells l ++ junk).
Proof. done. Qed.

Lemma total_inst m i l junk : total (instm m i l junk) = Z.of_nat (length l).
Proof. done. Qed.

Definition rep (a : kvs_array_t) (l : items) : Prop :=
  exists i junk,
    a = inst i l junk /\
    (Z.of_nat (length l + length junk) = KVS_ARRAY_SIZE)%Z /\
    NoDup (pairs l).*1.

(** No holes: what the instance looks like as long as only the last item was
    ever deleted. *)
Definition dense (l : items) : Prop := None ∉ l.

(** The specification of the search loops. *)
Definition has_key (k : cstr) (o : option (cstr * cstr)) : Prop := fst <$> o = Some k.
#[export] Instance has_key_dec k o : Decision (has_key k o).
Proof. unfold has_key. apply _. Defined.

Definition index_of (k : cstr) (l : items) : option nat :=
  fst <$> list_find (has_key k) l.
Definition hole_of (l : items) : option nat := fst <$> list_find (eq None) l.

Lemma cells_app l1 l2 : cells (l1 ++ l2) = cells l1 ++ cells l2.
Proof. apply fmap_app. Qed.

Lemma cells_cons o l : cells (o :: l) = Some (item_of o) :: cells l.
Proof. done. Qed.

Lemma length_cells l : length (cells l) = length l.
Proof. apply length_fmap. Qed.

Lemma pairs_app l1 l2 : pairs (l1 ++ l2) = pairs l1 ++ pairs l2.
Proof. apply omap_app. Qed.

Lemma elem_of_pairs kv l : kv ∈ pairs l <-> Some kv ∈ l.
Proof.
  unfold pairs. rewrite list_elem_of_omap. split.
  - intros (o & Ho & E). cbn in E. by subst.
  - intros H. by exists (Some kv).
Qed.

Lemma view_lookup_Some l k v :
  NoDup (pairs l).*1 -> view l !! k = Some v <-> Some (k, v) ∈ l.
Proof. intros H. unfold view. by rewrite <- elem_of_list_to_map, elem_of_pairs. Qed.

Lemma view_lookup_None l k : view l !! k = None <-> k ∉ (pairs l).*1.
Proof. unfold view. by rewrite not_elem_of_list_to_map. Qed.

Lemma elem_of_keys k l : k ∈ (pairs l).*1 <-> exists v, Some (k, v) ∈ l.
Proof.
  rewrite list_elem_of_fmap. split.
  - intros ([k' v] & -> & H). exists v. by apply elem_of_pairs.
  - intros (v & H). exists (k, v). by rewrite elem_of_pairs.
Qed.

Lemma index_of_Some l k i :
  index_of k l = Some i -> exists v pre post,
    l = pre ++ Some (k, v) :: post /\ i = length pre /\ k ∉ (pairs pre).*1.
Proof.
  unfold index_of. intros H. apply fmap_Some in H as ((j & o) & H & ->).
  apply list_find_Some in H as (Hl & Hk & Hlt).
  unfold has_key in Hk. apply fmap_Some in Hk as ((k' & v) & -> & ->).
  exists v, (take j l), (drop (S j) l). cbn [fst] in *.
  split; [by rewrite take_drop_middle|].
  split; [rewrite length_take; apply lookup_lt_Some in Hl; lia|].
  rewrite elem_of_keys. intros (w & Hw).
  apply list_elem_of_lookup in Hw as (n & Hn).
  apply lookup_take_Some in Hn as [Hn Hj].
  by apply (Hlt n (Some (k', w))).
Qed.

Lemma index_of_None l k : index_of k l = None <-> view l !! k = None.
Proof.
  unfold index_of. rewrite fmap_None, list_find_None, view_lookup_None, elem_of_keys.
  rewrite list.Forall_forall. split.
  - intros H (v & Hv). by apply (H _ Hv).
  - intros H [[k' v]|] Hx Hk; unfold has_key in Hk; cbn in Hk; simplify_eq. eauto.
Qed.

Lemma index_of_view l k :
  NoDup (pairs l).*1 -> index_of k l = None \/ exists v pre post,
    l = pre ++ Some (k, v) :: post /\ index_of k l = Some (length pre) /\
    view l !! k = Some v /\ k ∉ (pairs pre).*1.
Proof.
  intros Hnd. destruct (index_of k l) as [i|] eqn:E; [right|by left].
  destruct (index_of_Some _ _ _ E) as (v & pre & post & -> & -> & Hk).
  exists v, pre, post. repeat split; [|done].
  apply view_lookup_Some; [done|set_solver].
Qed.

Lemma index_of_cons k o l :
  index_of k (o :: l) = if decide (has_key k o) then Some 0 else S <$> index_of k l.
Proof.
  unfold index_of. cbn. case_decide; [done|].
  by destruct (list_find (has_key k) l) as [[]|].
Qed.

Lemma hole_of_cons o l :
  hole_of (o :: l) = if decide (None = o) then Some 0 else S <$> hole_of l.
Proof.
  unfold hole_of. cbn. case_decide; [done|].
  by destruct (list_find (eq None) l) as [[]|].
Qed.

Lemma hole_of_None l : hole_of l = None <-> dense l.
Proof.
  unfold hole_of, dense. rewrite fmap_None, list_find_None, list.Forall_forall. naive_solver.
Qed.

Lemma hole_of_Some l i :
  hole_of l = Some i -> exists pre post,
    l = pre ++ None :: post /\ i = length pre /\ dense pre.
Proof.
  unfold hole_of. intros H. apply fmap_Some in H as ((j & o) & H & ->).
  apply list_find_Some in H as (Hl & <- & Hlt). cbn [fst].
  exists (take j l), (drop (S j) l).
  split; [by rewrite take_drop_middle|].
  split; [rewrite length_take; apply lookup_lt_Some in Hl; lia|].
  intros Hx. apply list_elem_of_lookup in Hx as (n & Hn).
  apply lookup_take_Some in Hn as [Hn Hj]. by apply (Hlt n None).
Qed.

(** ** The operations on a represented instance *)

Section operations.
  Context (i : Z) (junk : list (option kvs_array_item_t)) (al : alloc).

Lemma lock_inst l :
    pthread_mutex_lock (inst i l junk, al) = Ret (tt, (instm Locked i l junk, al)).
  Proof. done. Qed.

Lemma unlock_inst l :
    pthread_mutex_unlock (instm Locked i l junk, al) = Ret (tt, (inst i l junk, al)).
  Proof. done. Qed.

Lemma get_item_instt m n pre o post :
    get_item (length pre) (instt m i n (pre ++ o :: post) junk, al)
    = Ret (item_of o, (instt m i n (pre ++ o :: post) junk, al)).
  Proof.
    unfold get_item. mcbn. unfold instt at 1. cbn [table].
    rewrite cells_app, cells_cons, <- app_assoc, <- (length_cells pre). cbn [app].
    by rewrite blk_read_app.
  Qed.

Lemma get_item_inst m pre o post :
    get_item (length pre) (instm m i (pre ++ o :: post) junk, al)
    = Ret (item_of o, (instm m i (pre ++ o :: post) junk, al)).
  Proof. apply get_item_instt. Qed.

Lemma set_item_inst m pre o o' post :
    set_item (length pre) (item_of o') (instm m i (pre ++ o :: post) junk, al)
    = Ret (tt, (instm m i (pre ++ o' :: post) junk, al)).
  Proof.
    unfold set_item. mcbn. rewrite table_inst.
    rewrite cells_app, cells_cons, <- app_assoc, <- (length_cells pre). cbn [app].
    mrun blk_write_app. mcbn. unfold instm, instt, set_table. cbn.
    by rewrite cells_app, <- app_assoc, !length_app.
  Qed.

  (** The search over a prefix [post] of what the loop was asked to visit. *)
Lemma find_key_instt m n k pre post r :
    find_key k (length pre) (length post + r) (instt m i n (pre ++ post) junk, al)
    = match index_of k post with
      | Some j => Ret (Some (length pre + j)%nat, (instt m i n (pre ++ post) junk, al))
      | None => find_key k (length pre + length post) r (instt m i n (pre ++ post) junk, al)
      end.
  Proof.
    revert pre. induction post as [|o post IH]; intros pre.
    { cbn [length index_of]. by rewrite Nat.add_0_r. }
    cbn [find_key length Nat.add]. mrun get_item_instt.
    specialize (IH (pre ++ [o])). rewrite <- app_assoc, length_app, (Nat.add_comm (length pre)) in IH.
    cbn [app length Nat.add] in IH. rewrite index_of_cons.
    destruct o as [[k' v]|]; cbn [item_of key deref].
    - mcbn. destruct (Z.eqb_spec (strcmp k' k) 0) as [E|E]; rewrite strcmp_eq in E.
      + rewrite decide_True by (subst; done). cbn. by rewrite Nat.add_0_r.
      + rewrite decide_False by (unfold has_key; cbn; congruence).
        rewrite IH. destruct (index_of k post); cbn; by rewrite Nat.add_succ_r.
    - rewrite decide_False by done.
      rewrite IH. destruct (index_of k post); cbn; by rewrite Nat.add_succ_r.
  Qed.

Lemma find_hole_inst m pre post :
    find_hole (length pre) (length post) (instm m i (pre ++ post) junk, al)
    = Ret (Nat.add (length pre) <$> hole_of post, (instm m i (pre ++ post) junk, al)).
  Proof.
    revert pre. induction post as [|o post IH]; intros pre; [done|].
    cbn [find_hole length]. mrun get_item_inst.
    specialize (IH (pre ++ [o])). rewrite <- app_assoc, length_app, Nat.add_comm in IH.
    cbn [app length Nat.add] in IH. rewrite hole_of_cons.
    destruct o as [[k' v]|]; cbn [item_of key].
    - rewrite !decide_False by done. rewrite IH.
      destruct (hole_of post); cbn; [|done]. by rewrite Nat.add_succ_r.
    - rewrite !decide_True by done. cbn. by rewrite Nat.add_0_r.
  Qed.

Lemma find_key_all m k l :
    find_key k 0 (length l) (instm m i l junk, al)
    = Ret (index_of k l, (instm m i l junk, al)).
  Proof.
    pose proof (find_key_instt m (Z.of_nat (length l)) k [] l 0) as H. cbn in H.
    rewrite Nat.add_0_r in H. unfold instm. rewrite H. by destruct (index_of k l).
  Qed.

Lemma find_hole_all m l :
    find_hole 0 (length l) (instm m i l junk, al)
    = Ret (hole_of l, (instm m i l junk, al)).
  Proof.
    pose proof (find_hole_inst m [] l) as H. cbn in H. rewrite H. by destruct (hole_of l).
  Qed.

  (** The search of del reaches an item only across live ones. *)
Lemma find_key_del_skip m k pre mid post :
    dense mid -> k ∉ (pairs mid).*1 ->
    find_key_del k (length pre) (length (mid ++ post)) (instm m i (pre ++ mid ++ post) junk, al)
    = find_key_del k (length (pre ++ mid)) (length post)
        (instm m i ((pre ++ mid) ++ post) junk, al).
  Proof.
    revert pre. induction mid as [|o mid IH]; intros pre Hd Hk.
    { cbn [app]. by rewrite app_nil_r. }
    destruct o as [[k' v]|]; [|unfold dense in Hd; set_solver].
    cbn [find_key_del length app]. mrun get_item_inst. cbn [item_of key deref]. mcbn.
    destruct (Z.eqb_spec (strcmp k' k) 0) as [E|E]; rewrite strcmp_eq in E.
    { subst. cbn in Hk. set_solver. }
    specialize (IH (pre ++ [Some (k', v)])). rewrite <- !app_assoc in IH.
    rewrite length_app, Nat.add_comm in IH. cbn [app length Nat.add] in IH.
    rewrite IH; [by rewrite <- !app_assoc|unfold dense in *; set_solver|cbn in Hk; set_solver].
  Qed.

Lemma find_key_del_all m k mid post :
    dense mid -> k ∉ (pairs mid).*1 ->
    find_key_del k 0 (length (mid ++ post)) (instm m i (mid ++ post) junk, al)
    = find_key_del k (length mid) (length post) (instm m i (mid ++ post) junk, al).
  Proof. apply (find_key_del_skip m k []). Qed.
End operations.

Section specs.
  Context (i : Z) (l : items) (junk : list (option kvs_array_item_t)).
  Context (Hsize : (Z.of_nat (length l + length junk) = KVS_ARRAY_SIZE)%Z).
  Context (Hnd : NoDup (pairs l).*1).

Lemma kvs_array_get_inst al k :
    kvs_array_get (Some k) (inst i l junk, al)
    = Ret (from_option Str Null (view l !! k), (inst i l junk, al)).
  Proof.
    clear Hsize. unfold kvs_array_get. mrun lock_inst. mcbn. rewrite ?total_inst.
    rewrite Nat2Z.id. mrun find_key_all.
    destruct (index_of_view l k Hnd) as [E|(v & pre & post & -> & E & Hv & _)]; rewrite E.
    - mrun unlock_inst. apply index_of_None in E. by rewrite E.
    - mrun unlock_inst. mrun get_item_inst. by rewrite Hv.
  Qed.

Lemma kvs_array_exist_inst al k :
    kvs_array_exist (Some k) (inst i l junk, al)
    = Ret ((if view l !! k then 0 else 1)%Z, (inst i l junk, al)).
  Proof.
    clear Hsize. unfold kvs_array_exist. mrun lock_inst. mcbn. rewrite ?total_inst.
    rewrite Nat2Z.id. mrun find_key_all.
    destruct (index_of_view l k Hnd) as [E|(v & pre & post & -> & E & Hv & _)]; rewrite E.
    - mrun unlock_inst. apply index_of_None in E. by rewrite E.
    - mrun unlock_inst. by rewrite Hv.
  Qed.

Lemma kvs_array_set_full al k v :
    (Z.of_nat (length l) = KVS_ARRAY_SIZE)%Z ->
    kvs_array_set (Some k) (Some v) (inst i l junk, al) = Ret ((-1)%Z, (inst i l junk, al)).
  Proof.
    intros H. unfold kvs_array_set. mrun lock_inst. mcbn. rewrite ?total_inst.
    by rewrite H, Z.eqb_refl.
  Qed.

Lemma kvs_array_set_old al k v :
    (Z.of_nat (length l) < KVS_ARRAY_SIZE)%Z -> is_Some (view l !! k) ->
    kvs_array_set (Some k) (Some v) (inst i l junk, al) = Ret (1%Z, (inst i l junk, al)).
  Proof.
    clear Hsize. intros H [w Hw]. unfold kvs_array_set. mrun lock_inst. mcbn. rewrite ?total_inst.
    destruct (Z.eqb_spec (Z.of_nat (length l)) KVS_ARRAY_SIZE); [lia|].
    rewrite Nat2Z.id. mrun find_key_all.
    destruct (index_of_view l k Hnd) as [E|(v' & pre & post & -> & E & Hv & _)]; rewrite E.
    - apply index_of_None in E. congruence.
    - mrun unlock_inst. done.
  Qed.

  (** A new key goes to the first hole, and [total] grows all the same; without
      a hole it goes to the cell after the items in use. *)
Lemma kvs_array_set_new_hole k v pre post c junk' :
    view l !! k = None -> l = pre ++ None :: post -> dense pre -> junk = c :: junk' ->
    kvs_array_set (Some k) (Some v) (inst i l junk, [])
    = Ret (0%Z, (mk_array (BLive (cells (pre ++ Some (k, v) :: post) ++ junk)) i
                   (Z.of_nat (length l) + 1) Unlocked, [])).
  Proof.
    intros Hk Hl Hd Hj. unfold kvs_array_set. mrun lock_inst. mcbn. rewrite ?total_inst. subst junk. cbn [length] in Hsize.
    destruct (Z.eqb_spec (Z.of_nat (length l)) KVS_ARRAY_SIZE); [lia|].
    rewrite Nat2Z.id. mrun find_key_all.
    apply index_of_None in Hk. rewrite Hk. mcbn. mrun find_hole_all.
    replace (hole_of l) with (Some (length pre)).
    2:{ destruct (hole_of l) as [j|] eqn:E.
        - apply hole_of_Some in E as (p & q & E & -> & Hp). rewrite Hl in E.
          apply app_inj_1 in E as [-> _]; [done|].
          destruct (Nat.lt_trichotomy (length pre) (length p)) as [H|[H|H]]; [|done|]; exfalso.
          + apply (f_equal (.!! length pre)) in E. rewrite list_lookup_middle in E by done.
            rewrite lookup_app_l in E by done. symmetry in E.
            apply list_elem_of_lookup_2 in E. done.
          + apply (f_equal (.!! length p)) in E. rewrite (list_lookup_middle p) in E by done.
            rewrite lookup_app_l in E by done.
            apply list_elem_of_lookup_2 in E. done.
        - apply hole_of_None in E. unfold dense in E. subst l. set_solver. }
    rewrite Hl. change (mk_item (Str k) (Str v)) with (item_of (Some (k, v))).
    mrun set_item_inst. unfold incr_total. mcbn.
    unfold pthread_mutex_unlock. mcbn. unfold instm, instt, set_total, set_mutex. cbn. mcbn. cbn.
    by rewrite !length_app.
  Qed.

Lemma kvs_array_set_new_end k v c junk' :
    view l !! k = None -> dense l -> junk = c :: junk' ->
    kvs_array_set (Some k) (Some v) (inst i l junk, [])
    = Ret (0%Z, (inst i (l ++ [Some (k, v)]) junk', [])).
  Proof.
    intros Hk Hd Hj. unfold kvs_array_set. mrun lock_inst. mcbn. rewrite ?total_inst. subst junk. cbn [length] in Hsize.
    destruct (Z.eqb_spec (Z.of_nat (length l)) KVS_ARRAY_SIZE); [lia|].
    rewrite Nat2Z.id. mrun find_key_all.
    apply index_of_None in Hk. rewrite Hk. mcbn. mrun find_hole_all.
    apply hole_of_None in Hd. rewrite Hd.
    destruct (Z.ltb_spec (Z.of_nat (length l)) KVS_ARRAY_SIZE); [|lia].
    unfold set_item, incr_total. mcbn. unfold instm, instt. cbn [table].
    rewrite <- (length_cells l) at 1. mrun blk_write_app.
    unfold pthread_mutex_unlock. mcbn. unfold set_total, set_table, set_mutex. cbn.
    rewrite cells_app, <- app_assoc, !length_app. cbn. mcbn. cbn.
    by rewrite Nat2Z.inj_add.
  Qed.
End specs.

(** ** Deletion, modification *)

Section specs_del.
  Context (i : Z) (junk : list (option kvs_array_item_t)) (al : alloc).

  (** Deleting the last item in use drops it, deleting another one leaves a hole;
      the search fails on a hole. *)
Lemma kvs_array_del_found k v pre post :
    dense pre -> k ∉ (pairs pre).*1 ->
    kvs_array_del (Some k) (inst i (pre ++ Some (k, v) :: post) junk, al)
    = Ret (0%Z,
        (match post with
         | [] => inst i pre (Some (mk_item Null Null) :: junk)
         | _ => inst i (pre ++ None :: post) junk
         end, al)).
  Proof.
    intros Hd Hk. unfold kvs_array_del. mrun lock_inst. mcbn. rewrite !total_inst, Nat2Z.id.
    assert (Hs : find_key_del k 0 (length (pre ++ Some (k, v) :: post))
        (instm Locked i (pre ++ Some (k, v) :: post) junk, al)
      = Ret (Some (length pre), (instm Locked i (pre ++ Some (k, v) :: post) junk, al))).
    { rewrite find_key_del_all by done. cbn [length find_key_del].
      mrun get_item_inst. cbn [item_of key deref]. mcbn. by rewrite strcmp_refl. }
    rewrite (bind_ret _ _ _ _ _ Hs). mrun get_item_inst. cbn [item_of key value free_str].
    mcbn.
    assert (Hw : set_item (length pre) (mk_item Null (Str v))
        (instm Locked i (pre ++ Some (k, v) :: post) junk, al)
      = Ret (tt, (mk_array (BLive (cells pre ++ Some (mk_item Null (Str v)) ::
            cells post ++ junk)) i (Z.of_nat (length (pre ++ Some (k, v) :: post))) Locked, al))).
    { unfold set_item. mcbn. rewrite table_inst, cells_app, cells_cons, <- app_assoc.
      rewrite <- (length_cells pre). cbn [app]. mrun blk_write_app. mcbn. done. }
    rewrite (bind_ret _ _ _ _ _ Hw). mcbn. unfold set_item. mcbn. cbn [table].
    rewrite <- (length_cells pre) at 1. mrun blk_write_app. mcbn.
    rewrite length_app. cbn [length].
    destruct post as [|o post].
    - rewrite (proj2 (Z.eqb_eq _ _)) by (cbn; lia).
      mcbn. unfold pthread_mutex_unlock. mcbn. cbn. mcbn. cbn.
      unfold instm, instt, set_total, set_table, set_mutex. cbn. do 4 f_equal. lia.
    - rewrite (proj2 (Z.eqb_neq _ _)) by (cbn; lia).
      mcbn. unfold pthread_mutex_unlock. mcbn. cbn. mcbn. cbn.
      unfold instm, instt, set_table, set_mutex. cbn.
      by rewrite cells_app, cells_cons, <- app_assoc, length_app.
  Qed.

Lemma kvs_array_del_absent k l :
    dense l -> k ∉ (pairs l).*1 ->
    kvs_array_del (Some k) (inst i l junk, al)
    = Ret (Z.of_nat (length l), (inst i l junk, al)).
  Proof.
    intros Hd Hk. unfold kvs_array_del. mrun lock_inst. mcbn. rewrite !total_inst, Nat2Z.id.
    pose proof (find_key_del_all i junk al Locked k l [] Hd Hk) as H.
    rewrite app_nil_r in H. cbn [find_key_del length] in H.
    rewrite (bind_ret _ _ _ _ _ H). mrun unlock_inst. done.
  Qed.

  (** A hole before the key stops the search with a NULL dereference. *)
Lemma kvs_array_del_hole k pre post :
    dense pre -> k ∉ (pairs pre).*1 ->
    kvs_array_del (Some k) (inst i (pre ++ None :: post) junk, al) = Fault NullDeref.
  Proof.
    intros Hd Hk. unfold kvs_array_del. mrun lock_inst. mcbn. rewrite !total_inst, Nat2Z.id.
    apply bind_fault. rewrite find_key_del_all by done. cbn [length find_key_del].
    mrun get_item_inst. done.
  Qed.
End specs_del.

Section specs_mod.
  Context (i : Z) (junk : list (option kvs_array_item_t)).

Lemma kvs_array_mod_absent al k v l :
    view l !! k = None ->
    kvs_array_mod (Some k) (Some v) (inst i l junk, al)
    = Ret (if decide (l = []) then KVS_ARRAY_SIZE else Z.of_nat (length l), (inst i l junk, al)).
  Proof.
    intros Hk. unfold kvs_array_mod. mrun lock_inst. mcbn. rewrite !total_inst, Nat2Z.id.
    destruct l as [|o l]; [done|].
    rewrite (proj2 (Z.eqb_neq _ _)) by (cbn; lia). rewrite decide_False by done.
    mrun find_key_all. apply index_of_None in Hk. rewrite Hk. by mrun unlock_inst.
  Qed.

  (** The old value is freed before the new one is allocated: without memory the
      item keeps a pointer to the freed string. *)
Lemma kvs_array_mod_found al k v w pre post :
    index_of k (pre ++ Some (k, w) :: post) = Some (length pre) ->
    kvs_array_mod (Some k) (Some v) (inst i (pre ++ Some (k, w) :: post) junk, al)
    = Ret ((if alloc_next al then 0 else -2)%Z,
        (mk_array (BLive (cells pre ++
                      Some (mk_item (Str k) (if alloc_next al then Str v else Freed))
                      :: cells post ++ junk)) i
           (Z.of_nat (length (pre ++ Some (k, w) :: post))) Unlocked, alloc_rest al)).
  Proof.
    intros E. unfold kvs_array_mod. mrun lock_inst. mcbn. rewrite !total_inst, Nat2Z.id.
    rewrite (proj2 (Z.eqb_neq _ _)) by (rewrite length_app; cbn; lia).
    mrun find_key_all. rewrite E. mrun get_item_inst. cbn [item_of key value free_str]. mcbn.
    unfold set_item. mcbn. rewrite table_inst, cells_app, cells_cons, <- app_assoc.
    rewrite <- (length_cells pre) at 1. cbn [app]. mrun blk_write_app. mcbn.
    rewrite bind_malloc. destruct (alloc_next al); cbn [negb].
    - mcbn. cbn [table set_table].
      rewrite <- (length_cells pre) at 1. mrun blk_write_app. mcbn.
      unfold pthread_mutex_unlock. mcbn. cbn. mcbn. done.
    - unfold pthread_mutex_unlock. mcbn. cbn. mcbn. done.
  Qed.
End specs_mod.

(** [wf]: the invariant when the block came from the system zeroed.  Holes may
    appear, but every cell below [total] can be read. *)
Definition zeroed (n : nat) : list (option kvs_array_item_t) :=
  replicate n (Some (mk_item Null Null)).

Definition wf (a : kvs_array_t) (l : items) : Prop :=
  (length l <= Z.to_nat KVS_ARRAY_SIZE)%nat /\
  a = inst (idx a) l (zeroed (Z.to_nat KVS_ARRAY_SIZE - length l)) /\
  NoDup (pairs l).*1.

(** [rep] with a dense prefix is what the engine interface uses. *)
Definition arr_rep (a : kvs_array_t) (m : gmap cstr cstr) : Prop :=
  exists l, rep a l /\ dense l /\ view l = m.

Lemma view_app_new l k v :
  view l !! k = None -> view (l ++ [Some (k, v)]) = <[k := v]> (view l).
Proof.
  intros H. unfold view. rewrite pairs_app. cbn.
  rewrite list_to_map_snoc; [done|]. by apply not_elem_of_list_to_map.
Qed.

Lemma nodup_app_new l k v :
  NoDup (pairs l).*1 -> view l !! k = None -> NoDup (pairs (l ++ [Some (k, v)])).*1.
Proof.
  intros Hnd Hk. rewrite pairs_app, fmap_app. cbn.
  apply view_lookup_None in Hk. apply list.NoDup_app.
  split; [done|]. split; [set_solver|apply NoDup_singleton].
Qed.

Lemma dense_length l : dense l -> NoDup (pairs l).*1 -> size (view l) = length l.
Proof.
  intros Hd Hnd. unfold view. rewrite <- (length_map_to_list (list_to_map (pairs l))).
  rewrite map_to_list_to_map by done.
  clear Hnd. unfold pairs. induction l as [|[kv|] l IH]; [done| |unfold dense in Hd; set_solver].
  cbn. f_equal. apply IH. unfold dense in *. set_solver.
Qed.

(** The item with key [k] in the middle: what del and mod do to the map. *)
Lemma view_delete_middle pre post k v :
  NoDup (pairs (pre ++ Some (k, v) :: post)).*1 ->
  view (pre ++ None :: post) = delete k (view (pre ++ Some (k, v) :: post)).
Proof.
  intros Hnd. unfold view. rewrite !pairs_app in *. cbn in *.
  rewrite fmap_app in Hnd. cbn in Hnd. apply list.NoDup_app in Hnd as (_ & Hdis & Hnd).
  apply list.NoDup_cons in Hnd as [Hk _].
  assert (Hp : k ∉ (pairs pre).*1) by (intros Hx; specialize (Hdis k Hx); set_solver).
  rewrite !list_to_map_app. cbn. rewrite delete_union, delete_insert_eq.
  by rewrite !delete_id by (by apply not_elem_of_list_to_map).
Qed.

Lemma view_insert_middle pre post k v w :
  NoDup (pairs (pre ++ Some (k, v) :: post)).*1 ->
  view (pre ++ Some (k, w) :: post) = <[k := w]> (view (pre ++ Some (k, v) :: post)).
Proof.
  intros Hnd. unfold view. rewrite !pairs_app in *. cbn in *.
  rewrite fmap_app in Hnd. cbn in Hnd. apply list.NoDup_app in Hnd as (_ & Hdis & Hnd).
  assert (Hp : k ∉ (pairs pre).*1) by (intros Hx; specialize (Hdis k Hx); set_solver).
  rewrite !list_to_map_app. cbn.
  rewrite insert_union_r by (by apply not_elem_of_list_to_map).
  by rewrite insert_insert_eq.
Qed.

Lemma nodup_delete_middle pre post k v :
  NoDup (pairs (pre ++ Some (k, v) :: post)).*1 -> NoDup (pairs (pre ++ None :: post)).*1.
Proof.
  rewrite !pairs_app. cbn. rewrite !fmap_app. cbn. intros H.
  apply list.NoDup_app in H as (H1 & H2 & H3). apply list.NoDup_cons in H3 as [_ H3].
  apply list.NoDup_app. split; [done|]. split; [set_solver|done].
Qed.

#[export] Instance array_engine : KvEngine kvs_array_t := {|
  eng_set := kvs_array_set;
  eng_get := kvs_array_get;
  eng_rep := arr_rep;
  eng_key := fun _ => True;
  eng_room := fun m => (Z.of_nat (size m) < KVS_ARRAY_SIZE)%Z;
  eng_dup := 1
|}.

#[export] Instance array_engine_laws : KvEngineLaws kvs_array_t.
Proof.
  split.
  - intros a m k al (l & (i & junk & -> & Hs & Hnd) & Hd & <-) _.
    by apply kvs_array_get_inst.
  - intros a m k v (l & (i & junk & -> & Hs & Hnd) & Hd & <-) _ Hroom Hk.
    cbn [eng_room array_engine] in Hroom. rewrite (dense_length l Hd Hnd) in Hroom.
    destruct junk as [|c junk]; [cbn [length] in Hs; lia|].
    eexists. split; [by eapply kvs_array_set_new_end|].
    exists (l ++ [Some (k, v)]). split; [|split].
    + exists i, junk. split; [done|]. rewrite length_app. cbn [length] in *.
      split; [lia|by apply nodup_app_new].
    + unfold dense in *. set_solver.
    + by apply view_app_new.
  - intros a m k v w (l & (i & junk & -> & Hs & Hnd) & Hd & <-) _ Hroom Hk.
    cbn [eng_room array_engine] in Hroom. rewrite (dense_length l Hd Hnd) in Hroom.
    eexists. split; [apply kvs_array_set_old; eauto|].
    exists l. split; [|done]. by exists i, junk.
Qed.

(** ** The other commands of the protocol on such an instance *)

Lemma arr_rep_exist a m k al :
  arr_rep a m -> kvs_array_exist (Some k) (a, al) = Ret ((if m !! k then 0 else 1)%Z, (a, al)).
Proof. intros (l & (i & junk & -> & Hs & Hnd) & Hd & <-). by apply kvs_array_exist_inst. Qed.

Lemma arr_rep_mod a m k v :
  arr_rep a m ->
  exists r a', kvs_array_mod (Some k) (Some v) (a, []) = Ret (r, (a', [])) /\
    (if m !! k then r = 0 else 0 < r)%Z /\ arr_rep a' (if m !! k then <[k := v]> m else m).
Proof.
  intros (l & (i & junk & -> & Hs & Hnd) & Hd & <-).
  destruct (index_of_view l k Hnd) as [E|(w & pre & post & -> & E & Hv & Hk)].
  - apply index_of_None in E. rewrite (kvs_array_mod_absent _ _ _ _ _ _ E), E.
    eexists _, _. split; [done|]. split.
    + destruct l; [by rewrite decide_True|]. rewrite decide_False by done. cbn [length]. lia.
    + exists l. split; [by exists i, junk|done].
  - rewrite (kvs_array_mod_found _ _ _ _ _ _ _ _ E), Hv. eexists _, _. split; [done|]. split; [done|].
    exists (pre ++ Some (k, v) :: post). cbn [alloc_next alloc_rest]. split; [|split].
    + exists i, junk. unfold instm, instt. rewrite cells_app, cells_cons, <- app_assoc, !length_app in *.
      split; [done|]. split; [done|]. by rewrite pairs_app, fmap_app in *.
    + unfold dense in *. set_solver.
    + by apply view_insert_middle.
Qed.

(** A delete keeps the items without holes when the key is absent, or is the only one. *)
Lemma arr_rep_del a m k :
  arr_rep a m -> m !! k = None \/ size m = 1 ->
  exists a', kvs_array_del (Some k) (a, [])
    = Ret ((if m !! k then 0 else Z.of_nat (size m))%Z, (a', [])) /\ arr_rep a' (delete k m).
Proof.
  intros (l & (i & junk & -> & Hs & Hnd) & Hd & <-) Hc.
  destruct (index_of_view l k Hnd) as [E|(w & pre & post & -> & E & Hv & Hk)].
  - apply index_of_None in E. rewrite kvs_array_del_absent by (done || by apply view_lookup_None).
    rewrite E, dense_length by done. eexists. split; [done|].
    exists l. rewrite delete_id by done. split; [by exists i, junk|done].
  - rewrite Hv. destruct Hc as [|H1]; [congruence|]. rewrite dense_length in H1 by done.
    rewrite length_app in H1. cbn [length] in H1.
    assert (pre = [] /\ post = []) as [-> ->] by (destruct pre, post; cbn in H1; done || lia).
    rewrite kvs_array_del_found by (unfold dense; set_solver). eexists. split; [done|].
    exists []. cbn [app] in *. split; [|split; [by unfold dense; apply not_elem_of_nil|]].
    + exists i, (Some (mk_item Null Null) :: junk). cbn [length] in *. split; [done|]. split; [lia|constructor].
    + unfold view. cbn. by rewrite delete_insert_eq, delete_empty.
Qed.

(** ** Every operation, on an instance whose block came zeroed *)

Inductive array_op :=
  | OpSet (k v : cstr)
  | OpGet (k : cstr)
  | OpDel (k : cstr)
  | OpMod (k v : cstr)
  | OpExist (k : cstr).

Inductive array_result := Code (r : Z) | Value (p : cptr).

Definition run_op (op : array_op) : ar array_result :=
  match op with
  | OpSet k v => r ← kvs_array_set (Some k) (Some v); mret (Code r)
  | OpGet k => p ← kvs_array_get (Some k); mret (Value p)
  | OpDel k => r ← kvs_array_del (Some k); mret (Code r)
  | OpMod k v => r ← kvs_array_mod (Some k) (Some v); mret (Code r)
  | OpExist k => r ← kvs_array_exist (Some k); mret (Code r)
  end.

(** No cell is left. *)
Definition full (l : items) : Prop := Z.of_nat (length l) = KVS_ARRAY_SIZE.
#[export] Instance full_dec l : Decision (full l).
Proof. unfold full. apply _. Defined.

(** What the operation means for the map of the items. *)
Definition spec_op (op : array_op) (l : items) : gmap cstr cstr :=
  let m := view l in
  match op with
  | OpSet k v => if decide (full l) then m else if m !! k then m else <[k := v]> m
  | OpDel k => delete k m
  | OpMod k v => if m !! k then <[k := v]> m else m
  | OpGet _ | OpExist _ => m
  end.

(** What it returns: a missing key makes delete and modify return how many items there are
    (modify, on no items, the size of the table). *)
Definition spec_result (op : array_op) (l : items) : array_result :=
  let m := view l in
  match op with
  | OpSet k _ => Code (if decide (full l) then -1 else if m !! k then 1 else 0)
  | OpGet k => Value (from_option Str Null (m !! k))
  | OpDel k => Code (if m !! k then 0 else Z.of_nat (length l))
  | OpMod k _ =>
      Code (if m !! k then 0 else if decide (l = []) then KVS_ARRAY_SIZE else Z.of_nat (length l))
  | OpExist k => Code (if m !! k then 0 else 1)
  end.

(** A delete that meets a hole before it meets its key. *)
Definition meets_hole (op : array_op) (l : items) : Prop :=
  exists k pre post, op = OpDel k /\ l = pre ++ None :: post /\ dense pre /\ k ∉ (pairs pre).*1.

Lemma zeroed_S n : zeroed (S n) = Some (mk_item Null Null) :: zeroed n.
Proof. done. Qed.

Lemma wf_inst i l :
  (length l <= Z.to_nat KVS_ARRAY_SIZE)%nat -> NoDup (pairs l).*1 ->
  wf (inst i l (zeroed (Z.to_nat KVS_ARRAY_SIZE - length l))) l.
Proof. done. Qed.

Lemma hole_split l : dense l \/ exists pre post, l = pre ++ None :: post /\ dense pre.
Proof.
  destruct (hole_of l) as [j|] eqn:E; [right|left; by apply hole_of_None].
  apply hole_of_Some in E as (pre & post & -> & -> & Hd). eauto.
Qed.

Lemma wf_set a l k v :
  wf a l -> (Z.of_nat (length l) < KVS_ARRAY_SIZE)%Z ->
  exists a' l', kvs_array_set (Some k) (Some v) (a, [])
      = Ret ((if view l !! k then 1 else 0)%Z, (a', [])) /\
    wf a' l' /\ view l' = (if view l !! k then view l else <[k := v]> (view l)).
Proof.
  intros (Hl & Ha & Hnd) Hroom. remember (idx a) as i. subst a. clear Heqi.
  assert (Hz : zeroed (Z.to_nat KVS_ARRAY_SIZE - length l)
    = Some (mk_item Null Null) :: zeroed (Z.to_nat KVS_ARRAY_SIZE - S (length l))).
  { rewrite <- zeroed_S. f_equal. lia. }
  assert (Hsz : (Z.of_nat (length l + length (zeroed (Z.to_nat KVS_ARRAY_SIZE - length l)))
                 = KVS_ARRAY_SIZE)%Z).
  { unfold zeroed. rewrite length_replicate. lia. }
  destruct (view l !! k) as [w|] eqn:E.
  { eexists _, l. split; [by apply kvs_array_set_old; eauto|].
    split; [by apply wf_inst|]. done. }
  destruct (hole_split l) as [Hd|(pre & post & Hl' & Hd)].
  - eexists _, (l ++ [Some (k, v)]).
    split; [eapply kvs_array_set_new_end; eauto|]. split; [|by apply view_app_new].
    replace (S (length l)) with (length (l ++ [Some (k, v)])) by (rewrite length_app; cbn; lia).
    apply wf_inst; [rewrite length_app; cbn; lia|by apply nodup_app_new].
  - eexists _, (pre ++ Some (k, v) :: post ++ [None]).
    split; [eapply kvs_array_set_new_hole; eauto|].
    assert (Hlen : length (pre ++ Some (k, v) :: post ++ [None]) = S (length l)).
    { subst l. rewrite !length_app. cbn. rewrite length_app. cbn. lia. }
    assert (Hp : pairs (pre ++ Some (k, v) :: post ++ [None])
                 = pairs pre ++ (k, v) :: pairs post).
    { rewrite pairs_app. cbn. by rewrite omap_app, app_nil_r. }
    assert (Hpl : pairs l = pairs pre ++ pairs post) by (subst l; by rewrite pairs_app).
    split.
    + split; [rewrite Hlen; lia|]. rewrite Hlen. cbn [idx]. split.
      * unfold instm, instt. rewrite Hz, Hlen. f_equal; [|lia]. f_equal.
        rewrite !cells_app, !cells_cons, !cells_app, <- !app_assoc.
        cbn [app]. by rewrite <- app_assoc.
      * rewrite Hp, fmap_app. cbn. rewrite Hpl, fmap_app in Hnd.
        apply view_lookup_None in E. rewrite Hpl, fmap_app in E.
        apply list.NoDup_app in Hnd as (H1 & H2 & H3).
        apply list.NoDup_app. split; [done|]. split; [set_solver|].
        apply list.NoDup_cons. split; [set_solver|done].
    + unfold view in *. rewrite Hp, Hpl in *. rewrite !list_to_map_app in *. cbn.
      rewrite insert_union_r; [done|]. by apply lookup_union_None in E as [E _].
Qed.

Lemma wf_mod a l k v :
  wf a l ->
  exists a' l', kvs_array_mod (Some k) (Some v) (a, [])
      = Ret ((if view l !! k then 0 else if decide (l = []) then KVS_ARRAY_SIZE else Z.of_nat (length l))%Z, (a', [])) /\
    wf a' l' /\ view l' = (if view l !! k then <[k := v]> (view l) else view l).
Proof.
  intros (Hl & Ha & Hnd). remember (idx a) as i. subst a. clear Heqi.
  destruct (index_of_view l k Hnd) as [E|(w & pre & post & -> & E & Hv & Hk)].
  - apply index_of_None in E. eexists _, l. rewrite kvs_array_mod_absent by done.
    rewrite E. split; [done|]. split; [by apply wf_inst|]. done.
  - eexists _, (pre ++ Some (k, v) :: post). rewrite Hv.
    split; [by rewrite kvs_array_mod_found|]. split; [|].
    + split; [rewrite length_app in *; done|]. split.
      * cbn [idx]. unfold instm, instt. rewrite cells_app, cells_cons, <- app_assoc, !length_app. done.
      * rewrite pairs_app, fmap_app in *. done.
    + by apply view_insert_middle.
Qed.

Lemma wf_del a l k :
  wf a l ->
  (exists a' l', kvs_array_del (Some k) (a, [])
      = Ret ((if view l !! k then 0 else Z.of_nat (length l))%Z, (a', [])) /\
    wf a' l' /\ view l' = delete k (view l)) \/
  (kvs_array_del (Some k) (a, []) = Fault NullDeref /\ meets_hole (OpDel k) l).
Proof.
  intros (Hl & Ha & Hnd). remember (idx a) as i. subst a. clear Heqi.
  destruct (hole_split l) as [Hd|(pre & post & -> & Hd)].
  - left. destruct (index_of_view l k Hnd) as [E|(w & pre & post & -> & E & Hv & Hk)].
    + apply index_of_None in E. eexists _, l.
      rewrite kvs_array_del_absent; [|done|by apply view_lookup_None]. rewrite E.
      split; [done|]. split; [by apply wf_inst|]. by rewrite delete_id.
    + assert (Hd1 : dense pre) by (unfold dense in *; set_solver).
      rewrite Hv. destruct post as [|o post].
      * eexists _, pre. rewrite kvs_array_del_found by done. split; [done|].
        rewrite length_app in Hl. cbn [length] in Hl. split.
        { split; [lia|]. cbn [idx instm]. split.
          - rewrite <- zeroed_S, length_app. cbn [length]. do 2 f_equal. lia.
          - rewrite pairs_app, fmap_app in Hnd. by apply list.NoDup_app in Hnd as [? _]. }
        rewrite <- view_delete_middle by done. unfold view. rewrite !pairs_app. cbn.
        by rewrite app_nil_r.
      * eexists _, (pre ++ None :: o :: post). rewrite kvs_array_del_found by done.
        split; [done|]. split.
        { rewrite length_app in *. split; [rewrite length_app; done|].
          rewrite length_app. split; [done|]. by eapply nodup_delete_middle. }
        by apply view_delete_middle.
  - destruct (decide (k ∈ (pairs pre).*1)) as [Hk|Hk].
    + left. destruct (index_of_view (pre ++ None :: post) k Hnd)
        as [E|(w & pre' & post' & El & E & Hv & Hk')].
      * apply index_of_None, view_lookup_None in E. rewrite pairs_app, fmap_app in E. set_solver.
      * assert (Hd' : dense pre' /\ exists o q, post' = o :: q).
        { clear -El Hk Hk' Hd. revert pre' Hk' El. induction pre as [|o pre IH]; intros [|o' pre'].
          - cbn in *. set_solver.
          - cbn in *. set_solver.
          - cbn. intros _ [= -> El]. split; [unfold dense; set_solver|].
            destruct post' as [|]; [by destruct pre|eauto].
          - cbn [app]. intros Hk' [= -> El].
            assert (Ho : o' <> None) by (intros ->; unfold dense in Hd; set_solver).
            destruct o' as [[k' v']|]; [|done]. cbn in Hk, Hk'.
            destruct (IH ltac:(unfold dense in *; set_solver) ltac:(set_solver) pre'
                       ltac:(set_solver) El) as [H1 H2].
            split; [unfold dense in *; set_solver|done]. }
        destruct Hd' as [Hd' (o & q & ->)]. rewrite El in *.
        eexists _, (pre' ++ None :: o :: q).
        rewrite kvs_array_del_found by done. rewrite Hv. split; [done|].
        rewrite !length_app in *. cbn [length] in *. split.
        { split; [rewrite length_app; done|]. split; [by rewrite length_app|].
          by eapply nodup_delete_middle. }
        by apply view_delete_middle.
    + right. split; [by apply kvs_array_del_hole|]. by exists k, pre, post.
Qed.

Lemma del_meets_hole a l k :
  wf a l -> meets_hole (OpDel k) l -> kvs_array_del (Some k) (a, []) = Fault NullDeref.
Proof.
  intros (_ & Ha & _) (k' & pre & post & [= <-] & -> & Hd & Hk). rewrite Ha. by apply kvs_array_del_hole.
Qed.

(** ** Properties *)

(** C11: on an instance whose block came zeroed and with memory for the copies, every
    operation returns what [spec_result] says (set: 0, 1 for a present key, -1 on a full
    instance; get: the value or NULL; delete, modify, exist: 0, or a positive number for a
    missing key, except that a delete on no items returns 0), changes the map of the live
    items as [spec_op] says, keeps the instance well formed, and a set on a full instance
    leaves it as it is.  The only exception is a delete that meets a hole before its key: it
    dereferences NULL. *)
Theorem array_op_refines_map a l op :
  wf a l ->
  (~ meets_hole op l /\ exists a' l', run_op op (a, []) = Ret (spec_result op l, (a', [])) /\
     wf a' l' /\ view l' = spec_op op l /\
     (full l -> (exists k v, op = OpSet k v) -> a' = a)) \/
  (meets_hole op l /\ run_op op (a, []) = Fault NullDeref).
Proof.
  intros Hwf. pose proof Hwf as (Hl & Ha & Hnd).
  assert (Hno : (forall k, op <> OpDel k) -> ~ meets_hole op l) by (intros H (k & _ & _ & -> & _); by apply (H k)).
  destruct op as [k v|k|k|k v|k]; cbn [run_op spec_op spec_result].
  - left. split; [by apply Hno|]. destruct (decide (full l)) as [E|E].
    + exists a, l. rewrite Ha at 1. rewrite (bind_ret _ _ _ _ _ (kvs_array_set_full _ _ _ _ _ _ E)).
      rewrite <- Ha. done.
    + destruct (wf_set a l k v Hwf) as (a' & l' & Hr & Hw & Hv); [unfold full, KVS_ARRAY_SIZE in *; lia|].
      exists a', l'. rewrite (bind_ret _ _ _ _ _ Hr). done.
  - left. split; [by apply Hno|]. exists a, l. rewrite Ha at 1. mrun kvs_array_get_inst. by rewrite <- Ha.
  - destruct (wf_del a l k Hwf) as [(a' & l' & Hr & Hw & Hv)|[Hr Hd]].
    + left. split; [intros Hh; by rewrite (del_meets_hole a l k Hwf Hh) in Hr|].
      exists a', l'. rewrite (bind_ret _ _ _ _ _ Hr). split; [done|]. split; [done|]. split; [done|].
      by intros _ (? & ? & ?).
    + right. by rewrite (bind_fault _ _ _ _ Hr).
  - left. split; [by apply Hno|]. destruct (wf_mod a l k v Hwf) as (a' & l' & Hr & Hw & Hv).
    exists a', l'. rewrite (bind_ret _ _ _ _ _ Hr). split; [done|]. split; [done|]. split; [done|].
    by intros _ (? & ? & ?).
  - left. split; [by apply Hno|]. exists a, l. rewrite Ha at 1. mrun kvs_array_exist_inst. by rewrite <- Ha.
Qed.

(** An instance with the pair k, v: get finds it, set of the same key returns 1. *)
Definition one_item : kvs_array_t := inst 0 [Some (bs "k", bs "v")] (zeroed 1023).

Example array_op_refines_map_witness :
  wf one_item [Some (bs "k", bs "v")] /\
  (exists a', run_op (OpGet (bs "k")) (one_item, []) = Ret (Value (Str (bs "v")), (a', []))) /\
  (exists a', run_op (OpSet (bs "k") (bs "w")) (one_item, []) = Ret (Code 1, (a', []))).
Proof.
  assert (H : wf one_item [Some (bs "k", bs "v")]).
  { split; [vm_compute; lia|]. split; [reflexivity|]. apply NoDup_singleton. }
  split; [exact H|]. split.
  - destruct (array_op_refines_map _ _ (OpGet (bs "k")) H) as [(_ & a' & l' & E & _)|[(k & _ & _ & [=] & _) _]].
    exists a'. exact E.
  - destruct (array_op_refines_map _ _ (OpSet (bs "k") (bs "w")) H) as [(_ & a' & l' & E & _)|[(k & _ & _ & [=] & _) _]].
    exists a'. exact E.
Defined.

(** After a middle item was deleted, a set of a new key reuses the hole and
    still increments [total], so the search for an absent key reads the first cell
    that was never written. *)
Theorem array_hole_reuse_reads_garbage i pre k w o post junk k' v' q :
  dense (pre ++ Some (k, w) :: o :: post) ->
  NoDup (pairs (pre ++ Some (k, w) :: o :: post)).*1 ->
  (Z.of_nat (length (pre ++ Some (k, w) :: o :: post) + S (length junk)) = KVS_ARRAY_SIZE)%Z ->
  view (pre ++ None :: o :: post) !! k' = None ->
  q <> k' -> view (pre ++ None :: o :: post) !! q = None ->
  (kvs_array_del (Some k) ;;
   kvs_array_set (Some k') (Some v') ;;
   kvs_array_exist (Some q)) (inst i (pre ++ Some (k, w) :: o :: post) (None :: junk), [])
  = Fault Indeterminate.
Proof.
  intros Hd Hnd Hsz Hk' Hq Hvq.
  assert (Hdp : dense pre) by (unfold dense in *; set_solver).
  assert (Hk : k ∉ (pairs pre).*1).
  { rewrite pairs_app, fmap_app in Hnd. apply list.NoDup_app in Hnd as (_ & Hdis & _).
    intros Hx. specialize (Hdis k Hx). cbn in Hdis. set_solver. }
  mrun kvs_array_del_found.
  assert (Hlen : length (pre ++ None :: o :: post) = length (pre ++ Some (k, w) :: o :: post))
    by (by rewrite !length_app).
  rewrite <- Hlen in Hsz.
  rewrite (bind_ret _ _ _ _ _ (kvs_array_set_new_hole i _ (None :: junk) Hsz
             (nodup_delete_middle _ _ _ _ Hnd) k' v' pre _ None junk Hk' eq_refl Hdp eq_refl)).
  set (l := pre ++ Some (k', v') :: o :: post) in *.
  unfold kvs_array_exist, pthread_mutex_lock. mcbn. cbn [array_mutex mutex_lock]. mcbn.
  unfold set_mutex. cbn [table idx total array_mutex].
  apply bind_fault.
  assert (Hl : length (pre ++ None :: o :: post) = length l)
    by (unfold l; by rewrite !length_app).
  rewrite Hl. replace (Z.to_nat (Z.of_nat (length l) + 1)) with (length l + 1)%nat by lia.
  pose proof (find_key_instt i (None :: junk) [] Locked (Z.of_nat (length l) + 1) q [] l 1) as H.
  cbn [app length Nat.add] in H. unfold instt in H. rewrite H.
  assert (Hi : index_of q l = None).
  { apply index_of_None, view_lookup_None. apply view_lookup_None in Hvq.
    unfold l. rewrite pairs_app, fmap_app in *. cbn in *. set_solver. }
  rewrite Hi. cbn [find_key]. apply bind_fault. unfold get_item. mcbn. cbn [table].
  rewrite <- (length_cells l). apply blk_read_indet.
Qed.

Example array_hole_reuse_reads_garbage_witness :
  (kvs_array_del (Some (bs "a")) ;; kvs_array_set (Some (bs "c")) (Some (bs "3")) ;;
   kvs_array_exist (Some (bs "z")))
    (inst 0 [Some (bs "a", bs "1"); Some (bs "b", bs "2")] (None :: replicate 1021 None), [])
  = Fault Indeterminate.
Proof.
  apply (array_hole_reuse_reads_garbage 0 [] (bs "a") (bs "1") (Some (bs "b", bs "2")) []
           (replicate 1021 None) (bs "c") (bs "3") (bs "z")).
  - unfold dense. apply (bool_decide_unpack _). vm_compute. exact I.
  - apply (bool_decide_unpack _). vm_compute. exact I.
  - rewrite length_replicate. reflexivity.
  - vm_compute. reflexivity.
  - discriminate.
  - vm_compute. reflexivity.
Defined.

(** A get, mod or del with a NULL key returns with the mutex held, so the next
    operation on the array, whatever it is, blocks forever. *)
Theorem array_null_key_deadlocks a op :
  array_mutex a = Unlocked ->
  (kvs_array_get None ;; run_op op) (a, []) = Fault Deadlock /\
  (kvs_array_del None ;; run_op op) (a, []) = Fault Deadlock /\
  (kvs_array_mod None None ;; run_op op) (a, []) = Fault Deadlock.
Proof.
  intros Hm.
  assert (Hl : pthread_mutex_lock (a, []) = Ret (tt, (set_mutex Locked a, []))).
  { unfold pthread_mutex_lock. mcbn. rewrite Hm. done. }
  assert (Hop : run_op op (set_mutex Locked a, []) = Fault Deadlock) by (by destruct op).
  unfold kvs_array_get, kvs_array_del, kvs_array_mod.
  rewrite !bind_bind, !(bind_ret _ _ _ _ _ Hl). by mcbn.
Qed.

Example array_null_key_deadlocks_witness :
  array_mutex global_array0 = Unlocked /\
  (kvs_array_get None ;; run_op (OpExist (bs "k"))) (global_array0, []) = Fault Deadlock.
Proof.
  split; [reflexivity|].
  exact (proj1 (array_null_key_deadlocks global_array0 (OpExist (bs "k")) eq_refl)).
Defined.

End Array.
