(* ===== verification/ArraySafe.v ===== *)
(** * The array engine never leaves its table

    Whatever the calls, their arguments and the results of [malloc]: the fields keep their
    ranges, and no operation indexes outside the table. *)

From S2P Require Import Prelude Safety Engine KvsArray.
Import Array.

(** A call of the interface; [None] is NULL. *)
Inductive call :=
  | CCreate (fresh : list (option kvs_array_item_t))
  | CDestory
  | CSet (k v : option cstr)
  | CGet (k : option cstr)
  | CDel (k : option cstr)
  | CMod (k v : option cstr)
  | CExist (k : option cstr).

Definition run_call (c : call) : ar unit :=
  match c with
  | CCreate fresh => _ ← kvs_array_create fresh; mret tt
  | CDestory => kvs_array_destory
  | CSet k v => _ ← kvs_array_set k v; mret tt
  | CGet k => _ ← kvs_array_get k; mret tt
  | CDel k => _ ← kvs_array_del k; mret tt
  | CMod k v => _ ← kvs_array_mod k v; mret tt
  | CExist k => _ ← kvs_array_exist k; mret tt
  end.

Fixpoint run_calls (cs : list call) : ar unit :=
  match cs with
  | [] => mret tt
  | c :: cs => run_call c ;; run_calls cs
  end.

(** The block that [kvs_malloc] returns has room for the table. *)
Definition call_ok (c : call) : Prop :=
  match c with
  | CCreate fresh => (Z.of_nat (length fresh) = KVS_ARRAY_SIZE)%Z
  | _ => True
  end.

Record typed (a : kvs_array_t) : Prop := {
  ty_table : forall c, table a = BLive c -> (Z.of_nat (length c) = KVS_ARRAY_SIZE)%Z;
  ty_total : (0 <= total a <= KVS_ARRAY_SIZE)%Z
}.

(** The number of items is [n]. *)
Definition typed_at (n : Z) (a : kvs_array_t) : Prop := typed a /\ total a = n.

Definition outside (f : fault) : Prop := f = OutOfBounds.

#[local] Ltac other_fault := by intros [=].

Abbreviation asafe := (safe outside).

Lemma typed_mutex n m a : typed_at n a -> typed_at n (set_mutex m a).
Proof. intros [[H1 H2] H3]. by split; [split|]. Qed.

Lemma lock_safe n : asafe (typed_at n) pthread_mutex_lock (fun _ => typed_at n).
Proof.
  intros a al Ha. unfold pthread_mutex_lock. rewrite bind_get. cbn [fst].
  destruct (array_mutex a); cbn; first [by apply typed_mutex|other_fault].
Qed.

Lemma unlock_safe n : asafe (typed_at n) pthread_mutex_unlock (fun _ => typed_at n).
Proof.
  intros a al Ha. unfold pthread_mutex_unlock. rewrite bind_get. cbn [fst].
  destruct (array_mutex a); cbn; first [by apply typed_mutex|other_fault].
Qed.

(** ** Cells *)

Lemma get_item_safe n i :
  (Z.of_nat i < KVS_ARRAY_SIZE)%Z -> asafe (typed_at n) (get_item i) (fun _ => typed_at n).
Proof.
  intros Hi. apply safe_get. intros a [[Ht Hn] <-].
  eapply safe_pure; [apply pure_blk_read; [other_fault..|]|].
  - intros c Hc. rewrite (Ht c Hc). lia.
  - by intros x s [-> H] _.
Qed.

Lemma set_item_safe n i it :
  (Z.of_nat i < KVS_ARRAY_SIZE)%Z -> asafe (typed_at n) (set_item i it) (fun _ => typed_at n).
Proof.
  intros Hi. apply safe_get. intros a [[Ht Hn] <-]. eapply safe_bind.
  - eapply (safe_pure _ _ _ _ (fun t s => typed_at (total a) s /\
      forall c, t = BLive c -> (Z.of_nat (length c) = KVS_ARRAY_SIZE)%Z)); [apply pure_blk_write; [other_fault..|]|].
    + intros c Hc. rewrite (Ht c Hc). lia.
    + intros t s [-> Hs] (c & Hc & ->). split; [done|]. intros c' [= <-]. rewrite length_insert. by apply Ht.
  - intros t. apply safe_modify. intros s [[[_ H2] H3] H]. by split; [split|].
Qed.

Lemma pure_safe {A} n (m : ar A) (R : A -> Prop) : pure_op outside m R -> asafe (typed_at n) m (fun _ => typed_at n).
Proof. intros Hm. eapply safe_pure; [exact Hm|done]. Qed.

Lemma deref_safe n p : asafe (typed_at n) (deref p) (fun _ => typed_at n).
Proof. eapply pure_safe, pure_deref; other_fault. Qed.

Lemma free_safe n p : asafe (typed_at n) (free_str p) (fun _ => typed_at n).
Proof. eapply pure_safe, pure_free_str. other_fault. Qed.

Lemma ret_safe {A} n (x : A) : asafe (typed_at n) (mret x) (fun _ => typed_at n).
Proof. by apply safe_ret. Qed.

Lemma malloc_safe n : asafe (typed_at n) malloc_ok (fun _ => typed_at n).
Proof. by apply safe_malloc. Qed.

Create HintDb asafe.
#[export] Hint Resolve lock_safe unlock_safe get_item_safe set_item_safe deref_safe free_safe ret_safe malloc_safe : asafe.

(** A step, when nothing is to be remembered. *)
#[local] Ltac step := eapply safe_step; [solve [eauto with asafe lia]|let x := fresh "x" in intros x].

(** ** Searches *)

Definition found_below (n : Z) (b : nat) (r : option nat) (a : kvs_array_t) : Prop :=
  typed_at n a /\ forall j, r = Some j -> j < b.

Section searches.
Context (n : Z) (k : cstr).

Lemma find_key_safe m : forall i,
  (Z.of_nat (i + m) <= KVS_ARRAY_SIZE)%Z -> asafe (typed_at n) (find_key k i m) (found_below n (i + m)).
Proof.
  induction m as [|m IH]; intros i Hi; cbn [find_key].
  - by apply safe_ret.
  - assert (Hn : asafe (typed_at n) (find_key k (S i) m) (found_below n (i + S m))).
    { replace (i + S m) with (S i + m) by lia. apply IH. lia. }
    eapply safe_step; [apply get_item_safe; lia|intros it]. destruct (key it) eqn:Ek; [exact Hn| |];
      (eapply safe_step; [apply deref_safe|intros k']; destruct (_ =? 0)%Z; [|exact Hn]; apply safe_ret;
       intros a Ha; split; [done|]; intros j [= <-]; lia).
Qed.

Lemma find_hole_safe m : forall i,
  (Z.of_nat (i + m) <= KVS_ARRAY_SIZE)%Z -> asafe (typed_at n) (find_hole i m) (found_below n (i + m)).
Proof.
  induction m as [|m IH]; intros i Hi; cbn [find_hole].
  - by apply safe_ret.
  - eapply safe_step; [apply get_item_safe; lia|intros it]. case_decide.
    + apply safe_ret. intros s Hs. split; [done|]. intros j [= <-]. lia.
    + replace (i + S m) with (S i + m) by lia. apply IH. lia.
Qed.

Lemma find_key_del_safe m : forall i,
  (Z.of_nat (i + m) <= KVS_ARRAY_SIZE)%Z -> asafe (typed_at n) (find_key_del k i m) (found_below n (i + m)).
Proof.
  induction m as [|m IH]; intros i Hi; cbn [find_key_del].
  - by apply safe_ret.
  - eapply safe_step; [apply get_item_safe; lia|intros it].
    eapply safe_step; [apply deref_safe|intros k']. destruct (_ =? 0)%Z.
    + apply safe_ret. intros s Hs. split; [done|]. intros j [= <-]. lia.
    + replace (i + S m) with (S i + m) by lia. apply IH. lia.
Qed.
End searches.

(** ** Calls *)

(** What every operation keeps. *)
Abbreviation keeps m := (asafe typed m (fun _ => typed)).

Lemma total_range n a : typed_at n a -> (0 <= n <= KVS_ARRAY_SIZE)%Z.
Proof. intros [[_ H] <-]. done. Qed.

Lemma keeps_at {A} (m : ar A) : (forall n, asafe (typed_at n) m (fun _ => typed)) -> keeps m.
Proof. intros H a al Ha. by apply (H (total a)). Qed.

Lemma finish {A} n (x : A) : asafe (typed_at n) (pthread_mutex_unlock ;; mret x) (fun _ => typed).
Proof. step. by apply safe_ret; intros ? []. Qed.

Lemma ret_typed {A} n (x : A) : asafe (typed_at n) (mret x) (fun _ => typed).
Proof. by apply safe_ret; intros ? []. Qed.

#[export] Hint Resolve finish ret_typed : asafe.

(** The total is read again. *)
Lemma get_total {B} n (k : kvs_array_t -> ar B) Q :
  (forall a, (0 <= n <= KVS_ARRAY_SIZE)%Z -> total a = n -> asafe (typed_at n) (k a) Q) ->
  asafe (typed_at n) (get ≫= k) Q.
Proof.
  intros H. apply safe_get. intros a Ha. eapply safe_pre; [apply (H a)|]; [by eapply total_range|apply Ha|].
  by intros s [-> ?].
Qed.

Lemma search_then {B} n b (m : ar (option nat)) (k : option nat -> ar B) Q :
  asafe (typed_at n) m (found_below n b) ->
  (forall r, (forall j, r = Some j -> j < b) -> asafe (typed_at n) (k r) Q) -> asafe (typed_at n) (m ≫= k) Q.
Proof.
  intros Hm Hk. eapply safe_bind; [exact Hm|]. intros r a al [Ha Hr]. by apply (Hk r Hr).
Qed.

Lemma create_keeps fresh : (Z.of_nat (length fresh) = KVS_ARRAY_SIZE)%Z -> keeps (kvs_array_create fresh).
Proof.
  intros Hl a al Ha. unfold kvs_array_create. rewrite bind_get. cbn [fst]. destruct (table a); [|done..].
  rewrite bind_malloc. destruct (alloc_next al); [|done]. mcbn.
  split; cbn; [by intros c [= <-]|unfold KVS_ARRAY_SIZE; lia].
Qed.

Lemma destory_keeps : keeps kvs_array_destory.
Proof.
  intros a al [Ht Hn]. unfold kvs_array_destory. rewrite bind_get. cbn [fst].
  destruct (table a) eqn:E; [| |other_fault]; mcbn; split; cbn; try done. by rewrite E.
Qed.

Lemma get_keeps k : keeps (kvs_array_get k).
Proof.
  apply keeps_at. intros n. unfold kvs_array_get. step. destruct k as [k|]; [|eauto with asafe].
  apply get_total. intros a Hn ->. eapply search_then; [apply find_key_safe; lia|]. intros [j|] Hj.
  - step. specialize (Hj j eq_refl). step. eauto with asafe.
  - eauto with asafe.
Qed.

Lemma exist_keeps k : keeps (kvs_array_exist k).
Proof.
  apply keeps_at. intros n. unfold kvs_array_exist. step. destruct k as [k|]; [|eauto with asafe].
  apply get_total. intros a Hn ->. eapply search_then; [apply find_key_safe; lia|].
  intros [j|] _; eauto with asafe.
Qed.

Lemma incr_finish {A} n (x : A) : (n < KVS_ARRAY_SIZE)%Z ->
  asafe (typed_at n) (incr_total ;; pthread_mutex_unlock ;; mret x) (fun _ => typed).
Proof.
  intros Hn. eapply safe_bind; [|intros u; apply (finish (n + 1))].
  apply safe_modify. intros s [[H1 H2] H3]. split; [split; [exact H1|]|]; cbn [total set_total]; lia.
Qed.

Lemma set_keeps k v : keeps (kvs_array_set k v).
Proof.
  apply keeps_at. intros n. unfold kvs_array_set. step. destruct k as [k|], v as [v|]; try (eauto with asafe).
  apply get_total. intros a Hn ->. destruct (Z.eqb_spec n KVS_ARRAY_SIZE); [eauto with asafe|].
  eapply search_then; [apply find_key_safe; lia|]. intros [j|] _; [eauto with asafe|].
  step. match goal with |- context [negb ?b] => destruct b end; cbn [negb]; [|eauto with asafe].
  step. match goal with |- context [negb ?b] => destruct b end; cbn [negb]; [|eauto with asafe].
  eapply search_then; [apply find_hole_safe; lia|]. intros [j|] Hj.
  - specialize (Hj j eq_refl). step. apply incr_finish. lia.
  - destruct (Z.ltb_spec n KVS_ARRAY_SIZE); [|lia].
    intros s al Hs. rewrite bind_bind. revert s al Hs. change (asafe (typed_at n)
      (set_item (Z.to_nat n) (mk_item (Str k) (Str v)) ;; incr_total ;; pthread_mutex_unlock ;; mret 0%Z) (fun _ => typed)).
    eapply safe_step; [apply set_item_safe; lia|]. intros u. by apply incr_finish.
Qed.

Lemma mod_keeps k v : keeps (kvs_array_mod k v).
Proof.
  apply keeps_at. intros n. unfold kvs_array_mod. step. destruct k as [k|], v as [v|]; try (eauto with asafe).
  apply get_total. intros a Hn ->. destruct (Z.eqb_spec n 0); [eauto with asafe|].
  eapply search_then; [apply find_key_safe; lia|]. intros [j|] Hj; [|eauto with asafe].
  specialize (Hj j eq_refl). do 4 step. match goal with |- context [negb ?b] => destruct b end; cbn [negb]; [|eauto with asafe].
  step. eauto with asafe.
Qed.

Lemma del_keeps k : keeps (kvs_array_del k).
Proof.
  apply keeps_at. intros n. unfold kvs_array_del. step. destruct k as [k|]; [|eauto with asafe].
  apply get_total. intros a Hn ->. eapply search_then; [apply find_key_del_safe; lia|].
  intros [j|] Hj; [|eauto with asafe]. specialize (Hj j eq_refl). do 5 step.
  destruct (Z.eqb_spec (n - 1) (Z.of_nat j)); [|step; eauto with asafe].
  eapply safe_bind; [|intros ?; apply (finish (n - 1))].
  apply safe_modify. intros s [[H1 H2] H3]. split; [split; [exact H1|]|]; cbn [total set_total]; lia.
Qed.

Lemma call_keeps c : call_ok c -> keeps (run_call c).
Proof.
  intros Hc. destruct c as [f| |k v|k|k|k v|k]; cbn [run_call]; [|apply destory_keeps|..];
    (eapply safe_step; [|intros ?; by apply safe_ret]).
  - by apply create_keeps.
  - apply set_keeps.
  - apply get_keeps.
  - apply del_keeps.
  - apply mod_keeps.
  - apply exist_keeps.
Qed.

(** C12: whatever calls are made, in any order, with any arguments (NULL included), and
    whatever [malloc] returns: as long as the calls return, the block keeps its 1024 cells
    and [total] stays between 0 and 1024, and no call ever indexes outside the table or
    loops. *)
Theorem array_calls_stay_in_table cs :
  Forall call_ok cs -> asafe typed (run_calls cs) (fun _ => typed).
Proof.
  induction 1 as [|c cs Hc _ IH]; cbn [run_calls]; [by apply safe_ret|].
  eapply safe_step; [by apply call_keeps|by intros []].
Qed.

(** From the global instance: a create whose block is fresh, and calls after it. *)
Example array_calls_stay_in_table_witness :
  match run_calls [CCreate (replicate 1024 None); CSet (Some (bs "k")) (Some (bs "v")); CDel (Some (bs "k"));
                   CSet (Some (bs "a")) (Some (bs "b")); CSet None None] (global_array0, [true; true; false; false]) with
  | Ret (_, (a, _)) => typed a
  | Fault f => ~ outside f
  | OutOfFuel => False
  end.
Proof.
  apply array_calls_stay_in_table.
  - constructor; [|by repeat constructor]. cbn [call_ok]. by rewrite length_replicate.
  - split; [done|]. cbn. unfold KVS_ARRAY_SIZE. lia.
Defined.
