(* ===== verification/KvsHash.v ===== *)
(** * The hash engine ([src/kvs_hash.c])

    [nodes] is a block of [MAX_TABLE_SIZE] list heads that [kvs_malloc] returns
    without initialising it; a key goes to the list its character sum selects.
    A list of nodes is a Rocq list, the NULL head is the empty list.
    [hrep h m] says that the table [h] holds the map [m]. *)

From S2P Require Import Prelude Engine.

Module Hash.

Definition MAX_TABLE_SIZE : Z := 1024.

Record hashnode_t := mk_node { key : cptr; value : cptr }.

Record hashtable_t := mk_hash {
  nodes : blk (list hashnode_t);
  max_slots : Z;
  count : Z
}.

Abbreviation ht A := (M hashtable_t A).

Definition set_nodes (n : blk (list hashnode_t)) (h : hashtable_t) :=
  mk_hash n (max_slots h) (count h).
Definition set_count (c : Z) (h : hashtable_t) := mk_hash (nodes h) (max_slots h) c.

(** The global after [memset]. *)
Definition global_hash0 : hashtable_t := mk_hash BNull 0 0.

(** The character sum, on signed characters; [sum % size] truncates. *)
Fixpoint hash_sum (sum : Z) (k : cstr) : Z :=
  match k with
  | [] => sum
  | c :: k => hash_sum (sum + schar c) k
  end.

Definition _hash (key0 : option cstr) (size : Z) : Z :=
  match key0 with
  | None => (-1)%Z
  | Some k => Z.rem (hash_sum 0 k) size
  end.

(** NULL when one of the three allocations fails. *)
Definition _create_node (key0 value0 : cstr) : ht (option hashnode_t) :=
  ok ← malloc_ok;
  if negb ok then mret None else
  ok ← malloc_ok;
  if negb ok then mret None else
  ok ← malloc_ok;
  if negb ok then mret None else
  mret (Some (mk_node (Str key0) (Str value0))).

Definition kvs_hash_create (fresh : list (option (list hashnode_t))) : ht Z :=
  ok ← malloc_ok;
  if negb ok then modify (set_nodes BNull) ;; mret (-1)%Z else
  modify (fun _ => mk_hash (BLive fresh) MAX_TABLE_SIZE 0) ;;
  mret 0%Z.

(** The nodes of slot [i], one after the other. *)
Fixpoint destroy_slots (i n : nat) : ht unit :=
  match n with
  | O => mret tt
  | S n =>
      h ← get;
      _ ← blk_read (nodes h) (Z.of_nat i);
      t ← blk_write (nodes h) (Z.of_nat i) [];
      modify (set_nodes t) ;;
      destroy_slots (S i) n
  end.

Definition kvs_hash_destory : ht unit :=
  h ← get;
  destroy_slots 0 (Z.to_nat (max_slots h)) ;;
  modify (set_nodes BFreed).

(** The search loops: the position of the first node with the key. *)
Fixpoint find_node (key0 : cstr) (chain : list hashnode_t) : ht (option nat) :=
  match chain with
  | [] => mret None
  | n :: chain =>
      k ← deref (key n);
      if (strcmp k key0 =? 0)%Z then mret (Some 0)
      else r ← find_node key0 chain; mret (S <$> r)
  end.

Definition kvs_hash_set (key0 value0 : option cstr) : ht Z :=
  match key0, value0 with
  | Some key0, Some value0 =>
      let idx := _hash (Some key0) MAX_TABLE_SIZE in
      h ← get;
      chain ← blk_read (nodes h) idx;
      r ← find_node key0 chain;
      match r with
      | Some _ => mret 1%Z
      | None =>
          new_node ← _create_node key0 value0;
          match new_node with
          | None => raise NullDeref
          | Some nd =>
              t ← blk_write (nodes h) idx (nd :: chain);
              modify (set_nodes t) ;;
              modify (fun h => set_count (count h + 1) h) ;;
              mret 0%Z
          end
      end
  | _, _ => mret (-1)%Z
  end.

Definition kvs_hash_get (key0 : option cstr) : ht cptr :=
  match key0 with
  | None => mret Null
  | Some key0 =>
      let idx := _hash (Some key0) MAX_TABLE_SIZE in
      h ← get;
      chain ← blk_read (nodes h) idx;
      r ← find_node key0 chain;
      match r with
      | Some j => mret (from_option value Null (chain !! j))
      | None => mret Null
      end
  end.

Definition kvs_hash_mod (key0 value0 : option cstr) : ht Z :=
  match key0 with
  | None => mret (-1)%Z
  | Some key0 =>
      let idx := _hash (Some key0) MAX_TABLE_SIZE in
      h ← get;
      chain ← blk_read (nodes h) idx;
      r ← find_node key0 chain;
      match r with
      | None => mret 1%Z
      | Some j =>
          match chain !! j with
          | None => raise NullDeref
          | Some nd =>
              free_str (value nd) ;;
              t ← blk_write (nodes h) idx (<[j := mk_node (key nd) Freed]> chain);
              modify (set_nodes t) ;;
              match value0 with
              | None => raise NullDeref
              | Some value0 =>
                  ok ← malloc_ok;
                  if negb ok then mret (-2)%Z else
                  t ← blk_write t idx (<[j := mk_node (key nd) (Str value0)]> chain);
                  modify (set_nodes t) ;;
                  mret 0%Z
              end
          end
      end
  end.

Definition kvs_hash_count : ht Z := h ← get; mret (count h).

(** The loop on [cur->next]: what the list after [cur] becomes. *)
Fixpoint unlink (key0 : cstr) (rest : list hashnode_t) : ht (option (list hashnode_t)) :=
  match rest with
  | [] => mret None
  | tmp :: rest =>
      k ← deref (key tmp);
      if (strcmp k key0 =? 0)%Z then
        free_str (key tmp) ;;
        free_str (value tmp) ;;
        mret (Some rest)
      else
        r ← unlink key0 rest;
        mret (cons tmp <$> r)
  end.

(** A head node is freed without its key and value. *)
Definition kvs_hash_del (key0 : option cstr) : ht Z :=
  match key0 with
  | None => mret (-2)%Z
  | Some key0 =>
      let idx := _hash (Some key0) MAX_TABLE_SIZE in
      h ← get;
      chain ← blk_read (nodes h) idx;
      match chain with
      | [] => mret (-1)%Z
      | head :: rest =>
          k ← deref (key head);
          if (strcmp k key0 =? 0)%Z then
            t ← blk_write (nodes h) idx rest;
            modify (set_nodes t) ;;
            modify (fun h => set_count (count h - 1) h) ;;
            mret 0%Z
          else
            r ← unlink key0 rest;
            match r with
            | None => mret (-1)%Z
            | Some rest =>
                t ← blk_write (nodes h) idx (head :: rest);
                modify (set_nodes t) ;;
                modify (fun h => set_count (count h - 1) h) ;;
                mret 0%Z
            end
      end
  end.

Definition kvs_hash_exist (key0 : option cstr) : ht Z :=
  v ← kvs_hash_get key0;
  match v with
  | Null => mret 1%Z
  | _ => mret 0%Z
  end.

(** ** Representation *)

Definition node_of (kv : cstr * cstr) : hashnode_t := mk_node (Str kv.1) (Str kv.2).

Abbreviation chain := (list (cstr * cstr)).

Definition cell_of (c : chain) : option (list hashnode_t) := Some (node_of <$> c).

Definition table (slots : list chain) : hashtable_t :=
  mk_hash (BLive (cell_of <$> slots)) MAX_TABLE_SIZE (Z.of_nat (length (concat slots))).

Definition view (slots : list chain) : gmap cstr cstr := list_to_map (concat slots).

(** Every key sits in the slot the hash selects. *)
Definition placed (slots : list chain) : Prop :=
  forall i c k, slots !! i = Some c -> k ∈ c.*1 ->
    _hash (Some k) MAX_TABLE_SIZE = Z.of_nat i.

Definition slots_ok (slots : list chain) : Prop :=
  Z.of_nat (length slots) = MAX_TABLE_SIZE /\ placed slots /\ NoDup (concat slots).*1.

Definition hrep (h : hashtable_t) (m : gmap cstr cstr) : Prop :=
  exists slots, h = table slots /\ slots_ok slots /\ view slots = m.

(** The keys the table can take: the others index before the block. *)
Definition hash_key (k : cstr) : Prop := (0 <= _hash (Some k) MAX_TABLE_SIZE)%Z.

#[export] Instance hash_key_dec k : Decision (hash_key k).
Proof. unfold hash_key. apply _. Defined.

(** ** The hash function *)

Lemma hash_sum_bound k s :
  (Z.abs (hash_sum s k) <= Z.abs s + 128 * Z.of_nat (length k))%Z.
Proof.
  revert s. induction k as [|c k IH]; intros s; cbn [hash_sum length]; [lia|].
  specialize (IH (s + schar c)%Z).
  assert (Hc : (-128 <= schar c <= 127)%Z).
  { unfold schar. pose proof (b2z_range c). destruct (Z.ltb_spec (b2z c) 128); lia. }
  lia.
Qed.

Lemma hash_range k : (- MAX_TABLE_SIZE < _hash (Some k) MAX_TABLE_SIZE < MAX_TABLE_SIZE)%Z.
Proof.
  unfold _hash, MAX_TABLE_SIZE.
  pose proof (Z.rem_bound_abs (hash_sum 0 k) 1024 ltac:(lia)). lia.
Qed.

(** ** The search *)

Definition chain_index (k : cstr) (c : chain) : option nat :=
  fst <$> list_find (fun kv => kv.1 = k) c.

Lemma chain_index_cons k kv c :
  chain_index k (kv :: c) = if decide (kv.1 = k) then Some 0 else S <$> chain_index k c.
Proof.
  unfold chain_index. cbn. case_decide; [done|].
  by destruct (list_find _ c) as [[]|].
Qed.

Lemma find_node_chain k c s :
  find_node k (node_of <$> c) s = Ret (chain_index k c, s).
Proof.
  induction c as [|[k' v] c IH]; [done|].
  cbn [fmap list_fmap find_node node_of key fst snd deref]. mcbn.
  rewrite chain_index_cons. cbn [fst].
  destruct (Z.eqb_spec (strcmp k' k) 0) as [E|E]; rewrite strcmp_eq in E.
  - by rewrite decide_True.
  - rewrite decide_False by done. mrun IH. done.
Qed.

Lemma chain_index_Some k c j :
  chain_index k c = Some j -> exists v pre post,
    c = pre ++ (k, v) :: post /\ j = length pre /\ k ∉ pre.*1.
Proof.
  unfold chain_index. intros H. apply fmap_Some in H as ((n & [k' v]) & H & ->).
  apply list_find_Some in H as (Hl & Hk & Hlt). cbn in Hk. subst k'.
  exists v, (take n c), (drop (S n) c). cbn [fst].
  split; [by rewrite take_drop_middle|].
  split; [rewrite length_take; apply lookup_lt_Some in Hl; lia|].
  intros Hx. apply list_elem_of_fmap in Hx as ([k' w] & -> & Hx).
  apply list_elem_of_lookup in Hx as (m & Hm).
  apply lookup_take_Some in Hm as [Hm Hlt']. by apply (Hlt m (k', w)).
Qed.

Lemma chain_index_None k c : chain_index k c = None <-> k ∉ c.*1.
Proof.
  unfold chain_index. rewrite fmap_None, list_find_None, list.Forall_forall.
  rewrite list_elem_of_fmap. naive_solver.
Qed.

(** ** The slot of a key *)

Lemma concat_middle {A} (pre : list (list A)) c post :
  concat (pre ++ c :: post) = concat pre ++ c ++ concat post.
Proof. by rewrite concat_app. Qed.

(** The table split around the slot of [k]. *)
Record slot_of (slots : list chain) (k : cstr) (pre : list chain) (c : chain)
    (post : list chain) : Prop := {
  so_split : slots = pre ++ c :: post;
  so_idx : _hash (Some k) MAX_TABLE_SIZE = Z.of_nat (length pre);
  so_pre : k ∉ (concat pre).*1;
  so_post : k ∉ (concat post).*1
}.

Lemma elem_of_concat_keys (k : cstr) (slots : list chain) :
  k ∈ (concat slots).*1 <-> exists i c, slots !! i = Some c /\ k ∈ c.*1.
Proof.
  induction slots as [|c slots IH]; cbn.
  - split; [set_solver|]. by intros (i & c & H & _).
  - rewrite fmap_app, elem_of_app, IH. split.
    + intros [H|(i & c' & H1 & H2)]; [by exists 0, c|by exists (S i), c'].
    + intros ([|i] & c' & H1 & H2); cbn in H1; [left|right]; naive_solver.
Qed.

Lemma slot_of_exists slots k :
  slots_ok slots -> hash_key k -> exists pre c post, slot_of slots k pre c post.
Proof.
  intros (Hlen & Hp & Hnd) Hk. unfold hash_key in Hk. pose proof (hash_range k) as Hr.
  set (i := Z.to_nat (_hash (Some k) MAX_TABLE_SIZE)).
  destruct (slots !! i) as [c|] eqn:E; [|apply lookup_ge_None in E; lia].
  assert (Hl : length (take i slots) = i)
    by (rewrite length_take; apply lookup_lt_Some in E; lia).
  exists (take i slots), c, (drop (S i) slots). split.
  - by rewrite take_drop_middle.
  - rewrite Hl. lia.
  - rewrite elem_of_concat_keys. intros (j & c' & Hj & Hk').
    apply lookup_take_Some in Hj as [Hj Hlt]. pose proof (Hp _ _ _ Hj Hk'). lia.
  - rewrite elem_of_concat_keys. intros (j & c' & Hj & Hk').
    rewrite lookup_drop in Hj. pose proof (Hp _ _ _ Hj Hk'). lia.
Qed.

Section slot.
  Context (slots : list chain) (k : cstr) (pre : list chain) (c : chain) (post : list chain).
  Context (Hok : slots_ok slots) (Hs : slot_of slots k pre c post).

Lemma table_split :
  nodes (table slots)
  = BLive ((cell_of <$> pre) ++ Some (node_of <$> c) :: (cell_of <$> post)).
Proof. rewrite (so_split _ _ _ _ _ Hs). cbn. by rewrite fmap_app. Qed.

Lemma idx_split : _hash (Some k) MAX_TABLE_SIZE = Z.of_nat (length (cell_of <$> pre)).
Proof. rewrite length_fmap. apply (so_idx _ _ _ _ _ Hs). Qed.

Lemma view_slot_None : chain_index k c = None -> view slots !! k = None.
Proof.
  intros H. apply chain_index_None in H. unfold view. apply not_elem_of_list_to_map.
  rewrite (so_split _ _ _ _ _ Hs), concat_middle, !fmap_app.
  pose proof (so_pre _ _ _ _ _ Hs). pose proof (so_post _ _ _ _ _ Hs). set_solver.
Qed.

Lemma view_slot_Some v : (k, v) ∈ c -> view slots !! k = Some v.
Proof.
  intros H. unfold view. apply elem_of_list_to_map; [apply Hok|].
  rewrite (so_split _ _ _ _ _ Hs), concat_middle. set_solver.
Qed.

(** Replacing the slot's list. *)
Lemma slots_ok_replace c' :
  (forall k', k' ∈ c'.*1 -> k' = k \/ k' ∈ c.*1) ->
  NoDup c'.*1 ->
  slots_ok (pre ++ c' :: post).
Proof.
  intros Hsub Hnd'. destruct Hok as (Hlen & Hp & Hnd).
  rewrite (so_split _ _ _ _ _ Hs) in Hlen, Hp, Hnd. split; [|split].
  - rewrite length_app in *. done.
  - intros i c0 k' Hi Hk'. destruct (decide (i = length pre)) as [->|Hne].
    + rewrite list_lookup_middle in Hi by done. injection Hi as <-.
      destruct (Hsub _ Hk') as [->|Hc]; [apply (so_idx _ _ _ _ _ Hs)|].
      apply (Hp _ c); [by rewrite list_lookup_middle|done].
    + apply (Hp _ c0); [|done].
      destruct (Nat.lt_ge_cases i (length pre)) as [Hlt|Hge].
      * by rewrite lookup_app_l in * by done.
      * rewrite lookup_app_r in * by done.
        destruct (i - length pre)%nat as [|n] eqn:E; [lia|]. done.
  - rewrite concat_middle, !fmap_app in *. apply list.NoDup_app in Hnd as (H1 & H2 & H3).
    apply list.NoDup_app in H3 as (H3 & H4 & H5).
    pose proof (so_pre _ _ _ _ _ Hs). pose proof (so_post _ _ _ _ _ Hs).
    apply list.NoDup_app. split; [done|]. split.
    + intros x Hx Hx'. apply elem_of_app in Hx' as [Hx'|Hx'].
      * destruct (Hsub _ Hx') as [->|]; [done|]. apply (H2 x Hx). set_solver.
      * apply (H2 x Hx). set_solver.
    + apply list.NoDup_app. split; [done|]. split; [|done].
      intros x Hx Hx'. destruct (Hsub _ Hx) as [->|]; [done|]. by apply (H4 x).
Qed.

Lemma nodup_chain : NoDup c.*1.
Proof.
  destruct Hok as (_ & _ & Hnd). rewrite (so_split _ _ _ _ _ Hs), concat_middle, !fmap_app in Hnd.
  apply list.NoDup_app in Hnd as (_ & _ & Hnd). by apply list.NoDup_app in Hnd as (? & _ & _).
Qed.

(** What the map becomes, whatever the new list of the slot. *)
Lemma view_replace c' :
  view (pre ++ c' :: post)
  = list_to_map (concat pre) ∪ (list_to_map c' ∪ list_to_map (concat post)).
Proof. unfold view. by rewrite concat_middle, !list_to_map_app. Qed.

Lemma view_slots :
  view slots = list_to_map (concat pre) ∪ (list_to_map c ∪ list_to_map (concat post)).
Proof. rewrite (so_split _ _ _ _ _ Hs). apply view_replace. Qed.

Lemma map_pre_None : (list_to_map (concat pre) : gmap cstr cstr) !! k = None.
Proof. apply not_elem_of_list_to_map, (so_pre _ _ _ _ _ Hs). Qed.

Lemma map_post_None : (list_to_map (concat post) : gmap cstr cstr) !! k = None.
Proof. apply not_elem_of_list_to_map, (so_post _ _ _ _ _ Hs). Qed.
End slot.

(** ** The operations *)

(** The slot of a key, found and searched: what every operation starts with. *)
Lemma slot_search slots k :
  slots_ok slots -> hash_key k -> exists pre c post,
    slot_of slots k pre c post /\
    ((chain_index k c = None /\ view slots !! k = None) \/
     (exists v p q, c = p ++ (k, v) :: q /\ chain_index k c = Some (length p) /\
        k ∉ p.*1 /\ k ∉ q.*1 /\ view slots !! k = Some v)).
Proof.
  intros Hok Hk. destruct (slot_of_exists slots k Hok Hk) as (pre & c & post & Hs).
  exists pre, c, post. split; [done|].
  destruct (chain_index k c) as [j|] eqn:E; [right|left; split; [done|by eapply view_slot_None]].
  pose proof (nodup_chain _ _ _ _ _ Hok Hs) as Hnd.
  destruct (chain_index_Some _ _ _ E) as (v & p & q & -> & -> & Hp).
  exists v, p, q. rewrite fmap_app in Hnd. cbn in Hnd.
  apply list.NoDup_app in Hnd as (_ & _ & Hnd). apply list.NoDup_cons in Hnd as [Hq _].
  repeat split; try done. eapply view_slot_Some; [done|done|set_solver].
Qed.

Lemma blk_read_table {S} slots k pre c post (s : S * alloc) :
  slot_of slots k pre c post ->
  blk_read (nodes (table slots)) (_hash (Some k) MAX_TABLE_SIZE) s = Ret (node_of <$> c, s).
Proof.
  intros Hs. rewrite (table_split _ _ _ _ _ Hs), (idx_split _ _ _ _ _ Hs). apply blk_read_app.
Qed.

Lemma blk_write_table {S} slots k pre c post c' (s : S * alloc) :
  slot_of slots k pre c post ->
  blk_write (nodes (table slots)) (_hash (Some k) MAX_TABLE_SIZE) (node_of <$> c') s
  = Ret (nodes (table (pre ++ c' :: post)), s).
Proof.
  intros Hs. rewrite (table_split _ _ _ _ _ Hs), (idx_split _ _ _ _ _ Hs).
  rewrite blk_write_app. cbn. by rewrite fmap_app.
Qed.

Lemma chain_lookup (p q : chain) kv :
  (node_of <$> p ++ kv :: q) !! length p = Some (node_of kv).
Proof. by rewrite fmap_app, fmap_cons, list_lookup_middle by (by rewrite length_fmap). Qed.

Lemma chain_update (p q : chain) kv kv' :
  <[length p := node_of kv']> (node_of <$> p ++ kv :: q) = node_of <$> p ++ kv' :: q.
Proof.
  rewrite !fmap_app, insert_app_r_alt by (by rewrite length_fmap).
  by rewrite length_fmap, Nat.sub_diag.
Qed.

Lemma kvs_hash_get_spec h m k al :
  hrep h m -> hash_key k ->
  kvs_hash_get (Some k) (h, al) = Ret (from_option Str Null (m !! k), (h, al)).
Proof.
  intros (slots & -> & Hok & <-) Hk. unfold kvs_hash_get. mcbn.
  destruct (slot_search slots k Hok Hk) as (pre & c & post & Hs & Hc).
  rewrite (bind_ret _ _ _ _ _ (blk_read_table _ _ _ _ _ _ Hs)).
  rewrite (bind_ret _ _ _ _ _ (find_node_chain _ _ _)).
  destruct Hc as [[-> ->]|(v & p & q & -> & -> & _ & _ & ->)]; mcbn; [done|].
  by rewrite chain_lookup.
Qed.

Lemma count_split {A} pre (c : list A) post :
  length (concat (pre ++ c :: post)) = (length (concat pre) + length c + length (concat post))%nat.
Proof. rewrite concat_middle, !length_app. lia. Qed.

Lemma kvs_hash_set_new h m k v :
  hrep h m -> hash_key k -> m !! k = None ->
  exists h', kvs_hash_set (Some k) (Some v) (h, []) = Ret (0%Z, (h', [])) /\
    hrep h' (<[k := v]> m).
Proof.
  intros (slots & -> & Hok & <-) Hk Hm. unfold kvs_hash_set. mcbn.
  destruct (slot_search slots k Hok Hk) as (pre & c & post & Hs & Hc).
  rewrite (bind_ret _ _ _ _ _ (blk_read_table _ _ _ _ _ _ Hs)).
  rewrite (bind_ret _ _ _ _ _ (find_node_chain _ _ _)).
  destruct Hc as [[E _]|(v' & p & q & -> & _ & _ & _ & E)]; [|congruence].
  rewrite E. unfold _create_node. mcbn.
  change (mk_node (Str k) (Str v) :: (node_of <$> c)) with (node_of <$> ((k, v) :: c)).
  rewrite (bind_ret _ _ _ _ _ (blk_write_table _ _ _ _ _ _ _ Hs)). mcbn.
  exists (table (pre ++ ((k, v) :: c) :: post)). split.
  - unfold table, set_nodes, set_count. cbn. rewrite (so_split _ _ _ _ _ Hs), !count_split.
    cbn [length]. do 4 f_equal. lia.
  - exists (pre ++ ((k, v) :: c) :: post). split; [done|]. split.
    + eapply slots_ok_replace; eauto; [set_solver|].
      cbn. apply list.NoDup_cons. split; [by apply chain_index_None|by eapply nodup_chain].
    + rewrite view_replace, (view_slots _ _ _ _ _ Hs).
      rewrite insert_union_r by (by eapply map_pre_None). by rewrite insert_union_l.
Qed.

Lemma kvs_hash_set_old h m k v al :
  hrep h m -> hash_key k -> is_Some (m !! k) ->
  kvs_hash_set (Some k) (Some v) (h, al) = Ret (1%Z, (h, al)).
Proof.
  intros (slots & -> & Hok & <-) Hk [w Hm]. unfold kvs_hash_set. mcbn.
  destruct (slot_search slots k Hok Hk) as (pre & c & post & Hs & Hc).
  rewrite (bind_ret _ _ _ _ _ (blk_read_table _ _ _ _ _ _ Hs)).
  rewrite (bind_ret _ _ _ _ _ (find_node_chain _ _ _)).
  destruct Hc as [[_ E]|(v' & p & q & -> & -> & _ & _ & E)]; [congruence|done].
Qed.

Lemma kvs_hash_mod_spec h m k v :
  hrep h m -> hash_key k ->
  exists h', kvs_hash_mod (Some k) (Some v) (h, [])
    = Ret ((if m !! k then 0 else 1)%Z, (h', [])) /\
    hrep h' (if m !! k then <[k := v]> m else m).
Proof.
  intros (slots & -> & Hok & <-) Hk. unfold kvs_hash_mod. mcbn.
  destruct (slot_search slots k Hok Hk) as (pre & c & post & Hs & Hc).
  rewrite (bind_ret _ _ _ _ _ (blk_read_table _ _ _ _ _ _ Hs)).
  rewrite (bind_ret _ _ _ _ _ (find_node_chain _ _ _)).
  destruct Hc as [[-> ->]|(w & p & q & -> & -> & Hp & Hq & Hv)]; mcbn.
  { eexists. split; [done|]. by exists slots. }
  rewrite Hv.
  rewrite chain_lookup. cbn [node_of fst snd key value free_str]. mcbn.
  rewrite (table_split _ _ _ _ _ Hs), (idx_split _ _ _ _ _ Hs). mrun blk_write_app. mcbn.
  mrun blk_write_app. mcbn.
  change (mk_node (Str k) (Str v)) with (node_of (k, v)). rewrite chain_update.
  exists (table (pre ++ (p ++ (k, v) :: q) :: post)). split.
  - unfold table, set_nodes. cbn. rewrite (so_split _ _ _ _ _ Hs), !count_split.
    by rewrite !length_app, (fmap_app cell_of), fmap_cons.
  - exists (pre ++ (p ++ (k, v) :: q) :: post). split; [done|].
    pose proof (nodup_chain _ _ _ _ _ Hok Hs) as Hnd. split.
    + eapply slots_ok_replace; [done|done| |].
      * intros k'. rewrite !fmap_app. set_solver.
      * rewrite fmap_app in *. done.
    + rewrite view_replace, (view_slots _ _ _ _ _ Hs), !list_to_map_app.
      cbn. rewrite insert_union_r by (by eapply map_pre_None). f_equal.
      rewrite <- !map_union_assoc, insert_union_r by (by apply not_elem_of_list_to_map).
      f_equal. by rewrite !insert_union_l, insert_insert_eq.
Qed.

Lemma unlink_absent k c s :
  k ∉ c.*1 -> unlink k (node_of <$> c) s = Ret (None, s).
Proof.
  induction c as [|[k' v] c IH]; intros Hk; [done|].
  cbn [fmap list_fmap unlink node_of key fst snd deref]. mcbn. cbn in Hk.
  rewrite (proj2 (Z.eqb_neq _ _)) by (rewrite strcmp_eq; set_solver).
  mrun IH by set_solver. done.
Qed.

Lemma unlink_found k v p q s :
  k ∉ p.*1 ->
  unlink k (node_of <$> p ++ (k, v) :: q) s = Ret (Some (node_of <$> p ++ q), s).
Proof.
  induction p as [|[k' w] p IH]; intros Hk; cbn [app].
  - cbn [fmap list_fmap unlink node_of key value fst snd deref free_str]. mcbn.
    rewrite strcmp_refl. cbn. mcbn. done.
  - cbn [fmap list_fmap unlink node_of key fst snd deref]. mcbn. cbn in Hk.
    rewrite (proj2 (Z.eqb_neq _ _)) by (rewrite strcmp_eq; set_solver).
    mrun IH by set_solver. done.
Qed.

Lemma view_delete_slot slots k v pre p q post :
  slots_ok slots -> slot_of slots k pre (p ++ (k, v) :: q) post ->
  slots_ok (pre ++ (p ++ q) :: post) /\
  view (pre ++ (p ++ q) :: post) = delete k (view slots).
Proof.
  intros Hok Hs. pose proof (nodup_chain _ _ _ _ _ Hok Hs) as Hnd. split.
  - eapply slots_ok_replace; [done|done| |].
    + intros k'. rewrite !fmap_app. set_solver.
    + rewrite fmap_app in *. cbn in Hnd. apply list.NoDup_app in Hnd as (H1 & H2 & H3).
      apply list.NoDup_cons in H3 as [H3 H4].
      apply list.NoDup_app. split; [done|]. split; [set_solver|done].
  - rewrite fmap_app in Hnd. cbn in Hnd. apply list.NoDup_app in Hnd as (H1 & H2 & H3).
    apply list.NoDup_cons in H3 as [H3 _].
    assert (Hp : k ∉ p.*1) by (intros Hx; specialize (H2 _ Hx); set_solver).
    rewrite view_replace, (view_slots _ _ _ _ _ Hs), !list_to_map_app. cbn.
    rewrite !delete_union, delete_insert_eq.
    rewrite (delete_id (list_to_map (concat pre))) by (by eapply map_pre_None).
    rewrite (delete_id (list_to_map (concat post))) by (by eapply map_post_None).
    by rewrite !delete_id by (by apply not_elem_of_list_to_map).
Qed.

Lemma kvs_hash_del_spec h m k :
  hrep h m -> hash_key k ->
  exists h', kvs_hash_del (Some k) (h, []) = Ret ((if m !! k then 0 else -1)%Z, (h', [])) /\
    hrep h' (delete k m).
Proof.
  intros (slots & -> & Hok & <-) Hk. unfold kvs_hash_del. mcbn.
  destruct (slot_search slots k Hok Hk) as (pre & c & post & Hs & Hc).
  rewrite (bind_ret _ _ _ _ _ (blk_read_table _ _ _ _ _ _ Hs)).
  destruct Hc as [[E Hv]|(v & p & q & -> & E & Hp & Hq & Hv)]; rewrite Hv.
  - exists (table slots). split; [|rewrite delete_id by done; by exists slots].
    apply chain_index_None in E. destruct c as [|[k' w] c]; [done|].
    rewrite fmap_cons. cbn [node_of fst snd key deref]. mcbn. cbn in E.
    rewrite (proj2 (Z.eqb_neq _ _)) by (rewrite strcmp_eq; set_solver).
    mrun unlink_absent by set_solver. done.
  - destruct (view_delete_slot _ _ _ _ _ _ _ Hok Hs) as [Hok' Hv'].
    assert (Ht : set_count (count (table slots) - 1) (set_nodes
        (nodes (table (pre ++ (p ++ q) :: post))) (table slots))
        = table (pre ++ (p ++ q) :: post)).
    { unfold table, set_nodes, set_count. cbn. rewrite (so_split _ _ _ _ _ Hs), !count_split.
      rewrite !length_app. cbn [length]. f_equal. lia. }
    exists (table (pre ++ (p ++ q) :: post)). split; [|by exists (pre ++ (p ++ q) :: post)].
    destruct p as [|[k' w] p]; cbn [app] in *.
    + rewrite fmap_cons. cbn [node_of fst snd key deref]. mcbn. rewrite strcmp_refl. cbn [Z.eqb].
      rewrite (bind_ret _ _ _ _ _ (blk_write_table _ _ _ _ _ _ _ Hs)). mcbn.
      cbn [count set_nodes]. rewrite <- Ht. done.
    + rewrite fmap_cons. cbn [node_of fst snd key deref]. mcbn. cbn in Hp.
      rewrite (proj2 (Z.eqb_neq _ _)) by (rewrite strcmp_eq; set_solver).
      mrun unlink_found by set_solver. cbn iota.
      change (node_of (k', w) :: (node_of <$> p ++ q))
        with (node_of <$> ((k', w) :: p ++ q)).
      rewrite (bind_ret _ _ _ _ _ (blk_write_table _ _ _ _ _ _ _ Hs)). mcbn.
      rewrite <- Ht. done.
Qed.

Lemma hrep_count h m : hrep h m -> count h = Z.of_nat (size m).
Proof.
  intros (slots & -> & (_ & _ & Hnd) & <-). cbn. f_equal. unfold view.
  rewrite <- (length_map_to_list (list_to_map (concat slots))).
  by rewrite map_to_list_to_map.
Qed.

#[export] Instance hash_engine : KvEngine hashtable_t := {|
  eng_set := kvs_hash_set;
  eng_get := kvs_hash_get;
  eng_rep := hrep;
  eng_key := hash_key;
  eng_room := fun _ => True;
  eng_dup := 1
|}.

#[export] Instance hash_engine_laws : KvEngineLaws hashtable_t.
Proof.
  split.
  - intros h m k al Hr Hk. by apply kvs_hash_get_spec.
  - intros h m k v Hr Hk _ Hm. by apply kvs_hash_set_new.
  - intros h m k v w Hr Hk _ Hm. exists h. split; [|done].
    by apply (kvs_hash_set_old h m); eauto.
Qed.

(** ** Properties *)

(** C10: with enough memory, on a table that holds the map [m] and a key whose
    character sum is not negative modulo the table size, set, get, exist, mod, del
    and count are the operations of the map, and return what the source documents. *)
Theorem hash_refines_map h m k v :
  hrep h m -> hash_key k ->
  kvs_hash_get (Some k) (h, []) = Ret (from_option Str Null (m !! k), (h, [])) /\
  kvs_hash_exist (Some k) (h, []) = Ret ((if m !! k then 0 else 1)%Z, (h, [])) /\
  kvs_hash_count (h, []) = Ret (Z.of_nat (size m), (h, [])) /\
  (exists h', kvs_hash_set (Some k) (Some v) (h, [])
     = Ret ((if m !! k then 1 else 0)%Z, (h', [])) /\
     hrep h' (if m !! k then m else <[k := v]> m)) /\
  (exists h', kvs_hash_mod (Some k) (Some v) (h, [])
     = Ret ((if m !! k then 0 else 1)%Z, (h', [])) /\
     hrep h' (if m !! k then <[k := v]> m else m)) /\
  (exists h', kvs_hash_del (Some k) (h, [])
     = Ret ((if m !! k then 0 else -1)%Z, (h', [])) /\
     hrep h' (delete k m)).
Proof.
  intros Hr Hk. pose proof (kvs_hash_get_spec h m k [] Hr Hk) as Hg.
  split; [done|]. split.
  { unfold kvs_hash_exist. rewrite (bind_ret _ _ _ _ _ Hg). by destruct (m !! k). }
  split; [unfold kvs_hash_count; mcbn; by rewrite (hrep_count h m Hr)|].
  split; [|split; [by apply kvs_hash_mod_spec|by apply kvs_hash_del_spec]].
  destruct (m !! k) as [w|] eqn:E; [|by apply kvs_hash_set_new].
  exists h. split; [|done]. apply (kvs_hash_set_old h m); eauto.
Qed.

Definition empty_table : hashtable_t := table (replicate 1024 []).

Lemma empty_concat : concat (replicate 1024 ([] : chain)) = [].
Proof. vm_compute. reflexivity. Qed.

Lemma empty_slots_ok : slots_ok (replicate 1024 []).
Proof.
  split; [by vm_compute|]. split; [|rewrite empty_concat; apply NoDup_nil_2].
  intros i c k Hi Hk. apply lookup_replicate_1 in Hi as [-> _]. by apply not_elem_of_nil in Hk.
Qed.

Lemma hrep_empty : hrep empty_table ∅.
Proof.
  exists (replicate 1024 []). split; [done|]. split; [apply empty_slots_ok|].
  unfold view. by rewrite empty_concat.
Qed.

Example hash_refines_map_witness :
  hrep empty_table ∅ /\ hash_key (bs "Teacher") /\
  exists h', kvs_hash_set (Some (bs "Teacher")) (Some (bs "King")) (empty_table, [])
    = Ret ((if (∅ : gmap cstr cstr) !! bs "Teacher" then 1 else 0)%Z, (h', [])) /\
    hrep h' (if (∅ : gmap cstr cstr) !! bs "Teacher" then ∅
             else <[bs "Teacher" := bs "King"]> ∅).
Proof.
  assert (Hk : hash_key (bs "Teacher")) by (vm_compute; discriminate).
  split; [apply hrep_empty|]. split; [exact Hk|].
  destruct (hash_refines_map empty_table ∅ (bs "Teacher") (bs "King") hrep_empty Hk)
    as (_ & _ & _ & H & _). exact H.
Defined.

(** A key with bytes above 127 can have a negative character sum; then every
    operation indexes the block at a negative offset. *)
Theorem hash_negative_index h c k v :
  nodes h = BLive c -> ~ hash_key k ->
  kvs_hash_set (Some k) (Some v) (h, []) = Fault OutOfBounds /\
  kvs_hash_get (Some k) (h, []) = Fault OutOfBounds /\
  kvs_hash_mod (Some k) (Some v) (h, []) = Fault OutOfBounds /\
  kvs_hash_del (Some k) (h, []) = Fault OutOfBounds.
Proof.
  intros Hn Hk.
  assert (Hr : blk_read (nodes h) (_hash (Some k) MAX_TABLE_SIZE) (h, ([] : alloc))
             = Fault OutOfBounds).
  { unfold hash_key in Hk. rewrite Hn. cbn [blk_read].
    destruct (Z.ltb_spec (_hash (Some k) MAX_TABLE_SIZE) 0); [done|lia]. }
  unfold kvs_hash_set, kvs_hash_get, kvs_hash_mod, kvs_hash_del. mcbn.
  by repeat split; apply bind_fault.
Qed.

Example hash_negative_index_witness :
  ~ hash_key [xe4; xb8; xad] /\
  kvs_hash_set (Some [xe4; xb8; xad]) (Some (bs "v")) (empty_table, []) = Fault OutOfBounds.
Proof.
  assert (Hk : ~ hash_key [xe4; xb8; xad]) by (vm_compute; intros H; by apply H).
  split; [exact Hk|].
  exact (proj1 (hash_negative_index empty_table _ [xe4; xb8; xad] (bs "v") eq_refl Hk)).
Defined.

(** [kvs_hash_create] does not clear the block of list heads; with a block
    whose cell for the key was never written, the first set reads garbage. *)
Theorem hash_create_leaves_garbage fresh k v :
  fresh !! Z.to_nat (_hash (Some k) MAX_TABLE_SIZE) = Some None -> hash_key k ->
  (kvs_hash_create fresh ;; kvs_hash_set (Some k) (Some v)) (global_hash0, [])
  = Fault Indeterminate.
Proof.
  intros Hf Hk. unfold kvs_hash_create, kvs_hash_set. mcbn. cbn [nodes].
  apply bind_fault. unfold blk_read, hash_key in *.
  destruct (Z.ltb_spec (_hash (Some k) MAX_TABLE_SIZE) 0); [lia|]. by rewrite Hf.
Qed.

Example hash_create_leaves_garbage_witness :
  (kvs_hash_create (replicate 1024 None) ;; kvs_hash_set (Some (bs "k")) (Some (bs "v")))
    (global_hash0, []) = Fault Indeterminate.
Proof.
  apply (hash_create_leaves_garbage (replicate 1024 None) (bs "k") (bs "v")).
  - vm_compute. reflexivity.
  - vm_compute. discriminate.
Defined.

End Hash.
