(* ===== verification/HashOld.v ===== *)
(** * The stand-alone hash table ([src/hash.c])

    The earlier version of the hash engine: keys and values are arrays inside the nodes,
    filled by [strncpy], and every operation but [count_kv_hashtable] takes the table's
    mutex.  An array is the list of its bytes; comparing a key that has no NUL reads past
    it.  The hash function and the reasoning on slots are those of [KvsHash]. *)

From S2P Require Import Prelude KvsHash.

Module HashOld.
Import Hash(_hash, MAX_TABLE_SIZE, hash_key, chain, slots_ok, slot_of, view, chain_index).

Definition MAX_KEY_LEN : nat := 128.
Definition MAX_VALUE_LEN : nat := 512.

Record hashnode_t := mk_node { key : list byte; value : list byte }.

(** [nodes[i]] is the list of the nodes that [next] links. *)
Record hashtable_t := mk_hash {
  nodes : blk (list hashnode_t);
  max_slots : Z;
  count : Z;
  lock : mutex
}.

Abbreviation ht A := (M hashtable_t A).

Definition set_nodes n h := mk_hash n (max_slots h) (count h) (lock h).
Definition set_count c h := mk_hash (nodes h) (max_slots h) c (lock h).
Definition set_lock l h := mk_hash (nodes h) (max_slots h) (count h) l.

(** The global [hash]. *)
Definition hash0 : hashtable_t := mk_hash BNull 0 0 Unlocked.

Definition pthread_mutex_lock : ht unit :=
  h ← get; m ← mutex_lock (lock h); modify (set_lock m).
Definition pthread_mutex_unlock : ht unit :=
  h ← get; m ← mutex_unlock (lock h); modify (set_lock m).

(** [strncpy(dst, s, n)] into an array of [n] bytes: no NUL is written after [n] or more
    characters. *)
Definition strncpy (n : nat) (s : cstr) : list byte := take n s ++ replicate (n - length s) x00.

(** [strcmp] of an array and a string: [None] when it runs past the array. *)
Fixpoint strcmp_arr (buf : list byte) (s : cstr) : option Z :=
  match buf, s with
  | [], _ => None
  | b :: _, [] => Some (if decide (b = x00) then 0 else 1)%Z
  | b :: buf, c :: s =>
      if decide (b = x00) then Some (-1)%Z
      else if decide (b = c) then strcmp_arr buf s else Some (Z.sgn (b2z b - b2z c))
  end.

Definition same_key (n : hashnode_t) (key0 : cstr) : ht bool :=
  match strcmp_arr (key n) key0 with
  | None => raise BufferOverflow
  | Some c => mret (c =? 0)%Z
  end.

Definition _create_node (key0 value0 : cstr) : ht (option hashnode_t) :=
  ok ← malloc_ok;
  if negb ok then mret None else
  mret (Some (mk_node (strncpy MAX_KEY_LEN key0) (strncpy MAX_VALUE_LEN value0))).

(** [fresh]: what the block of list heads holds when [malloc] returns it. *)
Definition init_hashtable (fresh : list (option (list hashnode_t))) : ht Z :=
  ok ← malloc_ok;
  if negb ok then modify (set_nodes BNull) ;; mret (-1)%Z else
  modify (fun _ => mk_hash (BLive fresh) MAX_TABLE_SIZE 0 Unlocked) ;;
  mret 0%Z.

(** The inner loop frees the nodes of slot [i] from the head on. *)
Fixpoint free_chain (i : nat) (node : list hashnode_t) : ht unit :=
  match node with
  | [] => mret tt
  | _ :: node =>
      h ← get;
      t ← blk_write (nodes h) (Z.of_nat i) node;
      modify (set_nodes t) ;;
      free_chain i node
  end.

Fixpoint free_slots (i n : nat) : ht unit :=
  match n with
  | O => mret tt
  | S n =>
      h ← get;
      node ← blk_read (nodes h) (Z.of_nat i);
      free_chain i node ;;
      free_slots (S i) n
  end.

Definition dest_hashtable : ht unit :=
  h ← get;
  free_slots 0 (Z.to_nat (max_slots h)) ;;
  modify (set_nodes BFreed).

(** The search loops. *)
Fixpoint find_node (key0 : cstr) (node : list hashnode_t) : ht (option hashnode_t) :=
  match node with
  | [] => mret None
  | n :: node =>
      b ← same_key n key0;
      if b : bool then mret (Some n) else find_node key0 node
  end.

Definition put_kv_hashtable (key0 value0 : option cstr) : ht Z :=
  match key0, value0 with
  | Some key0, Some value0 =>
      let idx := _hash (Some key0) MAX_TABLE_SIZE in
      pthread_mutex_lock ;;
      h ← get;
      node ← blk_read (nodes h) idx;
      r ← find_node key0 node;
      match r with
      | Some _ => pthread_mutex_unlock ;; mret 1%Z
      | None =>
          new_node ← _create_node key0 value0;
          match new_node with
          | None => raise NullDeref
          | Some new_node =>
              t ← blk_write (nodes h) idx (new_node :: node);
              modify (set_nodes t) ;;
              modify (fun h => set_count (count h + 1) h) ;;
              pthread_mutex_unlock ;;
              mret 0%Z
          end
      end
  | _, _ => mret (-1)%Z
  end.

(** The value is the array inside the node. *)
Definition get_kv_hashtable (key0 : option cstr) : ht (option (list byte)) :=
  match key0 with
  | None => mret None
  | Some key0 =>
      let idx := _hash (Some key0) MAX_TABLE_SIZE in
      pthread_mutex_lock ;;
      h ← get;
      node ← blk_read (nodes h) idx;
      r ← find_node key0 node;
      pthread_mutex_unlock ;;
      mret (value <$> r)
  end.

Definition count_kv_hashtable : ht Z := h ← get; mret (count h).

(** The loop on [cur->next]: what the list after [cur] becomes, [None] at its end. *)
Fixpoint unlink (key0 : cstr) (rest : list hashnode_t) : ht (option (list hashnode_t)) :=
  match rest with
  | [] => mret None
  | tmp :: rest =>
      b ← same_key tmp key0;
      if b : bool then mret (Some rest) else r ← unlink key0 rest; mret (cons tmp <$> r)
  end.

(** An empty slot returns with the mutex held. *)
Definition delete_kv_hashtable (key0 : option cstr) : ht Z :=
  match key0 with
  | None => mret (-2)%Z
  | Some key0 =>
      let idx := _hash (Some key0) MAX_TABLE_SIZE in
      pthread_mutex_lock ;;
      h ← get;
      node ← blk_read (nodes h) idx;
      match node with
      | [] => mret (-1)%Z
      | head :: rest =>
          b ← same_key head key0;
          r ← (if b : bool then mret (Some rest) else r ← unlink key0 rest; mret (cons head <$> r));
          match r with
          | None => pthread_mutex_unlock ;; mret (-1)%Z
          | Some node =>
              t ← blk_write (nodes h) idx node;
              modify (set_nodes t) ;;
              modify (fun h => set_count (count h - 1) h) ;;
              pthread_mutex_unlock ;;
              mret 0%Z
          end
      end
  end.

Definition exist_kv_hashtable (key0 : option cstr) : ht Z :=
  v ← get_kv_hashtable key0;
  match v with Some _ => mret 1%Z | None => mret 0%Z end.

(** ** Arrays that hold strings *)

Definition short_key (k : cstr) : Prop := cstr_ok k /\ length k < MAX_KEY_LEN.
Definition short_value (v : cstr) : Prop := cstr_ok v /\ length v < MAX_VALUE_LEN.

#[export] Instance short_key_dec k : Decision (short_key k).
Proof. unfold short_key. apply _. Defined.

Lemma length_strncpy n s : length (strncpy n s) = n.
Proof. unfold strncpy. rewrite length_app, length_take, length_replicate. lia. Qed.

Lemma strncpy_short n s : length s < n -> exists l, strncpy n s = s ++ x00 :: l.
Proof.
  intros H. unfold strncpy. rewrite take_ge by lia.
  destruct (n - length s) as [|m] eqn:E; [lia|]. by exists (replicate m x00).
Qed.

Lemma cut_strncpy n s : cstr_ok s -> length s < n -> cut_nul (strncpy n s) = s.
Proof. intros Hs Hn. destruct (strncpy_short n s Hn) as [l ->]. by apply cut_nul_app_nul. Qed.

Lemma strcmp_arr_app k l s :
  cstr_ok k -> cstr_ok s -> strcmp_arr (k ++ x00 :: l) s = Some (strcmp k s).
Proof.
  unfold cstr_ok. revert s. induction k as [|b k IH]; intros [|c s] Hk Hs; cbn [app strcmp_arr strcmp].
  - by rewrite decide_True.
  - by rewrite decide_True.
  - rewrite decide_False by set_solver. done.
  - rewrite decide_False by set_solver. case_decide; [|done]. apply IH; set_solver.
Qed.

(** A key of 128 characters or more fills its array. *)
Lemma strcmp_arr_full k n :
  cstr_ok k -> n <= length k -> strcmp_arr (strncpy n k) k = None.
Proof.
  intros Hk Hn. unfold strncpy. replace (n - length k) with 0 by lia. cbn [replicate].
  rewrite app_nil_r. revert n Hn. unfold cstr_ok in Hk.
  induction k as [|b k IH]; intros [|n] Hn; cbn [take strcmp_arr length] in *; [done..|].
  rewrite decide_False by set_solver. rewrite decide_True by done. apply IH; [set_solver|lia].
Qed.

Lemma same_key_short k v k' s :
  short_key k -> cstr_ok k' ->
  same_key (mk_node (strncpy MAX_KEY_LEN k) v) k' s = Ret (bool_decide (k = k'), s).
Proof.
  intros [Hk Hl] Hk'. unfold same_key. cbn [key].
  destruct (strncpy_short _ _ Hl) as [l ->]. rewrite strcmp_arr_app by done.
  rewrite run_mret. do 2 f_equal. apply eq_true_iff_eq. rewrite bool_decide_eq_true, Z.eqb_eq. apply strcmp_eq.
Qed.

(** ** The map a table holds *)

Definition node_of (kv : cstr * cstr) : hashnode_t :=
  mk_node (strncpy MAX_KEY_LEN kv.1) (strncpy MAX_VALUE_LEN kv.2).

Definition cell_of (c : chain) : option (list hashnode_t) := Some (node_of <$> c).

Definition table (slots : list chain) : hashtable_t :=
  mk_hash (BLive (cell_of <$> slots)) MAX_TABLE_SIZE (Z.of_nat (length (concat slots))) Unlocked.

Definition locked (h : hashtable_t) : hashtable_t := set_lock Locked h.

Lemma lock_run slots (al : alloc) : pthread_mutex_lock (table slots, al) = Ret (tt, (locked (table slots), al)).
Proof. done. Qed.

Lemma find_node_absent k c s :
  cstr_ok k -> Forall short_key c.*1 -> k ∉ c.*1 -> find_node k (node_of <$> c) s = Ret (None, s).
Proof.
  intros Hk. induction c as [|[k' v] c IH]; intros Hc Hn; [done|].
  inversion_clear Hc as [|? ? H1 H2]. cbn in Hn.
  cbn [fmap list_fmap find_node node_of fst snd]. mrun same_key_short.
  rewrite bool_decide_eq_false_2 by set_solver. apply IH; [done|set_solver].
Qed.

Lemma find_node_found k v p q s :
  cstr_ok k -> Forall short_key (p ++ (k, v) :: q).*1 -> k ∉ p.*1 ->
  find_node k (node_of <$> p ++ (k, v) :: q) s = Ret (Some (node_of (k, v)), s).
Proof.
  intros Hk. induction p as [|[k' w] p IH]; cbn [app]; intros Hc Hn;
    inversion_clear Hc as [|? ? H1 H2];
    cbn [fmap list_fmap find_node]; cbn [node_of fst snd]; mrun same_key_short; cbn in Hn.
  - by rewrite bool_decide_eq_true_2.
  - rewrite bool_decide_eq_false_2 by set_solver. apply IH; [done|set_solver].
Qed.

Lemma old_unlink_absent k c s :
  cstr_ok k -> Forall short_key c.*1 -> k ∉ c.*1 -> unlink k (node_of <$> c) s = Ret (None, s).
Proof.
  intros Hk. induction c as [|[k' v] c IH]; intros Hc Hn; [done|].
  inversion_clear Hc as [|? ? H1 H2]. cbn in Hn.
  cbn [fmap list_fmap unlink node_of fst snd]. mrun same_key_short.
  rewrite bool_decide_eq_false_2 by set_solver.
  mrun IH by (first [done|set_solver]). done.
Qed.

Lemma old_unlink_found k v p q s :
  cstr_ok k -> Forall short_key (p ++ (k, v) :: q).*1 -> k ∉ p.*1 ->
  unlink k (node_of <$> p ++ (k, v) :: q) s = Ret (Some (node_of <$> p ++ q), s).
Proof.
  intros Hk. induction p as [|[k' w] p IH]; cbn [app]; intros Hc Hn;
    inversion_clear Hc as [|? ? H1 H2];
    cbn [fmap list_fmap unlink]; cbn [node_of fst snd]; mrun same_key_short; cbn in Hn.
  - by rewrite bool_decide_eq_true_2.
  - rewrite bool_decide_eq_false_2 by set_solver. mrun IH by (first [done|set_solver]). done.
Qed.

(** ** The operations *)

Definition short_map (m : gmap cstr cstr) : Prop :=
  map_Forall (fun k v => short_key k /\ short_value v) m.

(** The table is unlocked and holds the map [m], whose keys and values fit the arrays. *)
Definition hrep (h : hashtable_t) (m : gmap cstr cstr) : Prop :=
  exists slots, h = table slots /\ slots_ok slots /\ view slots = m /\ short_map m.

Lemma table_read {S} slots k pre c post (s : S * alloc) :
  slot_of slots k pre c post ->
  blk_read (nodes (table slots)) (_hash (Some k) MAX_TABLE_SIZE) s = Ret (node_of <$> c, s).
Proof.
  intros Hs. rewrite (Hash.idx_split _ _ _ _ _ Hs), (Hash.so_split _ _ _ _ _ Hs).
  rewrite length_fmap, <- (length_fmap cell_of pre). cbn [table nodes].
  rewrite fmap_app, fmap_cons. apply blk_read_app.
Qed.

Lemma table_write {S} slots k pre c post c' (s : S * alloc) :
  slot_of slots k pre c post ->
  blk_write (nodes (table slots)) (_hash (Some k) MAX_TABLE_SIZE) (node_of <$> c') s
  = Ret (nodes (table (pre ++ c' :: post)), s).
Proof.
  intros Hs. rewrite (Hash.idx_split _ _ _ _ _ Hs), (Hash.so_split _ _ _ _ _ Hs).
  rewrite length_fmap, <- (length_fmap cell_of pre). cbn [table nodes].
  rewrite !fmap_app, !fmap_cons. apply blk_write_app.
Qed.

Lemma short_chain slots k pre c post :
  slots_ok slots -> slot_of slots k pre c post -> short_map (view slots) -> Forall short_key c.*1.
Proof.
  intros Hok Hs Hm. apply list.Forall_forall. intros k' Hk'.
  apply list_elem_of_fmap in Hk' as ([k1 v1] & -> & Hin).
  assert (E : view slots !! k1 = Some v1).
  { unfold view. apply elem_of_list_to_map; [apply Hok|].
    rewrite (Hash.so_split _ _ _ _ _ Hs), concat_app. cbn. set_solver. }
  by apply (Hm _ _ E).
Qed.

(** The operations of [chain]'s slot run on the key's list [c]. *)
Inductive located (slots : list chain) (k : cstr) pre c post : Prop :=
  | at_none :
      slot_of slots k pre c post -> Forall short_key c.*1 ->
      k ∉ c.*1 -> view slots !! k = None -> located slots k pre c post
  | at_some v p q :
      slot_of slots k pre c post -> Forall short_key c.*1 ->
      c = p ++ (k, v) :: q -> k ∉ p.*1 -> view slots !! k = Some v -> located slots k pre c post.

Lemma locate slots k :
  slots_ok slots -> short_map (view slots) -> hash_key k -> exists pre c post, located slots k pre c post.
Proof.
  intros Hok Hm Hk. destruct (Hash.slot_search slots k Hok Hk) as (pre & c & post & Hs & Hc).
  exists pre, c, post. pose proof (short_chain _ _ _ _ _ Hok Hs Hm) as Hf.
  destruct Hc as [[Hi Hv]|(v & p & q & -> & _ & Hp & _ & Hv)].
  - apply at_none; try done. by apply Hash.chain_index_None.
  - by eapply at_some.
Qed.

Lemma located_slot slots k pre c post : located slots k pre c post -> slot_of slots k pre c post.
Proof. by destruct 1. Qed.

Lemma find_located slots k pre c post s :
  cstr_ok k -> located slots k pre c post ->
  find_node k (node_of <$> c) s = Ret ((fun v => node_of (k, v)) <$> view slots !! k, s).
Proof.
  intros Hk [Hs Hf Hn Hv|v p q Hs Hf -> Hn Hv]; rewrite Hv.
  - by apply find_node_absent.
  - by apply find_node_found.
Qed.

Lemma put_run h m k v :
  hrep h m -> hash_key k -> short_key k -> short_value v ->
  exists h', put_kv_hashtable (Some k) (Some v) (h, []) = Ret ((if m !! k then 1 else 0)%Z, (h', [])) /\
    hrep h' (if m !! k then m else <[k := v]> m).
Proof.
  intros (slots & -> & Hok & <- & Hm) Hk Hsk Hsv. destruct (locate slots k Hok Hm Hk) as (pre & c & post & Hl).
  pose proof (located_slot _ _ _ _ _ Hl) as Hs.
  unfold put_kv_hashtable. mrun lock_run. mcbn. cbn [locked set_lock nodes].
  mrun (table_read _ _ _ _ _ _ Hs). rewrite (bind_ret _ _ _ _ _ (find_located _ _ _ _ _ _ (proj1 Hsk) Hl)).
  destruct (view slots !! k) as [w|] eqn:E; cbn [fmap option_fmap option_map].
  { exists (table slots). split; [done|]. by exists slots. }
  unfold _create_node. mcbn.
  change (mk_node (strncpy MAX_KEY_LEN k) (strncpy MAX_VALUE_LEN v) :: (node_of <$> c))
    with (node_of <$> ((k, v) :: c)).
  mrun (table_write _ _ _ _ _ ((k, v) :: c) _ Hs). mcbn.
  exists (table (pre ++ ((k, v) :: c) :: post)). split.
  - unfold table, set_lock, set_nodes, set_count, pthread_mutex_unlock. cbn [count].
    mcbn. cbn [lock mutex_unlock nodes max_slots count]. mcbn.
    rewrite (Hash.so_split _ _ _ _ _ Hs), !Hash.count_split. cbn [length]. unfold set_lock. cbn. mcbn.
   
    do 4 f_equal.
    cbn [count]. lia.
  - assert (Hin : k ∉ c.*1) by (destruct Hl as [_ _ Hn _|w p q _ _ _ _ E2]; congruence).
    exists (pre ++ ((k, v) :: c) :: post). split; [done|]. split; [|split].
    + eapply Hash.slots_ok_replace; eauto; [set_solver|].
      cbn. apply list.NoDup_cons. split; [done|by eapply Hash.nodup_chain].
    + rewrite Hash.view_replace, (Hash.view_slots _ _ _ _ _ Hs).
      rewrite insert_union_r by (by eapply Hash.map_pre_None). by rewrite insert_union_l.
    + by apply map_Forall_insert_2.
Qed.

Lemma get_run h m k al :
  hrep h m -> hash_key k -> cstr_ok k ->
  get_kv_hashtable (Some k) (h, al) = Ret (strncpy MAX_VALUE_LEN <$> m !! k, (h, al)).
Proof.
  intros (slots & -> & Hok & <- & Hm) Hk Hsk. destruct (locate slots k Hok Hm Hk) as (pre & c & post & Hl).
  unfold get_kv_hashtable. mrun lock_run. mcbn. cbn [locked set_lock nodes].
  mrun (table_read _ _ _ _ _ _ (located_slot _ _ _ _ _ Hl)).
  rewrite (bind_ret _ _ _ _ _ (find_located _ _ _ _ _ _ Hsk Hl)).
  by destruct (view slots !! k) as [w|].
Qed.

(** Some key of the map has the same slot as [k]. *)
Definition slot_used (m : gmap cstr cstr) (k : cstr) : Prop :=
  exists k', is_Some (m !! k') /\ _hash (Some k') MAX_TABLE_SIZE = _hash (Some k) MAX_TABLE_SIZE.

Lemma slot_used_chain slots k pre c post :
  slots_ok slots -> slot_of slots k pre c post -> slot_used (view slots) k <-> c <> [].
Proof.
  intros Hok Hs. pose proof Hok as (_ & Hp & Hnd).
  assert (Hc : slots !! length pre = Some c).
  { rewrite (Hash.so_split _ _ _ _ _ Hs). by apply list_lookup_middle. }
  split.
  - intros (k' & [v Hv] & Hh) ->. apply elem_of_list_to_map in Hv; [|done].
    assert (Hin : k' ∈ (concat slots).*1) by (apply list_elem_of_fmap; by exists (k', v)).
    apply Hash.elem_of_concat_keys in Hin as (i & c & Hi & Hin).
    pose proof (Hp _ _ _ Hi Hin) as Hi2. rewrite Hh, (Hash.so_idx _ _ _ _ _ Hs) in Hi2.
    apply Nat2Z.inj in Hi2. subst i. rewrite Hc in Hi. injection Hi as <-. by apply not_elem_of_nil in Hin.
  - destruct c as [|[k' v] c]; [done|]. intros _. exists k'. split.
    + exists v. apply elem_of_list_to_map; [done|].
      rewrite (Hash.so_split _ _ _ _ _ Hs), concat_app. cbn. set_solver.
    + rewrite (Hash.so_idx _ _ _ _ _ Hs). apply (Hp _ _ _ Hc). cbn. set_solver.
Qed.

Lemma delete_unused h m k :
  hrep h m -> hash_key k -> cstr_ok k -> ~ slot_used m k ->
  delete_kv_hashtable (Some k) (h, []) = Ret ((-1)%Z, (locked h, [])).
Proof.
  intros (slots & -> & Hok & <- & Hm) Hk Hsk Hu. destruct (locate slots k Hok Hm Hk) as (pre & c & post & Hl).
  pose proof (located_slot _ _ _ _ _ Hl) as Hs. rewrite (slot_used_chain _ _ _ _ _ Hok Hs) in Hu.
  destruct c as [|x c]; [|by destruct Hu]. unfold delete_kv_hashtable.
  mrun lock_run. mcbn. cbn [locked set_lock nodes]. by mrun (table_read _ _ _ _ _ _ Hs).
Qed.

Lemma delete_used h m k :
  hrep h m -> hash_key k -> cstr_ok k -> slot_used m k ->
  exists h', delete_kv_hashtable (Some k) (h, []) = Ret ((if m !! k then 0 else -1)%Z, (h', [])) /\
    hrep h' (delete k m).
Proof.
  intros (slots & -> & Hok & <- & Hm) Hk Hsk Hu. destruct (locate slots k Hok Hm Hk) as (pre & c & post & Hl).
  pose proof (located_slot _ _ _ _ _ Hl) as Hs. rewrite (slot_used_chain _ _ _ _ _ Hok Hs) in Hu.
  unfold delete_kv_hashtable. mrun lock_run. mcbn. cbn [locked set_lock nodes].
  mrun (table_read _ _ _ _ _ _ Hs). destruct c as [|x c]; [done|].
  destruct (unlink k (node_of <$> x :: c) (locked (table slots), [])) as [[r s]| |] eqn:E; revert E;
    (destruct Hl as [_ Hf Hn Hv|v p q _ Hf Hc Hn Hv];
     [rewrite old_unlink_absent by done|rewrite Hc in *; rewrite old_unlink_found by done]); try done;
    intros [= <- <-]; rewrite Hv.
  - exists (table slots). split; [|rewrite delete_id by done; by exists slots].
    rewrite fmap_cons. pose proof (old_unlink_absent k (x :: c) (locked (table slots), []) Hsk Hf Hn) as E.
    rewrite fmap_cons in E. cbn [unlink] in E. apply bind_inv in E as (b & s1 & E1 & E2).
    rewrite (bind_ret _ _ _ _ _ E1), (bind_ret _ _ _ _ _ E2). done.
  - destruct (Hash.view_delete_slot _ _ _ _ _ _ _ Hok Hs) as [Hok' Hv'].
    exists (table (pre ++ (p ++ q) :: post)). split.
    + pose proof (old_unlink_found k v p q (locked (table slots), []) Hsk Hf Hn) as E.
      rewrite <- Hc in *. rewrite fmap_cons in *. cbn [unlink] in E. apply bind_inv in E as (b & s1 & E1 & E2).
      rewrite (bind_ret _ _ _ _ _ E1), (bind_ret _ _ _ _ _ E2).
      mrun (table_write _ _ _ _ _ (p ++ q) _ Hs). mcbn.
      unfold table, set_lock, set_nodes, set_count, pthread_mutex_unlock. cbn [count].
      mcbn. cbn [lock mutex_unlock nodes max_slots count]. mcbn.
      rewrite (Hash.so_split _ _ _ _ _ Hs), !Hash.count_split, Hc, !length_app. cbn [length].
      unfold set_lock. cbn. mcbn. do 4 f_equal. cbn [count]. lia.
    + exists (pre ++ (p ++ q) :: post). split; [done|]. split; [done|]. split; [done|].
      by apply map_Forall_delete.
Qed.
Definition empty_table : hashtable_t := table (replicate 1024 []).

Lemma old_hrep_empty : hrep empty_table ∅.
Proof.
  exists (replicate 1024 []). split; [done|]. split; [apply Hash.empty_slots_ok|].
  split; [|apply map_Forall_empty]. unfold view. by rewrite Hash.empty_concat.
Qed.

Lemma old_hrep_count h m : hrep h m -> count h = Z.of_nat (size m).
Proof.
  intros (slots & -> & Hok & <- & _). apply (Hash.hrep_count (Hash.table slots)). by exists slots.
Qed.

(** ** Properties *)

(** C35: the stand-alone table refines a map, for keys below 128 and values below 512
    characters, for keys whose character sum is not negative ([hash_key]: with bytes above 127,
    which are negative characters, the index can lie before the table) and while [malloc]
    succeeds: put keeps the first value of a key, get returns the array that holds the value,
    exist and count agree with the map, and delete removes the key; put, get and exist leave the
    table unlocked, and so does delete when the key's slot is in use. *)
Theorem old_hash_refines_map h m k v :
  hrep h m -> hash_key k -> short_key k -> short_value v ->
  (exists h', put_kv_hashtable (Some k) (Some v) (h, [])
     = Ret ((if m !! k then 1 else 0)%Z, (h', [])) /\
     hrep h' (if m !! k then m else <[k := v]> m)) /\
  (exists r, get_kv_hashtable (Some k) (h, []) = Ret (r, (h, [])) /\ cut_nul <$> r = m !! k) /\
  exist_kv_hashtable (Some k) (h, []) = Ret ((if m !! k then 1 else 0)%Z, (h, [])) /\
  count_kv_hashtable (h, []) = Ret (Z.of_nat (size m), (h, [])) /\
  (slot_used m k -> exists h', delete_kv_hashtable (Some k) (h, [])
     = Ret ((if m !! k then 0 else -1)%Z, (h', [])) /\ hrep h' (delete k m)).
Proof.
  intros Hr Hk Hsk Hsv. split; [by apply put_run|]. pose proof (get_run h m k [] Hr Hk (proj1 Hsk)) as Hg.
  split; [|split; [|split]].
  - eexists. split; [exact Hg|]. destruct (m !! k) as [w|] eqn:E; [|done].
    change (Some (cut_nul (strncpy MAX_VALUE_LEN w)) = Some w).
    destruct Hr as (slots & -> & _ & <- & Hm). destruct (Hm _ _ E) as [_ [Hw1 Hw2]].
    by rewrite cut_strncpy.
  - unfold exist_kv_hashtable. rewrite (bind_ret _ _ _ _ _ Hg). by destruct (m !! k).
  - unfold count_kv_hashtable. mcbn. by rewrite (old_hrep_count h m Hr).
  - intros Hu. apply delete_used; [done|done|apply Hsk|done].
Qed.

Example old_hash_refines_map_witness :
  hrep empty_table ∅ /\ hash_key (bs "Teacher") /\ short_key (bs "Teacher") /\ short_value (bs "King") /\
  exists h', put_kv_hashtable (Some (bs "Teacher")) (Some (bs "King")) (empty_table, [])
    = Ret ((if (∅ : gmap cstr cstr) !! bs "Teacher" then 1 else 0)%Z, (h', [])) /\
    hrep h' (if (∅ : gmap cstr cstr) !! bs "Teacher" then ∅ else <[bs "Teacher" := bs "King"]> ∅).
Proof.
  assert (H1 : hash_key (bs "Teacher")) by (vm_compute; discriminate).
  assert (H2 : short_key (bs "Teacher")) by (split; [apply (bool_decide_unpack _); vm_compute; exact I|vm_compute; lia]).
  assert (H3 : short_value (bs "King")) by (split; [apply (bool_decide_unpack _); vm_compute; exact I|vm_compute; lia]).
  split; [apply old_hrep_empty|]. split; [exact H1|]. split; [exact H2|]. split; [exact H3|].
  exact (proj1 (old_hash_refines_map empty_table ∅ _ (bs "King") old_hrep_empty H1 H2 H3)).
Defined.

(** Every operation that needs the mutex blocks on a locked table. *)
Lemma locked_blocks h k v :
  put_kv_hashtable (Some k) (Some v) (locked h, []) = Fault Deadlock /\
  get_kv_hashtable (Some k) (locked h, []) = Fault Deadlock /\
  delete_kv_hashtable (Some k) (locked h, []) = Fault Deadlock.
Proof. done. Qed.

(** Deleting a key whose slot is empty answers -1 with the mutex still held: whatever the
    next operation is, it blocks for ever. *)
Theorem old_hash_delete_deadlocks h m k k' v :
  hrep h m -> hash_key k -> cstr_ok k -> ~ slot_used m k ->
  exists h', delete_kv_hashtable (Some k) (h, []) = Ret ((-1)%Z, (h', [])) /\
    put_kv_hashtable (Some k') (Some v) (h', []) = Fault Deadlock /\
    get_kv_hashtable (Some k') (h', []) = Fault Deadlock /\
    delete_kv_hashtable (Some k') (h', []) = Fault Deadlock.
Proof.
  intros Hr Hk Hsk Hu. exists (locked h). split; [by apply (delete_unused h m)|]. apply locked_blocks.
Qed.

Example old_hash_delete_deadlocks_witness :
  hrep empty_table ∅ /\ ~ slot_used ∅ (bs "a") /\
  exists h', delete_kv_hashtable (Some (bs "a")) (empty_table, []) = Ret ((-1)%Z, (h', [])) /\
    put_kv_hashtable (Some (bs "b")) (Some (bs "1")) (h', []) = Fault Deadlock /\
    get_kv_hashtable (Some (bs "b")) (h', []) = Fault Deadlock /\
    delete_kv_hashtable (Some (bs "b")) (h', []) = Fault Deadlock.
Proof.
  assert (Hu : ~ slot_used ∅ (bs "a")) by (intros (k & [v Hv] & _); by rewrite lookup_empty in Hv).
  split; [apply old_hrep_empty|]. split; [exact Hu|].
  apply (old_hash_delete_deadlocks empty_table ∅ (bs "a") (bs "b") (bs "1")).
  - apply old_hrep_empty.
  - vm_compute. discriminate.
  - apply (bool_decide_unpack _). vm_compute. exact I.
  - exact Hu.
Defined.

(** A key of 128 characters is stored without its NUL: looking it up reads past the array. *)
Theorem old_hash_long_key_overreads k v h m :
  hrep h m -> hash_key k -> cstr_ok k -> MAX_KEY_LEN <= length k -> ~ slot_used m k ->
  (_ ← put_kv_hashtable (Some k) (Some v); get_kv_hashtable (Some k)) (h, []) = Fault BufferOverflow.
Proof.
  intros (slots & -> & Hok & <- & Hm) Hk Hsk Hl Hu.
  destruct (locate slots k Hok Hm Hk) as (pre & c & post & Hloc).
  pose proof (located_slot _ _ _ _ _ Hloc) as Hs. rewrite (slot_used_chain _ _ _ _ _ Hok Hs) in Hu.
  destruct c as [|x c]; [|by destruct Hu]. unfold put_kv_hashtable, get_kv_hashtable.
  mcbn. mrun lock_run. mcbn. cbn [locked set_lock nodes]. mrun (table_read _ _ _ _ _ _ Hs).
  cbn [fmap list_fmap find_node]. unfold _create_node. mcbn.
  change [mk_node (strncpy MAX_KEY_LEN k) (strncpy MAX_VALUE_LEN v)] with (node_of <$> [(k, v)]).
  mrun (table_write _ _ _ _ _ [(k, v)] _ Hs). mcbn.
  unfold pthread_mutex_unlock, pthread_mutex_lock. mcbn. cbn [set_count set_nodes lock mutex_unlock locked set_lock].
  mcbn. cbn [set_lock lock mutex_lock]. mcbn. cbn [lock mutex_lock]. mcbn. cbn [nodes set_nodes set_count].
  assert (Hs' : slot_of (pre ++ [(k, v)] :: post) k pre [(k, v)] post) by (by destruct Hs; split).
  mrun (table_read _ _ _ _ _ _ Hs'). cbn [fmap list_fmap find_node]. unfold same_key.
  apply bind_fault, bind_fault. cbn [node_of key fst]. by rewrite strcmp_arr_full.
Qed.

End HashOld.
