(* ===== verification/KvsRbtree.v ===== *)
(** * The red-black tree engine ([src/kvs_rbtree.c]): the code

    Nodes live on a heap indexed by addresses; address 0 is NULL.  A field that
    was never written is [None].  Every function is written with the reads and
    writes of the source in their order; the loops take fuel, and the entry points
    give one unit more than the number of nodes on the heap. *)

From S2P Require Import Prelude Engine.

Module Rbtree.

Inductive node_color := RED | BLACK.

#[export] Instance node_color_eq_dec : EqDecision node_color.
Proof. solve_decision. Defined.

Abbreviation ptr := nat.

Record rbtree_node := mk_node {
  color : option node_color;
  right : option ptr;
  left : option ptr;
  parent : option ptr;
  key : option cptr;
  value : option cptr
}.

(** [pooled]: the allocator takes the nodes from the memory pool.  [next] is the
    address of the next node. *)
Record rbtree := mk_rbtree {
  root : ptr;
  nil : ptr;
  heap : gmap ptr rbtree_node;
  next : ptr;
  pooled : bool
}.

Abbreviation rb A := (M rbtree A).

Definition set_color c n := mk_node (Some c) (right n) (left n) (parent n) (key n) (value n).
Definition set_right p n := mk_node (color n) (Some p) (left n) (parent n) (key n) (value n).
Definition set_left p n := mk_node (color n) (right n) (Some p) (parent n) (key n) (value n).
Definition set_parent p n := mk_node (color n) (right n) (left n) (Some p) (key n) (value n).
Definition set_key k n := mk_node (color n) (right n) (left n) (parent n) (Some k) (value n).
Definition set_value v n := mk_node (color n) (right n) (left n) (parent n) (key n) (Some v).

Definition set_root p t := mk_rbtree p (nil t) (heap t) (next t) (pooled t).
Definition set_nil p t := mk_rbtree (root t) p (heap t) (next t) (pooled t).
Definition set_heap h t := mk_rbtree (root t) (nil t) h (next t) (pooled t).

(** [p->f] and [p->f = x]. *)
Definition load (p : ptr) : rb rbtree_node :=
  t ← get;
  if decide (p = 0) then raise NullDeref else
  match heap t !! p with
  | None => raise BadPointer
  | Some n => mret n
  end.

Definition rd {A} (f : rbtree_node -> option A) (p : ptr) : rb A :=
  n ← load p;
  match f n with
  | None => raise Indeterminate
  | Some x => mret x
  end.

Definition wr (p : ptr) (f : rbtree_node -> rbtree_node) : rb unit :=
  n ← load p;
  modify (fun t => set_heap (<[p := f n]> (heap t)) t).

Definition get_nil : rb ptr := t ← get; mret (nil t).
Definition get_root : rb ptr := t ← get; mret (root t).

(** [kvs_malloc(sizeof(rbtree_node))]; 0 when there is no memory. *)
Definition new_node : rb ptr :=
  ok ← malloc_ok;
  if negb ok then mret 0 else
  t ← get;
  put (mk_rbtree (root t) (nil t)
         (<[next t := mk_node None None None None None None]> (heap t))
         (S (next t)) (pooled t)) ;;
  mret (next t).

Definition drop_node (p : ptr) : rb unit :=
  modify (fun t => set_heap (delete p (heap t)) t).

(** [kvs_free]. *)
Definition kvs_free_node (p : ptr) : rb unit :=
  if decide (p = 0) then mret tt else
  _ ← load p;
  drop_node p.

(** The C library's [free]: undefined on a chunk of the pool. *)
Definition free_node (p : ptr) : rb unit :=
  if decide (p = 0) then mret tt else
  _ ← load p;
  t ← get;
  if pooled t then raise BadPointer else drop_node p.

(** The fuel of the loops. *)
Definition heap_fuel : rb nat := t ← get; mret (S (size (heap t))).

Definition rd_str (f : rbtree_node -> option cptr) (p : ptr) : rb cstr :=
  k ← rd f p; deref k.

Fixpoint rbtree_mini (fuel : nat) (x : ptr) : rb ptr :=
  match fuel with
  | O => out_of_fuel
  | S n =>
      l ← rd left x; nl ← get_nil;
      if decide (l = nl) then mret x else rbtree_mini n l
  end.

Fixpoint rbtree_maxi (fuel : nat) (x : ptr) : rb ptr :=
  match fuel with
  | O => out_of_fuel
  | S n =>
      r ← rd right x; nl ← get_nil;
      if decide (r = nl) then mret x else rbtree_maxi n r
  end.

Fixpoint successor_up (fuel : nat) (x y : ptr) : rb ptr :=
  match fuel with
  | O => out_of_fuel
  | S n =>
      nl ← get_nil;
      if decide (y = nl) then mret y else
      yr ← rd right y;
      if decide (x = yr) then yp ← rd parent y; successor_up n y yp else mret y
  end.

Definition rbtree_successor (fuel : nat) (x : ptr) : rb ptr :=
  y ← rd parent x;
  r ← rd right x; nl ← get_nil;
  if decide (r <> nl) then rbtree_mini fuel r else successor_up fuel x y.

Definition rbtree_left_rotate (x : ptr) : rb unit :=
  y ← rd right x;
  yl ← rd left y;
  wr x (set_right yl) ;;
  yl ← rd left y; nl ← get_nil;
  (if decide (yl <> nl) then wr yl (set_parent x) else mret tt) ;;
  xp ← rd parent x;
  wr y (set_parent xp) ;;
  xp ← rd parent x;
  (if decide (xp = nl) then modify (set_root y) else
     xpl ← rd left xp;
     if decide (x = xpl) then wr xp (set_left y) else wr xp (set_right y)) ;;
  wr y (set_left x) ;;
  wr x (set_parent y).

Definition rbtree_right_rotate (y : ptr) : rb unit :=
  x ← rd left y;
  xr ← rd right x;
  wr y (set_left xr) ;;
  xr ← rd right x; nl ← get_nil;
  (if decide (xr <> nl) then wr xr (set_parent y) else mret tt) ;;
  yp ← rd parent y;
  wr x (set_parent yp) ;;
  yp ← rd parent y;
  (if decide (yp = nl) then modify (set_root x) else
     ypr ← rd right yp;
     if decide (y = ypr) then wr yp (set_right x) else wr yp (set_left x)) ;;
  wr x (set_right y) ;;
  wr y (set_parent x).

Fixpoint rbtree_insert_fixup (fuel : nat) (z : ptr) : rb unit :=
  match fuel with
  | O => out_of_fuel
  | S n =>
      zp ← rd parent z;
      c ← rd color zp;
      if decide (c = BLACK) then r ← get_root; wr r (set_color BLACK) else
      zpp ← rd parent zp;
      zppl ← rd left zpp;
      if decide (zp = zppl) then
        y ← rd right zpp;
        cy ← rd color y;
        if decide (cy = RED) then
          wr zp (set_color BLACK) ;;
          wr y (set_color BLACK) ;;
          wr zpp (set_color RED) ;;
          rbtree_insert_fixup n zpp
        else
          zpr ← rd right zp;
          z ← (if decide (z = zpr) then rbtree_left_rotate zp ;; mret zp else mret z);
          zp ← rd parent z;
          wr zp (set_color BLACK) ;;
          zpp ← rd parent zp;
          wr zpp (set_color RED) ;;
          rbtree_right_rotate zpp ;;
          rbtree_insert_fixup n z
      else
        y ← rd left zpp;
        cy ← rd color y;
        if decide (cy = RED) then
          wr zp (set_color BLACK) ;;
          wr y (set_color BLACK) ;;
          wr zpp (set_color RED) ;;
          rbtree_insert_fixup n zpp
        else
          zpl ← rd left zp;
          z ← (if decide (z = zpl) then rbtree_right_rotate zp ;; mret zp else mret z);
          zp ← rd parent z;
          wr zp (set_color BLACK) ;;
          zpp ← rd parent zp;
          wr zpp (set_color RED) ;;
          rbtree_left_rotate zpp ;;
          rbtree_insert_fixup n z
  end.

(** The descent of insert: the last node visited, or [None] when the key exists. *)
Fixpoint insert_descend (fuel : nat) (z y x : ptr) : rb (option ptr) :=
  match fuel with
  | O => out_of_fuel
  | S n =>
      nl ← get_nil;
      if decide (x = nl) then mret (Some y) else
      zk ← rd_str key z; xk ← rd_str key x;
      if (strcmp zk xk <? 0)%Z then l ← rd left x; insert_descend n z x l
      else if (0 <? strcmp zk xk)%Z then r ← rd right x; insert_descend n z x r
      else mret None
  end.

Definition rbtree_insert (fuel : nat) (z : ptr) : rb unit :=
  nl ← get_nil; r ← get_root;
  o ← insert_descend fuel z nl r;
  match o with
  | None => mret tt
  | Some y =>
      wr z (set_parent y) ;;
      (if decide (y = nl) then modify (set_root z) else
         zk ← rd_str key z; yk ← rd_str key y;
         if (strcmp zk yk <? 0)%Z then wr y (set_left z) else wr y (set_right z)) ;;
      wr z (set_left nl) ;;
      wr z (set_right nl) ;;
      wr z (set_color RED) ;;
      rbtree_insert_fixup fuel z
  end.

(** [w->left->color == BLACK && w->right->color == BLACK]. *)
Definition both_black (w : ptr) : rb bool :=
  wl ← rd left w; cl ← rd color wl;
  if decide (cl = BLACK) then
    wr ← rd right w; cr ← rd color wr; mret (bool_decide (cr = BLACK))
  else mret false.

Fixpoint rbtree_delete_fixup (fuel : nat) (x : ptr) : rb unit :=
  match fuel with
  | O => out_of_fuel
  | S n =>
      r ← get_root;
      go ← (if decide (x <> r) then c ← rd color x; mret (bool_decide (c = BLACK))
            else mret false);
      if negb go then wr x (set_color BLACK) else
      xp ← rd parent x;
      xpl ← rd left xp;
      if decide (x = xpl) then
        w ← rd right xp;
        cw ← rd color w;
        w ← (if decide (cw = RED) then
               wr w (set_color BLACK) ;;
               xp ← rd parent x; wr xp (set_color RED) ;;
               rbtree_left_rotate xp ;;
               xp ← rd parent x; rd right xp
             else mret w);
        bb ← both_black w;
        if (bb : bool) then
          wr w (set_color RED) ;;
          xp ← rd parent x;
          rbtree_delete_fixup n xp
        else
          w_r ← rd right w; cr ← rd color w_r;
          w ← (if decide (cr = BLACK) then
                 wl ← rd left w; wr wl (set_color BLACK) ;;
                 wr w (set_color RED) ;;
                 rbtree_right_rotate w ;;
                 xp ← rd parent x; rd right xp
               else mret w);
          xp ← rd parent x; cp ← rd color xp;
          wr w (set_color cp) ;;
          wr xp (set_color BLACK) ;;
          w_r ← rd right w; wr w_r (set_color BLACK) ;;
          rbtree_left_rotate xp ;;
          r ← get_root;
          rbtree_delete_fixup n r
      else
        w ← rd left xp;
        cw ← rd color w;
        w ← (if decide (cw = RED) then
               wr w (set_color BLACK) ;;
               xp ← rd parent x; wr xp (set_color RED) ;;
               rbtree_right_rotate xp ;;
               xp ← rd parent x; rd left xp
             else mret w);
        bb ← both_black w;
        if (bb : bool) then
          wr w (set_color RED) ;;
          xp ← rd parent x;
          rbtree_delete_fixup n xp
        else
          w_l ← rd left w; cl ← rd color w_l;
          w ← (if decide (cl = BLACK) then
                 w_r ← rd right w; wr w_r (set_color BLACK) ;;
                 wr w (set_color RED) ;;
                 rbtree_left_rotate w ;;
                 xp ← rd parent x; rd left xp
               else mret w);
          xp ← rd parent x; cp ← rd color xp;
          wr w (set_color cp) ;;
          wr xp (set_color BLACK) ;;
          w_l ← rd left w; wr w_l (set_color BLACK) ;;
          rbtree_right_rotate xp ;;
          r ← get_root;
          rbtree_delete_fixup n r
  end.

(** Swapping the key and the value of two nodes copies whatever the fields hold. *)
Definition swap_contents (z y : ptr) : rb unit :=
  nz ← load z; ny ← load y;
  wr z (fun n => mk_node (color n) (right n) (left n) (parent n) (key ny) (value ny)) ;;
  wr y (fun n => mk_node (color n) (right n) (left n) (parent n) (key nz) (value nz)).

Definition rbtree_delete (fuel : nat) (z : ptr) : rb ptr :=
  nl ← get_nil;
  zl ← rd left z;
  y ← (if decide (zl = nl) then mret z else
         zr ← rd right z;
         if decide (zr = nl) then mret z else rbtree_successor fuel z);
  yl ← rd left y;
  x ← (if decide (yl <> nl) then mret yl else
         yr ← rd right y;
         mret (if decide (yr <> nl) then yr else nl));
  yp ← rd parent y;
  wr x (set_parent yp) ;;
  yp ← rd parent y;
  (if decide (yp = nl) then modify (set_root x) else
     ypl ← rd left yp;
     if decide (y = ypl) then wr yp (set_left x) else wr yp (set_right x)) ;;
  (if decide (y <> z) then swap_contents z y else mret tt) ;;
  cy ← rd color y;
  (if decide (cy = BLACK) then rbtree_delete_fixup fuel x else mret tt) ;;
  mret y.

Fixpoint search_loop (fuel : nat) (key0 : cstr) (node : ptr) : rb ptr :=
  match fuel with
  | O => out_of_fuel
  | S n =>
      nl ← get_nil;
      if decide (node = nl) then mret nl else
      k ← rd_str key node;
      if (strcmp key0 k <? 0)%Z then l ← rd left node; search_loop n key0 l
      else if (0 <? strcmp key0 k)%Z then r ← rd right node; search_loop n key0 r
      else mret node
  end.

Definition rbtree_search (fuel : nat) (key0 : cstr) : rb ptr :=
  r ← get_root; search_loop fuel key0 r.

(** The lines the traversal prints, as key/value pairs. *)
Fixpoint rbtree_traversal (fuel : nat) (node : ptr) : rb (list (cstr * cstr)) :=
  match fuel with
  | O => out_of_fuel
  | S n =>
      nl ← get_nil;
      if decide (node = nl) then mret [] else
      l ← rd left node; ls ← rbtree_traversal n l;
      k ← rd_str key node; v ← rd_str value node;
      r ← rd right node; rs ← rbtree_traversal n r;
      mret (ls ++ (k, v) :: rs)
  end.

(** ** The engine *)

(** The global after [memset]. *)
Definition global_rbtree0 (pl : bool) : rbtree := mk_rbtree 0 0 ∅ 1 pl.

Definition kvs_rbtree_create : rb Z :=
  p ← new_node;
  modify (set_nil p) ;;
  wr p (set_color BLACK) ;;
  modify (set_root p) ;;
  mret 0%Z.

(** The loop condition [!(node = inst->root)] holds for a NULL root only. *)
Definition kvs_rbtree_destory : rb unit :=
  r ← get_root;
  (if decide (r = 0) then n ← heap_fuel; _ ← rbtree_mini n r; mret tt else mret tt) ;;
  nl ← get_nil;
  kvs_free_node nl.

Definition kvs_rbtree_set (key0 value0 : option cstr) : rb Z :=
  match key0, value0 with
  | Some key0, Some value0 =>
      node ← new_node;
      ok ← malloc_ok;
      wr node (set_key (if (ok : bool) then Str key0 else Null)) ;;
      if negb ok then mret (-2)%Z else
      ok ← malloc_ok;
      wr node (set_value (if (ok : bool) then Str value0 else Null)) ;;
      if negb ok then mret (-2)%Z else
      n ← heap_fuel;
      rbtree_insert n node ;;
      mret 0%Z
  | _, _ => mret (-1)%Z
  end.

Definition kvs_rbtree_get (key0 : option cstr) : rb cptr :=
  match key0 with
  | None => mret Null
  | Some key0 =>
      n ← heap_fuel;
      node ← rbtree_search n key0;
      if decide (node = 0) then mret Null else
      nl ← get_nil;
      if decide (node = nl) then mret Null else
      rd value node
  end.

(** The search returns [nil], not NULL, for an absent key. *)
Definition kvs_rbtree_del (key0 : option cstr) : rb Z :=
  match key0 with
  | None => mret (-1)%Z
  | Some key0 =>
      n ← heap_fuel;
      node ← rbtree_search n key0;
      if decide (node = 0) then mret 1%Z else
      cur ← rbtree_delete n node;
      free_node cur ;;
      mret 0%Z
  end.

Definition kvs_rbtree_mod (key0 value0 : option cstr) : rb Z :=
  match key0, value0 with
  | Some key0, Some value0 =>
      n ← heap_fuel;
      node ← rbtree_search n key0;
      if decide (node = 0) then mret 1%Z else
      nl ← get_nil;
      if decide (node = nl) then mret 1%Z else
      v ← rd value node;
      free_str v ;;
      wr node (set_value Freed) ;;
      ok ← malloc_ok;
      if negb ok then wr node (set_value Null) ;; mret (-2)%Z else
      wr node (set_value (Str value0)) ;;
      mret 0%Z
  | _, _ => mret (-1)%Z
  end.

Definition kvs_rbtree_exist (key0 : option cstr) : rb Z :=
  match key0 with
  | None => mret (-1)%Z
  | Some key0 =>
      n ← heap_fuel;
      node ← rbtree_search n key0;
      if decide (node = 0) then mret 1%Z else
      nl ← get_nil;
      if decide (node = nl) then mret 1%Z else mret 0%Z
  end.

End Rbtree.
