(* ===== verification/RbtreeRep.v ===== *)
(** * Red-black trees: trees on the heap and rotations

    [tree] is a tree whose nodes carry their addresses.  A position in a tree is a
    subtree and its context, the list of the frames up to the root.  [st s t ctx]
    says that the engine state [s] holds the tree [t] put into [ctx].  The code for
    the two directions is one function of a direction ([rot], [ifix]), equal by
    computation to the two copies of the source. *)

From S2P Require Import Prelude KvsRbtree.
Import Rbtree.

Inductive tree :=
  | Leaf
  | Node (c : node_color) (p : ptr) (k v : cstr) (l r : tree).

Inductive dir := L | R.
#[export] Instance dir_eq_dec : EqDecision dir.
Proof. solve_decision. Defined.

Definition flip (d : dir) : dir := match d with L => R | R => L end.

Definition chd (d : dir) : rbtree_node -> option ptr :=
  match d with L => left | R => right end.
Definition set_chd (d : dir) : ptr -> rbtree_node -> rbtree_node :=
  match d with L => set_left | R => set_right end.

(** A node with its child on side [d] first. *)
Definition NodeD (d : dir) c p k v (near far : tree) : tree :=
  match d with L => Node c p k v near far | R => Node c p k v far near end.

Definition cell (c : node_color) (l r par : ptr) (k v : cstr) : rbtree_node :=
  mk_node (Some c) (Some r) (Some l) (Some par) (Some (Str k)) (Some (Str v)).
Definition cellD (d : dir) c (near far par : ptr) k v : rbtree_node :=
  match d with L => cell c near far par k v | R => cell c far near par k v end.

Fixpoint addrs (t : tree) : list ptr :=
  match t with
  | Leaf => []
  | Node _ p _ _ l r => p :: addrs l ++ addrs r
  end.

Record frame := Fr {
  f_dir : dir;       (** the side of the hole *)
  f_color : node_color;
  f_ptr : ptr;
  f_key : cstr;
  f_value : cstr;
  f_sib : tree       (** the subtree on the other side *)
}.

Abbreviation ctx := (list frame).

Definition plug1 (t : tree) (f : frame) : tree :=
  NodeD (f_dir f) (f_color f) (f_ptr f) (f_key f) (f_value f) t (f_sib f).
Definition plug (t : tree) (g : ctx) : tree := foldl plug1 t g.

Fixpoint caddrs (g : ctx) : list ptr :=
  match g with
  | [] => []
  | f :: g => f_ptr f :: addrs (f_sib f) ++ caddrs g
  end.

Section rep.
  Context (nl : ptr).

Definition tptr (t : tree) : ptr := match t with Leaf => nl | Node _ p _ _ _ _ => p end.

Definition cparent (g : ctx) : ptr := match g with [] => nl | f :: _ => f_ptr f end.

Definition rptr (hole : ptr) (g : ctx) : ptr := foldl (fun _ f => f_ptr f) hole g.

Fixpoint rep (h : gmap ptr rbtree_node) (par : ptr) (t : tree) : Prop :=
  match t with
  | Leaf => True
  | Node c p k v l r =>
      h !! p = Some (cell c (tptr l) (tptr r) par k v) /\ rep h p l /\ rep h p r
  end.

Fixpoint crep (h : gmap ptr rbtree_node) (hole : ptr) (g : ctx) : Prop :=
  match g with
  | [] => True
  | f :: g =>
      h !! f_ptr f = Some (cellD (f_dir f) (f_color f) hole (tptr (f_sib f)) (cparent g)
                             (f_key f) (f_value f)) /\
      rep h (f_ptr f) (f_sib f) /\ crep h (f_ptr f) g
  end.

Lemma rep_NodeD h par d c p k v a b :
  rep h par (NodeD d c p k v a b) <->
  h !! p = Some (cellD d c (tptr a) (tptr b) par k v) /\ rep h p a /\ rep h p b.
Proof. destruct d; cbn; tauto. Qed.

Lemma tptr_NodeD d c p k v a b : tptr (NodeD d c p k v a b) = p.
Proof. by destruct d. Qed.

Lemma tptr_cases t : tptr t = nl \/ tptr t ∈ addrs t.
Proof. destruct t; [by left|right; cbn; set_solver]. Qed.

Lemma rep_frame h h' par t :
  rep h par t -> (forall q, q ∈ addrs t -> h' !! q = h !! q) -> rep h' par t.
Proof.
  revert par. induction t as [|c p k v l IHl r IHr]; intros par; cbn; [done|].
  intros (H1 & H2 & H3) Hq. rewrite Hq by set_solver. split; [done|].
  split; [apply IHl|apply IHr]; try done; intros; apply Hq; set_solver.
Qed.

Lemma crep_frame h h' hole g :
  crep h hole g -> (forall q, q ∈ caddrs g -> h' !! q = h !! q) -> crep h' hole g.
Proof.
  revert hole. induction g as [|f g IH]; intros hole; cbn; [done|].
  intros (H1 & H2 & H3) Hq. rewrite Hq by set_solver. split; [done|].
  split; [eapply rep_frame; [done|]|apply IH; [done|]]; intros; apply Hq; set_solver.
Qed.

(** The heap after the parent link of a subtree changes. *)
Definition rpar (par : ptr) (t : tree) (h : gmap ptr rbtree_node) : gmap ptr rbtree_node :=
  match t with
  | Leaf => h
  | Node c p k v l r => <[p := cell c (tptr l) (tptr r) par k v]> h
  end.

Lemma rpar_lookup par t h q : q ∉ addrs t -> rpar par t h !! q = h !! q.
Proof.
  destruct t as [|c p k v l r]; cbn; intros H; [done|].
  apply lookup_insert_ne. set_solver.
Qed.

Lemma rpar_rep par par' t h :
  rep h par t -> NoDup (addrs t) -> rep (rpar par' t h) par' t.
Proof.
  destruct t as [|c p k v l r]; cbn; intros H Hnd; [done|].
  apply list.NoDup_cons in Hnd as [Hp Hnd].
  destruct H as (H1 & H2 & H3). rewrite lookup_insert_eq. split; [done|].
  split; (eapply rep_frame; [done|]); intros q Hq; apply lookup_insert_ne; set_solver.
Qed.

(** The heap after the link from the context to the hole changes. *)
Definition rlink (hole : ptr) (g : ctx) (h : gmap ptr rbtree_node) : gmap ptr rbtree_node :=
  match g with
  | [] => h
  | f :: g =>
      <[f_ptr f := cellD (f_dir f) (f_color f) hole (tptr (f_sib f)) (cparent g)
                     (f_key f) (f_value f)]> h
  end.

Lemma rlink_lookup hole g h q : q ∉ caddrs g -> rlink hole g h !! q = h !! q.
Proof.
  destruct g as [|f g]; cbn; intros H; [done|]. apply lookup_insert_ne. set_solver.
Qed.

Lemma rlink_crep hole hole' g h :
  crep h hole g -> NoDup (caddrs g) -> crep (rlink hole' g h) hole' g.
Proof.
  destruct g as [|f g]; cbn; intros H Hnd; [done|].
  apply list.NoDup_cons in Hnd as [Hp Hnd].
  destruct H as (H1 & H2 & H3). rewrite lookup_insert_eq. split; [done|].
  split; [eapply rep_frame|eapply crep_frame]; try done;
    intros q Hq; apply lookup_insert_ne; set_solver.
Qed.

(** The state [s] holds [t] in the context [g]. *)
Record st (s : rbtree) (t : tree) (g : ctx) : Prop := {
  st_root : root s = rptr (tptr t) g;
  st_nil : nil s = nl;
  st_rep : rep (heap s) (cparent g) t;
  st_crep : crep (heap s) (tptr t) g;
  st_nodup : NoDup (nl :: addrs t ++ caddrs g);
  st_null : heap s !! 0 = None;
  st_sentinel : exists n, heap s !! nl = Some n /\ color n = Some BLACK
}.
End rep.

(** ** Running the heap operations *)

Lemma load_run s al p n :
  heap s !! 0 = None -> heap s !! p = Some n -> load p (s, al) = Ret (n, (s, al)).
Proof.
  intros H0 Hp. unfold load. mcbn. rewrite decide_False by congruence. by rewrite Hp.
Qed.

Lemma rd_run {A} (f : rbtree_node -> option A) s al p n a :
  heap s !! 0 = None -> heap s !! p = Some n -> f n = Some a ->
  rd f p (s, al) = Ret (a, (s, al)).
Proof.
  intros H0 Hp Hf. unfold rd. rewrite (bind_ret _ _ _ _ _ (load_run s al p n H0 Hp)).
  by rewrite Hf.
Qed.

Lemma wr_run f s al p n :
  heap s !! 0 = None -> heap s !! p = Some n ->
  wr p f (s, al) = Ret (tt, (set_heap (<[p := f n]> (heap s)) s, al)).
Proof.
  intros H0 Hp. unfold wr. rewrite (bind_ret _ _ _ _ _ (load_run s al p n H0 Hp)). done.
Qed.

Lemma set_heap_heap h s : heap (set_heap h s) = h.
Proof. done. Qed.

(** ** Rotation *)

Definition rot (d : dir) (x : ptr) : rb unit :=
  y ← rd (chd (flip d)) x;
  yl ← rd (chd d) y;
  wr x (set_chd (flip d) yl) ;;
  yl ← rd (chd d) y; nl ← get_nil;
  (if decide (yl <> nl) then wr yl (set_parent x) else mret tt) ;;
  xp ← rd parent x;
  wr y (set_parent xp) ;;
  xp ← rd parent x;
  (if decide (xp = nl) then modify (set_root y) else
     xpl ← rd (chd d) xp;
     if decide (x = xpl) then wr xp (set_chd d y) else wr xp (set_chd (flip d) y)) ;;
  wr y (set_chd d x) ;;
  wr x (set_parent y).

Lemma rot_L x : rbtree_left_rotate x = rot L x.
Proof. reflexivity. Qed.

Lemma rot_R x : rbtree_right_rotate x = rot R x.
Proof. reflexivity. Qed.

Lemma chd_near d c n f par k v : chd d (cellD d c n f par k v) = Some n.
Proof. by destruct d. Qed.

Lemma chd_far d c n f par k v : chd (flip d) (cellD d c n f par k v) = Some f.
Proof. by destruct d. Qed.

Lemma set_near d c n f par k v q : set_chd d q (cellD d c n f par k v) = cellD d c q f par k v.
Proof. by destruct d. Qed.

Lemma set_far d c n f par k v q :
  set_chd (flip d) q (cellD d c n f par k v) = cellD d c n q par k v.
Proof. by destruct d. Qed.

Lemma parent_cellD d c n f par k v : parent (cellD d c n f par k v) = Some par.
Proof. by destruct d. Qed.

Lemma color_cellD d c n f par k v : color (cellD d c n f par k v) = Some c.
Proof. by destruct d. Qed.

Lemma key_cellD d c n f par k v : key (cellD d c n f par k v) = Some (Str k).
Proof. by destruct d. Qed.

Lemma value_cellD d c n f par k v : value (cellD d c n f par k v) = Some (Str v).
Proof. by destruct d. Qed.

Lemma set_parent_cellD d c n f par k v q :
  set_parent q (cellD d c n f par k v) = cellD d c n f q k v.
Proof. by destruct d. Qed.

Lemma set_color_cellD d c n f par k v c' :
  set_color c' (cellD d c n f par k v) = cellD d c' n f par k v.
Proof. by destruct d. Qed.

Lemma set_value_cellD d c n f par k v w :
  set_value (Str w) (cellD d c n f par k v) = cellD d c n f par k w.
Proof. by destruct d. Qed.

Lemma cellD_flip d c n f par k v : cellD (flip d) c n f par k v = cellD d c f n par k v.
Proof. by destruct d. Qed.

Lemma NodeD_flip d c p k v a b : NodeD (flip d) c p k v a b = NodeD d c p k v b a.
Proof. by destruct d. Qed.

Lemma flip_flip d : flip (flip d) = d.
Proof. by destruct d. Qed.

Create HintDb rbcell.
#[export] Hint Rewrite chd_near chd_far set_near set_far parent_cellD color_cellD key_cellD
  value_cellD set_parent_cellD set_color_cellD set_value_cellD : rbcell.

Lemma addrs_NodeD d c p k v a b :
  addrs (NodeD d c p k v a b) ≡ₚ p :: addrs a ++ addrs b.
Proof. destruct d; cbn; [done|]. by rewrite (Permutation_app_comm (addrs b)). Qed.

(** Linking a subtree to a new parent, and a context to a new subtree: the two
    conditional writes of a rotation. *)
Lemma run_rpar nl s al par x t :
  heap s !! 0 = None -> nil s = nl -> nl ∉ addrs t -> rep nl (heap s) par t ->
  (if decide (tptr nl t <> nl) then wr (tptr nl t) (set_parent x) else mret tt) (s, al)
  = Ret (tt, (set_heap (rpar nl x t (heap s)) s, al)).
Proof.
  intros H0 Hn Hnl Hr. destruct t as [|c p k v l r]; cbn [tptr rpar] in *.
  - rewrite decide_False by tauto. by destruct s.
  - rewrite decide_True by (cbn in Hnl; set_solver).
    destruct Hr as (Hp & _). by rewrite (wr_run _ _ _ _ _ H0 Hp).
Qed.

Lemma run_rlink nl d s al x y g :
  heap s !! 0 = None -> nl ∉ caddrs g -> x ∉ caddrs g -> x <> nl -> crep nl (heap s) x g ->
  (if decide (cparent nl g = nl) then modify (set_root y) else
     xpl ← rd (chd d) (cparent nl g);
     if decide (x = xpl) then wr (cparent nl g) (set_chd d y)
     else wr (cparent nl g) (set_chd (flip d) y)) (s, al)
  = Ret (tt, (mk_rbtree (match g with [] => y | _ => root s end) (nil s)
                (rlink nl y g (heap s)) (next s) (pooled s), al)).
Proof.
  intros H0 Hnl Hx Hxn Hc. destruct g as [|f g]; cbn [cparent rlink] in *.
  - rewrite decide_True by done. done.
  - cbn in Hnl, Hx. rewrite decide_False by set_solver.
    destruct Hc as (Hf & Hs & _).
    destruct (decide (f_dir f = d)) as [<-|Hd].
    + mrun rd_run by (rewrite ?Hf; first [done|apply chd_near]).
      rewrite decide_True by done. rewrite (wr_run _ _ _ _ _ H0 Hf). by rewrite set_near.
    + assert (Hfd : d = flip (f_dir f)) by (by destruct d, (f_dir f)).
      subst d. mrun rd_run by (rewrite ?Hf; first [done|apply chd_far]).
      rewrite decide_False.
      2:{ destruct (tptr_cases nl (f_sib f)) as [->|Hin]; [done|set_solver]. }
      rewrite (wr_run _ _ _ _ _ H0 Hf). by rewrite flip_flip, set_near.
Qed.

(** The heap after a rotation at [x], whose child opposite to [d] is [y]. *)
Definition rot_heap nl d cx x kx vx (a : tree) cy y ky vy (b e : tree) (g : ctx)
    (h : gmap ptr rbtree_node) : gmap ptr rbtree_node :=
  <[x := cellD d cx (tptr nl a) (tptr nl b) y kx vx]>
  (<[y := cellD d cy x (tptr nl e) (cparent nl g) ky vy]>
  (rlink nl y g
  (<[y := cellD d cy (tptr nl b) (tptr nl e) (cparent nl g) ky vy]>
  (rpar nl x b
  (<[x := cellD d cx (tptr nl a) (tptr nl b) (cparent nl g) kx vx]> h))))).

(** Splits the disjointness facts out of a [NoDup] hypothesis. *)
Ltac nodup_facts H :=
  repeat first [ rewrite list.NoDup_cons in H | rewrite list.NoDup_app in H
               | progress cbn [app] in H ];
  destruct_and! H.

Lemma rot_run nl d s al cx x kx vx a cy y ky vy b e g :
  st nl s (NodeD d cx x kx vx a (NodeD d cy y ky vy b e)) g ->
  rot d x (s, al)
  = Ret (tt, (mk_rbtree (rptr y g) (nil s)
                (rot_heap nl d cx x kx vx a cy y ky vy b e g (heap s))
                (next s) (pooled s), al)).
Proof.
  intros [Hroot Hnil Hrep Hcrep Hnd H0 _].
  apply rep_NodeD in Hrep as (Hx & Ha & Hy). rewrite tptr_NodeD in *.
  apply rep_NodeD in Hy as (Hy & Hb & He).
  rewrite addrs_NodeD, addrs_NodeD in Hnd. nodup_facts Hnd.
  assert (Hxy : x <> y) by set_solver.
  assert (Hx0 : x <> 0) by congruence. assert (Hy0 : y <> 0) by congruence.
  unfold rot.
  mrun rd_run by (rewrite ?Hx; first [done|apply chd_far]).
  mrun rd_run by (rewrite ?Hy; first [done|apply chd_near]).
  rewrite (bind_ret _ _ _ _ _ (wr_run _ _ _ _ _ H0 Hx)), set_far.
  set (h1 := <[x := _]> (heap s)).
  assert (Hz1 : h1 !! 0 = None) by (unfold h1; by rewrite lookup_insert_ne).
  mrun rd_run by (cbn [heap set_heap]; unfold h1; rewrite ?lookup_insert_ne by done;
    rewrite ?Hy; first [done|apply chd_near]).
  unfold get_nil. mcbn. cbn [nil set_heap]. rewrite Hnil.
  rewrite (bind_ret _ _ _ _ _ (run_rpar nl (set_heap h1 s) al y x b Hz1 Hnil
             ltac:(set_solver) ltac:(eapply rep_frame; [exact Hb|];
               intros q Hq; apply lookup_insert_ne; set_solver))).
  cbn [heap set_heap]. set (h2 := rpar nl x b h1).
  assert (Ex2 : h2 !! x = Some (cellD d cx (tptr nl a) (tptr nl b) (cparent nl g) kx vx))
    by (unfold h2, h1; rewrite rpar_lookup by set_solver; by rewrite lookup_insert_eq).
  assert (Ey2 : h2 !! y = Some (cellD d cy (tptr nl b) (tptr nl e) x ky vy))
    by (unfold h2, h1; rewrite rpar_lookup by set_solver; by rewrite lookup_insert_ne).
  assert (Hz2 : h2 !! 0 = None).
  { unfold h2. destruct b; cbn [rpar]; [done|]. cbn in Hb. destruct Hb as (Hb & _).
    rewrite lookup_insert_ne; [done|congruence]. }
  mrun rd_run by (cbn [heap set_heap]; rewrite ?Ex2; first [done|apply parent_cellD]).
  rewrite (bind_ret _ _ _ _ _ (wr_run _ (set_heap h2 s) _ _ _ Hz2 Ey2)), set_parent_cellD.
  cbn [heap set_heap]. set (h3 := <[y := _]> h2).
  assert (Hz3 : h3 !! 0 = None) by (unfold h3; by rewrite lookup_insert_ne).
  mrun rd_run by (cbn [heap set_heap]; unfold h3; rewrite ?lookup_insert_ne by done;
    rewrite ?Ex2; first [done|apply parent_cellD]).
  rewrite (bind_ret _ _ _ _ _ (run_rlink nl d (set_heap h3 s) al x y g Hz3
             ltac:(set_solver) ltac:(set_solver) ltac:(set_solver)
             ltac:(eapply crep_frame; [exact Hcrep|]; intros q Hq; unfold h3, h2, h1;
               cbn [heap set_heap]; rewrite lookup_insert_ne by set_solver;
               rewrite rpar_lookup by set_solver; apply lookup_insert_ne; set_solver))).
  cbn [heap set_heap root nil next pooled]. set (h4 := rlink nl y g h3).
  set (s4 := mk_rbtree _ _ h4 _ _).
  assert (Ey4 : heap s4 !! y = Some (cellD d cy (tptr nl b) (tptr nl e) (cparent nl g) ky vy))
    by (cbn; unfold h4, h3; rewrite rlink_lookup by set_solver; by rewrite lookup_insert_eq).
  assert (Ex4 : heap s4 !! x = Some (cellD d cx (tptr nl a) (tptr nl b) (cparent nl g) kx vx))
    by (cbn; unfold h4, h3; rewrite rlink_lookup by set_solver; by rewrite lookup_insert_ne).
  assert (Hz4 : heap s4 !! 0 = None).
  { cbn. unfold h4. destruct g as [|f g]; cbn [rlink]; [done|]. destruct Hcrep as (Hf & _).
    rewrite lookup_insert_ne; [done|congruence]. }
  rewrite (bind_ret _ _ _ _ _ (wr_run _ s4 _ _ _ Hz4 Ey4)), set_near.
  erewrite wr_run; [|cbn [heap set_heap]; by rewrite lookup_insert_ne
    |cbn [heap set_heap]; rewrite lookup_insert_ne by done; exact Ex4].
  rewrite set_parent_cellD.
  assert (Hr : match g with [] => y | _ => root s end = rptr y g)
    by (destruct g; [done|exact Hroot]).
  unfold s4, set_heap. cbn [heap root nil next pooled].
  by rewrite Hr, Hnil.
Qed.

Lemma rpar_dom nl par par' t h :
  rep nl h par' t -> dom (rpar nl par t h) = dom h.
Proof.
  destruct t as [|c p k v l r]; cbn; intros H; [done|].
  rewrite dom_insert_L. destruct H as (H & _). apply elem_of_dom_2 in H. set_solver.
Qed.

Lemma rlink_dom nl hole hole' g h :
  crep nl h hole' g -> dom (rlink nl hole g h) = dom h.
Proof.
  destruct g as [|f g]; cbn; intros H; [done|].
  rewrite dom_insert_L. destruct H as (H & _). apply elem_of_dom_2 in H. set_solver.
Qed.

Lemma insert_dom (h : gmap ptr rbtree_node) p n n' :
  h !! p = Some n' -> dom (<[p := n]> h) = dom h.
Proof. intros H. rewrite dom_insert_L. apply elem_of_dom_2 in H. set_solver. Qed.

(** The part of the heap a rotation leaves alone. *)
Lemma rot_heap_other nl d cx x kx vx a cy y ky vy b e g h q :
  q <> x -> q <> y -> q ∉ addrs b -> q ∉ caddrs g ->
  rot_heap nl d cx x kx vx a cy y ky vy b e g h !! q = h !! q.
Proof.
  intros Hx Hy Hb Hg. unfold rot_heap.
  rewrite !lookup_insert_ne by done. rewrite rlink_lookup by done.
  rewrite lookup_insert_ne by done. rewrite rpar_lookup by done. by rewrite lookup_insert_ne.
Qed.

(** A rotation turns the tree at the position into the rotated tree. *)
Lemma rot_spec nl d s al cx x kx vx a cy y ky vy b e g :
  st nl s (NodeD d cx x kx vx a (NodeD d cy y ky vy b e)) g ->
  exists s', rot d x (s, al) = Ret (tt, (s', al)) /\
    st nl s' (NodeD d cy y ky vy (NodeD d cx x kx vx a b) e) g /\
    dom (heap s') = dom (heap s) /\ next s' = next s /\ pooled s' = pooled s.
Proof.
  intros Hst. eexists. split; [by eapply rot_run|].
  destruct Hst as [Hroot Hnil Hrep Hcrep Hnd H0 (n & Hs & Hc)].
  apply rep_NodeD in Hrep as (Hx & Ha & Hy). rewrite tptr_NodeD in *.
  apply rep_NodeD in Hy as (Hy & Hb & He).
  assert (Hnd' : NoDup (nl :: addrs (NodeD d cy y ky vy (NodeD d cx x kx vx a b) e) ++ caddrs g)).
  { rewrite !addrs_NodeD. rewrite !addrs_NodeD in Hnd.
    eapply NoDup_Permutation_proper; [|exact Hnd]. solve_Permutation. }
  rewrite !addrs_NodeD in Hnd. nodup_facts Hnd.
  assert (Hxy : x <> y) by set_solver.
  assert (Hb1 : rep nl (<[x := cellD d cx (tptr nl a) (tptr nl b) (cparent nl g) kx vx]> (heap s)) y b).
  { eapply rep_frame; [exact Hb|]. intros q Hq. apply lookup_insert_ne. set_solver. }
  assert (Hdom : dom (rot_heap nl d cx x kx vx a cy y ky vy b e g (heap s)) = dom (heap s)).
  { unfold rot_heap.
    assert (Hpx : x ∈ dom (heap s)) by (by eapply elem_of_dom_2).
    assert (Hpy : y ∈ dom (heap s)) by (by eapply elem_of_dom_2).
    rewrite !(dom_insert_L _ x), !(dom_insert_L _ y).
    erewrite rlink_dom, dom_insert_L, rpar_dom, dom_insert_L; [set_solver|exact Hb1|].
    eapply crep_frame; [exact Hcrep|]. intros q Hq. rewrite lookup_insert_ne by set_solver.
    rewrite rpar_lookup by set_solver. apply lookup_insert_ne. set_solver. }
  split; [|split; [|done]].
  - split; cbn [root nil heap]; try done.
    + by rewrite tptr_NodeD.
    + apply rep_NodeD. rewrite tptr_NodeD. split; [|split].
      * unfold rot_heap. rewrite lookup_insert_ne by done. apply lookup_insert_eq.
      * apply rep_NodeD. split; [apply lookup_insert_eq|]. split.
        -- eapply rep_frame; [exact Ha|]. intros q Hq. apply rot_heap_other; set_solver.
        -- eapply rep_frame; [apply (rpar_rep nl y x b _ Hb1); done|]. intros q Hq.
           unfold rot_heap. rewrite !lookup_insert_ne by set_solver.
           rewrite rlink_lookup by set_solver. apply lookup_insert_ne. set_solver.
      * eapply rep_frame; [exact He|]. intros q Hq. apply rot_heap_other; set_solver.
    + rewrite tptr_NodeD.
      eapply crep_frame; [apply (rlink_crep nl x y g (heap s) Hcrep); done|].
      intros q Hq. unfold rot_heap. rewrite !lookup_insert_ne by set_solver.
      destruct g as [|f g]; [by apply not_elem_of_nil in Hq|]. cbn [rlink].
      destruct (decide (q = f_ptr f)) as [->|Hqf]; [by rewrite !lookup_insert_eq|].
      rewrite !(lookup_insert_ne _ (f_ptr f)) by done.
      rewrite lookup_insert_ne by set_solver. rewrite rpar_lookup by set_solver.
      apply lookup_insert_ne. set_solver.
    + apply not_elem_of_dom. rewrite Hdom. by apply not_elem_of_dom.
    + exists n. split; [|done]. rewrite rot_heap_other by set_solver. done.
  - done.
Qed.

(** ** Moving in the tree, and writes that keep its shape *)

Lemma addrs_plug1 t f : addrs (plug1 t f) ≡ₚ f_ptr f :: addrs t ++ addrs (f_sib f).
Proof. unfold plug1. by rewrite addrs_NodeD. Qed.

(** A position and the position of the parent describe the same state. *)
Lemma st_up nl s t f g : st nl s t (f :: g) <-> st nl s (plug1 t f) g.
Proof.
  assert (Hp : NoDup (nl :: addrs t ++ caddrs (f :: g))
               <-> NoDup (nl :: addrs (plug1 t f) ++ caddrs g)).
  { rewrite addrs_plug1. cbn [caddrs].
    split; intros H; (eapply NoDup_Permutation_proper; [|exact H]); solve_Permutation. }
  split.
  - intros [H1 H2 H3 (H4 & H5 & H6) H7 H8 H9]. apply Hp in H7. unfold plug1 in *.
    split; rewrite ?tptr_NodeD; try done. by apply rep_NodeD.
  - intros [H1 H2 H3 H4 H5 H6 H7]. unfold plug1 in *. apply rep_NodeD in H3 as (A & B & C).
    rewrite tptr_NodeD in *. apply Hp in H5. split; done.
Qed.

Lemma st_plug nl s t g : st nl s t g <-> st nl s (plug t g) [].
Proof.
  revert t. induction g as [|f g IH]; intros t; [done|]. rewrite st_up, IH. done.
Qed.

Lemma st_focus nl s d c p k v a b g :
  st nl s (NodeD d c p k v a b) g ->
  heap s !! p = Some (cellD d c (tptr nl a) (tptr nl b) (cparent nl g) k v).
Proof. intros H. by apply (st_rep _ _ _ _), rep_NodeD in H as (H & _). Qed.

Lemma st_near nl s d c p k v a b g :
  st nl s (NodeD d c p k v a b) g <-> st nl s a (Fr d c p k v b :: g).
Proof. symmetry. apply st_up. Qed.

Lemma st_far nl s d c p k v a b g :
  st nl s (NodeD d c p k v a b) g <-> st nl s b (Fr (flip d) c p k v a :: g).
Proof. rewrite st_up. unfold plug1. cbn. by rewrite NodeD_flip. Qed.

Lemma st_in_near nl s d c p k v a b g :
  st nl s (NodeD d c p k v a b) g -> st nl s a (Fr d c p k v b :: g).
Proof. apply st_near. Qed.

Lemma st_in_far nl s d c p k v a b g :
  st nl s (NodeD d c p k v a b) g -> st nl s b (Fr (flip d) c p k v a :: g).
Proof. apply st_far. Qed.

Lemma st_out_near nl s d c p k v a b g :
  st nl s a (Fr d c p k v b :: g) -> st nl s (NodeD d c p k v a b) g.
Proof. apply st_near. Qed.

Lemma st_out_far nl s d c p k v a b g :
  st nl s b (Fr (flip d) c p k v a :: g) -> st nl s (NodeD d c p k v a b) g.
Proof. apply st_far. Qed.

(** The sentinel is not a node, so a subtree's pointer tells whether it is empty. *)
Lemma st_tptr_nl nl s t g : st nl s t g -> tptr nl t = nl -> t = Leaf.
Proof.
  intros H. destruct t as [|c p k v l r]; [done|]. cbn. intros ->.
  pose proof (st_nodup _ _ _ _ H) as Hnd. cbn in Hnd. nodup_facts Hnd. set_solver.
Qed.

(** The nodes, links and allocator of a state are those of another. *)
Definition same_mem (s s' : rbtree) : Prop :=
  dom (heap s') = dom (heap s) /\ next s' = next s /\ pooled s' = pooled s.

#[export] Instance same_mem_preorder : PreOrder same_mem.
Proof.
  split; [done|]. unfold same_mem. intros s1 s2 s3 (H1 & H2 & H3) (H4 & H5 & H6).
  repeat split; congruence.
Qed.

(** Writing the color, the key or the value of the node at the position. *)
Lemma st_write nl s al c p k v l r g c' k' v' f :
  (forall a b q, f (cell c a b q k v) = cell c' a b q k' v') ->
  st nl s (Node c p k v l r) g ->
  exists s', wr p f (s, al) = Ret (tt, (s', al)) /\
    st nl s' (Node c' p k' v' l r) g /\ same_mem s s'.
Proof.
  intros Hf [Hroot Hnil (Hp & Hl & Hr) Hcrep Hnd H0 (n & Hs & Hc)].
  eexists. split; [by eapply wr_run|]. rewrite Hf.
  pose proof Hnd as Hnd'. cbn in Hnd'. nodup_facts Hnd'.
  split.
  - split; cbn [root nil heap set_heap]; try done.
    + cbn. rewrite lookup_insert_eq. split; [done|].
      split; (eapply rep_frame; [eassumption|]); intros q Hq; apply lookup_insert_ne; set_solver.
    + eapply crep_frame; [exact Hcrep|]. intros q Hq. apply lookup_insert_ne. set_solver.
    + rewrite lookup_insert_ne; [done|congruence].
    + exists n. rewrite lookup_insert_ne by set_solver. done.
  - repeat split; cbn. by eapply insert_dom.
Qed.

Lemma st_set_color nl s al d c p k v a b g c' :
  st nl s (NodeD d c p k v a b) g ->
  exists s', wr p (set_color c') (s, al) = Ret (tt, (s', al)) /\
    st nl s' (NodeD d c' p k v a b) g /\ same_mem s s'.
Proof. destruct d; cbn; by apply st_write. Qed.

(** The color of the node a pointer names: the sentinel is black. *)
Definition tcolor (t : tree) : node_color :=
  match t with Leaf => BLACK | Node c _ _ _ _ _ => c end.

Lemma st_color nl s al t g :
  st nl s t g -> rd color (tptr nl t) (s, al) = Ret (tcolor t, (s, al)).
Proof.
  intros [Hroot Hnil Hrep Hcrep Hnd H0 (n & Hs & Hc)].
  destruct t as [|c p k v l r]; cbn in *.
  - by eapply rd_run.
  - destruct Hrep as (Hp & _). by eapply rd_run.
Qed.

Lemma st_null_dom nl s t g : st nl s t g -> heap s !! 0 = None.
Proof. apply st_null. Qed.
