(* ===== verification/RbtreeInsert.v ===== *)
(** * Red-black trees: insertion keeps the invariants

    [rbt t c n]: [t] has a root of color [c], no red node has a red child, and every
    path from the root meets [n] black nodes.  [rbc g c n]: the context [g] completes
    a tree with such a root to a red-black tree with a black root.  The fix-up after an
    insertion runs without fault on the heap, ends within the fuel, and produces
    a red-black tree with the same in-order contents. *)

From S2P Require Import Prelude KvsRbtree RbtreeRep.
Import Rbtree.

Fixpoint elems (t : tree) : list (cstr * cstr) :=
  match t with
  | Leaf => []
  | Node _ _ k v l r => elems l ++ (k, v) :: elems r
  end.

Inductive rbt : tree -> node_color -> nat -> Prop :=
  | rbt_leaf : rbt Leaf BLACK 0
  | rbt_red p k v l r n :
      rbt l BLACK n -> rbt r BLACK n -> rbt (Node RED p k v l r) RED n
  | rbt_black p k v l r cl cr n :
      rbt l cl n -> rbt r cr n -> rbt (Node BLACK p k v l r) BLACK (S n).

Inductive rbc : ctx -> node_color -> nat -> Prop :=
  | rbc_nil n : rbc [] BLACK n
  | rbc_red d p k v sib g n :
      rbt sib BLACK n -> rbc g RED n -> rbc (Fr d RED p k v sib :: g) BLACK n
  | rbc_black d p k v sib cs g c n :
      rbt sib cs n -> rbc g BLACK (S n) -> rbc (Fr d BLACK p k v sib :: g) c n.

Create HintDb rbdb.
#[export] Hint Constructors rbt rbc : rbdb.

Lemma rbt_NodeD_red d p k v a b n :
  rbt a BLACK n -> rbt b BLACK n -> rbt (NodeD d RED p k v a b) RED n.
Proof. destruct d; cbn; eauto with rbdb. Qed.

Lemma rbt_NodeD_black d p k v a b ca cb n :
  rbt a ca n -> rbt b cb n -> rbt (NodeD d BLACK p k v a b) BLACK (S n).
Proof. destruct d; cbn; eauto with rbdb. Qed.

#[export] Hint Resolve rbt_NodeD_red rbt_NodeD_black : rbdb.

Lemma rbt_tcolor t c n : rbt t c n -> tcolor t = c.
Proof. by destruct 1. Qed.

(** Filling a context with a tree it accepts. *)
Lemma rbc_plug g c n t :
  rbc g c n -> rbt t c n -> exists n', rbt (plug t g) BLACK n'.
Proof.
  intros Hg. revert t. induction Hg as [n|d p k v sib g n Hs Hg IH|d p k v sib cs g c n Hs Hg IH];
    intros t Ht; cbn.
  - by exists n.
  - apply IH. unfold plug1. cbn. eauto with rbdb.
  - apply IH. unfold plug1. cbn. eauto with rbdb.
Qed.

(** ** In-order contents *)

Lemma elems_plug1 t t' f : elems t = elems t' -> elems (plug1 t f) = elems (plug1 t' f).
Proof. intros H. unfold plug1. by destruct (f_dir f); cbn; rewrite H. Qed.

Lemma elems_plug t t' g : elems t = elems t' -> elems (plug t g) = elems (plug t' g).
Proof.
  revert t t'. induction g as [|f g IH]; intros t t' H; cbn; [done|].
  apply IH. by apply elems_plug1.
Qed.

Lemma elems_color d c c' p k v a b :
  elems (NodeD d c p k v a b) = elems (NodeD d c' p k v a b).
Proof. by destruct d. Qed.

Lemma elems_NodeD d c p p' k v a a' b b' c' :
  elems a = elems a' -> elems b = elems b' ->
  elems (NodeD d c p k v a b) = elems (NodeD d c' p' k v a' b').
Proof. intros H1 H2. by destruct d; cbn; rewrite H1, H2. Qed.

Lemma elems_rot d cx x kx vx a cy y ky vy b e :
  elems (NodeD d cy y ky vy (NodeD d cx x kx vx a b) e)
  = elems (NodeD d cx x kx vx a (NodeD d cy y ky vy b e)).
Proof. destruct d; cbn; by rewrite <- app_assoc. Qed.

(** ** One iteration of the fix-up loop *)

(** The body for a parent that is the child on side [d] of the grandparent. *)
Definition ibody (d : dir) (n : nat) (z zp zpp : ptr) : rb unit :=
  y ← rd (chd (flip d)) zpp;
  cy ← rd color y;
  if decide (cy = RED) then
    wr zp (set_color BLACK) ;;
    wr y (set_color BLACK) ;;
    wr zpp (set_color RED) ;;
    rbtree_insert_fixup n zpp
  else
    zpr ← rd (chd (flip d)) zp;
    z ← (if decide (z = zpr) then rot d zp ;; mret zp else mret z);
    zp ← rd parent z;
    wr zp (set_color BLACK) ;;
    zpp ← rd parent zp;
    wr zpp (set_color RED) ;;
    rot (flip d) zpp ;;
    rbtree_insert_fixup n z.

Lemma ifix_step n z :
  rbtree_insert_fixup (S n) z =
  (zp ← rd parent z;
   c ← rd color zp;
   if decide (c = BLACK) then r ← get_root; wr r (set_color BLACK) else
   zpp ← rd parent zp;
   zppl ← rd left zpp;
   if decide (zp = zppl) then ibody L n z zp zpp else ibody R n z zp zpp).
Proof. reflexivity. Qed.

Section fixup.
  Context (nl : ptr).

(** Reading the links around a position. *)
Lemma rd_parent s al d c p k v a b g :
  st nl s (NodeD d c p k v a b) g -> rd parent p (s, al) = Ret (cparent nl g, (s, al)).
Proof.
  intros H. eapply rd_run; [by eapply st_null|by eapply st_focus|apply parent_cellD].
Qed.

Lemma rd_near s al d c p k v a b g :
  st nl s (NodeD d c p k v a b) g -> rd (chd d) p (s, al) = Ret (tptr nl a, (s, al)).
Proof.
  intros H. eapply rd_run; [by eapply st_null|by eapply st_focus|apply chd_near].
Qed.

Lemma rd_far s al d c p k v a b g :
  st nl s (NodeD d c p k v a b) g -> rd (chd (flip d)) p (s, al) = Ret (tptr nl b, (s, al)).
Proof.
  intros H. eapply rd_run; [by eapply st_null|by eapply st_focus|apply chd_far].
Qed.

(** Two different positions have different pointers. *)
Lemma st_sib_ne s d c p k v a b g :
  st nl s (NodeD d c p k v a b) g -> a <> Leaf -> tptr nl a <> tptr nl b.
Proof.
  intros H Ha E. pose proof (st_nodup _ _ _ _ H) as Hnd. rewrite addrs_NodeD in Hnd.
  nodup_facts Hnd.
  destruct (tptr_cases nl a) as [Hl|Hin].
  - by apply Ha, (st_tptr_nl nl s a (Fr d c p k v b :: g)), Hl; apply st_near.
  - rewrite E in Hin. destruct (tptr_cases nl b) as [Hl|Hinb]; [rewrite Hl in Hin|]; set_solver.
Qed.

(** Going to the grandparent's branch for a parent on its side [d]. *)
Lemma at_left {A} s al d c p k v a b g (x y : rb A) :
  st nl s (NodeD d c p k v a b) g -> a <> Leaf ->
  (q ← rd left p; if decide (tptr nl a = q) then x else y) (s, al)
  = (match d with L => x | R => y end) (s, al).
Proof.
  intros H Ha. destruct d.
  - rewrite (bind_ret _ _ _ _ _ (rd_near s al L _ _ _ _ _ _ _ H)). by rewrite decide_True.
  - rewrite (bind_ret _ _ _ _ _ (rd_far s al R _ _ _ _ _ _ _ H)). rewrite decide_False; [done|].
    by apply (st_sib_ne s R c p k v a b g).
Qed.

Definition ccolor (g : ctx) : node_color := match g with [] => BLACK | f :: _ => f_color f end.

Lemma rd_ccolor s al t g :
  st nl s t g -> rd color (cparent nl g) (s, al) = Ret (ccolor g, (s, al)).
Proof.
  intros H. destruct g as [|f g].
  - destruct H as [_ _ _ _ _ H0 (n & Hs & Hc)]. by eapply rd_run.
  - apply st_up in H. eapply rd_run; [by eapply st_null|by eapply st_focus|apply color_cellD].
Qed.

Lemma rd_parent_tptr s al t g :
  st nl s t g -> t <> Leaf -> rd parent (tptr nl t) (s, al) = Ret (cparent nl g, (s, al)).
Proof. intros H Ht. destruct t as [|c p k v l r]; [done|]. by apply (rd_parent s al L) in H. Qed.

Lemma plug_not_Leaf t g : t <> Leaf -> plug t g <> Leaf.
Proof.
  revert t. induction g as [|f g IH]; intros t Ht; cbn; [done|].
  apply IH. unfold plug1. by destruct (f_dir f).
Qed.

Definition blacken (t : tree) : tree :=
  match t with Leaf => Leaf | Node _ p k v l r => Node BLACK p k v l r end.

(** The loop stops at a node with a black parent and paints the root black. *)
Lemma ifix_stop n s al t g :
  st nl s t g -> t <> Leaf -> ccolor g = BLACK ->
  exists s', rbtree_insert_fixup (S n) (tptr nl t) (s, al) = Ret (tt, (s', al)) /\
    st nl s' (blacken (plug t g)) [] /\ same_mem s s'.
Proof.
  intros H Ht Hg. rewrite ifix_step.
  rewrite (bind_ret _ _ _ _ _ (rd_parent_tptr s al t g H Ht)).
  rewrite (bind_ret _ _ _ _ _ (rd_ccolor s al t g H)), Hg, decide_True by done.
  unfold get_root. mcbn. apply plug_not_Leaf with (g := g) in Ht.
  apply st_plug in H. rewrite (st_root _ _ _ _ H). cbn.
  destruct (plug t g) as [|c p k v l r]; [done|]. cbn.
  apply (st_set_color nl s al L c p k v l r [] BLACK H).
Qed.

(** With a red parent the loop takes the branch of the parent's side. *)
Lemma ifix_enter n s al t d1 p1 k1 v1 u1 f2 g :
  st nl s t (Fr d1 RED p1 k1 v1 u1 :: f2 :: g) -> t <> Leaf ->
  rbtree_insert_fixup (S n) (tptr nl t) (s, al)
  = ibody (f_dir f2) n (tptr nl t) p1 (f_ptr f2) (s, al).
Proof.
  intros H Ht. rewrite ifix_step.
  rewrite (bind_ret _ _ _ _ _ (rd_parent_tptr s al t _ H Ht)).
  rewrite (bind_ret _ _ _ _ _ (rd_ccolor s al t _ H)), decide_False by done.
  cbn [cparent f_ptr]. apply st_up in H. unfold plug1 in H. cbn in H.
  rewrite (bind_ret _ _ _ _ _ (rd_parent s al _ _ _ _ _ _ _ _ H)).
  apply st_up in H. unfold plug1 in H.
  pose proof (at_left s al _ _ _ _ _ _ _ _ (ibody L n (tptr nl t) p1 (f_ptr f2))
    (ibody R n (tptr nl t) p1 (f_ptr f2)) H) as E. rewrite tptr_NodeD in E. cbn [cparent].
  rewrite E; [by destruct (f_dir f2)|by destruct d1].
Qed.

(** A red uncle: the two are painted black, the grandparent red. *)
Lemma ibody_red d n s al t d1 p1 k1 v1 u1 p2 k2 v2 py ky vy yl yr g :
  st nl s (NodeD d BLACK p2 k2 v2 (NodeD d1 RED p1 k1 v1 t u1) (Node RED py ky vy yl yr)) g ->
  exists s', ibody d n (tptr nl t) p1 p2 (s, al) = rbtree_insert_fixup n p2 (s', al) /\
    st nl s' (NodeD d RED p2 k2 v2 (NodeD d1 BLACK p1 k1 v1 t u1) (Node BLACK py ky vy yl yr)) g /\
    same_mem s s'.
Proof.
  intros H. unfold ibody.
  rewrite (bind_ret _ _ _ _ _ (rd_far s al _ _ _ _ _ _ _ _ H)).
  pose proof H as Hy. apply st_in_far in Hy.
  rewrite (bind_ret _ _ _ _ _ (st_color nl s al _ _ Hy)). cbn [tcolor tptr].
  rewrite decide_True by done.
  apply st_in_near in H. destruct (st_set_color nl s al _ _ _ _ _ _ _ _ BLACK H) as (s1 & E1 & H1 & M1).
  rewrite (bind_ret _ _ _ _ _ E1). apply st_out_near, st_in_far in H1.
  destruct (st_set_color nl s1 al L _ _ _ _ _ _ _ BLACK H1) as (s2 & E2 & H2 & M2).
  rewrite (bind_ret _ _ _ _ _ E2). apply st_out_far in H2.
  destruct (st_set_color nl s2 al _ _ _ _ _ _ _ _ RED H2) as (s3 & E3 & H3 & M3).
  rewrite (bind_ret _ _ _ _ _ E3). exists s3. split; [done|]. split; [exact H3|].
  by etrans; [|etrans].
Qed.

(** The end of the branch for a black uncle: recoloring and the last rotation. *)
Definition itail (d : dir) (n : nat) (z : ptr) : rb unit :=
  zp ← rd parent z;
  wr zp (set_color BLACK) ;;
  zpp ← rd parent zp;
  wr zpp (set_color RED) ;;
  rot (flip d) zpp ;;
  rbtree_insert_fixup n z.

Lemma itail_spec d n s al t p1 k1 v1 u1 c2 p2 k2 v2 u g :
  st nl s (NodeD d c2 p2 k2 v2 (NodeD d RED p1 k1 v1 t u1) u) g -> t <> Leaf ->
  exists s', itail d n (tptr nl t) (s, al) = rbtree_insert_fixup n (tptr nl t) (s', al) /\
    st nl s' (NodeD d BLACK p1 k1 v1 t (NodeD d RED p2 k2 v2 u1 u)) g /\ same_mem s s'.
Proof.
  intros H Ht. unfold itail. apply st_in_near in H. pose proof H as Hz. apply st_in_near in Hz.
  rewrite (bind_ret _ _ _ _ _ (rd_parent_tptr s al t _ Hz Ht)). cbn [cparent f_ptr].
  destruct (st_set_color nl s al _ _ _ _ _ _ _ _ BLACK H) as (s1 & E1 & H1 & M1).
  rewrite (bind_ret _ _ _ _ _ E1).
  rewrite (bind_ret _ _ _ _ _ (rd_parent s1 al _ _ _ _ _ _ _ _ H1)). cbn [cparent f_ptr].
  apply st_out_near in H1.
  destruct (st_set_color nl s1 al _ _ _ _ _ _ _ _ RED H1) as (s2 & E2 & H2 & M2).
  rewrite (bind_ret _ _ _ _ _ E2).
  rewrite <- (NodeD_flip d BLACK), <- (NodeD_flip d RED) in H2.
  destruct (rot_spec nl _ _ al _ _ _ _ _ _ _ _ _ _ _ _ H2) as (s3 & E3 & H3 & M3).
  rewrite (bind_ret _ _ _ _ _ E3). exists s3. split; [done|].
  rewrite !NodeD_flip in H3. split; [done|]. by etrans; [|etrans].
Qed.

(** A black uncle: one or two rotations, after which the parent is black. *)
Lemma ibody_black d n s al t d1 p1 k1 v1 u1 p2 k2 v2 u g m :
  st nl s (NodeD d BLACK p2 k2 v2 (NodeD d1 RED p1 k1 v1 t u1) u) g ->
  rbt t RED m -> rbt u1 BLACK m -> rbt u BLACK m ->
  exists s' t' d' q k' v' w,
    ibody d n (tptr nl t) p1 p2 (s, al) = rbtree_insert_fixup n (tptr nl t') (s', al) /\
    st nl s' t' (Fr d' BLACK q k' v' w :: g) /\ same_mem s s' /\
    rbt t' RED m /\ rbt w RED m /\
    elems (NodeD d' BLACK q k' v' t' w)
    = elems (NodeD d BLACK p2 k2 v2 (NodeD d1 RED p1 k1 v1 t u1) u).
Proof.
  intros H Ht Hu1 Hu.
  assert (Htl : t <> Leaf) by (intros ->; inversion Ht).
  change (ibody d n (tptr nl t) p1 p2) with
    (y ← rd (chd (flip d)) p2;
     cy ← rd color y;
     if decide (cy = RED) then
       wr p1 (set_color BLACK) ;; wr y (set_color BLACK) ;; wr p2 (set_color RED) ;;
       rbtree_insert_fixup n p2
     else
       zpr ← rd (chd (flip d)) p1;
       z ← (if decide (tptr nl t = zpr) then rot d p1 ;; mret p1 else mret (tptr nl t));
       itail d n z).
  rewrite (bind_ret _ _ _ _ _ (rd_far s al _ _ _ _ _ _ _ _ H)).
  pose proof H as Hy. apply st_in_far in Hy.
  rewrite (bind_ret _ _ _ _ _ (st_color nl s al _ _ Hy)).
  rewrite (rbt_tcolor _ _ _ Hu), decide_False by done.
  pose proof H as Hp. apply st_in_near in Hp.
  destruct (decide (d1 = d)) as [->|Hd].
  - rewrite (bind_ret _ _ _ _ _ (rd_far s al _ _ _ _ _ _ _ _ Hp)).
    rewrite decide_False by (by apply (st_sib_ne s d RED p1 k1 v1 t u1 _ Hp)). mcbn.
    destruct (itail_spec d n s al t p1 k1 v1 u1 BLACK p2 k2 v2 u g H Htl) as (s' & E & Hs & M).
    exists s', t, d, p1, k1, v1, (NodeD d RED p2 k2 v2 u1 u). rewrite E.
    split; [done|]. split; [by apply st_in_near|]. split; [done|].
    split; [done|]. split; [eauto with rbdb|].
    destruct d; cbn; by rewrite <- app_assoc.
  - assert (d1 = flip d) as -> by (by destruct d, d1).
    rewrite NodeD_flip in *.
    rewrite (bind_ret _ _ _ _ _ (rd_far s al _ _ _ _ _ _ _ _ Hp)).
    rewrite decide_True by done.
    assert (exists p k v a b, t = NodeD d RED p k v a b /\ rbt a BLACK m /\ rbt b BLACK m)
      as (p & k & v & a & b & -> & Ha & Hb).
    { inversion Ht; subst. destruct d; cbn; eauto 9. }
    destruct (rot_spec nl _ _ al _ _ _ _ _ _ _ _ _ _ _ _ Hp) as (s1 & E1 & H1 & M1).
    assert (E2 : (rot d p1 ;; mret p1) (s, al) = Ret (p1, (s1, al))) by (by rewrite (bind_ret _ _ _ _ _ E1)).
    rewrite (bind_ret _ _ _ _ _ E2). apply st_out_near in H1.
    set (t' := NodeD d RED p1 k1 v1 u1 a) in *.
    assert (Htp : p1 = tptr nl t') by (by unfold t'; rewrite tptr_NodeD).
    assert (Htl' : t' <> Leaf) by (by unfold t'; destruct d).
    destruct (itail_spec d n s1 al t' p k v b BLACK p2 k2 v2 u g H1 Htl') as (s' & E & Hs & M).
    rewrite <- Htp in E. rewrite E.
    exists s', t', d, p, k, v, (NodeD d RED p2 k2 v2 b u).
    split; [by rewrite <- Htp|]. split; [by apply st_in_near|]. split; [by etrans|].
    split; [unfold t'; eauto with rbdb|]. split; [eauto with rbdb|].
    unfold t'. destruct d; cbn; rewrite <- ?app_assoc; cbn; by rewrite <- ?app_assoc.
Qed.
End fixup.

Lemma blacken_rbt t c m : rbt t c m -> exists m', rbt (blacken t) BLACK m'.
Proof. destruct 1; cbn; eauto with rbdb. Qed.

Lemma blacken_elems t : elems (blacken t) = elems t.
Proof. by destruct t. Qed.

Lemma plug_cons t f g : plug t (f :: g) = plug (plug1 t f) g.
Proof. done. Qed.

(** What the loop establishes from the position [t] in [g]. *)
Definition ifix_ok nl n s al t g : Prop :=
  exists s' T m, rbtree_insert_fixup n (tptr nl t) (s, al) = Ret (tt, (s', al)) /\
    st nl s' T [] /\ rbt T BLACK m /\ elems T = elems (plug t g) /\ same_mem s s'.

Lemma ifix_black nl n s al t g m c :
  st nl s t g -> t <> Leaf -> rbt (plug t g) c m -> ccolor g = BLACK ->
  ifix_ok nl (S n) s al t g.
Proof.
  intros H Ht Hp Hg. destruct (ifix_stop nl n s al t g H Ht Hg) as (s' & E & Hs & M).
  destruct (blacken_rbt _ _ _ Hp) as (m' & Hm).
  exists s', (blacken (plug t g)), m'. by rewrite blacken_elems.
Qed.

Lemma rbt_RED_not_Leaf t m : rbt t RED m -> t <> Leaf.
Proof. by inversion 1. Qed.

(** The fix-up loop: from a red node under a context that would accept a black one,
    it ends within the fuel with a red-black tree of the same contents. *)
Lemma ifix_spec nl n : forall s al t g m,
  st nl s t g -> rbt t RED m -> rbc g BLACK m -> length g < n -> ifix_ok nl n s al t g.
Proof.
  induction n as [|n IH]; intros s al t g m H Ht Hg Hn; [lia|].
  pose proof (rbt_RED_not_Leaf _ _ Ht) as Htl.
  inversion Hg as [m0|d1 p1 k1 v1 u1 g1 m1 Hu1 Hg1|d1 p1 k1 v1 u1 c1 g1 c2 m1 Hu1 Hg1]; subst.
  - by apply (ifix_black nl n s al t [] m RED).
  - inversion Hg1 as [|  |d2 p2 k2 v2 u c2 g2 c m1 Hu Hg2]; subst.
    unfold ifix_ok. rewrite (ifix_enter nl n s al t _ _ _ _ _ _ _ H Htl). cbn [f_dir f_ptr].
    apply st_up in H. unfold plug1 in H. cbn in H. apply st_out_near in H.
    rewrite !plug_cons. unfold plug1. cbn [f_dir f_color f_ptr f_key f_value f_sib].
    destruct c2.
    + inversion Hu as [|py ky vy yl yr m1 Hyl Hyr|]; subst.
      destruct (ibody_red nl d2 n s al _ _ _ _ _ _ _ _ _ _ _ _ _ _ _ H) as (s1 & E1 & H1 & M1).
      rewrite E1.
      destruct (IH s1 al _ g2 (S m) H1) as (s' & T & m' & E & Hs & HT & He & M);
        [eauto with rbdb|exact Hg2|cbn in Hn; lia|].
      rewrite tptr_NodeD in E. exists s', T, m'. split; [exact E|]. split; [done|]. split; [done|].
      split; [|by etrans]. rewrite He. apply elems_plug, elems_NodeD; [by apply elems_color|done].
    + destruct (ibody_black nl d2 n s al t d1 p1 k1 v1 u1 p2 k2 v2 u g2 m H Ht Hu1 Hu)
        as (s1 & t' & d' & q & k' & v' & w & E1 & H1 & M1 & Ht' & Hw & He).
      rewrite E1. destruct n as [|n]; [cbn in Hn; lia|].
      pose proof (rbt_RED_not_Leaf _ _ Ht') as Htl'.
      destruct (rbc_plug (Fr d' BLACK q k' v' w :: g2) RED m t') as (m' & Hm); [eauto with rbdb|done|].
      destruct (ifix_black nl n s1 al t' _ _ _ H1 Htl' Hm) as (s' & T & m'' & E & Hs & HT & He' & M);
        [done|].
      exists s', T, m''. split; [done|]. split; [done|]. split; [done|]. split; [|by etrans].
      rewrite He', plug_cons. by apply elems_plug.
  - destruct (rbc_plug (Fr d1 BLACK p1 k1 v1 u1 :: g1) RED m t) as (m' & Hm); [eauto with rbdb|done|].
    by eapply ifix_black.
Qed.
