(* ===== verification/RbtreeMap.v ===== *)
(** * Red-black trees: search, insertion and the map they implement

    [locate k t g] is the position the descent of search and insert reaches.  On a
    search tree it holds the key, or it is the place where the key belongs.  With the
    fix-up lemma this gives the engine's contract: the tree stays a red-black search
    tree and set, get, mod and exist are operations of a finite map. *)

From stdpp Require Import sorting.
From S2P Require Import Prelude Engine KvsRbtree RbtreeRep RbtreeInsert.
Import Rbtree.

(** ** The position of a key *)

Fixpoint locate (k : cstr) (t : tree) (g : ctx) : tree * ctx :=
  match t with
  | Leaf => (Leaf, g)
  | Node c p k' v' l r =>
      if (strcmp k k' <? 0)%Z then locate k l (Fr L c p k' v' r :: g)
      else if (0 <? strcmp k k')%Z then locate k r (Fr R c p k' v' l :: g)
      else (t, g)
  end.

(** Every step of the path went to the side of the key. *)
Definition follows (k : cstr) (g : ctx) : Prop :=
  Forall (fun f => match f_dir f with
                   | L => cstr_lt k (f_key f) | R => cstr_lt (f_key f) k end) g.

Fixpoint height (t : tree) : nat :=
  match t with Leaf => 0 | Node _ _ _ _ l r => S (height l `max` height r) end.

Definition sorted (t : tree) : Prop := StronglySorted cstr_lt (elems t).*1.

(** The in-order contents before and after the hole. *)
Fixpoint cpre (g : ctx) : list (cstr * cstr) :=
  match g with
  | [] => []
  | f :: g => match f_dir f with
              | L => cpre g
              | R => cpre g ++ elems (f_sib f) ++ [(f_key f, f_value f)] end
  end.

Fixpoint cpost (g : ctx) : list (cstr * cstr) :=
  match g with
  | [] => []
  | f :: g => match f_dir f with
              | L => (f_key f, f_value f) :: elems (f_sib f) ++ cpost g
              | R => cpost g end
  end.

Lemma elems_plug_ctx g : forall t, elems (plug t g) = cpre g ++ elems t ++ cpost g.
Proof.
  induction g as [|f g IH]; intros t; cbn; [by rewrite app_nil_r|].
  rewrite IH. unfold plug1. destruct (f_dir f); cbn; by rewrite <- !app_assoc.
Qed.

Lemma locate_plug k t : forall g,
  plug (locate k t g).1 (locate k t g).2 = plug t g.
Proof.
  induction t as [|c p k' v' l IHl r IHr]; intros g; cbn; [done|].
  destruct (strcmp k k' <? 0)%Z; [by rewrite IHl|].
  destruct (0 <? strcmp k k')%Z; [by rewrite IHr|done].
Qed.

Lemma locate_follows k t : forall g, follows k g -> follows k (locate k t g).2.
Proof.
  induction t as [|c p k' v' l IHl r IHr]; intros g Hg; cbn; [done|].
  destruct (Z.ltb_spec (strcmp k k') 0); [apply IHl; by constructor|].
  destruct (Z.ltb_spec 0 (strcmp k k')); [|done].
  apply IHr. constructor; [by apply strcmp_pos|done].
Qed.

Lemma locate_found k t : forall g,
  (locate k t g).1 = Leaf \/
  exists c p v l r, (locate k t g).1 = Node c p k v l r.
Proof.
  induction t as [|c p k' v' l IHl r IHr]; intros g; cbn; [by left|].
  destruct (Z.ltb_spec (strcmp k k') 0); [apply IHl|].
  destruct (Z.ltb_spec 0 (strcmp k k')); [apply IHr|].
  right. assert (k = k') as <- by (apply strcmp_eq; lia). eauto 6.
Qed.

(** The keys around the hole are on their sides of the key. *)
Lemma follows_ctx k g t :
  follows k g -> sorted (plug t g) ->
  Forall (fun j => cstr_lt j k) (cpre g).*1 /\ Forall (cstr_lt k) (cpost g).*1.
Proof.
  revert t. induction g as [|f g IH]; intros t Hf Hs; [done|].
  apply list.Forall_cons in Hf as [Hk Hf]. cbn in Hs.
  destruct (IH _ Hf Hs) as [Hpre Hpost]. clear IH.
  unfold sorted in Hs. rewrite elems_plug_ctx in Hs. unfold plug1 in Hs.
  cbn [cpre cpost]. destruct (f_dir f); cbn [NodeD elems] in Hs; split; try done;
    repeat (rewrite ?fmap_app, ?fmap_cons, <- ?app_assoc in Hs; cbn [app] in Hs).
  - rewrite fmap_cons, fmap_app. constructor; [done|]. apply Forall_app. split; [|done].
    apply list.Forall_forall. intros j Hj. trans (f_key f); [done|].
    apply StronglySorted_app_1_r, StronglySorted_app_1_r in Hs.
    apply StronglySorted_cons in Hs as [Hs _]. rewrite list.Forall_forall in Hs.
    apply Hs. set_solver.
  - rewrite !fmap_app. apply Forall_app. split; [done|].
    apply Forall_app. split; [|by constructor].
    apply list.Forall_forall. intros j Hj. trans (f_key f); [|done].
    apply StronglySorted_app_1_r in Hs.
    eapply (StronglySorted_app_1_elem_of _ _ _ _ _ Hs); [done|set_solver].
Qed.

Lemma cstr_lt_irrefl k : ~ cstr_lt k k.
Proof. apply irreflexivity, _. Qed.

(** Putting a node with the key into the hole keeps the tree sorted. *)
Lemma follows_sorted k v c p g :
  follows k g -> sorted (plug Leaf g) -> sorted (plug (Node c p k v Leaf Leaf) g).
Proof.
  intros Hf Hs. destruct (follows_ctx _ _ _ Hf Hs) as [Hpre Hpost].
  unfold sorted in *. rewrite elems_plug_ctx in *. cbn [elems app] in *.
  rewrite fmap_app, ?fmap_cons in *. apply StronglySorted_app in Hs as (Hx & H1 & H2).
  rewrite list.Forall_forall in Hpre.
  apply StronglySorted_app_2; [|done|by constructor].
  intros x1 x2 Hx1 Hx2. apply elem_of_cons in Hx2 as [->|Hx2]; [by apply Hpre|by apply Hx].
Qed.

(** A position that ends in the hole shows that the key is absent. *)
Lemma follows_absent k g :
  follows k g -> sorted (plug Leaf g) -> k ∉ (elems (plug Leaf g)).*1.
Proof.
  intros Hf Hs. destruct (follows_ctx _ _ _ Hf Hs) as [Hpre Hpost].
  rewrite elems_plug_ctx, fmap_app, elem_of_app. rewrite list.Forall_forall in *.
  intros [H|H]; [apply Hpre in H|apply Hpost in H]; by apply cstr_lt_irrefl in H.
Qed.

Lemma sorted_NoDup t : sorted t -> NoDup (elems t).*1.
Proof.
  unfold sorted. induction 1 as [|j l _ IH Hall]; constructor; [|done].
  intros Hin. rewrite list.Forall_forall in Hall. by apply Hall, cstr_lt_irrefl in Hin.
Qed.

(** ** The map of a tree *)

Definition tmap (t : tree) : gmap cstr cstr := list_to_map (elems t).

Lemma tmap_locate k t :
  sorted t ->
  tmap t !! k = match (locate k t []).1 with Leaf => None | Node _ _ _ v _ _ => Some v end.
Proof.
  intros Hs. pose proof (locate_plug k t []) as Hp. cbn [plug foldl] in Hp.
  destruct (locate_found k t []) as [Hl|(c & p & v & l & r & Hl)].
  - rewrite Hl in *. apply not_elem_of_list_to_map_1. rewrite <- Hp. apply follows_absent.
    + apply locate_follows. constructor.
    + by rewrite Hp.
  - rewrite Hl in *. apply elem_of_list_to_map_1; [by apply sorted_NoDup|].
    rewrite <- Hp, elems_plug_ctx. cbn [elems]. set_solver.
Qed.

Lemma tmap_insert k v c p g :
  follows k g -> sorted (plug Leaf g) ->
  tmap (plug (Node c p k v Leaf Leaf) g) = <[k := v]> (tmap (plug Leaf g)).
Proof.
  intros Hf Hs. unfold tmap. rewrite <- list_to_map_cons.
  apply list_to_map_proper; [by apply sorted_NoDup, follows_sorted|].
  rewrite !elems_plug_ctx. cbn. solve_Permutation.
Qed.

Lemma tmap_update c p k v w l r g :
  sorted (plug (Node c p k v l r) g) ->
  tmap (plug (Node c p k w l r) g) = <[k := w]> (tmap (plug (Node c p k v l r) g)).
Proof.
  intros Hs. apply sorted_NoDup in Hs. unfold tmap. rewrite !elems_plug_ctx in *.
  cbn [elems] in *. rewrite !fmap_app, fmap_cons in Hs.
  trans (<[k := w]> (list_to_map ((k, v) :: (cpre g ++ elems l ++ elems r ++ cpost g)) : gmap cstr cstr)).
  - rewrite list_to_map_cons, insert_insert_eq, <- list_to_map_cons.
    apply list_to_map_proper; [|solve_Permutation].
    rewrite !fmap_app, fmap_cons. exact Hs.
  - f_equal. apply list_to_map_proper; [|solve_Permutation].
    rewrite fmap_cons, !fmap_app. eapply NoDup_Permutation_proper; [|exact Hs].
    cbn. solve_Permutation.
Qed.

(** ** Running the descent *)

Lemma rd_str_run f s al p n k :
  heap s !! 0 = None -> heap s !! p = Some n -> f n = Some (Str k) ->
  rd_str f p (s, al) = Ret (k, (s, al)).
Proof.
  intros H0 Hp Hf. unfold rd_str. by rewrite (bind_ret _ _ _ _ _ (rd_run f s al p n _ H0 Hp Hf)).
Qed.

Lemma st_nil_ne nl s c p k v l r g : st nl s (Node c p k v l r) g -> p <> nl.
Proof.
  intros H. pose proof (st_nodup _ _ _ _ H) as Hnd. cbn in Hnd. nodup_facts Hnd. set_solver.
Qed.

Lemma run_get_nil nl s al t g : st nl s t g -> get_nil (s, al) = Ret (nl, (s, al)).
Proof. intros H. unfold get_nil. mcbn. by rewrite (st_nil _ _ _ _ H). Qed.

Lemma search_loop_run nl k n : forall s al t g,
  st nl s t g -> height t < n ->
  search_loop n k (tptr nl t) (s, al) = Ret (tptr nl (locate k t g).1, (s, al)).
Proof.
  induction n as [|n IH]; intros s al t g H Hn; [lia|]. cbn [search_loop].
  rewrite (bind_ret _ _ _ _ _ (run_get_nil _ _ al _ _ H)).
  destruct t as [|c p k' v' l r]; cbn [tptr locate]; [by rewrite decide_True|].
  rewrite decide_False by (by eapply st_nil_ne). cbn in Hn.
  pose proof (st_focus nl s L _ _ _ _ _ _ _ H) as Hp.
  rewrite (bind_ret _ _ _ _ _ (rd_str_run key s al p _ k' (st_null _ _ _ _ H) Hp eq_refl)).
  destruct (strcmp k k' <? 0)%Z.
  - rewrite (bind_ret _ _ _ _ _ (rd_near nl s al L _ _ _ _ _ _ _ H)).
    apply (IH s al l (Fr L c p k' v' r :: g)); [by apply (st_in_near nl s L)|lia].
  - destruct (0 <? strcmp k k')%Z; [|done].
    rewrite (bind_ret _ _ _ _ _ (rd_far nl s al L _ _ _ _ _ _ _ H)).
    apply (IH s al r (Fr R c p k' v' l :: g)); [by apply (st_in_far nl s L)|lia].
Qed.

Lemma insert_descend_run nl z nz k n : forall s al t g,
  st nl s t g -> height t < n -> heap s !! z = Some nz -> key nz = Some (Str k) ->
  insert_descend n z (cparent nl g) (tptr nl t) (s, al)
  = Ret (match (locate k t g).1 with
         | Leaf => Some (cparent nl (locate k t g).2) | _ => None end, (s, al)).
Proof.
  induction n as [|n IH]; intros s al t g H Hn Hz Hk; [lia|]. cbn [insert_descend].
  rewrite (bind_ret _ _ _ _ _ (run_get_nil _ _ al _ _ H)).
  destruct t as [|c p k' v' l r]; cbn [tptr locate]; [by rewrite decide_True|].
  rewrite decide_False by (by eapply st_nil_ne). cbn in Hn.
  pose proof (st_focus nl s L _ _ _ _ _ _ _ H) as Hp.
  rewrite (bind_ret _ _ _ _ _ (rd_str_run key s al z _ k (st_null _ _ _ _ H) Hz Hk)).
  rewrite (bind_ret _ _ _ _ _ (rd_str_run key s al p _ k' (st_null _ _ _ _ H) Hp eq_refl)).
  destruct (strcmp k k' <? 0)%Z.
  - rewrite (bind_ret _ _ _ _ _ (rd_near nl s al L _ _ _ _ _ _ _ H)).
    apply (IH s al l (Fr L c p k' v' r :: g)); [by apply (st_in_near nl s L)|lia|done|done].
  - destruct (0 <? strcmp k k')%Z; [|done].
    rewrite (bind_ret _ _ _ _ _ (rd_far nl s al L _ _ _ _ _ _ _ H)).
    apply (IH s al r (Fr R c p k' v' l :: g)); [by apply (st_in_far nl s L)|lia|done|done].
Qed.

(** ** The fuel is enough: a path is not longer than the heap *)

Lemma rep_dom nl h par t q : rep nl h par t -> q ∈ addrs t -> q ∈ dom h.
Proof.
  revert par. induction t as [|c p k v l IHl r IHr]; intros par; cbn; [set_solver|].
  intros (H1 & H2 & H3) Hq. apply elem_of_dom_2 in H1. set_solver.
Qed.

Lemma crep_dom nl h hole g q : crep nl h hole g -> q ∈ caddrs g -> q ∈ dom h.
Proof.
  revert hole. induction g as [|f g IH]; intros hole; cbn; [set_solver|].
  intros (H1 & H2 & H3) Hq. apply elem_of_dom_2 in H1.
  apply elem_of_cons in Hq as [->|Hq]; [done|]. apply elem_of_app in Hq as [Hq|Hq].
  - by eapply rep_dom.
  - by eapply IH.
Qed.

Lemma height_addrs t : height t <= length (addrs t).
Proof. induction t; cbn; [done|]. rewrite length_app. lia. Qed.

Lemma length_caddrs g : length g <= length (caddrs g).
Proof. induction g; cbn; [done|]. rewrite length_app. lia. Qed.

Lemma st_bound nl s t g : st nl s t g -> height t + length g < size (heap s).
Proof.
  intros H. assert (Hl : length (nl :: addrs t ++ caddrs g) <= size (heap s)).
  { rewrite <- size_dom. rewrite <- (size_list_to_set (C := gset ptr)) by apply (st_nodup _ _ _ _ H).
    apply subseteq_size. intros q Hq. apply elem_of_list_to_set in Hq.
    destruct H as [_ _ Hr Hc _ _ (n & Hn & _)].
    apply elem_of_cons in Hq as [->|Hq]; [by eapply elem_of_dom_2|].
    apply elem_of_app in Hq as [Hq|Hq]; [by eapply rep_dom|by eapply crep_dom]. }
  cbn in Hl. rewrite length_app in Hl.
  pose proof (height_addrs t). pose proof (length_caddrs g). lia.
Qed.

(** A state that agrees with another on the nodes holds the same tree. *)
Lemma st_frame nl s s' t g :
  st nl s t g -> root s' = root s -> nil s' = nil s -> heap s' !! 0 = None ->
  (forall q, q ∈ nl :: addrs t ++ caddrs g -> heap s' !! q = heap s !! q) ->
  st nl s' t g.
Proof.
  intros [H1 H2 H3 H4 H5 H6 (n & H7 & H8)] Hr Hn H0 Hq. split; try congruence.
  - eapply rep_frame; [exact H3|]. intros q ?. apply Hq. set_solver.
  - eapply crep_frame; [exact H4|]. intros q ?. apply Hq. set_solver.
  - exists n. rewrite Hq by set_solver. done.
Qed.

(** ** Linking a new node *)

Definition ilink (nl z y : ptr) : rb unit :=
  wr z (set_parent y) ;;
  (if decide (y = nl) then modify (set_root z) else
     zk ← rd_str key z; yk ← rd_str key y;
     if (strcmp zk yk <? 0)%Z then wr y (set_left z) else wr y (set_right z)) ;;
  wr z (set_left nl) ;;
  wr z (set_right nl) ;;
  wr z (set_color RED).

(** The link from the parent goes to the side of the key. *)
Lemma run_link nl s al z nz k g :
  heap s !! 0 = None -> nl ∉ caddrs g -> heap s !! z = Some nz -> key nz = Some (Str k) ->
  follows k g -> crep nl (heap s) nl g ->
  (if decide (cparent nl g = nl) then modify (set_root z) else
     zk ← rd_str key z; yk ← rd_str key (cparent nl g);
     if (strcmp zk yk <? 0)%Z then wr (cparent nl g) (set_left z)
     else wr (cparent nl g) (set_right z)) (s, al)
  = Ret (tt, (mk_rbtree (match g with [] => z | _ => root s end) (nil s)
                (rlink nl z g (heap s)) (next s) (pooled s), al)).
Proof.
  intros H0 Hnl Hz Hk Hf Hc. destruct g as [|f g]; cbn [cparent rlink] in *.
  - rewrite decide_True by done. done.
  - cbn in Hnl. rewrite decide_False by set_solver.
    destruct Hc as (Hp & _). apply list.Forall_cons in Hf as [Hf _].
    rewrite (bind_ret _ _ _ _ _ (rd_str_run key s al z nz k H0 Hz Hk)).
    rewrite (bind_ret _ _ _ _ _ (rd_str_run key s al _ _ (f_key f) H0 Hp (key_cellD _ _ _ _ _ _ _))).
    destruct (f_dir f); cbn in Hf.
    + destruct (Z.ltb_spec (strcmp k (f_key f)) 0); [|by unfold cstr_lt in Hf; lia].
      by rewrite (wr_run _ _ _ _ _ H0 Hp).
    + apply strcmp_pos in Hf. destruct (Z.ltb_spec (strcmp k (f_key f)) 0); [lia|].
      by rewrite (wr_run _ _ _ _ _ H0 Hp).
Qed.

Lemma ilink_run nl s al z nz k g :
  st nl s Leaf g -> z ∉ nl :: caddrs g -> heap s !! z = Some nz -> key nz = Some (Str k) ->
  follows k g ->
  ilink nl z (cparent nl g) (s, al)
  = Ret (tt, (mk_rbtree (rptr z g) nl
      (<[z := set_color RED (set_right nl (set_left nl (set_parent (cparent nl g) nz)))]>
        (rlink nl z g (heap s))) (next s) (pooled s), al)).
Proof.
  intros [Hroot Hnil _ Hc Hnd H0 _] Hz Hzn Hk Hf. cbn in Hc, Hnd.
  apply list.NoDup_cons in Hnd as [Hnl Hnd].
  assert (Hz0 : z <> 0) by congruence.
  unfold ilink. rewrite (bind_ret _ _ _ _ _ (wr_run _ _ _ _ _ H0 Hzn)).
  set (h1 := <[z := _]> (heap s)).
  rewrite (bind_ret _ _ _ _ _ (run_link nl (set_heap h1 s) al z _ k g
    ltac:(cbn; unfold h1; by rewrite lookup_insert_ne) ltac:(set_solver)
    ltac:(apply lookup_insert_eq) ltac:(done) Hf
    ltac:(eapply crep_frame; [exact Hc|]; intros q Hq; apply lookup_insert_ne; set_solver))).
  cbn [heap set_heap]. set (h2 := rlink nl z g h1).
  assert (Hz2 : h2 !! z = Some (set_parent (cparent nl g) nz))
    by (unfold h2, h1; rewrite rlink_lookup by set_solver; apply lookup_insert_eq).
  assert (H02 : h2 !! 0 = None).
  { unfold h2, h1. destruct g as [|f g]; cbn [rlink]; [by rewrite lookup_insert_ne|].
    destruct Hc as (Hfp & _). rewrite !lookup_insert_ne; [done|done|congruence]. }
  assert (Hr : match g with [] => z | _ => root s end = rptr z g)
    by (destruct g; [done|exact Hroot]).
  assert (Hh : forall x, <[z := x]> h2 = <[z := x]> (rlink nl z g (heap s))).
  { intros x. unfold h2, h1. destruct g as [|f g]; cbn [rlink]; [by rewrite insert_insert_eq|].
    assert (z <> f_ptr f) by (cbn in Hz; set_solver).
    rewrite !(insert_insert_ne _ z (f_ptr f)) by done.
    by rewrite insert_insert_eq. }
  do 2 (erewrite bind_ret; [|by eapply wr_run; cbn [heap set_heap];
    [rewrite ?lookup_insert_ne by done; exact H02|rewrite ?lookup_insert_eq; first [done|exact Hz2]]]).
  erewrite wr_run; [|cbn [heap set_heap]; rewrite ?lookup_insert_ne by done; exact H02
    |cbn [heap set_heap]; by rewrite lookup_insert_eq].
  unfold set_heap. cbn [heap root nil next pooled]. rewrite !insert_insert_eq, Hr, Hnil.
  by rewrite Hh.
Qed.

Lemma ilink_spec nl s al z nz k v g :
  st nl s Leaf g -> z ∉ nl :: caddrs g -> heap s !! z = Some nz ->
  key nz = Some (Str k) -> value nz = Some (Str v) -> follows k g ->
  exists s', ilink nl z (cparent nl g) (s, al) = Ret (tt, (s', al)) /\
    st nl s' (Node RED z k v Leaf Leaf) g /\ same_mem s s'.
Proof.
  intros H Hz Hzn Hk Hv Hf. eexists. split; [by eapply ilink_run|].
  destruct H as [Hroot Hnil _ Hc Hnd H0 (n & Hs & Hcl)]. cbn in Hc, Hnd.
  assert (Hz0 : z <> 0) by congruence.
  assert (Hzd : z ∈ dom (heap s)) by (by eapply elem_of_dom_2).
  apply list.NoDup_cons in Hnd as [Hnl Hnd].
  assert (Hd : forall x, dom (<[z := x]> (rlink nl z g (heap s))) = dom (heap s)).
  { intros x. rewrite dom_insert_L. erewrite rlink_dom by exact Hc. set_solver. }
  split; [split|]; cbn [root nil heap]; try done.
  - cbn. rewrite lookup_insert_eq. split; [|done].
    destruct nz as [??????]; cbn in *. by simplify_eq.
  - cbn. eapply crep_frame; [apply (rlink_crep nl nl z g (heap s) Hc Hnd)|].
    intros q Hq. apply lookup_insert_ne. set_solver.
  - cbn. constructor; [set_solver|]. constructor; [set_solver|done].
  - apply not_elem_of_dom. rewrite Hd. by apply not_elem_of_dom.
  - exists n. rewrite lookup_insert_ne by set_solver. rewrite rlink_lookup by done. done.
  - by repeat split; cbn.
Qed.

(** ** Insertion *)

Lemma rbtree_insert_unfold fuel z x :
  rbtree_insert fuel z x
  = (nl ← get_nil; r ← get_root;
     o ← insert_descend fuel z nl r;
     match o with
     | None => mret tt
     | Some y => ilink nl z y ;; rbtree_insert_fixup fuel z
     end) x.
Proof.
  unfold rbtree_insert, ilink, mbind, M_bind.
  destruct (get_nil x) as [[nl x1]|f|]; [|done..].
  destruct (get_root x1) as [[r x2]|f|]; [|done..].
  destruct (insert_descend fuel z nl r x2) as [[[y|] x3]|f|]; [|done..].
  destruct (wr z (set_parent y) x3) as [[[] x4]|f|]; [|done..].
  match goal with |- context [match ?m x4 with _ => _ end] => destruct (m x4) as [[[] x5]|f|] end;
    [|done..].
  destruct (wr z (set_left nl) x5) as [[[] x6]|f|]; [|done..].
  destruct (wr z (set_right nl) x6) as [[[] x7]|f|]; [|done..].
  by destruct (wr z (set_color RED) x7) as [[[] x8]|f|].
Qed.

(** A red-black tree split at any position is a subtree and a context. *)
Lemma rbt_unplug g : forall t m c,
  rbt (plug t g) c m -> c = BLACK -> exists c' m', rbt t c' m' /\ rbc g c' m'.
Proof.
  induction g as [|f g IH]; intros t m c H ->; cbn in H; [eauto with rbdb|].
  destruct (IH _ _ _ H eq_refl) as (c' & m' & Ht & Hg). unfold plug1 in Ht.
  destruct f as [d cf p k v sib]; cbn in *.
  destruct d; cbn in Ht; inversion Ht; subst; eauto with rbdb.
Qed.

Lemma rbc_weaken_leaf g m c : rbc g c m -> rbt Leaf c m -> rbc g BLACK 0.
Proof. intros H. inversion 1; subst. done. Qed.

(** Inserting the new node [z] into a tree without its key. *)
Lemma rbtree_insert_new nl s al z nz k v T m :
  st nl s T [] -> rbt T BLACK m -> sorted T ->
  z ∉ nl :: addrs T -> heap s !! z = Some nz ->
  key nz = Some (Str k) -> value nz = Some (Str v) -> tmap T !! k = None ->
  exists s' T' m', rbtree_insert (S (size (heap s))) z (s, al) = Ret (tt, (s', al)) /\
    st nl s' T' [] /\ rbt T' BLACK m' /\ sorted T' /\ tmap T' = <[k := v]> (tmap T) /\
    same_mem s s'.
Proof.
  intros H HT Hs Hz Hzn Hk Hv Hm. rewrite rbtree_insert_unfold.
  pose proof (st_bound _ _ _ _ H) as Hb. cbn in Hb.
  rewrite (bind_ret _ _ _ _ _ (run_get_nil _ _ al _ _ H)).
  unfold get_root. mcbn. rewrite (st_root _ _ _ _ H). cbn [rptr foldl].
  rewrite (bind_ret _ _ _ _ _ (insert_descend_run nl z nz k (S (size (heap s))) s al T [] H ltac:(lia) Hzn Hk)).
  rewrite (tmap_locate k T Hs) in Hm.
  pose proof (locate_plug k T []) as Hp. pose proof (locate_follows k T [] ltac:(constructor)) as Hf.
  destruct (locate k T []) as [t g]; cbn [fst snd] in *. destruct t; [|done].
  cbn [plug foldl] in Hp. fold (plug Leaf g) in Hp. subst T.
  apply st_plug in H. pose proof (st_bound _ _ _ _ H) as Hb'. cbn in Hb'.
  assert (Hz' : z ∉ nl :: caddrs g).
  { assert (Hperm : forall g t, addrs (plug t g) ≡ₚ addrs t ++ caddrs g).
    { clear. induction g as [|f g IH]; intros t; cbn; [by rewrite app_nil_r|].
      rewrite IH, addrs_plug1. solve_Permutation. }
    rewrite Hperm in Hz. done. }
  destruct (ilink_spec nl s al z nz k v g H Hz' Hzn Hk Hv Hf) as (s1 & E1 & H1 & M1).
  rewrite (bind_ret _ _ _ _ _ E1).
  destruct (rbt_unplug _ _ _ _ HT eq_refl) as (c & m0 & Ht & Hg).
  destruct (ifix_spec nl (S (size (heap s))) s1 al (Node RED z k v Leaf Leaf) g 0 H1)
    as (s' & T' & m' & E & H' & HT' & He & M); [eauto with rbdb|by eapply rbc_weaken_leaf|lia|].
  exists s', T', m'. cbn [tptr] in E. split; [exact E|]. split; [done|]. split; [done|].
  split; [unfold sorted; rewrite He; by apply follows_sorted|]. split; [|by etrans].
  unfold tmap at 1. rewrite He. by apply tmap_insert.
Qed.

(** A key that is present: nothing changes. *)
Lemma rbtree_insert_old nl s al z nz k w T :
  st nl s T [] -> sorted T -> heap s !! z = Some nz ->
  key nz = Some (Str k) -> tmap T !! k = Some w ->
  rbtree_insert (S (size (heap s))) z (s, al) = Ret (tt, (s, al)).
Proof.
  intros H Hs Hzn Hk Hm. unfold rbtree_insert.
  pose proof (st_bound _ _ _ _ H) as Hb. cbn in Hb.
  rewrite (bind_ret _ _ _ _ _ (run_get_nil _ _ al _ _ H)).
  unfold get_root. mcbn. rewrite (st_root _ _ _ _ H). cbn [rptr foldl].
  rewrite (bind_ret _ _ _ _ _ (insert_descend_run nl z nz k (S (size (heap s))) s al T [] H ltac:(lia) Hzn Hk)).
  rewrite (tmap_locate k T Hs) in Hm. by destruct (locate k T []).1.
Qed.

(** ** The engine implements a map *)

(** [tree_of nl s T]: the engine holds the red-black search tree [T], and the addresses
    from [next] on are free. *)
Definition tree_of (nl : ptr) (s : rbtree) (T : tree) : Prop :=
  st nl s T [] /\ (exists n, rbt T BLACK n) /\ sorted T /\
  next s <> 0 /\ forall q, next s <= q -> heap s !! q = None.

Definition rrep (s : rbtree) (m : gmap cstr cstr) : Prop :=
  exists nl T, tree_of nl s T /\ tmap T = m.

Lemma rbtree_search_run nl s al T k n :
  st nl s T [] -> height T < n ->
  rbtree_search n k (s, al) = Ret (tptr nl (locate k T []).1, (s, al)).
Proof.
  intros H Hn. unfold rbtree_search, get_root. mcbn. rewrite (st_root _ _ _ _ H).
  cbn [rptr foldl]. by apply search_loop_run.
Qed.

(** Search with the fuel of the entry points, and the position it returns. *)
Lemma rbtree_search_fuel nl s al T k :
  tree_of nl s T ->
  exists t g, rbtree_search (S (size (heap s))) k (s, al) = Ret (tptr nl t, (s, al)) /\
    st nl s t g /\ plug t g = T /\ tptr nl t <> 0 /\
    ((t = Leaf /\ tmap T !! k = None) \/
     (exists c p v l r, t = Node c p k v l r /\ p <> nl /\ tmap T !! k = Some v)).
Proof.
  intros (H & _ & Hs & _). pose proof (st_bound _ _ _ _ H) as Hb. cbn in Hb.
  pose proof (locate_plug k T []) as Hp. cbn [plug foldl] in Hp.
  exists (locate k T []).1, (locate k T []).2.
  assert (H' : st nl s (locate k T []).1 (locate k T []).2) by (apply st_plug; by rewrite Hp).
  split; [apply rbtree_search_run; [done|lia]|]. split; [done|]. split; [done|].
  pose proof (tmap_locate k T Hs) as Hm. split.
  - destruct H' as [_ _ Hr _ _ H0 (n & Hn & _)].
    destruct (locate k T []).1 as [|c p k' v l r]; cbn in *; [congruence|].
    destruct Hr as (Hr & _). congruence.
  - destruct (locate_found k T []) as [Hl|(c & p & v & l & r & Hl)]; rewrite Hl in *; [by left|].
    right. exists c, p, v, l, r. split; [done|]. split; [by eapply st_nil_ne|done].
Qed.

Lemma run_heap_fuel s al : heap_fuel (s, al) = Ret (S (size (heap s)), (s, al)).
Proof. done. Qed.

Lemma kvs_rbtree_get_spec s m k al :
  rrep s m -> kvs_rbtree_get (Some k) (s, al) = Ret (from_option Str Null (m !! k), (s, al)).
Proof.
  intros (nl & T & HT & <-). unfold kvs_rbtree_get.
  destruct (rbtree_search_fuel nl s al T k HT) as (t & g & E & H & Hp & H0 & Hm).
  rewrite (bind_ret _ _ _ _ _ (run_heap_fuel s al)), (bind_ret _ _ _ _ _ E).
  rewrite decide_False by done. rewrite (bind_ret _ _ _ _ _ (run_get_nil _ _ al _ _ H)).
  destruct Hm as [[-> Hm]|(c & p & v & l & r & -> & Hnl & Hm)]; rewrite Hm; cbn [tptr].
  - by rewrite decide_True.
  - rewrite decide_False by done. destruct H as [_ _ (Hn & _) _ _ Hz _]. by eapply rd_run.
Qed.

Lemma kvs_rbtree_exist_spec s m k al :
  rrep s m -> kvs_rbtree_exist (Some k) (s, al) = Ret ((if m !! k then 0 else 1)%Z, (s, al)).
Proof.
  intros (nl & T & HT & <-). unfold kvs_rbtree_exist.
  destruct (rbtree_search_fuel nl s al T k HT) as (t & g & E & H & Hp & H0 & Hm).
  rewrite (bind_ret _ _ _ _ _ (run_heap_fuel s al)), (bind_ret _ _ _ _ _ E).
  rewrite decide_False by done. rewrite (bind_ret _ _ _ _ _ (run_get_nil _ _ al _ _ H)).
  destruct Hm as [[-> Hm]|(c & p & v & l & r & -> & Hnl & Hm)]; rewrite Hm; cbn [tptr].
  - by rewrite decide_True.
  - by rewrite decide_False.
Qed.

(** Overwriting a value keeps shape, colors and keys. *)
Lemma rbt_plug_value g : forall t t' c m,
  (forall c m, rbt t c m -> rbt t' c m) -> rbt (plug t g) c m -> rbt (plug t' g) c m.
Proof.
  induction g as [|f g IH]; intros t t' c m Ht; cbn; [auto|].
  apply IH. intros c' m'. unfold plug1. destruct (f_dir f); cbn; inversion 1; subst; eauto with rbdb.
Qed.

Lemma kvs_rbtree_mod_spec s m k v :
  rrep s m ->
  exists s', kvs_rbtree_mod (Some k) (Some v) (s, [])
    = Ret ((if m !! k then 0 else 1)%Z, (s', [])) /\
    rrep s' (if m !! k then <[k := v]> m else m).
Proof.
  intros (nl & T & HT & <-). unfold kvs_rbtree_mod.
  destruct (rbtree_search_fuel nl s [] T k HT) as (t & g & E & H & Hp & H0 & Hm).
  rewrite (bind_ret _ _ _ _ _ (run_heap_fuel s _)), (bind_ret _ _ _ _ _ E).
  rewrite decide_False by done. rewrite (bind_ret _ _ _ _ _ (run_get_nil _ _ _ _ _ H)).
  destruct Hm as [[-> Hm]|(c & p & w & l & r & -> & Hnl & Hm)]; rewrite Hm; cbn [tptr].
  { rewrite decide_True by done. exists s. split; [done|]. by exists nl, T. }
  rewrite decide_False by done.
  destruct (st_write nl s [] c p k w l r g c k v (set_value (Str v)) ltac:(done) H)
    as (s' & E' & H' & M). exists s'.
  pose proof (st_focus nl s L _ _ _ _ _ _ _ H) as Hn. pose proof (st_null _ _ _ _ H) as Hz.
  rewrite (wr_run _ _ _ _ _ Hz Hn) in E'.
  split.
  - rewrite (bind_ret _ _ _ _ _ (rd_run value s [] p _ _ Hz Hn eq_refl)). cbn [free_str]. mcbn.
    rewrite (bind_ret _ _ _ _ _ (wr_run _ _ _ _ _ Hz Hn)). mcbn.
    erewrite bind_ret; [|eapply wr_run; cbn [heap set_heap];
      [rewrite lookup_insert_ne; [done|cbn in H0; done]|apply lookup_insert_eq]].
    unfold set_heap in *. cbn [heap root nil next pooled]. rewrite insert_insert_eq.
    cbn [negb]. injection E' as <-. done.
  - destruct HT as (_ & (n & HT) & Hs & Hnx & Hfree). exists nl, (plug (Node c p k v l r) g).
    subst T. split; [|by rewrite (tmap_update c p k w v l r g)].
    split; [by rewrite <- st_plug|]. split.
    { exists n. eapply rbt_plug_value; [|exact HT]. inversion 1; subst; eauto with rbdb. }
    split.
    { unfold sorted in *. rewrite elems_plug_ctx in *. cbn [elems] in *.
      rewrite !fmap_app, !fmap_cons in *. done. }
    destruct M as (Hd & -> & _). split; [done|]. intros q Hq. apply not_elem_of_dom.
    rewrite Hd. apply not_elem_of_dom. auto.
Qed.

(** The state in which [kvs_rbtree_set] calls [rbtree_insert]. *)
Definition new_state (k v : cstr) (s : rbtree) : rbtree :=
  mk_rbtree (root s) (nil s)
    (<[next s := mk_node None None None None (Some (Str k)) (Some (Str v))]> (heap s))
    (S (next s)) (pooled s).

Lemma kvs_rbtree_set_run nl s T k v :
  tree_of nl s T ->
  kvs_rbtree_set (Some k) (Some v) (s, [])
  = (rbtree_insert (S (size (heap (new_state k v s)))) (next s) ;; mret 0%Z) (new_state k v s, []).
Proof.
  intros (H & _ & _ & Hnx & Hfree). unfold kvs_rbtree_set, new_node. mcbn.
  pose proof (st_null _ _ _ _ H) as H0.
  erewrite bind_ret; [|eapply wr_run; cbn [heap];
    [by rewrite lookup_insert_ne|apply lookup_insert_eq]]. mcbn.
  erewrite bind_ret; [|eapply wr_run; cbn [heap set_heap];
    [by rewrite !lookup_insert_ne|apply lookup_insert_eq]]. mcbn.
  unfold heap_fuel, set_heap. cbn [heap root nil next pooled]. mcbn.
  rewrite !insert_insert_eq. done.
Qed.

Lemma new_state_st nl s T k v :
  tree_of nl s T -> st nl (new_state k v s) T [] /\ next s ∉ nl :: addrs T.
Proof.
  intros (H & _ & _ & Hnx & Hfree).
  assert (Hq : forall q, q ∈ nl :: addrs T ++ caddrs [] -> q <> next s).
  { intros q Hq ->. specialize (Hfree (next s) (le_n _)).
    destruct H as [_ _ Hr _ _ _ (n & Hn & _)]. cbn in Hq. rewrite app_nil_r in Hq.
    apply elem_of_cons in Hq as [Hq|Hq]; [congruence|].
    apply (rep_dom _ _ _ _ _ Hr) in Hq. by apply not_elem_of_dom in Hfree. }
  split.
  - eapply st_frame; [exact H|done..| |]; cbn.
    + rewrite lookup_insert_ne; [apply (st_null _ _ _ _ H)|done].
    + intros q Hin. apply lookup_insert_ne. apply Hq in Hin. congruence.
  - intros Hin. apply (Hq (next s)); [cbn; rewrite app_nil_r; done|done].
Qed.

Lemma new_state_free s k v :
  (forall q, next s <= q -> heap s !! q = None) ->
  forall q, S (next s) <= q -> heap (new_state k v s) !! q = None.
Proof. intros H q Hq. cbn. rewrite lookup_insert_ne by lia. apply H. lia. Qed.

Lemma kvs_rbtree_set_new s m k v :
  rrep s m -> m !! k = None ->
  exists s', kvs_rbtree_set (Some k) (Some v) (s, []) = Ret (0%Z, (s', [])) /\
    rrep s' (<[k := v]> m).
Proof.
  intros (nl & T & HT & <-) Hm. destruct (new_state_st nl s T k v HT) as [H Hz].
  pose proof HT as (H0 & (n & Hn) & Hs & Hnx & Hfree).
  destruct (rbtree_insert_new nl (new_state k v s) [] (next s) _ k v T n H Hn Hs Hz
    (lookup_insert_eq _ _ _) eq_refl eq_refl Hm)
    as (s' & T' & n' & E & H' & Hn' & Hs' & Hm' & (Hd & Hx & _)).
  exists s'. rewrite (kvs_rbtree_set_run nl s T k v HT).
  rewrite (bind_ret _ _ _ _ _ E). split; [done|].
  exists nl, T'. split; [|done]. split; [done|]. split; [eauto|]. split; [done|].
  rewrite Hx. split; [done|]. intros q Hq. apply not_elem_of_dom. rewrite Hd.
  apply not_elem_of_dom. by apply new_state_free.
Qed.

Lemma kvs_rbtree_set_old s m k v w :
  rrep s m -> m !! k = Some w ->
  exists s', kvs_rbtree_set (Some k) (Some v) (s, []) = Ret (0%Z, (s', [])) /\ rrep s' m.
Proof.
  intros (nl & T & HT & <-) Hm. destruct (new_state_st nl s T k v HT) as [H Hz].
  exists (new_state k v s). rewrite (kvs_rbtree_set_run nl s T k v) by done.
  pose proof HT as (H0 & Hn & Hs & Hnx & Hfree).
  rewrite (bind_ret _ _ _ _ _ (rbtree_insert_old nl (new_state k v s) [] (next s) _ k w T H Hs
    (lookup_insert_eq _ _ _) eq_refl Hm)).
  split; [done|]. exists nl, T. split; [|done]. split; [done|]. split; [done|]. split; [done|].
  split; [done|]. by apply new_state_free.
Qed.

(** The instance [kvs_rbtree_create] builds: the sentinel is the root. *)
Definition empty_tree (pl : bool) : rbtree :=
  mk_rbtree 1 1 {[1 := mk_node (Some BLACK) None None None None None]} 2 pl.

Lemma create_run pl :
  kvs_rbtree_create (global_rbtree0 pl, []) = Ret (0%Z, (empty_tree pl, [])).
Proof. vm_compute. reflexivity. Qed.

Lemma rrep_empty pl : rrep (empty_tree pl) ∅.
Proof.
  exists 1, Leaf. split; [|done]. split.
  - split; cbn; try done.
    + constructor; [set_solver|constructor].
    + by eexists.
  - split; [exists 0; constructor|]. split; [constructor|]. cbn. split; [done|].
    intros q Hq. apply lookup_singleton_ne. lia.
Qed.

#[export] Instance rbtree_engine : KvEngine rbtree := {|
  eng_set := kvs_rbtree_set;
  eng_get := kvs_rbtree_get;
  eng_rep := rrep;
  eng_key := fun _ => True;
  eng_room := fun _ => True;
  eng_dup := 0
|}.

#[export] Instance rbtree_engine_laws : KvEngineLaws rbtree.
Proof.
  split.
  - intros s m k al Hr _. by apply kvs_rbtree_get_spec.
  - intros s m k v Hr _ _ Hm. by apply kvs_rbtree_set_new.
  - intros s m k v w Hr _ _ Hm. by eapply kvs_rbtree_set_old.
Qed.

(** ** Balance *)

Lemma rbt_size t c n : rbt t c n -> 2 ^ n <= S (length (elems t)).
Proof.
  induction 1 as [|p k v l r n _ IHl _ IHr|p k v l r cl cr n _ IHl _ IHr]; cbn [elems];
    rewrite ?length_app, ?length_cons; [done|lia|]. rewrite Nat.pow_succ_r'. lia.
Qed.

Lemma rbt_height t c n :
  rbt t c n -> height t <= 2 * n + match c with RED => 1 | BLACK => 0 end.
Proof.
  induction 1 as [|p k v l r n _ IHl _ IHr|p k v l r cl cr n _ IHl _ IHr]; cbn; [done|lia|].
  destruct cl, cr; lia.
Qed.

Lemma tmap_size t : sorted t -> size (tmap t) = length (elems t).
Proof. intros Hs. apply map_size_list_to_map. by apply sorted_NoDup. Qed.

Lemma rbt_height_log t n : rbt t BLACK n -> height t <= 2 * Nat.log2 (S (length (elems t))).
Proof.
  intros H. pose proof (rbt_height _ _ _ H) as Hh. cbv iota in Hh. pose proof (rbt_size _ _ _ H) as Hs.
  apply Nat.log2_le_mono in Hs. rewrite Nat.log2_pow2 in Hs by lia. lia.
Qed.

(** ** Properties *)

(** C9: on a tree that holds the map [m], get, exist, set and mod are the
    operations of the map; a set of a key that is present returns 0 like a set of a new
    one and keeps the old value. *)
Theorem rbtree_refines_map s m k v :
  rrep s m ->
  kvs_rbtree_get (Some k) (s, []) = Ret (from_option Str Null (m !! k), (s, [])) /\
  kvs_rbtree_exist (Some k) (s, []) = Ret ((if m !! k then 0 else 1)%Z, (s, [])) /\
  (exists s', kvs_rbtree_set (Some k) (Some v) (s, []) = Ret (0%Z, (s', [])) /\
     rrep s' (if m !! k then m else <[k := v]> m)) /\
  (exists s', kvs_rbtree_mod (Some k) (Some v) (s, [])
     = Ret ((if m !! k then 0 else 1)%Z, (s', [])) /\
     rrep s' (if m !! k then <[k := v]> m else m)).
Proof.
  intros Hr. split; [by apply kvs_rbtree_get_spec|]. split; [by apply kvs_rbtree_exist_spec|].
  split; [|by apply kvs_rbtree_mod_spec].
  destruct (m !! k) as [w|] eqn:E; [by eapply kvs_rbtree_set_old|by apply kvs_rbtree_set_new].
Qed.

Example rbtree_refines_map_witness :
  rrep (empty_tree true) ∅ /\
  exists s', kvs_rbtree_set (Some (bs "Teacher")) (Some (bs "King")) (empty_tree true, [])
    = Ret (0%Z, (s', [])) /\ rrep s' (<[bs "Teacher" := bs "King"]> ∅).
Proof.
  split; [apply rrep_empty|].
  destruct (rbtree_refines_map (empty_tree true) ∅ (bs "Teacher") (bs "King") (rrep_empty true))
    as (_ & _ & H & _). exact H.
Defined.

(** C7: a set of a new key links a node and rebalances: the result is again a
    red-black tree (red nodes have black children, all paths have as many black nodes,
    the root is black) whose keys are sorted in [strcmp] order and whose pairs are the
    old ones and the new one.  The loops end within the fuel and no access faults. *)
Theorem rbtree_set_keeps_invariants nl s T k v :
  tree_of nl s T -> tmap T !! k = None ->
  exists s' T', kvs_rbtree_set (Some k) (Some v) (s, []) = Ret (0%Z, (s', [])) /\
    tree_of nl s' T' /\ elems T' ≡ₚ (k, v) :: elems T.
Proof.
  intros HT Hm. destruct (new_state_st nl s T k v HT) as [H Hz].
  pose proof HT as (H0 & (n & Hn) & Hs & Hnx & Hfree).
  destruct (rbtree_insert_new nl (new_state k v s) [] (next s) _ k v T n H Hn Hs Hz
    (lookup_insert_eq _ _ _) eq_refl eq_refl Hm)
    as (s' & T' & n' & E & H' & Hn' & Hs' & Hm' & (Hd & Hx & _)).
  exists s', T'. rewrite (kvs_rbtree_set_run nl s T k v HT), (bind_ret _ _ _ _ _ E).
  split; [done|]. split.
  - split; [done|]. split; [eauto|]. split; [done|]. rewrite Hx. split; [done|].
    intros q Hq. apply not_elem_of_dom. rewrite Hd. apply not_elem_of_dom. by apply new_state_free.
  - assert (Hk : k ∉ (elems T).*1) by (by apply not_elem_of_list_to_map_2).
    apply (list_to_map_inj (M := gmap cstr)); [by apply sorted_NoDup| |exact Hm'].
    rewrite fmap_cons. constructor; [done|by apply sorted_NoDup].
Qed.

Lemma tree_of_empty pl : tree_of 1 (empty_tree pl) Leaf.
Proof.
  destruct (rrep_empty pl) as (nl & T & HT & Hm). pose proof HT as (H & _).
  assert (nl = 1) as -> by (symmetry; apply (st_nil _ _ _ _ H)).
  destruct T as [|c p k v l r]; [done|]. pose proof (st_root _ _ _ _ H) as Hr. cbn in Hr.
  exfalso. eapply st_nil_ne; [exact H|done].
Qed.

Example rbtree_set_keeps_invariants_witness :
  exists s' T', kvs_rbtree_set (Some (bs "k")) (Some (bs "v")) (empty_tree false, [])
    = Ret (0%Z, (s', [])) /\ tree_of 1 s' T' /\ elems T' ≡ₚ [(bs "k", bs "v")].
Proof.
  exact (rbtree_set_keeps_invariants 1 (empty_tree false) Leaf (bs "k") (bs "v")
    (tree_of_empty false) eq_refl).
Defined.

(** C31: the search loop of a tree with [n] keys ends after at most
    [2 * log2 (n + 1) + 1] tests of the node pointer. *)
Theorem rbtree_search_logarithmic s m k al :
  rrep s m ->
  exists p, rbtree_search (S (2 * Nat.log2 (S (size m)))) k (s, al) = Ret (p, (s, al)) /\
    rbtree_search (S (size (heap s))) k (s, al) = Ret (p, (s, al)) /\
    (p = nil s <-> m !! k = None).
Proof.
  intros (nl & T & HT & <-). pose proof HT as (H & (n & Hn) & Hs & _).
  destruct (rbtree_search_fuel nl s al T k HT) as (t & g & E & Ht & Hp & H0 & Hm).
  exists (tptr nl t). rewrite E. pose proof (st_bound _ _ _ _ H) as Hb. cbn in Hb.
  rewrite (rbtree_search_run nl s al T k) in E by (done || lia).
  split; [|split; [done|]].
  - rewrite (rbtree_search_run nl s al T k); [done|done|].
    rewrite tmap_size by done. pose proof (rbt_height_log _ _ Hn). lia.
  - rewrite (st_nil _ _ _ _ H).
    destruct Hm as [[-> Hm]|(c & p & v & l & r & -> & Hnl & Hm)]; rewrite Hm; [done|].
    cbn. split; [done|by intros [=]].
Qed.

Example rbtree_search_logarithmic_witness :
  exists p, rbtree_search 1 (bs "k") (empty_tree true, []) = Ret (p, (empty_tree true, [])) /\
    p = nil (empty_tree true).
Proof.
  destruct (rbtree_search_logarithmic (empty_tree true) ∅ (bs "k") [] (rrep_empty true))
    as (p & E & _ & Hp).
  exists p. split; [exact E|by apply Hp].
Defined.

(** A del of an absent key does not return "not found": the search returns
    the sentinel, which is not NULL, and [rbtree_delete] reads its unset child. *)
Theorem rbtree_del_absent_faults s m k n al :
  rrep s m -> m !! k = None -> heap s !! nil s = Some n -> left n = None ->
  kvs_rbtree_del (Some k) (s, al) = Fault Indeterminate.
Proof.
  intros (nl & T & HT & <-) Hk Hn Hl. unfold kvs_rbtree_del.
  destruct (rbtree_search_fuel nl s al T k HT) as (t & g & E & H & Hp & H0 & Hm).
  rewrite (bind_ret _ _ _ _ _ (run_heap_fuel s al)), (bind_ret _ _ _ _ _ E).
  rewrite decide_False by done.
  destruct Hm as [[-> Hm]|(c & p & w & l & r & _ & _ & Hm)]; [|congruence].
  apply bind_fault. unfold rbtree_delete.
  rewrite (bind_ret _ _ _ _ _ (run_get_nil _ _ al _ _ H)). apply bind_fault.
  rewrite (st_nil _ _ _ _ H) in Hn. cbn [tptr]. unfold rd.
  rewrite (bind_ret _ _ _ _ _ (load_run s al nl n (st_null _ _ _ _ H) Hn)). by rewrite Hl.
Qed.

Example rbtree_del_absent_faults_witness :
  kvs_rbtree_del (Some (bs "k")) (empty_tree true, []) = Fault Indeterminate.
Proof.
  exact (rbtree_del_absent_faults (empty_tree true) ∅ (bs "k")
    (mk_node (Some BLACK) None None None None None) [] (rrep_empty true) eq_refl eq_refl eq_refl).
Defined.

(** [kvs_rbtree_destory] on a live tree frees the sentinel and nothing else:
    every node and its strings stay allocated. *)
Theorem rbtree_destory_leaks nl s T al :
  tree_of nl s T ->
  kvs_rbtree_destory (s, al)
  = Ret (tt, (set_heap (delete nl (heap s)) s, al)) /\
  forall p, p ∈ addrs T -> is_Some (heap (set_heap (delete nl (heap s)) s) !! p).
Proof.
  intros (H & _). pose proof H as [Hr Hnil Hrep _ Hnd H0 (n & Hn & _)]. split.
  - unfold kvs_rbtree_destory, get_root. mcbn. rewrite decide_False.
    2:{ rewrite Hr. cbn. destruct T; cbn in *; [|destruct Hrep as (Hp & _)]; congruence. }
    rewrite bind_mret, (bind_ret _ _ _ _ _ (run_get_nil _ _ al _ _ H)).
    unfold kvs_free_node. rewrite decide_False by congruence.
    by rewrite (bind_ret _ _ _ _ _ (load_run s al nl n H0 Hn)).
  - intros p Hp. cbn. rewrite lookup_delete_ne.
    + apply elem_of_dom. by eapply rep_dom.
    + intros ->. cbn in Hnd. apply list.NoDup_cons in Hnd as [Hnd _]. set_solver.
Qed.

Example rbtree_destory_leaks_witness :
  kvs_rbtree_destory (empty_tree true, [])
  = Ret (tt, (set_heap (delete 1 (heap (empty_tree true))) (empty_tree true), [])).
Proof. exact (proj1 (rbtree_destory_leaks 1 (empty_tree true) Leaf [] (tree_of_empty true))). Defined.
