(* ===== verification/RbtreeDelete.v ===== *)
(** * Red-black trees: the fix-up after a deletion

    [rbtree_delete] takes a black node out and leaves a position whose paths have one black
    node less than the context expects.  The loop of [rbtree_delete_fixup] moves this
    deficiency up or removes it by rotations.  As for insertion, the two directions of
    the source are one function of a direction.  The position may be empty: then the
    loop finds the parent in the sentinel's parent field ([xlink]). *)

From S2P Require Import Prelude KvsRbtree RbtreeRep RbtreeInsert RbtreeMap.
Import Rbtree.

(** ** Same contents and same nodes *)

Definition eqv (t t' : tree) : Prop := elems t = elems t' /\ addrs t ≡ₚ addrs t'.

#[export] Instance eqv_equiv : Equivalence eqv.
Proof.
  split.
  - done.
  - intros t t' [H1 H2]. by split.
  - intros t1 t2 t3 [H1 H2] [H3 H4]. split; by etrans.
Qed.

Lemma eqv_NodeD d c c' p k v a a' b b' :
  eqv a a' -> eqv b b' -> eqv (NodeD d c p k v a b) (NodeD d c' p k v a' b').
Proof.
  intros [Ha Ha'] [Hb Hb']. split; [by apply elems_NodeD|]. by rewrite !addrs_NodeD, Ha', Hb'.
Qed.

Lemma eqv_plug t t' g : eqv t t' -> eqv (plug t g) (plug t' g).
Proof.
  revert t t'. induction g as [|f g IH]; intros t t' H; cbn; [done|]. by apply IH, eqv_NodeD.
Qed.

Lemma eqv_rot d cx x kx vx a cy y ky vy b e :
  eqv (NodeD d cy y ky vy (NodeD d cx x kx vx a b) e) (NodeD d cx x kx vx a (NodeD d cy y ky vy b e)).
Proof. split; [apply elems_rot|]. rewrite !addrs_NodeD. solve_Permutation. Qed.

Definition recolor (c' : node_color) (t : tree) : tree :=
  match t with Leaf => Leaf | Node _ p k v l r => Node c' p k v l r end.

Lemma recolor_NodeD d c c' p k v a b : recolor c' (NodeD d c p k v a b) = NodeD d c' p k v a b.
Proof. by destruct d. Qed.

Lemma eqv_recolor c t : eqv (recolor c t) t.
Proof. by destruct t. Qed.

Lemma recolor_rbt t c m : rbt t c m -> exists m', rbt (recolor BLACK t) BLACK m'.
Proof. apply blacken_rbt. Qed.

Lemma rbt_NodeD_inv d c p k v a b c0 m :
  rbt (NodeD d c p k v a b) c0 m ->
  c0 = c /\ ((c = RED /\ rbt a BLACK m /\ rbt b BLACK m) \/
             (c = BLACK /\ exists m' ca cb, m = S m' /\ rbt a ca m' /\ rbt b cb m')).
Proof. destruct d; cbn; inversion 1; subst; split; eauto 10. Qed.

(** A tree of positive black height seen from side [d]. *)
Lemma rbt_S d t c m : rbt t c (S m) -> exists p k v a b, t = NodeD d c p k v a b.
Proof. inversion 1; subst; destruct d; cbn; eauto 6. Qed.

Lemma rbt_red_NodeD d t m :
  rbt t RED m -> exists p k v a b, t = NodeD d RED p k v a b /\ rbt a BLACK m /\ rbt b BLACK m.
Proof. inversion 1; subst; destruct d; cbn; eauto 9. Qed.

(** A context that takes a red tree takes a black one of the same height. *)
Lemma rbc_red_black g n : rbc g RED n -> rbc g BLACK n.
Proof. inversion 1; subst; eauto with rbdb. Qed.

(** ** Steps that leave the sentinel alone *)

Definition keep (nl : ptr) (s s' : rbtree) : Prop :=
  same_mem s s' /\ heap s' !! nl = heap s !! nl.

#[export] Instance keep_preorder nl : PreOrder (keep nl).
Proof.
  split; [done|]. intros s1 s2 s3 [M1 E1] [M2 E2]. split; [by etrans|congruence].
Qed.

Section steps.
  Context (nl : ptr).

Lemma st_tptr_ne s t g : st nl s t g -> t <> Leaf -> tptr nl t <> nl.
Proof. intros H Ht E. by apply Ht, (st_tptr_nl nl s t g). Qed.

Lemma rot_keep d s al cx x kx vx a cy y ky vy b e g :
  st nl s (NodeD d cx x kx vx a (NodeD d cy y ky vy b e)) g ->
  exists s', rot d x (s, al) = Ret (tt, (s', al)) /\
    st nl s' (NodeD d cy y ky vy (NodeD d cx x kx vx a b) e) g /\ keep nl s s'.
Proof.
  intros H. destruct (rot_spec nl d s al _ _ _ _ _ _ _ _ _ _ _ _ H) as (s' & E & H' & M).
  exists s'. split; [done|]. split; [done|]. split; [done|].
  rewrite (rot_run nl d s al _ _ _ _ _ _ _ _ _ _ _ _ H) in E. injection E as <-. cbn [heap].
  pose proof (st_nodup _ _ _ _ H) as Hnd. rewrite !addrs_NodeD in Hnd. nodup_facts Hnd.
  apply rot_heap_other; set_solver.
Qed.

(** The rotation in the other direction. *)
Lemma rot_flip_keep d s al cx x kx vx cy y ky vy a b e g :
  st nl s (NodeD d cx x kx vx (NodeD d cy y ky vy a b) e) g ->
  exists s', rot (flip d) x (s, al) = Ret (tt, (s', al)) /\
    st nl s' (NodeD d cy y ky vy a (NodeD d cx x kx vx b e)) g /\ keep nl s s'.
Proof.
  rewrite <- (NodeD_flip d cx), <- (NodeD_flip d cy). intros H.
  destruct (rot_keep (flip d) s al _ _ _ _ _ _ _ _ _ _ _ _ H) as (s' & E & H' & M).
  rewrite !NodeD_flip in H'. eauto.
Qed.

Lemma color_keep s al t g c' :
  st nl s t g -> t <> Leaf ->
  exists s', wr (tptr nl t) (set_color c') (s, al) = Ret (tt, (s', al)) /\
    st nl s' (recolor c' t) g /\ keep nl s s'.
Proof.
  intros H Ht. pose proof (st_tptr_ne s t g H Ht) as Hne. destruct t as [|c p k v l r]; [done|].
  destruct (st_set_color nl s al L c p k v l r g c' H) as (s' & E & H' & M).
  exists s'. split; [done|]. split; [done|]. split; [done|].
  destruct (st_rep _ _ _ _ H) as (Hp & _). cbn [tptr] in Hne.
  rewrite (wr_run _ _ _ _ _ (st_null _ _ _ _ H) Hp) in E. injection E as <-. cbn [heap set_heap].
  by apply lookup_insert_ne.
Qed.

Lemma colorD_keep s al d c p k v a b g c' :
  st nl s (NodeD d c p k v a b) g ->
  exists s', wr p (set_color c') (s, al) = Ret (tt, (s', al)) /\
    st nl s' (NodeD d c' p k v a b) g /\ keep nl s s'.
Proof.
  intros H. destruct (color_keep s al _ g c' H) as (s' & E & H' & M); [by destruct d|].
  rewrite tptr_NodeD in E. rewrite recolor_NodeD in H'. eauto.
Qed.

(** Painting a position black, the sentinel included. *)
Lemma color_black s al t g :
  st nl s t g ->
  exists s', wr (tptr nl t) (set_color BLACK) (s, al) = Ret (tt, (s', al)) /\
    st nl s' (recolor BLACK t) g /\ same_mem s s'.
Proof.
  intros H. destruct t as [|c p k v l r].
  - pose proof H as [H1 H2 H3 H4 H5 H6 (n & Hn & Hc)]. cbn [tptr].
    eexists. split; [by eapply wr_run|]. split.
    + split; cbn [heap set_heap root nil]; try done.
      * eapply crep_frame; [exact H4|]. intros q Hq. apply lookup_insert_ne. intros <-.
        cbn in H5. apply list.NoDup_cons in H5 as [H5 _]. set_solver.
      * rewrite lookup_insert_ne; [done|congruence].
      * eexists. split; [apply lookup_insert_eq|done].
    + repeat split; cbn. by eapply insert_dom.
  - destruct (color_keep s al _ g BLACK H) as (s' & E & H' & M & _); [done|]. eauto.
Qed.

(** The parent of an empty position is in the sentinel. *)
Definition xlink (s : rbtree) (t : tree) (par : ptr) : Prop :=
  t = Leaf -> exists n, heap s !! nl = Some n /\ parent n = Some par.

Lemma xlink_keep s s' t par : keep nl s s' -> xlink s t par -> xlink s' t par.
Proof. intros [_ E] H Ht. rewrite E. by apply H. Qed.

Lemma rd_xparent s al t g :
  st nl s t g -> xlink s t (cparent nl g) ->
  rd parent (tptr nl t) (s, al) = Ret (cparent nl g, (s, al)).
Proof.
  intros H Hx. destruct t as [|c p k v l r]; [|by apply (rd_parent_tptr nl s al _ g H)].
  destruct (Hx eq_refl) as (n & Hn & Hp). eapply rd_run; [by eapply st_null|done..].
Qed.

Lemma rd_near_parent s al t d c p k v b g :
  st nl s (NodeD d c p k v t b) g -> xlink s t p ->
  rd parent (tptr nl t) (s, al) = Ret (p, (s, al)).
Proof. intros H Hx. apply st_in_near in H. by rewrite (rd_xparent s al t _ H). Qed.

Lemma both_black_run s al d c p k v a b g :
  st nl s (NodeD d c p k v a b) g ->
  both_black p (s, al)
  = Ret (bool_decide (tcolor a = BLACK) && bool_decide (tcolor b = BLACK), (s, al)).
Proof.
  intros H.
  assert (E : forall l r, st nl s (Node c p k v l r) g -> both_black p (s, al)
    = Ret (bool_decide (tcolor l = BLACK) && bool_decide (tcolor r = BLACK), (s, al))).
  { clear. intros l r H. unfold both_black.
    rewrite (bind_ret _ _ _ _ _ (rd_near nl s al L _ _ _ _ _ _ _ H)).
    rewrite (bind_ret _ _ _ _ _ (st_color nl s al l _ (st_in_near nl s L _ _ _ _ _ _ _ H))).
    case_decide as Hl; [|by rewrite bool_decide_eq_false_2].
    rewrite (bind_ret _ _ _ _ _ (rd_far nl s al L _ _ _ _ _ _ _ H)).
    rewrite (bind_ret _ _ _ _ _ (st_color nl s al r _ (st_in_far nl s L _ _ _ _ _ _ _ H))).
    by rewrite run_mret, (bool_decide_eq_true_2 _ Hl). }
  destruct d; [by apply E|]. rewrite (E _ _ H). by rewrite andb_comm.
Qed.
End steps.

(** ** One iteration of the loop *)

(** The last case: the far child of the sibling [w] is red. *)
Definition dlast (d : dir) (n : nat) (x w : ptr) : rb unit :=
  xp ← rd parent x; cp ← rd color xp;
  wr w (set_color cp) ;;
  wr xp (set_color BLACK) ;;
  w_f ← rd (chd (flip d)) w; wr w_f (set_color BLACK) ;;
  rot d xp ;;
  r ← get_root;
  rbtree_delete_fixup n r.

(** The cases of a black sibling [w]. *)
Definition dblack (d : dir) (n : nat) (x w : ptr) : rb unit :=
  bb ← both_black w;
  if (bb : bool) then
    wr w (set_color RED) ;;
    xp ← rd parent x;
    rbtree_delete_fixup n xp
  else
    w_f ← rd (chd (flip d)) w; cf ← rd color w_f;
    w ← (if decide (cf = BLACK) then
           w_n ← rd (chd d) w; wr w_n (set_color BLACK) ;;
           wr w (set_color RED) ;;
           rot (flip d) w ;;
           xp ← rd parent x; rd (chd (flip d)) xp
         else mret w);
    dlast d n x w.

(** The body for a position on side [d] of its parent. *)
Definition dbody (d : dir) (n : nat) (x xp : ptr) : rb unit :=
  w ← rd (chd (flip d)) xp;
  cw ← rd color w;
  w ← (if decide (cw = RED) then
         wr w (set_color BLACK) ;;
         xp ← rd parent x; wr xp (set_color RED) ;;
         rot d xp ;;
         xp ← rd parent x; rd (chd (flip d)) xp
       else mret w);
  dblack d n x w.

Lemma dfix_step n x :
  rbtree_delete_fixup (S n) x =
  (r ← get_root;
   go ← (if decide (x <> r) then c ← rd color x; mret (bool_decide (c = BLACK)) else mret false);
   if negb go then wr x (set_color BLACK) else
   xp ← rd parent x;
   xpl ← rd left xp;
   if decide (x = xpl) then dbody L n x xp else dbody R n x xp).
Proof. reflexivity. Qed.

Section loop.
  Context (nl : ptr).

(** A position below the root is not the root. *)
Lemma st_not_root s t f g : st nl s t (f :: g) -> tptr nl t <> root s.
Proof.
  intros H. rewrite (st_root _ _ _ _ H). pose proof (st_nodup _ _ _ _ H) as Hnd.
  assert (Hr : forall g p, rptr p g ∈ p :: caddrs g).
  { clear. induction g as [|f g IH]; intros p; cbn; [set_solver|].
    specialize (IH (f_ptr f)). cbn in IH. set_solver. }
  cbn [rptr foldl]. fold (rptr (f_ptr f) g). specialize (Hr g (f_ptr f)).
  cbn in Hnd. nodup_facts Hnd.
  intros E. rewrite <- E in Hr. destruct (tptr_cases nl t) as [El|Hin]; [rewrite El in Hr|]; set_solver.
Qed.

(** The loop stops at the root and at a red node, and paints it black. *)
Lemma dfix_stop n s al t g :
  st nl s t g -> g = [] \/ tcolor t = RED ->
  exists s', rbtree_delete_fixup (S n) (tptr nl t) (s, al) = Ret (tt, (s', al)) /\
    st nl s' (recolor BLACK t) g /\ same_mem s s'.
Proof.
  intros H Hg. rewrite dfix_step. unfold get_root. mcbn.
  assert (E : (if decide (tptr nl t <> root s) then c ← rd color (tptr nl t); mret (bool_decide (c = BLACK))
               else mret false) (s, al) = Ret (false, (s, al))).
  { case_decide as Hr; [|done]. rewrite (bind_ret _ _ _ _ _ (st_color nl s al t g H)).
    destruct Hg as [->|Hg]; [by rewrite (st_root _ _ _ _ H) in Hr|]. by rewrite Hg. }
  rewrite (bind_ret _ _ _ _ _ E). cbn [negb]. by apply color_black.
Qed.

(** Otherwise it takes the branch of the position's side. *)
Lemma dfix_enter n s al t f g :
  st nl s t (f :: g) -> xlink nl s t (f_ptr f) -> tcolor t = BLACK -> f_sib f <> Leaf ->
  rbtree_delete_fixup (S n) (tptr nl t) (s, al) = dbody (f_dir f) n (tptr nl t) (f_ptr f) (s, al).
Proof.
  intros H Hx Ht Hs. rewrite dfix_step. unfold get_root. mcbn.
  rewrite decide_True by (by eapply st_not_root).
  rewrite bind_bind, (bind_ret _ _ _ _ _ (st_color nl s al t _ H)), Ht.
  rewrite (bool_decide_eq_true_2 _ eq_refl), bind_mret. cbn [negb].
  rewrite (bind_ret _ _ _ _ _ (rd_xparent nl s al t _ H Hx)). cbn [cparent].
  apply st_up in H. unfold plug1 in H. destruct f as [d c p k v w]; cbn in *. destruct d.
  - rewrite (bind_ret _ _ _ _ _ (rd_near nl s al L _ _ _ _ _ _ _ H)). by rewrite decide_True.
  - rewrite (bind_ret _ _ _ _ _ (rd_far nl s al R _ _ _ _ _ _ _ H)). rewrite decide_False; [done|].
    apply not_eq_sym. by apply (st_sib_ne nl s L c p k v w t g).
Qed.

Lemma dlast_spec d n s al t cp p k v c q kq vq wa wb g :
  st nl s (NodeD d cp p k v t (NodeD d c q kq vq wa wb)) g -> xlink nl s t p -> wb <> Leaf ->
  exists s', dlast d n (tptr nl t) q (s, al) = rbtree_delete_fixup n (root s') (s', al) /\
    st nl s' (NodeD d cp q kq vq (NodeD d BLACK p k v t wa) (recolor BLACK wb)) g /\ same_mem s s'.
Proof.
  intros H Hx Hwb. unfold dlast.
  rewrite (bind_ret _ _ _ _ _ (rd_near_parent nl s al t d _ _ _ _ _ _ H Hx)).
  assert (E : rd color p (s, al) = Ret (cp, (s, al))).
  { pose proof (st_color nl s al _ _ H) as E. rewrite tptr_NodeD in E. by destruct d. }
  rewrite (bind_ret _ _ _ _ _ E). clear E. apply st_in_far in H.
  destruct (colorD_keep nl s al d _ _ _ _ _ _ _ cp H) as (s1 & E1 & H1 & M1).
  rewrite (bind_ret _ _ _ _ _ E1). apply st_out_far in H1.
  destruct (colorD_keep nl s1 al d _ _ _ _ _ _ _ BLACK H1) as (s2 & E2 & H2 & M2).
  rewrite (bind_ret _ _ _ _ _ E2). apply st_in_far in H2.
  rewrite (bind_ret _ _ _ _ _ (rd_far nl s2 al d _ _ _ _ _ _ _ H2)). apply st_in_far in H2.
  destruct (color_keep nl s2 al wb _ BLACK H2 Hwb) as (s3 & E3 & H3 & M3).
  rewrite (bind_ret _ _ _ _ _ E3). apply st_out_far, st_out_far in H3.
  destruct (rot_keep nl d s3 al _ _ _ _ _ _ _ _ _ _ _ _ H3) as (s4 & E4 & H4 & M4).
  rewrite (bind_ret _ _ _ _ _ E4). unfold get_root. mcbn. exists s4.
  split; [done|]. split; [exact H4|].
  etrans; [apply M1|etrans; [apply M2|etrans; [apply M3|apply M4]]].
Qed.

(** A black sibling with black children: the deficiency moves to the parent. *)
Lemma dblack_up d n s al t cp p k v q kq vq wa wb g :
  st nl s (NodeD d cp p k v t (NodeD d BLACK q kq vq wa wb)) g -> xlink nl s t p ->
  tcolor wa = BLACK -> tcolor wb = BLACK ->
  exists s', dblack d n (tptr nl t) q (s, al) = rbtree_delete_fixup n p (s', al) /\
    st nl s' (NodeD d cp p k v t (NodeD d RED q kq vq wa wb)) g /\ same_mem s s'.
Proof.
  intros H Hx Ha Hb. unfold dblack. pose proof H as Hw. apply st_in_far in Hw.
  rewrite (bind_ret _ _ _ _ _ (both_black_run nl s al d _ _ _ _ _ _ _ Hw)), Ha, Hb.
  rewrite !(bool_decide_eq_true_2 _ eq_refl). cbn [andb].
  destruct (colorD_keep nl s al d _ _ _ _ _ _ _ RED Hw) as (s1 & E1 & H1 & M1).
  rewrite (bind_ret _ _ _ _ _ E1). apply st_out_far in H1.
  rewrite (bind_ret _ _ _ _ _ (rd_near_parent nl s1 al t d _ _ _ _ _ _ H1 (xlink_keep _ _ _ _ _ M1 Hx))).
  exists s1. split; [done|]. split; [exact H1|apply M1].
Qed.

(** A black sibling with a red child: one or two rotations, and the loop ends. *)
Lemma dblack_end d n s al t cp p k v q kq vq wa wb g m ca cb :
  st nl s (NodeD d cp p k v t (NodeD d BLACK q kq vq wa wb)) g -> xlink nl s t p ->
  rbt t BLACK m -> rbt wa ca m -> rbt wb cb m -> ca = RED \/ cb = RED ->
  exists s' q' kq' vq' ta tb,
    dblack d n (tptr nl t) q (s, al) = rbtree_delete_fixup n (root s') (s', al) /\
    st nl s' (NodeD d cp q' kq' vq' ta tb) g /\ same_mem s s' /\
    rbt ta BLACK (S m) /\ rbt tb BLACK (S m) /\
    eqv (NodeD d cp q' kq' vq' ta tb) (NodeD d cp p k v t (NodeD d BLACK q kq vq wa wb)).
Proof.
  intros H Hx Ht Ha Hb Hred. unfold dblack. pose proof H as Hw. apply st_in_far in Hw.
  rewrite (bind_ret _ _ _ _ _ (both_black_run nl s al d _ _ _ _ _ _ _ Hw)).
  rewrite (rbt_tcolor _ _ _ Ha), (rbt_tcolor _ _ _ Hb).
  replace (bool_decide (ca = BLACK) && bool_decide (cb = BLACK)) with false
    by (destruct Hred as [-> | ->]; cbn; rewrite ?andb_false_r; done).
  rewrite (bind_ret _ _ _ _ _ (rd_far nl s al d _ _ _ _ _ _ _ Hw)).
  pose proof Hw as Hf. apply st_in_far in Hf.
  rewrite (bind_ret _ _ _ _ _ (st_color nl s al _ _ Hf)), (rbt_tcolor _ _ _ Hb).
  destruct (decide (cb = BLACK)) as [->|Hcb].
  - destruct Hred as [->|?]; [|done].
    destruct (rbt_red_NodeD d wa m Ha) as (a & ka & va & a1 & a2 & -> & Ha1 & Ha2).
    rewrite !bind_bind.
    rewrite (bind_ret _ _ _ _ _ (rd_near nl s al d _ _ _ _ _ _ _ Hw)), tptr_NodeD.
    apply st_in_near in Hw. rewrite bind_bind.
    destruct (colorD_keep nl s al d _ _ _ _ _ _ _ BLACK Hw) as (s1 & E1 & H1 & M1).
    rewrite (bind_ret _ _ _ _ _ E1). apply st_out_near in H1. rewrite bind_bind.
    destruct (colorD_keep nl s1 al d _ _ _ _ _ _ _ RED H1) as (s2 & E2 & H2 & M2).
    rewrite (bind_ret _ _ _ _ _ E2), bind_bind.
    destruct (rot_flip_keep nl d s2 al _ _ _ _ _ _ _ _ _ _ _ _ H2) as (s3 & E3 & H3 & M3).
    rewrite (bind_ret _ _ _ _ _ E3). apply st_out_far in H3. rewrite bind_bind.
    assert (M : keep nl s s3) by (etrans; [exact M1|etrans; [exact M2|exact M3]]).
    pose proof (xlink_keep _ _ _ _ _ M Hx) as Hx3.
    rewrite (bind_ret _ _ _ _ _ (rd_near_parent nl s3 al t d _ _ _ _ _ _ H3 Hx3)).
    rewrite (bind_ret _ _ _ _ _ (rd_far nl s3 al d _ _ _ _ _ _ _ H3)), tptr_NodeD.
    destruct (dlast_spec d n s3 al t _ _ _ _ _ _ _ _ _ _ g H3 Hx3) as (s4 & E4 & H4 & M4);
      [by destruct d|].
    rewrite E4. rewrite recolor_NodeD in H4. do 6 eexists. split; [done|]. split; [exact H4|].
    split; [etrans; [apply M|exact M4]|]. split; [eauto with rbdb|]. split; [eauto with rbdb|].
    split; [|rewrite !addrs_NodeD; solve_Permutation].
    destruct d; cbn; rewrite <- ?app_assoc; cbn; by rewrite <- ?app_assoc.
  - assert (cb = RED) as -> by (by destruct cb). rewrite bind_mret.
    destruct (dlast_spec d n s al t _ _ _ _ _ _ _ _ _ _ g H Hx) as (s4 & E4 & H4 & M4);
      [by intros ->; inversion Hb|].
    rewrite E4. do 6 eexists. split; [done|]. split; [exact H4|]. split; [done|].
    split; [eauto with rbdb|].
    destruct (rbt_red_NodeD d wb m Hb) as (a & ka & va & a1 & a2 & -> & Ha1 & Ha2).
    rewrite recolor_NodeD. split; [eauto with rbdb|].
    split; [|rewrite !addrs_NodeD; solve_Permutation].
    destruct d; cbn; rewrite <- ?app_assoc; cbn; by rewrite <- ?app_assoc.
Qed.
End loop.

(** ** The loop *)

(** What the loop establishes from the position [t] in [g]. *)
Definition dfix_ok nl n s al t g : Prop :=
  exists s' T m, rbtree_delete_fixup n (tptr nl t) (s, al) = Ret (tt, (s', al)) /\
    st nl s' T [] /\ rbt T BLACK m /\ eqv T (plug t g) /\ same_mem s s'.

(** With [n] units of fuel the loop repairs a position that is one black node short. *)
Definition dfix_at nl n : Prop := forall s al t g c m,
  st nl s t g -> xlink nl s t (cparent nl g) -> rbt t c m -> rbc g BLACK (S m) ->
  length g < n -> dfix_ok nl n s al t g.

Lemma dfix_ok_stop nl n s al t g m :
  st nl s t g -> tcolor t = RED \/ g = [] -> rbt (plug (recolor BLACK t) g) BLACK m ->
  dfix_ok nl (S n) s al t g.
Proof.
  intros H Hc Hm. destruct (dfix_stop nl n s al t g H) as (s' & E & H' & M); [tauto|].
  apply st_plug in H'. exists s', (plug (recolor BLACK t) g), m.
  split; [done|]. split; [done|]. split; [done|]. split; [|done]. apply eqv_plug, eqv_recolor.
Qed.

(** A red position is painted black, which restores the missing node. *)
Lemma dfix_ok_red nl n s al t g m :
  st nl s t g -> tcolor t = RED -> rbt (recolor BLACK t) BLACK (S m) -> rbc g BLACK (S m) ->
  dfix_ok nl (S n) s al t g.
Proof.
  intros H Hc Ht Hg. destruct (rbc_plug _ _ _ _ Hg Ht) as [m' Hm]. eapply dfix_ok_stop; eauto.
Qed.

(** The height a context expects below a parent of color [c] whose children have height [m]. *)
Definition up_height (c : node_color) (m : nat) : nat := match c with RED => m | BLACK => S m end.

Lemma rbt_up_height d c p k v a b m :
  rbt a BLACK m -> rbt b BLACK m -> rbt (NodeD d c p k v a b) c (up_height c m).
Proof. destruct c; cbn; eauto with rbdb. Qed.

(** The call with the root, after the last case. *)
Lemma dfix_root nl n s al T m :
  st nl s T [] -> rbt T BLACK m ->
  exists s', rbtree_delete_fixup (S n) (root s) (s, al) = Ret (tt, (s', al)) /\
    st nl s' T [] /\ same_mem s s'.
Proof.
  intros H HT. destruct (dfix_stop nl n s al T [] H) as (s' & E & H' & M); [by left|].
  pose proof (st_root _ _ _ _ H) as Hr. cbn in Hr. rewrite Hr. exists s'. split; [done|].
  assert (recolor BLACK T = T) as HR by (inversion HT; done). by rewrite HR in H'.
Qed.

(** A position with a black sibling. *)
Lemma dblack_ok nl n d s al t cp p k v q kq vq wa wb g m ca cb :
  dfix_at nl (S n) ->
  st nl s (NodeD d cp p k v t (NodeD d BLACK q kq vq wa wb)) g -> xlink nl s t p ->
  rbt t BLACK m -> rbt wa ca m -> rbt wb cb m -> rbc g cp (up_height cp (S m)) ->
  (cp = BLACK -> length g < S n) ->
  exists s' T m', dblack d (S n) (tptr nl t) q (s, al) = Ret (tt, (s', al)) /\
    st nl s' T [] /\ rbt T BLACK m' /\
    eqv T (plug (NodeD d cp p k v t (NodeD d BLACK q kq vq wa wb)) g) /\ same_mem s s'.
Proof.
  intros IH H Hx Ht Ha Hb Hg Hn.
  assert (Hcases : ca = BLACK /\ cb = BLACK \/ (ca = RED \/ cb = RED))
    by (destruct ca, cb; auto).
  destruct Hcases as [[-> ->]|Hred].
  - destruct (dblack_up nl d (S n) s al _ _ _ _ _ _ _ _ _ _ _ H Hx) as (s1 & E1 & H1 & M1);
      [by eapply rbt_tcolor..|].
    set (T1 := NodeD d cp p k v t (NodeD d RED q kq vq wa wb)) in *.
    assert (Hok : dfix_ok nl (S n) s1 al T1 g).
    { destruct cp; cbn [up_height] in Hg.
      - apply (dfix_ok_red nl n s1 al T1 g m); [done|by unfold T1; destruct d| |by apply rbc_red_black].
        unfold T1. rewrite recolor_NodeD. eauto with rbdb.
      - apply (IH s1 al T1 g BLACK (S m)); [done|unfold T1; by destruct d| |done|by apply Hn].
        unfold T1. eauto with rbdb. }
    destruct Hok as (s' & T & m' & E & H' & HT & He & M). unfold T1 in E at 1. rewrite tptr_NodeD in E.
    exists s', T, m'. rewrite E1. split; [done|]. split; [done|]. split; [done|].
    split; [|by etrans]. etrans; [exact He|]. apply eqv_plug, eqv_NodeD; [done|]. by apply eqv_NodeD.
  - destruct (dblack_end nl d (S n) s al _ _ _ _ _ _ _ _ _ _ g m ca cb H Hx Ht Ha Hb Hred)
      as (s1 & q' & kq' & vq' & ta & tb & E1 & H1 & M1 & Hta & Htb & He).
    destruct (rbc_plug g cp (up_height cp (S m)) (NodeD d cp q' kq' vq' ta tb)) as [m' Hm];
      [done|by apply rbt_up_height|].
    apply st_plug in H1. destruct (dfix_root nl n s1 al _ m' H1 Hm) as (s' & E & H' & M).
    do 3 eexists. rewrite E1. split; [exact E|]. split; [exact H'|]. split; [exact Hm|].
    split; [by apply eqv_plug|by etrans].
Qed.

(** The body of the loop. *)
Lemma dbody_ok nl n d s al t c p k v w g m :
  dfix_at nl (S n) ->
  st nl s t (Fr d c p k v w :: g) -> xlink nl s t p -> rbt t BLACK m ->
  rbc (Fr d c p k v w :: g) BLACK (S m) -> length g < S n ->
  exists s' T m', dbody d (S n) (tptr nl t) p (s, al) = Ret (tt, (s', al)) /\
    st nl s' T [] /\ rbt T BLACK m' /\ eqv T (plug t (Fr d c p k v w :: g)) /\ same_mem s s'.
Proof.
  intros IH H Hx Ht Hg Hn. unfold dbody. apply st_out_near in H.
  rewrite (bind_ret _ _ _ _ _ (rd_far nl s al d _ _ _ _ _ _ _ H)).
  rewrite (bind_ret _ _ _ _ _ (st_color nl s al w _ (st_in_far nl s d _ _ _ _ _ _ _ H))).
  assert (Hw : exists cs, rbt w cs (S m) /\ rbc g c (up_height c (S m)) /\ (cs = RED -> c = BLACK)).
  { inversion Hg; subst; cbn; eauto. }
  destruct Hw as (cs & Hw & Hgc & Hcs). rewrite (rbt_tcolor _ _ _ Hw).
  destruct (rbt_S d _ _ _ Hw) as (q & kq & vq & wa & wb & ->).
  apply rbt_NodeD_inv in Hw as [_ [(-> & Ha & Hb)|(-> & m' & ca & cb & Hm & Ha & Hb)]].
  - specialize (Hcs eq_refl) as ->. cbn [up_height] in Hgc. rewrite decide_True by done.
    rewrite tptr_NodeD, bind_bind. apply st_in_far in H.
    destruct (colorD_keep nl s al d _ _ _ _ _ _ _ BLACK H) as (s1 & E1 & H1 & M1).
    rewrite (bind_ret _ _ _ _ _ E1). apply st_out_far in H1. rewrite bind_bind.
    rewrite (bind_ret _ _ _ _ _ (rd_near_parent nl s1 al t d _ _ _ _ _ _ H1 (xlink_keep _ _ _ _ _ M1 Hx))).
    destruct (colorD_keep nl s1 al d _ _ _ _ _ _ _ RED H1) as (s2 & E2 & H2 & M2).
    rewrite bind_bind, (bind_ret _ _ _ _ _ E2).
    destruct (rot_keep nl d s2 al _ _ _ _ _ _ _ _ _ _ _ _ H2) as (s3 & E3 & H3 & M3).
    rewrite bind_bind, (bind_ret _ _ _ _ _ E3). apply st_in_near in H3.
    assert (M : keep nl s s3) by (etrans; [exact M1|etrans; [exact M2|exact M3]]).
    pose proof (xlink_keep _ _ _ _ _ M Hx) as Hx3.
    rewrite bind_bind, (bind_ret _ _ _ _ _ (rd_near_parent nl s3 al t d _ _ _ _ _ _ H3 Hx3)).
    rewrite (bind_ret _ _ _ _ _ (rd_far nl s3 al d _ _ _ _ _ _ _ H3)).
    destruct (rbt_S d _ _ _ Ha) as (q2 & kq2 & vq2 & wa2 & wb2 & ->). rewrite tptr_NodeD.
    apply rbt_NodeD_inv in Ha as [_ [([=] & _)|(_ & m' & ca & cb & [= <-] & Ha1 & Ha2)]].
    destruct (dblack_ok nl n d s3 al t _ _ _ _ _ _ _ _ _ _ m ca cb IH H3 Hx3 Ht Ha1 Ha2)
      as (s' & T & m' & E & H' & HT & He & M'); [eapply rbc_black; [exact Hb|exact Hgc]|done|].
    exists s', T, m'. split; [exact E|]. split; [done|]. split; [done|].
    split; [|by etrans; [apply M|]]. etrans; [exact He|]. rewrite !plug_cons. apply eqv_plug.
    unfold plug1. cbn. etrans; [apply eqv_rot|]. apply eqv_NodeD; [done|]. by apply eqv_NodeD.
  - injection Hm as <-. rewrite decide_False by done. rewrite bind_mret, tptr_NodeD.
    rewrite plug_cons. unfold plug1. cbn [f_dir f_color f_ptr f_key f_value f_sib].
    by apply (dblack_ok nl n d s al t _ _ _ _ _ _ _ _ _ _ m ca cb).
Qed.

(** The fix-up ends within the fuel and gives a red-black tree with the same nodes in the same
    order. *)
Lemma dfix_spec nl n : dfix_at nl n.
Proof.
  induction n as [|n IH]; intros s al t g c m H Hx Ht Hg Hn; [lia|].
  destruct c.
  - apply (dfix_ok_red nl n s al t g m H); [by eapply rbt_tcolor| |done].
    inversion Ht; subst. cbn. eauto with rbdb.
  - destruct g as [|f g].
    { destruct (recolor_rbt _ _ _ Ht) as [m' Hm]. by eapply dfix_ok_stop; eauto. }
    destruct n as [|n]; [cbn in Hn; lia|]. unfold dfix_ok.
    rewrite (dfix_enter nl (S n) s al t f g H Hx (rbt_tcolor _ _ _ Ht)).
    2:{ inversion Hg as [|? ? ? ? ? ? ? Hs|? ? ? ? ? ? ? ? ? Hs]; subst; cbn; intros ->; inversion Hs. }
    destruct f as [d c p k v w]. cbn [f_dir f_ptr]. apply dbody_ok with (m := m); try done. cbn in Hn. lia.
Qed.
