(* ===== verification/RbtreeRemove.v ===== *)
(** * Red-black trees: removing a key

    [rbtree_delete] unlinks the node with the key, or, when that has two children, its
    successor, whose key and value it then moves into the node.  With the fix-up lemma this
    gives the contract of [kvs_rbtree_del]: the tree stays a red-black search tree, and loses
    the key and nothing else. *)

From stdpp Require Import sorting.
From S2P Require Import Prelude Engine KvsRbtree RbtreeRep RbtreeInsert RbtreeMap RbtreeDelete.
Import Rbtree.

Lemma addrs_plug g : forall t, addrs (plug t g) ≡ₚ addrs t ++ caddrs g.
Proof.
  induction g as [|f g IH]; intros t; cbn; [by rewrite app_nil_r|].
  rewrite IH, addrs_plug1. solve_Permutation.
Qed.

Lemma caddrs_app g1 g2 : caddrs (g1 ++ g2) = caddrs g1 ++ caddrs g2.
Proof. induction g1 as [|f g1 IH]; cbn; [done|]. by rewrite IH, <- app_assoc. Qed.

Lemma plug_app g1 g2 t : plug t (g1 ++ g2) = plug (plug t g1) g2.
Proof. apply foldl_app. Qed.

Lemma st_plug_app nl s t g1 g2 : st nl s t (g1 ++ g2) <-> st nl s (plug t g1) g2.
Proof. revert t. induction g1 as [|f g1 IH]; intros t; [done|]. cbn [app]. by rewrite st_up, IH. Qed.

Section remove.
  Context (nl : ptr).

(** ** Unlinking a node with an empty subtree *)

(** Writing the parent link of a subtree, or of the sentinel when it is empty. *)
Lemma set_parent_run s al t par q :
  heap s !! 0 = None -> rep nl (heap s) par t -> NoDup (nl :: addrs t) ->
  (exists n, heap s !! nl = Some n /\ color n = Some BLACK) ->
  exists h', wr (tptr nl t) (set_parent q) (s, al) = Ret (tt, (set_heap h' s, al)) /\
    rep nl h' q t /\ (forall p, p ∉ nl :: addrs t -> h' !! p = heap s !! p) /\
    (exists n, h' !! nl = Some n /\ color n = Some BLACK /\ (t = Leaf -> parent n = Some q)) /\
    dom h' = dom (heap s).
Proof.
  intros H0 Hr Hnd (n & Hn & Hc). apply list.NoDup_cons in Hnd as [Hnl Hnd].
  destruct t as [|c p k v l r].
  - eexists. split; [by eapply wr_run|]. split; [done|]. cbn [tptr]. split; [|split].
    + intros p Hp. apply lookup_insert_ne. cbn in Hp. set_solver.
    + eexists. split; [apply lookup_insert_eq|]. done.
    + by eapply insert_dom.
  - exists (rpar nl q (Node c p k v l r) (heap s)). pose proof Hr as (Hp & _).
    split; [by rewrite (wr_run _ _ _ _ _ H0 Hp)|]. split; [by eapply rpar_rep|]. split; [|split].
    + intros p' Hp'. apply rpar_lookup. set_solver.
    + exists n. by rewrite rpar_lookup.
    + by eapply rpar_dom.
Qed.

Definition dunlink (y x : ptr) : rb unit :=
  yp ← rd parent y;
  wr x (set_parent yp) ;;
  yp ← rd parent y;
  (if decide (yp = nl) then modify (set_root x) else
     ypl ← rd left yp;
     if decide (y = ypl) then wr yp (set_left x) else wr yp (set_right x)).

Lemma dunlink_spec s al d c y k v t g :
  st nl s (NodeD d c y k v t Leaf) g ->
  exists s', dunlink y (tptr nl t) (s, al) = Ret (tt, (s', al)) /\ st nl s' t g /\
    xlink nl s' t (cparent nl g) /\ heap s' !! y = heap s !! y /\
    y ∉ nl :: addrs t ++ caddrs g /\ same_mem s s'.
Proof.
  intros [Hroot Hnil Hrep Hcrep Hnd H0 Hs].
  apply rep_NodeD in Hrep as (Hy & Ht & _). rewrite tptr_NodeD in *.
  rewrite addrs_NodeD in Hnd. cbn [addrs] in Hnd. rewrite app_nil_r in Hnd. cbn [app] in Hnd.
  assert (Hnd' : NoDup (nl :: addrs t ++ caddrs g)).
  { apply list.NoDup_cons in Hnd as [Hn1 Hn2]. apply list.NoDup_cons in Hn2 as [Hn2 Hn3].
    apply list.NoDup_cons. split; [set_solver|done]. }
  nodup_facts Hnd. assert (Hy0 : y <> 0) by congruence.
  unfold dunlink.
  mrun rd_run by (rewrite ?Hy; first [done|apply parent_cellD]).
  destruct (set_parent_run s al t y (cparent nl g) H0 Ht) as (h1 & E1 & Ht1 & Hq1 & (n & Hn & Hc & Hp) & Hd);
    [apply list.NoDup_cons; split; [set_solver|done]|done|].
  rewrite (bind_ret _ _ _ _ _ E1).
  assert (Hz1 : h1 !! 0 = None) by (apply not_elem_of_dom; rewrite Hd; by apply not_elem_of_dom).
  assert (Ey1 : h1 !! y = heap s !! y) by (apply Hq1; set_solver).
  mrun rd_run by (cbn [heap set_heap]; rewrite ?Ey1, ?Hy; first [done|apply parent_cellD]).
  assert (Hc1 : crep nl h1 y g) by (eapply crep_frame; [exact Hcrep|]; intros q Hq; apply Hq1; set_solver).
  eexists. split; [apply (run_rlink nl L (set_heap h1 s) al y (tptr nl t) g); cbn [heap set_heap]; set_solver|].
  cbn [heap set_heap root nil next pooled]. split; [|split; [|split; [|split]]].
  - split; cbn [heap root nil]; try done.
    + by destruct g.
    + eapply rep_frame; [exact Ht1|]. intros q Hq. apply rlink_lookup. set_solver.
    + apply (rlink_crep nl y); [done|]. by apply list.NoDup_cons in Hnd' as [_ (_ & _ & ?)%list.NoDup_app].
    + rewrite rlink_lookup; [done|]. intros Hin. eapply crep_dom in Hin; [|exact Hc1].
      by apply not_elem_of_dom in Hz1.
    + exists n. by rewrite rlink_lookup by set_solver.
  - intros ->. exists n. cbn [heap]. rewrite rlink_lookup by set_solver. auto.
  - cbn [heap]. rewrite rlink_lookup by set_solver. done.
  - set_solver.
  - repeat split; cbn [heap]. by rewrite (rlink_dom nl _ y).
Qed.
(** ** The successor *)

(** The leftmost node of a subtree: its first pair, and where it hangs. *)
Lemma rbtree_mini_run n : forall s al t g,
  st nl s t g -> t <> Leaf -> height t < n ->
  exists c y k v r gy, rbtree_mini n (tptr nl t) (s, al) = Ret (y, (s, al)) /\
    t = plug (Node c y k v Leaf r) gy /\ elems t = (k, v) :: elems (plug r gy).
Proof.
  induction n as [|n IH]; intros s al t g H Ht Hn; [lia|].
  destruct t as [|c p k v l r]; [done|]. cbn [tptr rbtree_mini height] in *.
  rewrite (bind_ret _ _ _ _ _ (rd_near nl s al L c p k v l r g H)).
  rewrite (bind_ret _ _ _ _ _ (run_get_nil _ _ al _ _ H)).
  pose proof (st_in_near nl s L c p k v l r g H) as Hl.
  case_decide as Hd.
  - apply (st_tptr_nl nl s l _ Hl) in Hd as ->. by exists c, p, k, v, r, [].
  - destruct (IH s al l _ Hl) as (c' & y & k' & v' & r' & gy & E & Hp & He); [by intros ->|lia|].
    exists c', y, k', v', r', (gy ++ [Fr L c p k v r]). split; [exact E|].
    rewrite !plug_app, <- Hp. split; [done|]. cbn. by rewrite He.
Qed.

Definition ysel (n : nat) (z : ptr) : rb ptr :=
  zl ← rd left z;
  if decide (zl = nl) then mret z else
  zr ← rd right z;
  if decide (zr = nl) then mret z else rbtree_successor n z.

Definition xsel (y : ptr) : rb ptr :=
  yl ← rd left y;
  if decide (yl <> nl) then mret yl else
  yr ← rd right y;
  mret (if decide (yr <> nl) then yr else nl).

Lemma xsel_run s al d c y k v t g :
  st nl s (NodeD d c y k v t Leaf) g -> xsel y (s, al) = Ret (tptr nl t, (s, al)).
Proof.
  intros H. unfold xsel. destruct d; cbn [NodeD] in H.
  - rewrite (bind_ret _ _ _ _ _ (rd_near nl s al L c y k v t Leaf g H)).
    case_decide as Hd; [done|].
    rewrite (bind_ret _ _ _ _ _ (rd_far nl s al L c y k v t Leaf g H)). cbn [tptr].
    rewrite decide_False by tauto. destruct (decide (tptr nl t = nl)) as [->|]; [done|tauto].
  - rewrite (bind_ret _ _ _ _ _ (rd_near nl s al L c y k v Leaf t g H)). cbn [tptr].
    rewrite decide_False by tauto.
    rewrite (bind_ret _ _ _ _ _ (rd_far nl s al L c y k v Leaf t g H)).
    case_decide as Hd; [done|]. destruct (decide (tptr nl t = nl)) as [->|]; [done|tauto].
Qed.

(** The node to unlink, when the node has an empty subtree and when it has none. *)
Lemma ysel_self n s al d c z k v t g :
  st nl s (NodeD d c z k v t Leaf) g -> ysel n z (s, al) = Ret (z, (s, al)).
Proof.
  intros H. unfold ysel. destruct d; cbn [NodeD] in H.
  - rewrite (bind_ret _ _ _ _ _ (rd_near nl s al L c z k v t Leaf g H)).
    case_decide as Hd; [done|].
    rewrite (bind_ret _ _ _ _ _ (rd_far nl s al L c z k v t Leaf g H)). cbn [tptr].
    by rewrite decide_True.
  - rewrite (bind_ret _ _ _ _ _ (rd_near nl s al L c z k v Leaf t g H)). cbn [tptr].
    by rewrite decide_True.
Qed.

Lemma ysel_successor n s al c z k v l r g :
  st nl s (Node c z k v l r) g -> l <> Leaf -> r <> Leaf -> height r < n ->
  exists cy y ky vy yr gy, ysel n z (s, al) = Ret (y, (s, al)) /\
    r = plug (Node cy y ky vy Leaf yr) gy /\ elems r = (ky, vy) :: elems (plug yr gy).
Proof.
  intros H Hl Hr Hn. unfold ysel.
  pose proof (st_in_near nl s L c z k v l r g H) as HL. pose proof (st_in_far nl s L c z k v l r g H) as HR.
  rewrite (bind_ret _ _ _ _ _ (rd_near nl s al L c z k v l r g H)).
  rewrite decide_False by (by eapply st_tptr_ne).
  rewrite (bind_ret _ _ _ _ _ (rd_far nl s al L c z k v l r g H)).
  rewrite decide_False by (by eapply st_tptr_ne).
  unfold rbtree_successor. rewrite (bind_ret _ _ _ _ _ (rd_parent nl s al L c z k v l r g H)).
  rewrite (bind_ret _ _ _ _ _ (rd_far nl s al L c z k v l r g H)).
  rewrite (bind_ret _ _ _ _ _ (run_get_nil _ _ al _ _ H)).
  rewrite decide_True by (by eapply st_tptr_ne).
  by apply (rbtree_mini_run n s al r _ HR).
Qed.

(** ** Moving the successor's key and value *)

Lemma swap_run s al cz z k v l r g y ny ky vy :
  st nl s (Node cz z k v l r) g -> y ∉ nl :: addrs (Node cz z k v l r) ++ caddrs g ->
  heap s !! y = Some ny -> key ny = Some (Str ky) -> value ny = Some (Str vy) ->
  exists s', swap_contents z y (s, al) = Ret (tt, (s', al)) /\
    st nl s' (Node cz z ky vy l r) g /\ keep nl s s' /\
    exists ny', heap s' !! y = Some ny' /\ color ny' = color ny.
Proof.
  intros H Hy Hny Hk Hv. pose proof (st_null _ _ _ _ H) as H0.
  pose proof (st_rep _ _ _ _ H) as (Hz & _).
  unfold swap_contents. rewrite (bind_ret _ _ _ _ _ (load_run _ _ _ _ H0 Hz)).
  rewrite (bind_ret _ _ _ _ _ (load_run _ _ _ _ H0 Hny)).
  destruct (st_write nl s al cz z k v l r g cz ky vy
    (fun n => mk_node (color n) (right n) (left n) (parent n) (key ny) (value ny))) as (s1 & E1 & H1 & M1).
  { intros. cbn. by rewrite Hk, Hv. }
  { done. }
  pose proof E1 as E1'. rewrite (wr_run _ _ _ _ _ H0 Hz) in E1'. injection E1' as Es1.
  rewrite (bind_ret _ _ _ _ _ E1).
  assert (Hzy : z <> y) by (intros ->; cbn in Hy; set_solver).
  assert (Hny1 : heap s1 !! y = Some ny) by (rewrite <- Es1; cbn; by rewrite lookup_insert_ne).
  eexists. split; [apply (wr_run _ _ _ _ _ (st_null _ _ _ _ H1) Hny1)|].
  split; [|split; [split|]].
  - eapply st_frame; [exact H1|done..| |]; cbn [heap set_heap].
    + rewrite lookup_insert_ne; [apply (st_null _ _ _ _ H1)|]. intros ->. congruence.
    + intros q Hq. apply lookup_insert_ne. intros ->. by apply Hy.
  - etrans; [exact M1|]. repeat split; cbn [heap set_heap]. by eapply insert_dom.
  - cbn [heap set_heap]. rewrite lookup_insert_ne by (intros ->; set_solver).
    rewrite <- Es1. cbn. apply lookup_insert_ne. intros ->.
    pose proof (st_nodup _ _ _ _ H) as Hnd. cbn in Hnd. nodup_facts Hnd. set_solver.
  - eexists. cbn [heap set_heap]. split; [apply lookup_insert_eq|done].
Qed.

(** ** The fix-up and the end *)

Lemma delete_tail n s al d cy c y ny ky vy t g m :
  st nl s t g -> xlink nl s t (cparent nl g) ->
  heap s !! y = Some ny -> color ny = Some cy ->
  rbt (NodeD d cy y ky vy t Leaf) c m -> rbc g c m -> length g < n ->
  exists s' T m',
    (cy0 ← rd color y;
     (if decide (cy0 = BLACK) then rbtree_delete_fixup n (tptr nl t) else mret tt) ;;
     mret y) (s, al) = Ret (y, (s', al)) /\
    st nl s' T [] /\ rbt T BLACK m' /\ eqv T (plug t g) /\ same_mem s s'.
Proof.
  intros H Hx Hy Hc Ht Hg Hn.
  rewrite (bind_ret _ _ _ _ _ (rd_run _ _ _ _ _ _ (st_null _ _ _ _ H) Hy Hc)).
  apply rbt_NodeD_inv in Ht as [-> [(-> & Ht & _)|(-> & m1 & ct & cl & -> & Ht & _)]].
  - rewrite decide_False by done. rewrite bind_mret.
    destruct (rbc_plug g BLACK m t) as [m' Hm]; [by apply rbc_red_black|done|].
    apply st_plug in H. by exists s, (plug t g), m'.
  - rewrite decide_True by done.
    destruct (dfix_spec nl n s al t g ct m1 H Hx Ht Hg Hn) as (s' & T & m' & E & H' & HT & He & M).
    exists s', T, m'. by rewrite (bind_ret _ _ _ _ _ E).
Qed.

Lemma rbc_rekey gy d c p k v k' v' w g c0 m :
  rbc (gy ++ Fr d c p k v w :: g) c0 m -> rbc (gy ++ Fr d c p k' v' w :: g) c0 m.
Proof.
  revert c0 m. induction gy as [|f gy IH]; intros c0 m; cbn [app]; inversion 1; subst; eauto with rbdb.
Qed.

(** ** The whole deletion *)

Lemma rbtree_delete_unfold n z s al :
  nil s = nl ->
  rbtree_delete n z (s, al)
  = (y ← ysel n z;
     x ← xsel y;
     dunlink y x ;;
     (if decide (y <> z) then swap_contents z y else mret tt) ;;
     (cy ← rd color y;
      (if decide (cy = BLACK) then rbtree_delete_fixup n x else mret tt) ;;
      mret y)) (s, al).
Proof.
  intros Hnl. unfold rbtree_delete, get_nil. mcbn. rewrite Hnl. unfold ysel, xsel, dunlink.
  repeat (rewrite ?bind_bind; first [reflexivity|apply bind_ext; intros ? ?]).
Qed.


(** What [rbtree_delete] establishes: [y] is out of the tree, which holds the nodes and pairs
    of the rest [T0]. *)
Definition deleted n s al z (E : list (cstr * cstr)) : Prop :=
  exists y s' T m, rbtree_delete n z (s, al) = Ret (y, (s', al)) /\
    st nl s' T [] /\ rbt T BLACK m /\ elems T = E /\
    y ∉ nl :: addrs T /\ is_Some (heap s !! y) /\ same_mem s s'.

Lemma st_cell_dom s d c y k v t g : st nl s (NodeD d c y k v t Leaf) g -> is_Some (heap s !! y).
Proof. intros H. apply st_focus in H. eauto. Qed.

(** A node with an empty subtree. *)
Lemma delete_one n s al d c z k v t g m :
  st nl s (NodeD d c z k v t Leaf) g -> rbt (plug (NodeD d c z k v t Leaf) g) BLACK m ->
  length g < n -> deleted n s al z (cpre g ++ elems t ++ cpost g).
Proof.
  intros H HT Hn. unfold deleted. rewrite (rbtree_delete_unfold n z s al) by apply (st_nil _ _ _ _ H).
  destruct (rbt_unplug _ _ _ _ HT eq_refl) as (c' & m' & Ht & Hg).
  rewrite (bind_ret _ _ _ _ _ (ysel_self n s al d c z k v t g H)).
  rewrite (bind_ret _ _ _ _ _ (xsel_run s al d c z k v t g H)).
  destruct (dunlink_spec s al d c z k v t g H) as (s1 & E1 & H1 & Hx & Ey & Hy & M1).
  rewrite (bind_ret _ _ _ _ _ E1), decide_False by tauto. rewrite bind_mret.
  destruct (delete_tail n s1 al d c c' z _ k v t g m' H1 Hx (eq_trans Ey (st_focus _ _ _ _ _ _ _ _ _ _ H)))
    as (s2 & T & m2 & E2 & H2 & HT2 & He & M2); [apply color_cellD|done..|].
  exists z, s2, T, m2. rewrite E2. split; [done|]. split; [done|]. split; [done|].
  destruct He as [He Ha]. split; [by rewrite He, elems_plug_ctx|].
  split; [by rewrite Ha, addrs_plug|]. split; [by eapply st_cell_dom|by etrans].
Qed.

(** A node with two subtrees. *)
Lemma delete_two n s al c z k v l r g m :
  st nl s (Node c z k v l r) g -> rbt (plug (Node c z k v l r) g) BLACK m ->
  l <> Leaf -> r <> Leaf -> size (heap s) < n ->
  deleted n s al z (cpre g ++ elems l ++ elems r ++ cpost g).
Proof.
  intros H HT Hl Hr Hn. unfold deleted. rewrite (rbtree_delete_unfold n z s al) by apply (st_nil _ _ _ _ H).
  pose proof (st_in_far nl s L c z k v l r g H) as HR. cbn [flip] in HR.
  pose proof (st_bound _ _ _ _ HR) as Hb.
  destruct (ysel_successor n s al c z k v l r g H Hl Hr) as (cy & y & ky & vy & yr & gy & E0 & Hp & He);
    [lia|]. rewrite (bind_ret _ _ _ _ _ E0).
  set (f := Fr R c z k v l). assert (Hpl : Node c z k v l r = plug1 r f) by done.
  rewrite Hpl, Hp, <- plug_cons, <- plug_app in HT.
  rewrite Hp in HR. apply st_plug_app in HR.
  destruct (rbt_unplug _ _ _ _ HT eq_refl) as (c' & m' & Ht & Hg).
  pose proof (st_bound _ _ _ _ HR) as Hb2.
  pose proof (xsel_run s al R cy y ky vy yr (gy ++ f :: g) HR) as E1.
  rewrite (bind_ret _ _ _ _ _ E1).
  destruct (dunlink_spec s al R cy y ky vy yr (gy ++ f :: g) HR) as (s1 & E2 & H1 & Hx & Ey & Hy & M1).
  rewrite (bind_ret _ _ _ _ _ E2).
  pose proof (st_focus nl s R cy y ky vy yr Leaf _ HR) as Hc. rewrite Hc in Ey.
  apply st_plug_app, st_up in H1. unfold f, plug1 in H1.
  cbn [NodeD f_dir f_color f_ptr f_key f_value f_sib] in H1.
  assert (Hy' : y ∉ nl :: addrs (Node c z k v l (plug yr gy)) ++ caddrs g).
  { cbn [addrs app]. rewrite caddrs_app in Hy. rewrite (addrs_plug gy yr). cbn in Hy. set_solver. }
  rewrite decide_True by (intros ->; cbn in Hy'; set_solver).
  destruct (swap_run s1 al c z k v l (plug yr gy) g y _ ky vy H1 Hy' Ey (key_cellD _ _ _ _ _ _ _) (value_cellD _ _ _ _ _ _ _))
    as (s2 & E3 & H2 & M2 & ny & Hny & Hcy).
  rewrite (bind_ret _ _ _ _ _ E3). rewrite color_cellD in Hcy.
  assert (Hx2 : xlink nl s2 yr (cparent nl (gy ++ Fr R c z ky vy l :: g))).
  { apply (xlink_keep nl s1 s2); [done|]. by destruct gy. }
  apply (rbc_rekey _ _ _ _ _ _ ky vy) in Hg.
  assert (H3 : st nl s2 yr (gy ++ Fr R c z ky vy l :: g)) by (by apply st_plug_app, st_up).
  destruct (delete_tail n s2 al R cy c' y ny ky vy yr _ m' H3 Hx2 Hny Hcy Ht Hg)
    as (s3 & T & m3 & E4 & H4 & HT4 & [He4 Ha4] & M3).
  { rewrite length_app in *. cbn [length] in *. lia. }
  exists y, s3, T, m3. rewrite E4. split; [done|]. split; [done|]. split; [done|].
  split.
  { rewrite He4, plug_app, plug_cons, elems_plug_ctx. unfold plug1. cbn. rewrite He.
    by rewrite <- !app_assoc. }
  split; [|split; [by rewrite Hc|]].
  - rewrite Ha4, addrs_plug, caddrs_app. rewrite caddrs_app in Hy. done.
  - etrans; [exact M1|]. etrans; [apply M2|exact M3].
Qed.
End remove.

(** ** The engine's operation *)

(** The node of a key, with the fuel of the entry points: the deletion takes out the key's
    pair. *)
Lemma rbtree_delete_spec nl s al c z k v l r g m :
  st nl s (Node c z k v l r) g -> rbt (plug (Node c z k v l r) g) BLACK m ->
  deleted nl (S (size (heap s))) s al z (cpre g ++ elems l ++ elems r ++ cpost g).
Proof.
  intros H HT. pose proof (st_bound _ _ _ _ H) as Hb.
  assert (HL : forall t, t = Leaf \/ t <> Leaf) by (intros []; [by left|by right]).
  destruct (HL l) as [->|Hl].
  { apply (delete_one nl _ s al R c z k v r g m); [done|done|lia]. }
  destruct (HL r) as [->|Hr].
  { apply (delete_one nl _ s al L c z k v l g m); [done|done|lia]. }
  eapply (delete_two nl); try done. lia.
Qed.

(** Giving back a node that is not in the tree. *)
Lemma st_drop nl s t g y :
  st nl s t g -> y ∉ nl :: addrs t ++ caddrs g -> st nl (set_heap (delete y (heap s)) s) t g.
Proof.
  intros H Hy. eapply st_frame; [exact H|done..| |]; cbn [heap set_heap].
  - apply lookup_delete_None. right. apply (st_null _ _ _ _ H).
  - intros q Hq. apply lookup_delete_ne. intros ->. done.
Qed.

Lemma filter_keep (P : cstr * cstr -> Prop) `{!forall x, Decision (P x)} (l : list (cstr * cstr)) :
  (forall x, x ∈ l -> P x) -> filter P l = l.
Proof.
  induction l as [|x l IH]; intros Hl; [done|].
  rewrite filter_cons_True by set_solver. rewrite IH by set_solver. done.
Qed.

(** Taking one pair out of a sorted list. *)
Lemma remove_sorted k v (a b : list (cstr * cstr)) :
  StronglySorted cstr_lt (a ++ (k, v) :: b).*1 ->
  StronglySorted cstr_lt (a ++ b).*1 /\
  filter (fun kv => kv.1 <> k) (a ++ (k, v) :: b) = a ++ b.
Proof.
  rewrite !fmap_app, fmap_cons. cbn [fst]. intros Hs. pose proof Hs as Hnd.
  apply StronglySorted_app in Hs as (Hx & H1 & H2). apply StronglySorted_cons in H2 as [H2 H3].
  rewrite list.Forall_forall in H2. split.
  - apply StronglySorted_app_2; [|done|done]. set_solver.
  - rewrite list.filter_app, filter_cons_False by (cbn; tauto). f_equal; apply filter_keep.
    + intros [k' v'] Hin. cbn. intros ->. apply (cstr_lt_irrefl k). apply Hx; [|set_solver].
      apply list_elem_of_fmap. by exists (k, v').
    + intros [k' v'] Hin. cbn. intros ->. apply (cstr_lt_irrefl k). apply H2.
      apply list_elem_of_fmap. by exists (k, v').
Qed.

Lemma tmap_filter k t t' :
  sorted t -> sorted t' -> elems t' = filter (fun kv => kv.1 <> k) (elems t) -> tmap t' = delete k (tmap t).
Proof.
  intros Hs Hs' He. apply map_eq. intros j. apply option_eq. intros v.
  unfold tmap. rewrite lookup_delete_Some.
  rewrite <- !elem_of_list_to_map by (by apply sorted_NoDup).
  rewrite He, list_elem_of_filter. cbn. naive_solver.
Qed.

(** The engine holds the tree [T], which has the pair [k], [v]. *)
Definition holds_pair nl s T (k v : cstr) : Prop := tree_of nl s T /\ tmap T !! k = Some v.

(** The part of [kvs_rbtree_del] before [free]. *)
Lemma kvs_rbtree_del_run nl s T k v al :
  tree_of nl s T -> tmap T !! k = Some v ->
  exists y s' T' m, kvs_rbtree_del (Some k) (s, al) = (free_node y ;; mret 0%Z) (s', al) /\
    st nl s' T' [] /\ rbt T' BLACK m /\ sorted T' /\
    elems T' = filter (fun kv => kv.1 <> k) (elems T) /\
    y ∉ nl :: addrs T' /\ is_Some (heap s !! y) /\ same_mem s s'.
Proof.
  intros HT Hk. pose proof HT as (_ & (m & Hm) & Hs & _). unfold kvs_rbtree_del.
  destruct (rbtree_search_fuel nl s al T k HT) as (t & g & E & H & Hp & H0 & Hc).
  rewrite (bind_ret _ _ _ _ _ (run_heap_fuel s al)), (bind_ret _ _ _ _ _ E), decide_False by done.
  destruct Hc as [[_ Hc]|(c & z & w & l & r & -> & _ & _)]; [congruence|]. cbn [tptr].
  rewrite <- Hp in Hm. destruct (rbtree_delete_spec nl s al c z k w l r g m H Hm)
    as (y & s1 & T' & m' & E1 & H1 & HT' & He & Hy & Hsome & M).
  exists y, s1, T', m'. rewrite (bind_ret _ _ _ _ _ E1). split; [done|]. split; [done|]. split; [done|].
  unfold sorted in *. rewrite <- Hp, elems_plug_ctx in Hs |- *. cbn [elems] in *.
  rewrite <- (app_assoc (elems l)), (app_assoc (cpre g)) in Hs |- *. cbn [app] in *.
  destruct (remove_sorted _ _ _ _ Hs) as [Hs' Hf]. rewrite app_assoc in He. by rewrite He, Hf.
Qed.

(** C8: deleting a key that is present from a tree whose nodes [malloc] allocated returns 0,
    leaves a red-black search tree that has lost exactly the key's pair, and frees exactly one
    node, which is not in the new tree. *)
Theorem rbtree_del_keeps_invariants nl s T k v :
  holds_pair nl s T k v -> pooled s = false ->
  exists s' T', kvs_rbtree_del (Some k) (s, []) = Ret (0%Z, (s', [])) /\
    tree_of nl s' T' /\ elems T' = filter (fun kv => kv.1 <> k) (elems T) /\
    tmap T' = delete k (tmap T) /\ S (size (heap s')) = size (heap s).
Proof.
  intros [HT Hk] Hpool. pose proof HT as (H & _ & Hs & Hnx & Hfree).
  destruct (kvs_rbtree_del_run nl s T k v [] HT Hk)
    as (y & s1 & T' & m & E & H1 & HT' & Hs' & He & Hy & [ny Hny] & (Hd & Hx & Hpl)).
  assert (Hy1 : is_Some (heap s1 !! y)) by (apply elem_of_dom; rewrite Hd; by eapply elem_of_dom_2).
  destruct Hy1 as [ny1 Hny1].
  assert (Hfr : free_node y (s1, []) = Ret (tt, (set_heap (delete y (heap s1)) s1, []))).
  { unfold free_node. rewrite decide_False by (intros ->; pose proof (st_null _ _ _ _ H1); congruence).
    rewrite (bind_ret _ _ _ _ _ (load_run _ _ _ _ (st_null _ _ _ _ H1) Hny1)). mcbn.
    by rewrite Hpl, Hpool. }
  exists (set_heap (delete y (heap s1)) s1), T'. rewrite E, (bind_ret _ _ _ _ _ Hfr).
  split; [done|]. split; [|split; [done|split; [by apply tmap_filter|]]].
  - split; [apply st_drop; [done|by cbn; rewrite app_nil_r]|]. split; [eauto|]. split; [done|].
    cbn [next set_heap]. rewrite Hx. split; [done|]. intros q Hq. cbn [heap set_heap].
    apply lookup_delete_None. right. apply not_elem_of_dom. rewrite Hd. apply not_elem_of_dom. auto.
  - cbn [heap set_heap]. rewrite map_size_delete_Some by eauto.
    rewrite <- !size_dom, Hd. assert (Hpos : size (dom (heap s)) <> 0); [|lia].
    intros Hz. apply size_empty_iff in Hz. apply elem_of_dom_2 in Hny. set_solver.
Qed.

(** C34: when the nodes come from the memory pool, as in the server's configuration, every
    deletion of a key that is present gives a pool chunk to [free]. *)
Theorem rbtree_del_frees_pool_chunk nl s T k v al :
  holds_pair nl s T k v -> pooled s = true ->
  kvs_rbtree_del (Some k) (s, al) = Fault BadPointer.
Proof.
  intros [HT Hk] Hpool.
  destruct (kvs_rbtree_del_run nl s T k v al HT Hk)
    as (y & s1 & T' & m & E & H1 & _ & _ & _ & _ & [ny Hny] & (Hd & _ & Hpl)).
  assert (Hy1 : is_Some (heap s1 !! y)) by (apply elem_of_dom; rewrite Hd; by eapply elem_of_dom_2).
  destruct Hy1 as [ny1 Hny1]. rewrite E. apply bind_fault. unfold free_node.
  rewrite decide_False by (intros ->; pose proof (st_null _ _ _ _ H1); congruence).
  rewrite (bind_ret _ _ _ _ _ (load_run _ _ _ _ (st_null _ _ _ _ H1) Hny1)). mcbn.
  by rewrite Hpl, Hpool.
Qed.

(** The tree with the one pair [k], [v]. *)
Definition one_node (pl : bool) (k v : cstr) : rbtree :=
  mk_rbtree 2 1 (<[2 := cell BLACK 1 1 1 k v]> {[1 := mk_node (Some BLACK) None None None None None]}) 3 pl.

Lemma tree_of_one pl k v : tree_of 1 (one_node pl k v) (Node BLACK 2 k v Leaf Leaf).
Proof.
  split; [split; cbn; try done|].
  - repeat constructor; set_solver.
  - rewrite lookup_insert_ne by done. eexists. by rewrite lookup_singleton_eq.
  - split; [exists 1; eauto with rbdb|]. split; [by repeat constructor|]. split; [done|].
    intros q Hq. cbn in *. rewrite lookup_insert_ne by lia. apply lookup_singleton_ne. lia.
Qed.

Lemma holds_one pl k v : holds_pair 1 (one_node pl k v) (Node BLACK 2 k v Leaf Leaf) k v.
Proof. split; [apply tree_of_one|]. unfold tmap. cbn. apply lookup_insert_eq. Qed.

Example rbtree_del_keeps_invariants_witness :
  exists s' T', kvs_rbtree_del (Some (bs "k")) (one_node false (bs "k") (bs "v"), []) = Ret (0%Z, (s', [])) /\
    tree_of 1 s' T' /\ elems T' = [] /\ root s' = 1.
Proof.
  destruct (rbtree_del_keeps_invariants 1 (one_node false (bs "k") (bs "v")) _ (bs "k") (bs "v")
    (holds_one _ _ _) eq_refl) as (s' & T' & E & HT & He & _ & _).
  exists s', T'. split; [exact E|]. split; [exact HT|].
  assert (He' : elems T' = []) by (rewrite He; vm_compute; reflexivity).
  split; [exact He'|]. destruct HT as (H & _). rewrite (st_root _ _ _ _ H).
  destruct T' as [|c p k v l r]; [done|]. cbn in He'. by destruct (elems l).
Defined.

Example rbtree_del_frees_pool_chunk_witness :
  kvs_rbtree_del (Some (bs "k")) (one_node true (bs "k") (bs "v"), []) = Fault BadPointer.
Proof.
  exact (rbtree_del_frees_pool_chunk 1 _ _ (bs "k") (bs "v") [] (holds_one true _ _) eq_refl).
Defined.
