(* ===== verification/Mempool.v ===== *)
(** * The memory pool ([src/kv_mempool.c]) and the allocator of the store
      ([kvs_malloc], [kvs_free] of [src/kvstore.c])

    Memory is a set of live blocks of the C library and the words stored in them.  The
    pool threads its free list through the first word of every free chunk.  The C
    library's [malloc] is a parameter: the address it picks for a size, or NULL. *)

From S2P Require Import Prelude.

Module Mempool.

(** [blocks]: address and size of the live blocks; [words]: the pointers stored. *)
Record mem := mk_mem { blocks : gmap Z Z; words : gmap Z Z }.

Record mem_pool_t := mk_pool {
  self : Z;              (** the address of the struct *)
  free_list : Z;
  data : Z;
  chunk_size : Z;
  chunk_count : Z;
  initialized : Z
}.

(** The global pool pointer: NULL, a pool, or a pool already destroyed. *)
Inductive pool_ptr := PNull | PLive (mp : mem_pool_t) | PFreed.

Record heap_st := mk_heap { memory : mem; global_pool : pool_ptr }.

Abbreviation hp A := (M heap_st A).

Definition POOL_CHUNK_SIZE : Z := 64.
Definition POOL_CHUNK_COUNT : Z := 100000.
Definition PTR_SIZE : Z := 8.
Definition MEM_POOL_T_SIZE : Z := 40.

Definition align_up (size align : Z) : Z :=
  Z.land (wrap 64 (wrap 64 (size + align) - 1)) (wrap 64 (Z.lnot (wrap 64 (align - 1)))).

(** The bytes [p .. p+n) lie in one live block. *)
Definition in_block (m : mem) (p n : Z) : bool :=
  existsb (fun bl => (bl.1 <=? p) && (p + n <=? bl.1 + bl.2))%Z (map_to_list (blocks m)).

Definition set_memory (m : mem) (s : heap_st) := mk_heap m (global_pool s).
Definition set_pool (p : pool_ptr) (s : heap_st) := mk_heap (memory s) p.

(** An access to the word at [p]. *)
Definition check_word (p : Z) : hp unit :=
  s ← get;
  if (p =? 0)%Z then raise NullDeref else
  if in_block (memory s) p PTR_SIZE then mret tt else
  if in_block (memory s) p 1 then raise BufferOverflow else raise BadPointer.

Definition store_word (p v : Z) : hp unit :=
  check_word p ;;
  modify (fun s => set_memory (mk_mem (blocks (memory s)) (<[p := v]> (words (memory s)))) s).

Definition load_word (p : Z) : hp Z :=
  check_word p ;;
  s ← get;
  match words (memory s) !! p with
  | None => raise Indeterminate
  | Some v => mret v
  end.

Section allocator.
(** The C library: the address [malloc] returns for the live blocks and a size. *)
Context (malloc_at : gmap Z Z -> Z -> option Z).

(** 0 is NULL.  The memory comes without contents. *)
Definition malloc (size : Z) : hp Z :=
  s ← get;
  match malloc_at (blocks (memory s)) size with
  | None => mret 0%Z
  | Some p =>
      put (set_memory (mk_mem (<[p := size]> (blocks (memory s)))
             (filter (fun w => ~ (p <= w.1 < p + size)%Z) (words (memory s)))) s) ;;
      mret p
  end.

Definition libc_free (p : Z) : hp unit :=
  if (p =? 0)%Z then mret tt else
  s ← get;
  match blocks (memory s) !! p with
  | None => raise BadPointer
  | Some _ => put (set_memory (mk_mem (delete p (blocks (memory s))) (words (memory s))) s)
  end.

(** The loop that threads the free list: [n] chunks are left, the current one is [i]. *)
Fixpoint thread_chunks (n : nat) (i data size : Z) : hp unit :=
  match n with
  | O => mret tt
  | S n =>
      store_word (data + wrap 64 (i * size)) (data + wrap 64 ((i + 1) * size)) ;;
      thread_chunks n (i + 1) data size
  end.

Definition kvs_mempool_create (size count : Z) : hp pool_ptr :=
  if (size =? 0)%Z || (count =? 0)%Z then mret PNull else
  let size := align_up size PTR_SIZE in
  mp ← malloc MEM_POOL_T_SIZE;
  if (mp =? 0)%Z then mret PNull else
  d ← malloc (wrap 64 (size * count));
  if (d =? 0)%Z then libc_free mp ;; mret PNull else
  thread_chunks (Z.to_nat (count - 1)) 0 d size ;;
  store_word (d + wrap 64 ((count - 1) * size)) 0 ;;
  mret (PLive (mk_pool mp d d size count 1)).

Definition set_free_list (p : Z) (mp : mem_pool_t) : mem_pool_t :=
  mk_pool (self mp) p (data mp) (chunk_size mp) (chunk_count mp) (initialized mp).

(** The operations get the global pool as their pool argument. *)
Definition kvs_mempool_alloc : hp Z :=
  s ← get;
  match global_pool s with
  | PNull => mret 0%Z
  | PFreed => raise BadPointer
  | PLive mp =>
      if (initialized mp =? 0)%Z || (free_list mp =? 0)%Z then mret 0%Z else
      nxt ← load_word (free_list mp);
      modify (set_pool (PLive (set_free_list nxt mp))) ;;
      mret (free_list mp)
  end.

Definition kvs_mempool_free (p : Z) : hp unit :=
  s ← get;
  match global_pool s with
  | PNull => mret tt
  | PFreed => raise BadPointer
  | PLive mp =>
      if (p =? 0)%Z then mret tt else
      store_word p (free_list mp) ;;
      modify (set_pool (PLive (set_free_list p mp)))
  end.

Definition kvs_mempool_destory : hp unit :=
  s ← get;
  match global_pool s with
  | PNull => mret tt
  | PFreed => raise BadPointer
  | PLive mp =>
      (if (data mp =? 0)%Z then mret tt else libc_free (data mp)) ;;
      libc_free (self mp) ;;
      modify (set_pool PFreed)
  end.

Definition kvs_malloc (size : Z) : hp Z :=
  p ← (if (size <=? POOL_CHUNK_SIZE)%Z then kvs_mempool_alloc else mret 0%Z);
  if (p =? 0)%Z then malloc size else mret p.

Definition kvs_free (p : Z) : hp unit :=
  if (p =? 0)%Z then mret tt else
  s ← get;
  match global_pool s with
  | PNull => libc_free p
  | _ => kvs_mempool_free p
  end.

(** ** Alignment *)

Lemma land_low_mask x : (0 <= x < 2 ^ 64)%Z -> Z.land x (2 ^ 64 - 8) = (8 * (x / 8))%Z.
Proof.
  intros Hx. change (2 ^ 64 - 8)%Z with (Z.shiftl (Z.ones 61) 3).
  change 8%Z with (2 ^ 3)%Z. rewrite <- Z.shiftr_div_pow2 by lia.
  rewrite Z.mul_comm, <- Z.shiftl_mul_pow2 by lia.
  apply Z.bits_inj'. intros n Hn. rewrite Z.land_spec.
  destruct (Z.lt_ge_cases n 3).
  - rewrite !(Z.shiftl_spec_low _ 3 n) by lia. apply andb_false_r.
  - rewrite !Z.shiftl_spec, Z.shiftr_spec by lia. replace (n - 3 + 3)%Z with n by lia.
    rewrite Z.testbit_ones by lia. destruct (Z.lt_ge_cases n 64).
    + replace ((0 <=? n - 3) && (n - 3 <? 61))%Z with true by lia. apply andb_true_r.
    + replace (Z.testbit x n) with false; [done|]. symmetry.
      destruct (decide (x = 0%Z)) as [->|]; [apply Z.bits_0|].
      apply Z.bits_above_log2; [lia|]. apply Z.log2_lt_pow2; [lia|].
      eapply Z.lt_le_trans; [apply Hx|]. by apply Z.pow_le_mono_r.
Qed.

(** The chunk size is the least multiple of 8 that holds the request. *)
Lemma align_up_spec n :
  (0 <= n <= 2 ^ 64 - 8)%Z -> align_up n PTR_SIZE = (8 * ((n + 7) / 8))%Z.
Proof.
  intros Hn. unfold align_up, PTR_SIZE, wrap.
  change (Z.lnot ((8 - 1) mod 2 ^ 64) mod 2 ^ 64)%Z with (2 ^ 64 - 8)%Z.
  replace (((n + 8) mod 2 ^ 64 - 1) mod 2 ^ 64)%Z with (n + 7)%Z; [apply land_low_mask; lia|].
  destruct (decide (n = 2 ^ 64 - 8)%Z) as [->|]; [reflexivity|].
  rewrite (Z.mod_small (n + 8)) by lia. rewrite Z.mod_small; lia.
Qed.

Lemma align_up_bounds n :
  (0 < n <= 2 ^ 64 - 8)%Z ->
  (n <= align_up n PTR_SIZE < n + 8)%Z /\ (PTR_SIZE <= align_up n PTR_SIZE)%Z.
Proof.
  intros Hn. rewrite align_up_spec by lia. unfold PTR_SIZE.
  pose proof (Z.div_mod (n + 7) 8 ltac:(lia)). pose proof (Z.mod_pos_bound (n + 7) 8 ltac:(lia)).
  lia.
Qed.

(** ** The free list *)

(** The words of [w] thread the chunks [l] from [head]. *)
Fixpoint chain (w : gmap Z Z) (head : Z) (l : list Z) : Prop :=
  match l with
  | [] => head = 0%Z
  | p :: l => head = p /\ p <> 0%Z /\ exists nxt, w !! p = Some nxt /\ chain w nxt l
  end.

Lemma chain_frame w w' l : forall head,
  chain w head l -> (forall p, p ∈ l -> w' !! p = w !! p) -> chain w' head l.
Proof.
  clear malloc_at.
  induction l as [|p l IH]; intros head; cbn; [done|].
  intros (-> & Hp & nxt & Hw & Hc) Hq. split; [done|]. split; [done|].
  exists nxt. rewrite Hq by set_solver. split; [done|]. apply IH; [done|]. set_solver.
Qed.

(** The pool is live and its free list holds the chunks [l]. *)
Record pool_ok (s : heap_st) (mp : mem_pool_t) (l : list Z) : Prop := {
  pool_live : global_pool s = PLive mp;
  pool_init : initialized mp <> 0%Z;
  pool_chain : chain (words (memory s)) (free_list mp) l;
  pool_nodup : NoDup l;
  pool_block : Forall (fun p => in_block (memory s) p PTR_SIZE = true) l
}.

Lemma store_word_run s al p v :
  p <> 0%Z -> in_block (memory s) p PTR_SIZE = true ->
  store_word p v (s, al)
  = Ret (tt, (set_memory (mk_mem (blocks (memory s)) (<[p := v]> (words (memory s)))) s, al)).
Proof.
  intros Hp Hb. unfold store_word, check_word. mcbn.
  destruct (Z.eqb_spec p 0); [done|]. rewrite Hb. done.
Qed.

Lemma load_word_run s al p v :
  p <> 0%Z -> in_block (memory s) p PTR_SIZE = true -> words (memory s) !! p = Some v ->
  load_word p (s, al) = Ret (v, (s, al)).
Proof.
  intros Hp Hb Hw. unfold load_word, check_word. mcbn.
  destruct (Z.eqb_spec p 0); [done|]. rewrite Hb. mcbn. by rewrite Hw.
Qed.

Definition pop_pool (nxt : Z) (mp : mem_pool_t) (s : heap_st) : heap_st :=
  set_pool (PLive (set_free_list nxt mp)) s.

(** Taking a chunk pops the free list; an empty list gives NULL. *)
Lemma alloc_pop s al mp p l :
  pool_ok s mp (p :: l) ->
  exists nxt, kvs_mempool_alloc (s, al) = Ret (p, (pop_pool nxt mp s, al)) /\
    pool_ok (pop_pool nxt mp s) (set_free_list nxt mp) l.
Proof.
  intros [Hl Hi (Hf & Hp & nxt & Hw & Hc) Hnd Hb].
  apply list.NoDup_cons in Hnd as [Hpl Hnd]. apply list.Forall_cons in Hb as [Hb Hbl].
  exists nxt. split; [|by split].
  unfold kvs_mempool_alloc. mcbn. rewrite Hl.
  destruct (Z.eqb_spec (initialized mp) 0); [done|].
  destruct (Z.eqb_spec (free_list mp) 0); [congruence|]. cbn [orb].
  rewrite Hf. rewrite (bind_ret _ _ _ _ _ (load_word_run s al p nxt Hp Hb Hw)). done.
Qed.

Lemma alloc_empty s al mp :
  pool_ok s mp [] -> kvs_mempool_alloc (s, al) = Ret (0%Z, (s, al)).
Proof.
  intros [Hl Hi Hf _ _]. unfold kvs_mempool_alloc. mcbn. rewrite Hl. cbn in Hf. rewrite Hf.
  by rewrite orb_true_r.
Qed.

Definition push_pool (p : Z) (mp : mem_pool_t) (s : heap_st) : heap_st :=
  set_pool (PLive (set_free_list p mp))
    (set_memory (mk_mem (blocks (memory s)) (<[p := free_list mp]> (words (memory s)))) s).

(** Giving a chunk back pushes it. *)
Lemma mempool_free_push s al mp p l :
  pool_ok s mp l -> p ∉ l -> p <> 0%Z -> in_block (memory s) p PTR_SIZE = true ->
  kvs_mempool_free p (s, al) = Ret (tt, (push_pool p mp s, al)) /\
  pool_ok (push_pool p mp s) (set_free_list p mp) (p :: l).
Proof.
  clear malloc_at.
  intros [Hl Hi Hc Hnd Hb] Hpl Hp Hin. split.
  - unfold kvs_mempool_free. mcbn. rewrite Hl. destruct (Z.eqb_spec p 0); [done|]. rewrite (bind_ret _ _ _ _ _ (store_word_run s al p (free_list mp) Hp Hin)). done.
  - split; try done.
    + cbn. split; [done|]. split; [done|]. exists (free_list mp). rewrite lookup_insert_eq.
      split; [done|]. eapply chain_frame; [exact Hc|]. intros q Hq. apply lookup_insert_ne. set_solver.
    + by constructor.
    + by constructor.
Qed.

Lemma free_push s al mp p l :
  pool_ok s mp l -> p ∉ l -> p <> 0%Z -> in_block (memory s) p PTR_SIZE = true ->
  kvs_free p (s, al) = Ret (tt, (push_pool p mp s, al)) /\
  pool_ok (push_pool p mp s) (set_free_list p mp) (p :: l).
Proof.
  clear malloc_at.
  intros Hok Hpl Hp Hin. destruct (mempool_free_push s al mp p l Hok Hpl Hp Hin) as [E ?].
  split; [|done]. unfold kvs_free. destruct (Z.eqb_spec p 0); [done|]. mcbn.
  by rewrite (pool_live _ _ _ Hok), E.
Qed.

(** ** Creating the pool *)

Definition chunk (d size : Z) (i : nat) : Z := (d + Z.of_nat i * size)%Z.
Definition chunks (mp : mem_pool_t) : list Z :=
  chunk (data mp) (chunk_size mp) <$> seq 0 (Z.to_nat (chunk_count mp)).

Lemma in_block_intro m b len p n :
  blocks m !! b = Some len -> (b <= p)%Z -> (p + n <= b + len)%Z -> in_block m p n = true.
Proof.
  intros Hb H1 H2. unfold in_block. apply existsb_exists. exists (b, len).
  split; [by apply list_elem_of_In, elem_of_map_to_list|]. cbn. lia.
Qed.

Section threading.
Context (d size : Z).
Context (Hd : (0 < d)%Z) (Hsize : (PTR_SIZE <= size)%Z).

Lemma chunk_inj i j : chunk d size i = chunk d size j -> i = j.
Proof. unfold chunk, PTR_SIZE in *. intros H. apply Nat2Z.inj. nia. Qed.

Lemma chunk_pos i : chunk d size i <> 0%Z.
Proof. unfold chunk, PTR_SIZE in *. nia. Qed.

Lemma chunk_wrap i count :
  i < count -> (size * Z.of_nat count < 2 ^ 64)%Z ->
  (d + wrap 64 (Z.of_nat i * size))%Z = chunk d size i.
Proof. unfold chunk, wrap, PTR_SIZE in *. intros Hi Hc. rewrite Z.mod_small; [done|nia]. Qed.

Lemma chunk_in_block m count i :
  blocks m !! d = Some (size * Z.of_nat count)%Z -> i < count ->
  in_block m (chunk d size i) PTR_SIZE = true.
Proof. intros Hb Hi. eapply in_block_intro; [exact Hb|..]; unfold chunk, PTR_SIZE in *; nia. Qed.

(** The loop links the chunks [i .. i+n) to their successors. *)
Lemma thread_chunks_run count n : forall i s al,
  blocks (memory s) !! d = Some (size * Z.of_nat count)%Z ->
  i + n < count -> (size * Z.of_nat count < 2 ^ 64)%Z ->
  exists w, thread_chunks n (Z.of_nat i) d size (s, al)
      = Ret (tt, (set_memory (mk_mem (blocks (memory s)) w) s, al)) /\
    (forall j, i <= j < i + n -> w !! chunk d size j = Some (chunk d size (S j))) /\
    (forall q, (forall j, i <= j < i + n -> q <> chunk d size j) -> w !! q = words (memory s) !! q).
Proof.
  induction n as [|n IH]; intros i s al Hb Hi Hc; cbn [thread_chunks].
  - exists (words (memory s)). split; [by destruct s as [[]]|]. split; [lia|done].
  - rewrite (chunk_wrap i count) by lia.
    replace (Z.of_nat i + 1)%Z with (Z.of_nat (S i)) by lia. rewrite (chunk_wrap (S i) count) by lia.
    rewrite (bind_ret _ _ _ _ _ (store_word_run s al (chunk d size i) (chunk d size (S i))
      (chunk_pos i) (chunk_in_block _ count i Hb ltac:(lia)))).
    edestruct (IH (S i)) as (w & -> & H1 & H2); [exact Hb|lia|done|].
    exists w. split; [done|]. cbn in H2. split.
    + intros j Hj. destruct (decide (j = i)) as [->|].
      * rewrite H2 by (intros k Hk E; apply chunk_inj in E; lia). apply lookup_insert_eq.
      * apply H1. lia.
    + intros q Hq. rewrite H2 by (intros k Hk; apply Hq; lia). apply lookup_insert_ne.
      intros E. by apply (Hq i); [lia|].
Qed.

Lemma chain_seq w n : forall i,
  (forall j, i <= j < i + n -> w !! chunk d size j = Some (chunk d size (S j))) ->
  w !! chunk d size (i + n) = Some 0%Z ->
  chain w (chunk d size i) (chunk d size <$> seq i (S n)).
Proof.
  induction n as [|n IH]; intros i H1 H2.
  - cbn. split; [done|]. split; [apply chunk_pos|]. exists 0%Z. by rewrite Nat.add_0_r in H2.
  - rewrite <- cons_seq, fmap_cons. cbn [chain]. split; [done|]. split; [apply chunk_pos|].
    exists (chunk d size (S i)). split; [apply H1; lia|]. apply IH.
    + intros j Hj. apply H1. lia.
    + by replace (S i + n) with (i + S n) by lia.
Qed.
End threading.

(** What the C library promises: an address is not NULL. *)
Context (malloc_pos : forall bl n p, malloc_at bl n = Some p -> (0 < p)%Z).

Lemma kvs_mempool_create_spec s al size count mp0 d :
  (0 < size <= 2 ^ 64 - 8)%Z -> (0 < count)%Z -> (align_up size PTR_SIZE * count < 2 ^ 64)%Z ->
  malloc_at (blocks (memory s)) MEM_POOL_T_SIZE = Some mp0 ->
  malloc_at (<[mp0 := MEM_POOL_T_SIZE]> (blocks (memory s))) (align_up size PTR_SIZE * count)
    = Some d ->
  exists mp s', kvs_mempool_create size count (s, al) = Ret (PLive mp, (s', al)) /\
    data mp = d /\ chunk_size mp = align_up size PTR_SIZE /\ chunk_count mp = count /\
    blocks (memory s') = <[d := (align_up size PTR_SIZE * count)%Z]>
      (<[mp0 := MEM_POOL_T_SIZE]> (blocks (memory s))) /\
    (forall q, (q < d \/ d + align_up size PTR_SIZE * count <= q)%Z -> words (memory s) !! q = None ->
               words (memory s') !! q = None) /\
    pool_ok (set_pool (PLive mp) s') mp (chunks mp).
Proof.
  intros Hs Hc Hw H1 H2. unfold kvs_mempool_create.
  pose proof (align_up_bounds size Hs) as [_ Hal]. set (sz := align_up size PTR_SIZE) in *.
  pose proof (malloc_pos _ _ _ H1) as Hp1. pose proof (malloc_pos _ _ _ H2) as Hp2.
  destruct (Z.eqb_spec size 0); [lia|]. destruct (Z.eqb_spec count 0); [lia|]. cbn [orb].
  unfold malloc. mcbn. rewrite H1. mcbn. destruct (Z.eqb_spec mp0 0); [lia|]. mcbn.
  assert (Hwr : wrap 64 (sz * count) = (sz * count)%Z)
    by (unfold wrap, PTR_SIZE in *; apply Z.mod_small; nia).
  rewrite Hwr. cbn [memory set_memory blocks]. rewrite H2. mcbn. destruct (Z.eqb_spec d 0); [lia|].
  set (s1 := set_memory _ _).
  assert (Hb : blocks (memory s1) !! d = Some (sz * Z.of_nat (Z.to_nat count))%Z)
    by (rewrite Z2Nat.id by lia; apply lookup_insert_eq).
  destruct (thread_chunks_run d sz Hp2 Hal (Z.to_nat count) (Z.to_nat (count - 1)) 0 s1 al Hb
    ltac:(lia) ltac:(lia)) as (w & E & Hw1 & Hw2).
  rewrite (bind_ret _ _ _ _ _ E).
  replace (count - 1)%Z with (Z.of_nat (Z.to_nat (count - 1))) by lia.
  rewrite (chunk_wrap d sz Hal _ (Z.to_nat count)) by lia.
  rewrite (bind_ret _ _ _ _ _ (store_word_run (set_memory (mk_mem (blocks (memory s1)) w) s1) al
    (chunk d sz (Z.to_nat (count - 1))) 0
    (chunk_pos d sz Hp2 Hal _) (chunk_in_block d sz Hal _ (Z.to_nat count) (Z.to_nat (count - 1)) Hb ltac:(lia)))).
  eexists _, _. split; [reflexivity|]. cbn [data chunk_size chunk_count].
  split; [done|]. split; [done|]. split; [done|]. split; [done|]. split.
  { intros q Hq Hw0. cbn [memory set_memory words].
    assert (Hout : forall j, j < Z.to_nat count -> q <> chunk d sz j)
      by (intros j Hj; unfold chunk, PTR_SIZE in *; nia).
    rewrite lookup_insert_ne by (intros <-; by apply (Hout (Z.to_nat (count - 1))); [lia|]).
    rewrite Hw2 by (intros j Hj; apply Hout; lia).
    apply map_lookup_filter_None_2. left. by apply map_lookup_filter_None_2; left. }
  unfold chunks. cbn [data chunk_size chunk_count].
  split; cbn [global_pool set_pool set_memory memory words blocks initialized free_list]; try done.
  - replace (Z.to_nat count) with (S (Z.to_nat (count - 1))) by lia.
    replace d with (chunk d sz 0) at 2 by (unfold chunk; lia). apply chain_seq; [done|done| |].
    + intros j Hj. rewrite lookup_insert_ne; [by apply Hw1|].
      intros Eq. apply chunk_inj in Eq; [lia|done].
    + apply lookup_insert_eq.
  - apply NoDup_fmap_2_strong; [|apply NoDup_seq]. intros i j _ _ Eq. by apply chunk_inj in Eq.
  - apply Forall_fmap, list.Forall_forall. intros i Hi. apply elem_of_seq in Hi.
    eapply (chunk_in_block d sz Hal _ (Z.to_nat count)); [exact Hb|lia].
Qed.

(** ** Clients of the allocator *)

(** A client keeps the pointers it holds: it asks for memory, gives the [i]-th pointer
    back, or writes its own data over the first word of that block. *)
Inductive request := Take (size : Z) | Give (i : nat) | Fill (i : nat) (v : Z).

Definition serve (r : request) (held : list Z) : hp (list Z) :=
  match r with
  | Take size => p ← kvs_malloc size; mret (p :: held)
  | Give i =>
      match held !! i with
      | None => mret held
      | Some p => kvs_free p ;; mret (take i held ++ drop (S i) held)
      end
  | Fill i v =>
      match held !! i with
      | None => mret held
      | Some p => store_word p v ;; mret held
      end
  end.

Fixpoint serve_all (rs : list request) (held : list Z) : hp (list Z) :=
  match rs with
  | [] => mret held
  | r :: rs => held ← serve r held; serve_all rs held
  end.

(** The requests are small and at most [n] blocks are held at a time. *)
Fixpoint fits (n held : nat) (rs : list request) : bool :=
  match rs with
  | [] => true
  | Take size :: rs => (size <=? POOL_CHUNK_SIZE)%Z && bool_decide (held < n) && fits n (S held) rs
  | Give i :: rs => fits n (if decide (i < held) then held - 1 else held) rs
  | Fill _ _ :: rs => fits n held rs
  end.

(** The held and the free chunks together are the chunks [cs]. *)
Definition owns (cs : list Z) (s : heap_st) (held : list Z) : Prop :=
  NoDup cs /\ Forall (fun p => p <> 0%Z /\ in_block (memory s) p PTR_SIZE = true) cs /\
  exists mp free, pool_ok s mp free /\ held ++ free ≡ₚ cs.

Lemma owns_held cs s held p : owns cs s held -> p ∈ held -> p ∈ cs.
Proof. intros (_ & _ & mp & free & _ & Hp) Hin. rewrite <- Hp. set_solver. Qed.

Lemma serve_take cs s al held size :
  owns cs s held -> (size <= POOL_CHUNK_SIZE)%Z -> length held < length cs ->
  exists s' p, serve (Take size) held (s, al) = Ret (p :: held, (s', al)) /\ owns cs s' (p :: held).
Proof.
  intros (Hnd & Hcs & mp & free & Hok & Hp) Hs Hl.
  assert (Hlen : length held + length free = length cs)
    by (apply Permutation_length in Hp; by rewrite length_app in Hp).
  destruct free as [|p free]; [cbn in Hlen; lia|].
  destruct (alloc_pop s al mp p free Hok) as (nxt & E & Hok').
  exists (pop_pool nxt mp s), p. split.
  - unfold serve, kvs_malloc. destruct (Z.leb_spec size POOL_CHUNK_SIZE); [|lia].
    rewrite bind_bind, (bind_ret _ _ _ _ _ E).
    assert (p <> 0%Z) by (destruct Hok as [_ _ (_ & ? & _) _ _]; done).
    by destruct (Z.eqb_spec p 0).
  - split; [done|]. split; [done|]. exists (set_free_list nxt mp), free. split; [done|].
    rewrite <- Hp. solve_Permutation.
Qed.

Lemma serve_give cs s al held i :
  owns cs s held ->
  exists s' held', serve (Give i) held (s, al) = Ret (held', (s', al)) /\ owns cs s' held' /\
    length held' = if decide (i < length held) then length held - 1 else length held.
Proof.
  intros Ho. cbn [serve]. destruct (held !! i) as [p|] eqn:Hi.
  - pose proof (owns_held _ _ _ p Ho ltac:(by eapply list_elem_of_lookup_2)) as Hin.
    destruct Ho as (Hnd & Hcs & mp & free & Hok & Hp).
    pose proof Hcs as Hcs'. rewrite list.Forall_forall in Hcs'.
    destruct (Hcs' p Hin) as [Hp0 Hb].
    pose proof (take_drop_middle held i p Hi) as Hsplit.
    assert (Hnd' : NoDup (held ++ free)) by (eapply NoDup_Permutation_proper; [exact Hp|done]).
    assert (Hpf : p ∉ free).
    { intros Hf. apply list.NoDup_app in Hnd' as (_ & Hd & _). apply (Hd p); [|done].
      by eapply list_elem_of_lookup_2. }
    destruct (free_push s al mp p free Hok Hpf Hp0 Hb) as [E Hok'].
    exists (push_pool p mp s), (take i held ++ drop (S i) held).
    rewrite (bind_ret _ _ _ _ _ E). split; [done|]. split.
    + split; [done|]. split; [done|]. exists (set_free_list p mp), (p :: free). split; [done|].
      rewrite <- Hp. rewrite <- Hsplit at 3. solve_Permutation.
    + apply lookup_lt_Some in Hi. rewrite decide_True by done.
      rewrite length_app, length_take, length_drop. lia.
  - exists s, held. split; [done|]. split; [done|]. apply lookup_ge_None in Hi.
    by rewrite decide_False by lia.
Qed.

Lemma serve_fill cs s al held i v :
  owns cs s held ->
  exists s', serve (Fill i v) held (s, al) = Ret (held, (s', al)) /\ owns cs s' held.
Proof.
  intros Ho. cbn [serve]. destruct (held !! i) as [p|] eqn:Hi; [|by exists s].
  pose proof (list_elem_of_lookup_2 _ _ _ Hi) as Hh.
  pose proof (owns_held _ _ _ p Ho Hh) as Hin.
  destruct Ho as (Hnd & Hcs & mp & free & [H1 H2 H3 H4 H5] & Hp).
  pose proof Hcs as Hcs'. rewrite list.Forall_forall in Hcs'.
  destruct (Hcs' p Hin) as [Hp0 Hb].
  eexists. rewrite (bind_ret _ _ _ _ _ (store_word_run s al p v Hp0 Hb)). split; [done|].
  split; [done|]. split; [done|]. exists mp, free. split; [|done].
  split; try done. cbn. eapply chain_frame; [exact H3|]. intros q Hq. apply lookup_insert_ne.
  intros ->. assert (Hnd' : NoDup (held ++ free)) by (eapply NoDup_Permutation_proper; [exact Hp|done]).
  apply list.NoDup_app in Hnd' as (_ & Hd & _). by apply (Hd q).
Qed.

Lemma serve_all_spec cs rs : forall s al held,
  owns cs s held -> fits (length cs) (length held) rs = true ->
  exists s' held', serve_all rs held (s, al) = Ret (held', (s', al)) /\ owns cs s' held'.
Proof.
  induction rs as [|r rs IH]; intros s al held Ho Hf; cbn [serve_all]; [by exists s, held|].
  destruct r as [size|i|i v]; cbn [fits] in Hf.
  - apply andb_true_iff in Hf as [Hf Hrest]. apply andb_true_iff in Hf as [Hs Hl].
    apply bool_decide_eq_true in Hl.
    destruct (serve_take cs s al held size Ho ltac:(lia) Hl) as (s' & p & E & Ho').
    rewrite (bind_ret _ _ _ _ _ E). by apply IH.
  - destruct (serve_give cs s al held i Ho) as (s' & held' & E & Ho' & Hl).
    rewrite (bind_ret _ _ _ _ _ E). apply IH; [done|]. by rewrite Hl.
  - destruct (serve_fill cs s al held i v Ho) as (s' & E & Ho').
    rewrite (bind_ret _ _ _ _ _ E). by apply IH.
Qed.

(** ** Properties *)

(** C13: on the pool [init_kvengine] creates, clients that hold at most as many
    blocks as there are chunks and ask for at most a chunk each are always served; the
    blocks they hold at any time are different chunks of the data area, so they do not
    overlap, whatever the clients write into them. *)
Theorem pool_serves_disjoint_chunks s al count mp0 d rs :
  (0 < count)%Z -> (POOL_CHUNK_SIZE * count < 2 ^ 64)%Z ->
  malloc_at (blocks (memory s)) MEM_POOL_T_SIZE = Some mp0 ->
  malloc_at (<[mp0 := MEM_POOL_T_SIZE]> (blocks (memory s))) (POOL_CHUNK_SIZE * count) = Some d ->
  fits (Z.to_nat count) 0 rs = true ->
  exists mp s1 s' held,
    kvs_mempool_create POOL_CHUNK_SIZE count (s, al) = Ret (PLive mp, (s1, al)) /\
    serve_all rs [] (set_pool (PLive mp) s1, al) = Ret (held, (s', al)) /\
    NoDup held /\
    Forall (fun p => exists i : nat, (Z.of_nat i < count)%Z /\
                       p = (d + Z.of_nat i * POOL_CHUNK_SIZE)%Z) held.
Proof.
  intros Hc Hw H1 H2 Hf.
  destruct (kvs_mempool_create_spec s al POOL_CHUNK_SIZE count mp0 d ltac:(by unfold POOL_CHUNK_SIZE)
    Hc Hw H1 H2) as (mp & s1 & E & Hd & Hcs & Hcc & _ & _ & Hok).
  change (align_up POOL_CHUNK_SIZE PTR_SIZE) with POOL_CHUNK_SIZE in *.
  assert (Ho : owns (chunks mp) (set_pool (PLive mp) s1) []).
  { split; [apply (pool_nodup _ _ _ Hok)|]. split.
    - pose proof (malloc_pos _ _ _ H2). pose proof (pool_block _ _ _ Hok) as Hblk.
      rewrite list.Forall_forall in *. intros p Hp. split; [|by apply Hblk].
      unfold chunks in Hp. apply list_elem_of_fmap in Hp as (i & -> & _).
      rewrite Hd, Hcs. by apply chunk_pos.
    - exists mp, (chunks mp). by split. }
  assert (Hlen : length (chunks mp) = Z.to_nat count)
    by (unfold chunks; by rewrite length_fmap, length_seq, Hcc).
  destruct (serve_all_spec (chunks mp) rs (set_pool (PLive mp) s1) al [] Ho)
    as (s' & held & Es & Ho'); [by rewrite Hlen|].
  exists mp, s1, s', held. split; [done|]. split; [done|].
  pose proof Ho' as (Hnd & _ & mp' & free & _ & Hp). split.
  - assert (Hnd' : NoDup (held ++ free)) by (eapply NoDup_Permutation_proper; [exact Hp|done]).
    by apply list.NoDup_app in Hnd' as (? & _).
  - apply list.Forall_forall. intros p Hin. apply (owns_held _ _ _ p Ho') in Hin.
    unfold chunks in Hin. apply list_elem_of_fmap in Hin as (i & -> & Hi).
    apply elem_of_seq in Hi. exists i. rewrite Hd, Hcs. split; [lia|done].
Qed.

(** When the pool is empty a small request is served by the C library, but its
    block is given back to the pool; the next request gets it even when it asks for more
    bytes than the block has. *)
Theorem pool_hands_out_short_block s al mp n m p :
  pool_ok s mp [] -> (PTR_SIZE <= n < m)%Z -> (m <= POOL_CHUNK_SIZE)%Z ->
  malloc_at (blocks (memory s)) n = Some p ->
  exists s', (q ← kvs_malloc n; kvs_free q ;; kvs_malloc m) (s, al) = Ret (p, (s', al)) /\
    blocks (memory s') !! p = Some n.
Proof.
  intros Hok Hn Hm Hp. pose proof (malloc_pos _ _ _ Hp) as Hpos.
  assert (E1 : kvs_malloc n (s, al) = malloc n (s, al)).
  { unfold kvs_malloc. destruct (Z.leb_spec n POOL_CHUNK_SIZE); [|lia].
    by rewrite (bind_ret _ _ _ _ _ (alloc_empty s al mp Hok)). }
  unfold malloc in E1. rewrite bind_get in E1. cbn [fst] in E1. rewrite Hp in E1. mcbn. rewrite bind_put in E1.
  cbn [fst snd] in E1. set (s1 := set_memory _ s) in E1.
  rewrite run_mret in E1. rewrite (bind_ret _ _ _ _ _ E1).
  assert (Hok1 : pool_ok s1 mp []) by (destruct Hok as [? ? ? ? ?]; by split).
  assert (Hb1 : blocks (memory s1) !! p = Some n) by apply lookup_insert_eq.
  assert (Hin : in_block (memory s1) p PTR_SIZE = true) by (eapply in_block_intro; [exact Hb1|lia|lia]).
  destruct (free_push s1 al mp p [] Hok1 ltac:(set_solver) ltac:(lia) Hin) as [E2 Hok2].
  rewrite (bind_ret _ _ _ _ _ E2).
  destruct (alloc_pop _ al _ p [] Hok2) as (nxt & E3 & _).
  unfold kvs_malloc. destruct (Z.leb_spec m POOL_CHUNK_SIZE); [|lia].
  rewrite (bind_ret _ _ _ _ _ E3). destruct (Z.eqb_spec p 0); [lia|].
  eexists. split; [reflexivity|]. exact Hb1.
Qed.

End allocator.

(** A C library that places every block after the last one, on a multiple of 16. *)
Definition libc_bump (bl : gmap Z Z) (n : Z) : option Z :=
  Some (16 * (1 + foldr Z.max 0 ((fun b => b.1 + b.2) <$> map_to_list bl) / 16))%Z.

Lemma libc_bump_pos bl n p : libc_bump bl n = Some p -> (0 < p)%Z.
Proof.
  unfold libc_bump. intros [= <-].
  assert (H : forall l, (0 <= foldr Z.max 0 l)%Z) by (induction l; cbn; lia).
  specialize (H ((fun b : Z * Z => b.1 + b.2)%Z <$> map_to_list bl)).
  pose proof (Z.div_pos _ 16 H). lia.
Qed.

Definition empty_heap : heap_st := mk_heap (mk_mem ∅ ∅) PNull.

Example pool_serves_disjoint_chunks_witness :
  exists mp s1 s' held,
    kvs_mempool_create libc_bump POOL_CHUNK_SIZE 3 (empty_heap, [])
      = Ret (PLive mp, (s1, [])) /\
    serve_all libc_bump [Take 10; Take 64; Fill 0 77; Give 1; Take 5; Take 1] []
      (set_pool (PLive mp) s1, []) = Ret (held, (s', [])) /\ NoDup held.
Proof.
  destruct (pool_serves_disjoint_chunks libc_bump libc_bump_pos empty_heap [] 3 16 64
    [Take 10; Take 64; Fill 0 77; Give 1; Take 5; Take 1] eq_refl eq_refl ltac:(vm_compute; reflexivity)
    ltac:(vm_compute; reflexivity) ltac:(vm_compute; reflexivity))
    as (mp & s1 & s' & held & E & Es & Hnd & _).
  exists mp, s1, s', held. auto.
Defined.

(** A pool of one chunk that is in use. *)
Definition drained : heap_st :=
  mk_heap (mk_mem {[16 := 40; 64 := 64]} {[64 := 0]})%Z (PLive (mk_pool 16 0 64 64 1 1)).

Example pool_hands_out_short_block_witness :
  exists s', (q ← kvs_malloc libc_bump 8; kvs_free q ;; kvs_malloc libc_bump 60) (drained, [])
    = Ret (144%Z, (s', [])) /\ blocks (memory s') !! 144%Z = Some 8%Z.
Proof.
  apply (pool_hands_out_short_block libc_bump libc_bump_pos drained []
    (mk_pool 16 0 64 64 1 1) 8 60 144).
  - split; try done. constructor.
  - by unfold PTR_SIZE.
  - by unfold POOL_CHUNK_SIZE.
  - vm_compute. reflexivity.
Defined.

End Mempool.
