(* ===== verification/PoolBench.v ===== *)
(** * The timing test of the memory pool ([src/test.c])

    [main] over the memory and the pool of [Mempool]; the clock and the messages are left
    out.  The loops take the number of rounds left. *)

From S2P Require Import Prelude Mempool.
Import Mempool.

Module PoolBench.

Definition TEST_COUNT : Z := 1000000.
Definition CHUNK_SIZE : Z := 4.
Definition BLOCK_COUNT : Z := 2000.

Definition slot (ptrs i : Z) : Z := (ptrs + PTR_SIZE * i)%Z.

Section bench.
Context (malloc_at : gmap Z Z -> Z -> option Z).

(** [ptrs[i] = alloc()], until the first NULL. *)
Fixpoint alloc_loop (alloc : hp Z) (n : nat) (ptrs i : Z) : hp unit :=
  match n with
  | O => mret tt
  | S n =>
      p ← alloc;
      store_word (slot ptrs i) p ;;
      q ← load_word (slot ptrs i);
      if (q =? 0)%Z then mret tt else alloc_loop alloc n ptrs (i + 1)
  end.

Fixpoint free_loop (free : Z -> hp unit) (n : nat) (ptrs i : Z) : hp unit :=
  match n with
  | O => mret tt
  | S n =>
      p ← load_word (slot ptrs i);
      free p ;;
      free_loop free n ptrs (i + 1)
  end.

Definition alloc_free_rounds (alloc : hp Z) (free : Z -> hp unit) (n : nat) (ptrs : Z) : hp unit :=
  alloc_loop alloc n ptrs 0 ;;
  free_loop free n ptrs 0.

Definition main : hp Z :=
  ptrs ← malloc malloc_at (TEST_COUNT * PTR_SIZE);
  if (ptrs =? 0)%Z then mret 1%Z else
  mp ← kvs_mempool_create malloc_at CHUNK_SIZE BLOCK_COUNT;
  match mp with
  | PNull => libc_free ptrs ;; mret 1%Z
  | _ =>
      modify (set_pool mp) ;;
      alloc_free_rounds kvs_mempool_alloc kvs_mempool_free (Z.to_nat TEST_COUNT) ptrs ;;
      alloc_free_rounds (malloc malloc_at CHUNK_SIZE) libc_free (Z.to_nat TEST_COUNT) ptrs ;;
      kvs_mempool_destory ;;
      libc_free ptrs ;;
      mret 0%Z
  end.

(** ** The state of the test: a pool with the free chunks [l], and the array beside it *)

Context (ptrs : Z) (cap : nat).

Abbreviation at_slot i := (slot ptrs (Z.of_nat i)).

Definition beside (p : Z) : Prop := p <> 0%Z /\ forall i, i < cap -> p <> at_slot i.

Record bench_ok (s : heap_st) (mp : mem_pool_t) (l : list Z) : Prop := {
  bench_pool : pool_ok s mp l;
  bench_array : (0 < ptrs)%Z /\ blocks (memory s) !! ptrs = Some (PTR_SIZE * Z.of_nat cap)%Z;
  bench_beside : Forall beside l
}.

Lemma slot_inj i j : at_slot i = at_slot j -> i = j.
Proof. unfold slot, PTR_SIZE. lia. Qed.

Lemma slot_next i : (Z.of_nat i + 1)%Z = Z.of_nat (S i).
Proof. lia. Qed.

Lemma slot_ok s mp l i : bench_ok s mp l -> i < cap ->
  at_slot i <> 0%Z /\ in_block (memory s) (at_slot i) PTR_SIZE = true.
Proof.
  intros [_ [Hp Hb] _] Hi. unfold slot, PTR_SIZE in *. split; [lia|].
  eapply in_block_intro; [exact Hb|lia..].
Qed.

Definition put_slot (i : nat) (v : Z) (s : heap_st) : heap_st :=
  set_memory (mk_mem (blocks (memory s)) (<[at_slot i := v]> (words (memory s)))) s.

(** Writing an element of the array leaves the pool as it is. *)
Lemma put_slot_run s mp l i v al : bench_ok s mp l -> i < cap ->
  store_word (at_slot i) v (s, al) = Ret (tt, (put_slot i v s, al)) /\
  bench_ok (put_slot i v s) mp l.
Proof.
  intros Hok Hi. destruct (slot_ok s mp l i Hok Hi) as [H0 Hb].
  split; [by apply store_word_run|]. destruct Hok as [[H1 H2 H3 H4 H5] Ha Hbs].
  split; [|done|done]. split; [done|done| |done|done].
  eapply chain_frame; [exact H3|]. intros p Hp. cbn. apply lookup_insert_ne.
  rewrite list.Forall_forall in Hbs. intros <-. by apply (proj2 (Hbs _ Hp) i Hi).
Qed.

Lemma load_slot_run s mp l i v al : bench_ok s mp l -> i < cap ->
  words (memory s) !! at_slot i = Some v -> load_word (at_slot i) (s, al) = Ret (v, (s, al)).
Proof.
  intros Hok Hi Hw. destruct (slot_ok s mp l i Hok Hi) as [H0 Hb]. by apply load_word_run.
Qed.

Lemma load_slot_unset s mp l i al : bench_ok s mp l -> i < cap ->
  words (memory s) !! at_slot i = None -> load_word (at_slot i) (s, al) = Fault Indeterminate.
Proof.
  intros Hok Hi Hw. destruct (slot_ok s mp l i Hok Hi) as [H0 Hb].
  unfold load_word, check_word. mcbn. destruct (Z.eqb_spec (at_slot i) 0); [done|].
  rewrite Hb. mcbn. by rewrite Hw.
Qed.

(** ** The loops *)

Lemma in_block_blocks (m m' : mem) : blocks m = blocks m' -> in_block m = in_block m'.
Proof. unfold in_block. by intros ->. Qed.

(** What [n] rounds of the first loop write: the chunks, and NULL when they are used up. *)
Definition handed (n : nat) (l : list Z) : list Z :=
  if decide (n <= length l) then take n l else l ++ [0%Z].

Lemma handed_cons n p l : handed (S n) (p :: l) = p :: handed n l.
Proof. unfold handed. cbn [length take app]. repeat case_decide; try done; lia. Qed.

(** The words of the array from [i] hold [qs]. *)
Definition holds (s : heap_st) (i : nat) (qs : list Z) : Prop :=
  forall j q, qs !! j = Some q -> words (memory s) !! at_slot (i + j) = Some q.

Lemma holds_cons s i q qs :
  holds s i (q :: qs) <-> words (memory s) !! at_slot i = Some q /\ holds s (S i) qs.
Proof.
  split.
  - intros H. split.
    + rewrite <- (Nat.add_0_r i). by apply (H 0).
    + intros j r Hr. replace (S i + j) with (i + S j) by lia. by apply (H (S j)).
  - intros [H0 H] [|j] r Hr; cbn in Hr.
    + injection Hr as <-. by rewrite Nat.add_0_r.
    + replace (i + S j) with (S i + j) by lia. by apply H.
Qed.

Lemma alloc_loop_run al n : forall i l s mp,
  bench_ok s mp l -> i + n <= cap ->
  exists s' mp', alloc_loop kvs_mempool_alloc n ptrs (Z.of_nat i) (s, al) = Ret (tt, (s', al)) /\
    bench_ok s' mp' (drop n l) /\ blocks (memory s') = blocks (memory s) /\
    holds s' i (handed n l) /\
    forall j, j < i \/ i + length (handed n l) <= j ->
      words (memory s') !! at_slot j = words (memory s) !! at_slot j.
Proof.
  induction n as [|n IH]; intros i l s mp Hok Hi; cbn [alloc_loop].
  - exists s, mp. split; [done|]. split; [done|]. split; [done|]. split; [|done].
    intros j q Hq. unfold handed in Hq. rewrite decide_True in Hq by lia. done.
  - destruct l as [|p l].
    + (* the pool is used up *)
      rewrite (bind_ret _ _ _ _ _ (alloc_empty s al mp (bench_pool _ _ _ Hok))).
      destruct (put_slot_run s mp [] i 0 al Hok ltac:(lia)) as [E Hok'].
      rewrite (bind_ret _ _ _ _ _ E).
      rewrite (bind_ret _ _ _ _ _ (load_slot_run _ mp [] i 0 al Hok' ltac:(lia) (lookup_insert_eq _ _ _))).
      exists (put_slot i 0 s), mp. split; [done|]. split; [done|]. split; [done|].
      unfold handed. rewrite decide_False by (cbn; lia). split.
      * apply holds_cons. split; [apply lookup_insert_eq|]. by intros j q Hq.
      * intros j Hj. cbn in Hj. apply lookup_insert_ne. intros Heq%slot_inj. lia.
    + destruct (alloc_pop s al mp p l (bench_pool _ _ _ Hok)) as (nxt & E & Hpool).
      rewrite (bind_ret _ _ _ _ _ E). set (s1 := pop_pool nxt mp s) in *.
      pose proof (bench_beside _ _ _ Hok) as [[Hp0 Hpb] Hbs]%list.Forall_cons.
      assert (Hok1 : bench_ok s1 (set_free_list nxt mp) l) by (split; [done|apply Hok|done]).
      destruct (put_slot_run s1 _ l i p al Hok1 ltac:(lia)) as [E2 Hok2].
      rewrite (bind_ret _ _ _ _ _ E2).
      rewrite (bind_ret _ _ _ _ _ (load_slot_run _ _ l i p al Hok2 ltac:(lia) (lookup_insert_eq _ _ _))).
      destruct (Z.eqb_spec p 0); [done|]. rewrite slot_next.
      destruct (IH (S i) l _ _ Hok2 ltac:(lia)) as (s' & mp' & E3 & Hok' & Hb & Hh & Hrest).
      exists s', mp'. split; [done|]. split; [done|]. split; [by rewrite Hb|].
      rewrite handed_cons. split.
      * apply holds_cons. split; [|done]. rewrite Hrest by lia. apply lookup_insert_eq.
      * intros j Hj. cbn [length] in Hj. rewrite Hrest by lia.
        apply lookup_insert_ne. intros Heq%slot_inj. lia.
Qed.

(** Giving back the chunks that the array holds from [i] on; [n] rounds are left then. *)
Lemma free_loop_run al n qs : forall i l s mp,
  bench_ok s mp l -> i + length qs <= cap -> holds s i qs ->
  NoDup (qs ++ l) -> Forall beside qs ->
  Forall (fun p => in_block (memory s) p PTR_SIZE = true) qs ->
  exists s' mp',
    free_loop kvs_mempool_free (length qs + n) ptrs (Z.of_nat i) (s, al)
      = free_loop kvs_mempool_free n ptrs (Z.of_nat (i + length qs)) (s', al) /\
    bench_ok s' mp' (reverse qs ++ l) /\ blocks (memory s') = blocks (memory s) /\
    forall j, j < cap -> words (memory s') !! at_slot j = words (memory s) !! at_slot j.
Proof.
  induction qs as [|q qs IH]; intros i l s mp Hok Hi Hh Hnd Hbs Hin.
  - exists s, mp. rewrite Nat.add_0_r. done.
  - cbn [length Nat.add free_loop]. cbn [length] in Hi. apply holds_cons in Hh as [Hw Hh].
    apply list.Forall_cons in Hbs as [Hq Hbs]. apply list.Forall_cons in Hin as [Hqin Hin].
    cbn [app] in Hnd. apply list.NoDup_cons in Hnd as [Hql Hnd].
    rewrite (bind_ret _ _ _ _ _ (load_slot_run s mp l i q al Hok ltac:(lia) Hw)).
    destruct (mempool_free_push s al mp q l (bench_pool _ _ _ Hok) ltac:(set_solver) (proj1 Hq) Hqin)
      as [E Hpool].
    rewrite (bind_ret _ _ _ _ _ E). set (s1 := push_pool q mp s) in *.
    assert (Hframe : forall j, j < cap -> words (memory s1) !! at_slot j = words (memory s) !! at_slot j)
      by (intros j Hj; apply lookup_insert_ne; by apply (proj2 Hq)).
    assert (Hok1 : bench_ok s1 (set_free_list q mp) (q :: l)).
    { split; [done|apply (bench_array _ _ _ Hok)|]. constructor; [done|]. apply (bench_beside _ _ _ Hok). }
    rewrite slot_next.
    destruct (IH (S i) (q :: l) s1 _ Hok1 ltac:(lia)) as (s' & mp' & E2 & Hok2 & Hb & Hf).
    + intros j r Hr. assert (j < length qs) by (by eapply lookup_lt_Some).
      rewrite Hframe by lia. by apply Hh.
    + eapply NoDup_Permutation_proper; [|apply list.NoDup_cons; split; [exact Hql|exact Hnd]].
      solve_Permutation.
    + done.
    + exact Hin.
    + exists s', mp'. rewrite E2. split; [by replace (i + S (length qs)) with (S i + length qs) by lia|].
      split; [by rewrite reverse_cons, <- app_assoc|]. split; [by rewrite Hb|].
      intros j Hj. by rewrite Hf, Hframe.
Qed.

(** At the NULL that ended the first loop nothing is given back, and the next element was
    never written. *)
Lemma free_loop_unset al n s mp l i :
  bench_ok s mp l -> S i < cap ->
  words (memory s) !! at_slot i = Some 0%Z -> words (memory s) !! at_slot (S i) = None ->
  free_loop kvs_mempool_free (S (S n)) ptrs (Z.of_nat i) (s, al) = Fault Indeterminate.
Proof.
  intros Hok Hi H0 H1. cbn [free_loop].
  rewrite (bind_ret _ _ _ _ _ (load_slot_run s mp l i 0 al Hok ltac:(lia) H0)).
  assert (E : kvs_mempool_free 0 (s, al) = Ret (tt, (s, al)))
    by (unfold kvs_mempool_free; mcbn; by rewrite (pool_live _ _ _ (bench_pool _ _ _ Hok))).
  rewrite (bind_ret _ _ _ _ _ E), slot_next.
  by apply bind_fault, (load_slot_unset s mp l).
Qed.

(** The chunks of the pool are good arguments of the second loop. *)
Lemma chunks_held s mp l k :
  bench_ok s mp l ->
  NoDup (take k l ++ drop k l) /\ Forall beside (take k l) /\
  Forall (fun p => in_block (memory s) p PTR_SIZE = true) (take k l).
Proof.
  intros [[_ _ _ Hnd Hb] _ Hbs]. rewrite take_drop. split; [done|].
  split; by apply Forall_take.
Qed.

(** As long as the pool has the chunks, a round of allocations and releases leaves it with
    the same chunks and the memory of the process as it was. *)
Theorem rounds_within_pool s al mp l n :
  bench_ok s mp l -> n <= length l -> n <= cap ->
  exists s' mp', alloc_free_rounds kvs_mempool_alloc kvs_mempool_free n ptrs (s, al) = Ret (tt, (s', al)) /\
    pool_ok s' mp' (reverse (take n l) ++ drop n l) /\ blocks (memory s') = blocks (memory s).
Proof.
  intros Hok Hn Hcap. unfold alloc_free_rounds.
  destruct (alloc_loop_run al n 0 l s mp Hok Hcap) as (s1 & mp1 & E1 & Hok1 & Hb1 & Hh & _).
  change 0%Z with (Z.of_nat 0). rewrite (bind_ret _ _ _ _ _ E1).
  unfold handed in Hh. rewrite decide_True in Hh by done.
  destruct (chunks_held s mp l n Hok) as (Hnd & Hbs & Hin).
  assert (Hlen : length (take n l) = n) by (rewrite length_take; lia).
  destruct (free_loop_run al 0 (take n l) 0 (drop n l) s1 mp1 Hok1) as (s2 & mp2 & E2 & Hok2 & Hb2 & _);
    [lia|done|done|done|by rewrite (in_block_blocks _ _ Hb1)|].
  rewrite Hlen, Nat.add_0_r in E2. exists s2, mp2. split; [exact E2|].
  split; [apply Hok2|]. by rewrite Hb2.
Qed.

(** With fewer chunks than rounds the second loop reads an element never written. *)
Lemma rounds_beyond_pool s al mp l n :
  bench_ok s mp l -> S (length l) < n -> n <= cap ->
  words (memory s) !! at_slot (S (length l)) = None ->
  alloc_free_rounds kvs_mempool_alloc kvs_mempool_free n ptrs (s, al) = Fault Indeterminate.
Proof.
  intros Hok Hn Hcap Hw. unfold alloc_free_rounds.
  destruct (alloc_loop_run al n 0 l s mp Hok Hcap) as (s1 & mp1 & E1 & Hok1 & Hb1 & Hh & Hrest).
  change 0%Z with (Z.of_nat 0). rewrite (bind_ret _ _ _ _ _ E1).
  unfold handed in Hh, Hrest. rewrite decide_False in Hh, Hrest by lia.
  rewrite length_app in Hrest. cbn [length] in Hrest.
  assert (Hh1 : holds s1 0 l) by (intros j q Hq; apply Hh; by apply lookup_app_l_Some).
  pose proof (Hh (length l) 0%Z ltac:(by apply list_lookup_middle)) as H0. cbn [Nat.add] in H0.
  destruct (chunks_held s mp l (length l) Hok) as (Hnd & Hbs & Hin). rewrite firstn_all in *.
  rewrite drop_all in Hnd. rewrite (drop_ge l n) in Hok1 by lia.
  destruct (free_loop_run al (n - length l) l 0 [] s1 mp1 Hok1) as (s2 & mp2 & E2 & Hok2 & _ & Hf);
    [lia|done|done|done|by rewrite (in_block_blocks _ _ Hb1)|].
  replace (length l + (n - length l)) with n in E2 by lia. rewrite E2. cbn [Nat.add].
  replace (n - length l) with (S (S (n - length l - 2))) by lia.
  eapply free_loop_unset; [exact Hok2|lia|by rewrite Hf by lia|].
  rewrite Hf, Hrest by lia. exact Hw.
Qed.

End bench.
(** ** The program *)

Section program.
Context (malloc_at : gmap Z Z -> Z -> option Z).
Context (malloc_pos : forall bl n p, malloc_at bl n = Some p -> (0 < p)%Z).

Definition ARRAY_SIZE : Z := (TEST_COUNT * PTR_SIZE)%Z.
Definition POOL_SIZE : Z := (align_up CHUNK_SIZE PTR_SIZE * BLOCK_COUNT)%Z.

(** The C library has memory for the array, the pool and its chunks, and gives the chunks
    and the array apart. *)
Record grants (bl : gmap Z Z) (a b d : Z) : Prop := {
  grant_array : malloc_at bl ARRAY_SIZE = Some a;
  grant_pool : malloc_at (<[a := ARRAY_SIZE]> bl) MEM_POOL_T_SIZE = Some b;
  grant_data : malloc_at (<[b := MEM_POOL_T_SIZE]> (<[a := ARRAY_SIZE]> bl)) POOL_SIZE = Some d;
  grant_apart : a <> b /\ (d + POOL_SIZE <= a \/ a + ARRAY_SIZE <= d)%Z
}.

Lemma malloc_run s al n p : malloc_at (blocks (memory s)) n = Some p ->
  malloc malloc_at n (s, al)
  = Ret (p, (set_memory (mk_mem (<[p := n]> (blocks (memory s)))
      (filter (fun w => ~ (p <= w.1 < p + n)%Z) (words (memory s)))) s, al)).
Proof. intros H. unfold malloc. mcbn. rewrite H. by mcbn. Qed.

(** The array and the new pool are what the loops need, and the array holds nothing. *)
Lemma bench_start s al a b d :
  grants (blocks (memory s)) a b d ->
  exists s1 s2 mp,
    malloc malloc_at ARRAY_SIZE (s, al) = Ret (a, (s1, al)) /\
    kvs_mempool_create malloc_at CHUNK_SIZE BLOCK_COUNT (s1, al) = Ret (PLive mp, (s2, al)) /\
    bench_ok a (Z.to_nat TEST_COUNT) (set_pool (PLive mp) s2) mp (chunks mp) /\
    length (chunks mp) = Z.to_nat BLOCK_COUNT /\
    forall i, i < Z.to_nat TEST_COUNT -> words (memory s2) !! slot a (Z.of_nat i) = None.
Proof.
  intros [Ga Gb Gd [Hab Hd]]. pose proof (malloc_pos _ _ _ Ga) as Ha.
  set (s1 := set_memory (mk_mem (<[a := ARRAY_SIZE]> (blocks (memory s)))
    (filter (fun w => ~ (a <= w.1 < a + ARRAY_SIZE)%Z) (words (memory s)))) s).
  destruct (kvs_mempool_create_spec malloc_at malloc_pos s1 al CHUNK_SIZE BLOCK_COUNT b d)
    as (mp & s2 & E & Hdata & Hsize & Hcount & Hb & Hw & Hpool);
    [by unfold CHUNK_SIZE|done|done|exact Gb|exact Gd|].
  fold POOL_SIZE in Hb, Hw. exists s1, s2, mp. split; [by apply malloc_run|]. split; [exact E|].
  assert (Hin : forall i, i < Z.to_nat TEST_COUNT ->
    (a <= slot a (Z.of_nat i) /\ slot a (Z.of_nat i) + PTR_SIZE <= a + ARRAY_SIZE)%Z)
    by (unfold slot, ARRAY_SIZE, PTR_SIZE; lia).
  split; [|split].
  - split; [exact Hpool| |].
    + assert (d <> a) by (intros ->; assert (0 < POOL_SIZE /\ 0 < ARRAY_SIZE)%Z by done; lia).
      split; [done|]. cbn [memory set_pool]. rewrite Hb, !lookup_insert_ne by done.
      cbn [memory set_memory s1 blocks]. by rewrite lookup_insert_eq, Z2Nat.id, Z.mul_comm.
    + unfold chunks. apply Forall_fmap, list.Forall_forall. intros k Hk. apply elem_of_seq in Hk.
      rewrite Hdata, Hsize. rewrite Hcount in Hk. pose proof (malloc_pos _ _ _ Gd). split.
      * by apply chunk_pos.
      * intros i Hi Heq. specialize (Hin i Hi). rewrite <- Heq in Hin.
        unfold chunk in Hin. unfold POOL_SIZE, BLOCK_COUNT, PTR_SIZE in *.
        change (align_up CHUNK_SIZE 8) with 8%Z in *. lia.
  - unfold chunks. by rewrite length_fmap, length_seq, Hcount.
  - intros i Hi. specialize (Hin i Hi). apply Hw; [unfold PTR_SIZE in *; lia|].
    apply map_lookup_filter_None_2. right. intros x _ Hx. apply Hx. cbn. unfold PTR_SIZE in *; lia.
Qed.

(** The pool has 2000 chunks for a million allocations: the first loop stops at the first
    NULL, the second runs on and gives the pool an element of the array that was never
    written, so the program does not reach its second measurement. *)
Theorem main_frees_unset_pointers s al a b d :
  grants (blocks (memory s)) a b d -> main malloc_at (s, al) = Fault Indeterminate.
Proof.
  intros G. pose proof (malloc_pos _ _ _ (grant_array _ _ _ _ G)) as Ha.
  destruct (bench_start s al a b d G) as (s1 & s2 & mp & E1 & E2 & Hok & Hlen & Hunset).
  unfold main. fold ARRAY_SIZE. rewrite (bind_ret _ _ _ _ _ E1).
  destruct (Z.eqb_spec a 0); [lia|]. rewrite (bind_ret _ _ _ _ _ E2), bind_modify. cbn [fst snd].
  apply bind_fault. eapply rounds_beyond_pool; [exact Hok|rewrite Hlen|done|rewrite Hlen].
  - unfold BLOCK_COUNT, TEST_COUNT. lia.
  - apply Hunset. unfold BLOCK_COUNT, TEST_COUNT. lia.
Qed.

(** Without memory for the pool the program gives the array back and returns 1. *)
Theorem main_without_pool s al a :
  malloc_at (blocks (memory s)) ARRAY_SIZE = Some a -> blocks (memory s) !! a = None ->
  malloc_at (<[a := ARRAY_SIZE]> (blocks (memory s))) MEM_POOL_T_SIZE = None ->
  exists s', main malloc_at (s, al) = Ret (1%Z, (s', al)) /\ blocks (memory s') = blocks (memory s).
Proof.
  intros Ga Hfree Gb. pose proof (malloc_pos _ _ _ Ga) as Ha.
  unfold main. fold ARRAY_SIZE. rewrite (bind_ret _ _ _ _ _ (malloc_run s al _ a Ga)).
  destruct (Z.eqb_spec a 0); [lia|]. unfold kvs_mempool_create. cbn [Z.eqb CHUNK_SIZE BLOCK_COUNT orb].
  unfold malloc. mcbn. cbn [memory set_memory blocks]. rewrite Gb. mcbn. cbn [Z.eqb]. mcbn.
  unfold libc_free. destruct (Z.eqb_spec a 0); [lia|]. mcbn. cbn [memory set_memory blocks].
  rewrite lookup_insert_eq. mcbn. eexists. split; [reflexivity|]. cbn. by apply delete_insert_id.
Qed.

End program.

Example main_frees_unset_pointers_witness : main libc_bump (empty_heap, []) = Fault Indeterminate.
Proof.
  apply (main_frees_unset_pointers libc_bump libc_bump_pos empty_heap [] 16 8000032 8000080).
  split; try by vm_compute. split; [done|]. right. by vm_compute.
Defined.

End PoolBench.
