(* ===== verification/Slab.v ===== *)
(** * The bitmap pool ([src/kv_mempool_slab.c])

    One bit per chunk says whether it is in use.  [bitmap_pool_alloc] takes the first
    free chunk, [bitmap_pool_free] clears the bit of the chunk an address lies in. *)

From S2P Require Import Prelude Mempool.

Module Slab.
Import Mempool.

Record bitmap_pool_t := mk_bpool {
  bitmap : list Z;         (** bytes *)
  bdata : Z;               (** the address of the data area *)
  bchunk_size : Z;
  bchunk_count : Z
}.

Abbreviation bp A := (M bitmap_pool_t A).

(** [d]: the address of the data area, if the allocation succeeds.  The allocations of
    the struct, the bitmap and the data consume one outcome each. *)
Definition bitmap_pool_create {S} (size count d : Z) : M S (option bitmap_pool_t) :=
  let size := align_up size PTR_SIZE in
  ok ← malloc_ok;
  if negb ok then mret None else
  let bitmap_bytes := (wrap 64 (count + 7) / 8)%Z in
  okb ← malloc_ok;
  okd ← malloc_ok;
  if negb okb || negb okd then mret None else
  mret (Some (mk_bpool (replicate (Z.to_nat bitmap_bytes) 0%Z) d size count)).

Definition read_byte (i : Z) : bp Z :=
  s ← get;
  match bitmap s !! Z.to_nat i with
  | None => raise OutOfBounds
  | Some b => mret b
  end.

Definition write_byte (i b : Z) : bp unit :=
  s ← get;
  if decide (Z.to_nat i < length (bitmap s)) then
    put (mk_bpool (<[Z.to_nat i := b]> (bitmap s)) (bdata s) (bchunk_size s) (bchunk_count s))
  else raise OutOfBounds.

(** [n]: the chunks left to look at, [i]: the current one.  0 is NULL. *)
Fixpoint alloc_from (n : nat) (i : Z) : bp Z :=
  match n with
  | O => mret 0%Z
  | S n =>
      let byte := (i / 8)%Z in let bit := (i mod 8)%Z in
      b ← read_byte byte;
      if (Z.land b (Z.shiftl 1 bit) =? 0)%Z then
        write_byte byte (wrap 8 (Z.lor b (Z.shiftl 1 bit))) ;;
        s ← get; mret (bdata s + wrap 64 (i * bchunk_size s))%Z
      else alloc_from n (i + 1)
  end.

Definition bitmap_pool_alloc : bp Z :=
  s ← get; alloc_from (Z.to_nat (bchunk_count s)) 0.

(** The difference of the addresses becomes a [size_t] in the division. *)
Definition bitmap_pool_free (p : Z) : bp unit :=
  if (p =? 0)%Z then mret tt else
  s ← get;
  if (bchunk_size s =? 0)%Z then raise DivByZero else
  let idx := (wrap 64 (p - bdata s) / bchunk_size s)%Z in
  if (bchunk_count s <=? idx)%Z then mret tt else
  let byte := (idx / 8)%Z in let bit := (idx mod 8)%Z in
  b ← read_byte byte;
  write_byte byte (wrap 8 (Z.land b (Z.lnot (Z.shiftl 1 bit)))).

(** What the pointer to a pool points at.  [destroy] frees the bitmap, the data and the pool
    itself; after that the pointer dangles. *)
Inductive bitmap_pool_ptr := BpNull | BpLive (pool : bitmap_pool_t) | BpFreed.

Definition bitmap_pool_destroy : M bitmap_pool_ptr unit :=
  p ← get;
  match p with
  | BpNull => mret tt
  | BpLive _ => put BpFreed
  | BpFreed => raise BadPointer
  end.

(** ** The set of chunks in use *)

Definition bit_of (l : list Z) (i : nat) : bool :=
  match l !! (i / 8) with
  | None => false
  | Some b => Z.testbit b (Z.of_nat (i mod 8))
  end.

(** The least free chunk among [i .. i+n). *)
Fixpoint first_free (l : list Z) (n i : nat) : option nat :=
  match n with
  | O => None
  | S n => if bit_of l i then first_free l n (S i) else Some i
  end.

(** The pool is in shape: bytes, a bit for every chunk, an area that fits. *)
Record slab_ok (s : bitmap_pool_t) (n : nat) : Prop := {
  slab_count : bchunk_count s = Z.of_nat n;
  slab_size : (0 < bchunk_size s)%Z;
  slab_data : (0 < bdata s)%Z;
  slab_fits : (bdata s + Z.of_nat n * bchunk_size s < 2 ^ 64)%Z;
  slab_bits : n <= 8 * length (bitmap s);
  slab_bytes : Forall (fun b => 0 <= b < 256)%Z (bitmap s)
}.

Definition set_bit (l : list Z) (i : nat) (v : bool) : list Z :=
  match l !! (i / 8) with
  | None => l
  | Some b =>
      <[i / 8 := if v then Z.lor b (Z.shiftl 1 (Z.of_nat (i mod 8)))
                 else Z.land b (Z.lnot (Z.shiftl 1 (Z.of_nat (i mod 8))))]> l
  end.

Lemma mod8 i : (0 <= Z.of_nat (i mod 8) < 8)%Z.
Proof. pose proof (Nat.mod_upper_bound i 8). lia. Qed.

Lemma testbit_one i j : (0 <= i)%Z -> (0 <= j)%Z -> Z.testbit (Z.shiftl 1 i) j = bool_decide (i = j).
Proof.
  intros Hi Hj. rewrite Z.shiftl_1_l, Z.pow2_bits_eqb by done.
  destruct (Z.eqb_spec i j); symmetry; [by apply bool_decide_eq_true|by apply bool_decide_eq_false].
Qed.

Lemma land_bit b i : (0 <= i)%Z -> (Z.land b (Z.shiftl 1 i) =? 0)%Z = negb (Z.testbit b i).
Proof.
  intros Hi. destruct (Z.testbit b i) eqn:E; cbn.
  - apply Z.eqb_neq. intros H. apply (f_equal (fun x => Z.testbit x i)) in H.
    rewrite Z.land_spec, E, testbit_one, bool_decide_eq_true_2, Z.bits_0 in H by done. done.
  - apply Z.eqb_eq, Z.bits_inj'. intros j Hj. rewrite Z.land_spec, testbit_one, Z.bits_0 by done.
    case_bool_decide; subst; rewrite ?E; by rewrite ?andb_false_r.
Qed.

Lemma bit_of_set l i v j :
  i / 8 < length l -> bit_of (set_bit l i v) j = if decide (i = j) then v else bit_of l j.
Proof.
  intros Hi. unfold bit_of, set_bit. apply lookup_lt_is_Some in Hi as [b Hb]. rewrite Hb.
  pose proof (Nat.div_mod_eq i 8). pose proof (Nat.div_mod_eq j 8).
  destruct (decide (i / 8 = j / 8)) as [E|E].
  - rewrite <- E. rewrite list_lookup_insert_eq by (by eapply lookup_lt_Some). rewrite Hb.
    destruct v; rewrite ?Z.lor_spec, ?Z.land_spec, ?Z.lnot_spec, testbit_one by lia;
      destruct (decide (i = j)) as [->|Hij];
      (case_bool_decide; [|try lia]); rewrite ?orb_true_r, ?andb_false_r, ?orb_false_r, ?andb_true_r;
      try done; lia.
  - rewrite list_lookup_insert_ne by done. by rewrite decide_False by congruence.
Qed.

Lemma byte_lor b i : (0 <= b < 256)%Z -> (0 <= i < 8)%Z -> (0 <= Z.lor b (Z.shiftl 1 i) < 256)%Z.
Proof.
  intros Hb Hi. assert (H1 : (0 <= Z.shiftl 1 i < 2 ^ 8)%Z).
  { rewrite Z.shiftl_1_l. split; [lia|]. apply Z.pow_lt_mono_r; lia. }
  assert (Hp : (0 <= Z.lor b (Z.shiftl 1 i))%Z) by (apply Z.lor_nonneg; lia). split; [done|].
  destruct (decide (Z.lor b (Z.shiftl 1 i) = 0)%Z) as [->|]; [done|].
  change 256%Z with (2 ^ 8)%Z. apply Z.log2_lt_pow2; [lia|]. rewrite Z.log2_lor by lia.
  apply Z.max_lub_lt.
  - destruct (decide (b = 0)%Z) as [->|]; [done|]. apply Z.log2_lt_pow2; lia.
  - rewrite Z.shiftl_1_l, Z.log2_pow2; lia.
Qed.

Lemma byte_land b c : (0 <= b < 256)%Z -> (0 <= Z.land b c < 256)%Z.
Proof.
  intros Hb. assert (Hp : (0 <= Z.land b c)%Z) by (apply Z.land_nonneg; lia). split; [done|].
  rewrite <- (Z.mod_small b 256) by done. change 256%Z with (2 ^ 8)%Z.
  rewrite <- Z.land_ones by lia. rewrite <- Z.land_assoc, (Z.land_comm _ c), Z.land_assoc, Z.land_ones by lia.
  by apply Z.mod_pos_bound.
Qed.

Definition with_bitmap (l : list Z) (s : bitmap_pool_t) : bitmap_pool_t :=
  mk_bpool l (bdata s) (bchunk_size s) (bchunk_count s).

Lemma set_bit_ok s n i v :
  slab_ok s n -> slab_ok (with_bitmap (set_bit (bitmap s) i v) s) n.
Proof.
  intros [H1 H2 H3 H4 H5 H6]. split; cbn; try done.
  - unfold set_bit. destruct (bitmap s !! (i / 8)); [by rewrite length_insert|done].
  - unfold set_bit. destruct (bitmap s !! (i / 8)) as [b|] eqn:E; [|done].
    assert (Hb : (0 <= b < 256)%Z) by (by eapply list.Forall_lookup_1 in H6).
    apply Forall_insert; [done|].
    { destruct v; [apply byte_lor; [done|apply mod8]|by apply byte_land]. }
Qed.

(** Reading and writing the byte of a chunk. *)
Lemma byte_run s n i al :
  slab_ok s n -> i < n ->
  exists b, bitmap s !! (i / 8) = Some b /\ (0 <= b < 256)%Z /\
    read_byte (Z.of_nat i / 8) (s, al) = Ret (b, (s, al)) /\
    forall c, write_byte (Z.of_nat i / 8) c (s, al)
      = Ret (tt, (with_bitmap (<[i / 8 := c]> (bitmap s)) s, al)).
Proof.
  intros [H1 H2 H3 H4 H5 H6] Hi.
  assert (Hlt : i / 8 < length (bitmap s)) by (apply Nat.Div0.div_lt_upper_bound; lia).
  assert (Hz : Z.to_nat (Z.of_nat i / 8) = i / 8)
    by (change 8%Z with (Z.of_nat 8); by rewrite <- Nat2Z.inj_div, Nat2Z.id).
  pose proof Hlt as Hb. apply lookup_lt_is_Some in Hb as [b Hb]. exists b.
  split; [done|]. split; [by eapply list.Forall_lookup_1 in H6|].
  unfold read_byte, write_byte. mcbn. rewrite Hz, Hb. split; [done|].
  intros c. mcbn. rewrite ?Hz. by rewrite decide_True.
Qed.

Lemma alloc_from_run s n al m : forall i,
  slab_ok s n -> i + m = n ->
  alloc_from m (Z.of_nat i) (s, al)
  = match first_free (bitmap s) m i with
    | None => Ret (0%Z, (s, al))
    | Some j => Ret ((bdata s + Z.of_nat j * bchunk_size s)%Z,
                     (with_bitmap (set_bit (bitmap s) j true) s, al))
    end.
Proof.
  induction m as [|m IH]; intros i Hs Him; cbn [alloc_from first_free]; [done|].
  destruct (byte_run s n i al Hs ltac:(lia)) as (b & Hb & Hr & E1 & E2).
  rewrite (bind_ret _ _ _ _ _ E1), land_bit by (apply Z.mod_pos_bound; lia).
  unfold bit_of. rewrite Hb. replace (Z.of_nat i mod 8)%Z with (Z.of_nat (i mod 8)) by (by rewrite Nat2Z.inj_mod).
  destruct (Z.testbit b (Z.of_nat (i mod 8))) eqn:Et; cbn [negb].
  - replace (Z.of_nat i + 1)%Z with (Z.of_nat (S i)) by lia. apply IH; [done|lia].
  - rewrite (bind_ret _ _ _ _ _ (E2 _)). mcbn. cbn [bdata bchunk_size with_bitmap].
    unfold set_bit. rewrite Hb. unfold wrap.
    destruct Hs as [H1 H2 H3 H4 H5 H6].
    rewrite (Z.mod_small (Z.lor _ _)) by (apply (byte_lor b); [done|apply mod8]).
    rewrite Z.mod_small by nia. done.
Qed.

Lemma first_free_spec l n : forall i,
  match first_free l n i with
  | None => forall j, i <= j < i + n -> bit_of l j = true
  | Some k => i <= k < i + n /\ bit_of l k = false /\ forall j, i <= j < k -> bit_of l j = true
  end.
Proof.
  induction n as [|n IH]; intros i; cbn; [lia|]. destruct (bit_of l i) eqn:E.
  - specialize (IH (S i)). destruct (first_free l n (S i)) as [k|].
    + destruct IH as (H1 & H2 & H3). split; [lia|]. split; [done|]. intros j Hj.
      destruct (decide (j = i)) as [->|]; [done|]. apply H3. lia.
    + intros j Hj. destruct (decide (j = i)) as [->|]; [done|]. apply IH. lia.
  - split; [lia|]. split; [done|]. lia.
Qed.

Lemma bitmap_pool_free_run s n i off al :
  slab_ok s n -> i < n -> (0 <= off < bchunk_size s)%Z ->
  bitmap_pool_free (bdata s + Z.of_nat i * bchunk_size s + off) (s, al)
  = Ret (tt, (with_bitmap (set_bit (bitmap s) i false) s, al)).
Proof.
  intros Hs Hi Hoff. pose proof Hs as [H1 H2 H3 H4 H5 H6]. unfold bitmap_pool_free.
  destruct (Z.eqb_spec (bdata s + Z.of_nat i * bchunk_size s + off) 0); [nia|]. mcbn.
  destruct (Z.eqb_spec (bchunk_size s) 0); [lia|].
  assert (Hidx : (wrap 64 (bdata s + Z.of_nat i * bchunk_size s + off - bdata s) / bchunk_size s
    = Z.of_nat i)%Z).
  { unfold wrap. rewrite Z.mod_small by nia.
    symmetry. apply (Z.div_unique _ _ _ off); lia. }
  rewrite Hidx. destruct (Z.leb_spec (bchunk_count s) (Z.of_nat i)); [lia|].
  destruct (byte_run s n i al Hs Hi) as (b & Hb & Hr & E1 & E2).
  rewrite (bind_ret _ _ _ _ _ E1), E2. unfold set_bit, wrap. rewrite Hb.
  replace (Z.of_nat i mod 8)%Z with (Z.of_nat (i mod 8)) by (by rewrite Nat2Z.inj_mod).
  rewrite (Z.mod_small (Z.land _ _)) by (by apply (byte_land b)). done.
Qed.

(** ** Properties *)

(** C33: [bitmap_pool_alloc] returns the lowest chunk whose bit is clear and sets
    that bit and no other; with every bit set it returns NULL and changes nothing. *)
Theorem bitmap_alloc_first_free s n al :
  slab_ok s n ->
  (exists i s', bitmap_pool_alloc (s, al)
       = Ret ((bdata s + Z.of_nat i * bchunk_size s)%Z, (s', al)) /\
     i < n /\ bit_of (bitmap s) i = false /\ (forall j, j < i -> bit_of (bitmap s) j = true) /\
     (forall j, bit_of (bitmap s') j = if decide (i = j) then true else bit_of (bitmap s) j) /\
     slab_ok s' n) \/
  (bitmap_pool_alloc (s, al) = Ret (0%Z, (s, al)) /\ forall j, j < n -> bit_of (bitmap s) j = true).
Proof.
  intros Hs. unfold bitmap_pool_alloc. mcbn. rewrite (slab_count _ _ Hs), Nat2Z.id.
  pose proof (alloc_from_run s n al n 0 Hs eq_refl) as E. change (Z.of_nat 0) with 0%Z in E.
  rewrite E. clear E. pose proof (first_free_spec (bitmap s) n 0) as Hf.
  destruct (first_free (bitmap s) n 0) as [i|].
  - left. destruct Hf as (H1 & H2 & H3). eexists i, _. split; [done|]. split; [lia|].
    split; [done|]. split; [intros j Hj; apply H3; lia|]. split; [|by apply set_bit_ok].
    intros j. apply bit_of_set. pose proof (slab_bits _ _ Hs). apply Nat.Div0.div_lt_upper_bound. lia.
  - right. split; [done|]. intros j Hj. apply Hf. lia.
Qed.

Definition slab10 : bitmap_pool_t := mk_bpool [255; 1]%Z 4096 64 10.

Lemma slab10_ok : slab_ok slab10 10.
Proof. split; cbn; try lia. repeat constructor; lia. Qed.

Example bitmap_alloc_first_free_witness :
  slab_ok slab10 10 /\
  exists i s', bitmap_pool_alloc (slab10, []) = Ret ((4096 + Z.of_nat i * 64)%Z, (s', [])) /\
    i < 10 /\ bit_of (bitmap slab10) i = false.
Proof.
  split; [apply slab10_ok|].
  destruct (bitmap_alloc_first_free slab10 10 [] slab10_ok) as [(i & s' & H & Hi & Hb & _)|[_ H]].
  - exists i, s'. auto.
  - specialize (H 9 ltac:(lia)). vm_compute in H. discriminate H.
Defined.

(** Any address inside a chunk in use gives that chunk and no other back, and
    the chunk can then be taken again; an address outside the area changes nothing. *)
Theorem bitmap_free_clears_chunk s n i off al :
  slab_ok s n -> i < n -> (0 <= off < bchunk_size s)%Z ->
  (exists s', bitmap_pool_free (bdata s + Z.of_nat i * bchunk_size s + off) (s, al)
      = Ret (tt, (s', al)) /\
    (forall j, bit_of (bitmap s') j = if decide (i = j) then false else bit_of (bitmap s) j) /\
    slab_ok s' n /\
    exists q, q <> 0%Z /\ exists s'', bitmap_pool_alloc (s', al) = Ret (q, (s'', al))) /\
  bitmap_pool_free (bdata s + Z.of_nat n * bchunk_size s) (s, al) = Ret (tt, (s, al)).
Proof.
  intros Hs Hi Hoff. pose proof Hs as [H1 H2 H3 H4 H5 H6]. split.
  - eexists. split; [by eapply bitmap_pool_free_run|].
    assert (Hbit : forall j, bit_of (set_bit (bitmap s) i false) j
      = if decide (i = j) then false else bit_of (bitmap s) j).
    { intros j. apply bit_of_set. apply Nat.Div0.div_lt_upper_bound. lia. }
    pose proof (set_bit_ok s n i false Hs) as Hs'. split; [done|]. split; [done|].
    unfold bitmap_pool_alloc. mcbn. rewrite (slab_count _ _ Hs'), Nat2Z.id.
    pose proof (alloc_from_run _ n al n 0 Hs' eq_refl) as E. change (Z.of_nat 0) with 0%Z in E.
    rewrite E. clear E.
    pose proof (first_free_spec (set_bit (bitmap s) i false) n 0) as Hf. cbn [bitmap with_bitmap].
    destruct (first_free _ n 0) as [k|].
    + exists (bdata s + Z.of_nat k * bchunk_size s)%Z. split; [nia|]. by eexists.
    + specialize (Hf i ltac:(lia)). rewrite Hbit, decide_True in Hf by done. done.
  - unfold bitmap_pool_free.
    destruct (Z.eqb_spec (bdata s + Z.of_nat n * bchunk_size s) 0); [nia|]. mcbn.
    destruct (Z.eqb_spec (bchunk_size s) 0); [lia|]. unfold wrap.
    rewrite Z.mod_small by nia.
    replace (bdata s + Z.of_nat n * bchunk_size s - bdata s)%Z with (Z.of_nat n * bchunk_size s)%Z by lia.
    rewrite Z.div_mul by lia. destruct (Z.leb_spec (bchunk_count s) (Z.of_nat n)); [done|lia].
Qed.

Example bitmap_free_clears_chunk_witness :
  exists s', bitmap_pool_free (4096 + 3 * 64 + 17) (slab10, []) = Ret (tt, (s', [])) /\
    bit_of (bitmap s') 3 = false /\ bit_of (bitmap s') 2 = true.
Proof.
  destruct (bitmap_free_clears_chunk slab10 10 3 17 [] slab10_ok ltac:(lia) ltac:(cbn; lia))
    as [(s' & E & Hb & _) _].
  exists s'. split; [exact E|]. split; rewrite Hb; reflexivity.
Defined.

(** A pool created with chunk size 0 has chunk size 0, and giving any
    address back divides by zero. *)
Theorem bitmap_zero_chunk_divides_by_zero count d p al :
  p <> 0%Z -> (0 <= count)%Z ->
  exists s, bitmap_pool_create 0 count d (tt, []) = Ret (Some s, (tt, [])) /\
    bitmap_pool_free p (s, al) = Fault DivByZero.
Proof.
  intros Hp Hc. eexists. split; [unfold bitmap_pool_create; mcbn; reflexivity|].
  unfold bitmap_pool_free.
  destruct (Z.eqb_spec p 0); [done|]. reflexivity.
Qed.

Example bitmap_zero_chunk_divides_by_zero_witness :
  exists s, bitmap_pool_create 0 8 4096 (tt, [])
      = Ret (Some s, (tt, [])) /\
    bitmap_pool_free 4096 (s, []) = Fault DivByZero.
Proof. apply (bitmap_zero_chunk_divides_by_zero 8 4096 4096 []); lia. Defined.

End Slab.
