(* ===== verification/PageCache.v ===== *)
(** * The page cache of the C++ pool ([src/mempool/src/PageCache.cpp])

    Spans of pages: free ones in singly linked lists by size, found by the first size that
    is large enough, split when they are larger, and joined with the span behind them when
    they come back.  [std::map] and [std::unordered_map] are finite maps, the [Span]
    objects a heap.  [new] is taken to succeed; what [mmap] returns is an argument.  The
    mutex is held during the whole of both operations, so they are atomic. *)

From S2P Require Import Prelude.

Module PageCache.

Definition PAGE_SIZE : Z := 4096.

Record Span := mk_span { next : nat; pageAddr : Z; numPages : Z }.

(** A pointer to a [Span] is a number, NULL is 0.  [mapped] is what the system gave: address
    and pages. *)
Record page_cache := mk_cache {
  freeSpans_ : gmap Z nat;
  spanMap_ : gmap Z nat;
  spans : gmap nat Span;
  next_span : nat;
  mapped : list (Z * Z)
}.

Definition page_cache0 : page_cache := mk_cache ∅ ∅ ∅ 1 [].

Abbreviation pc A := (M page_cache A).

Definition set_free m s := mk_cache m (spanMap_ s) (spans s) (next_span s) (mapped s).
Definition set_span_map m s := mk_cache (freeSpans_ s) m (spans s) (next_span s) (mapped s).
Definition set_spans m s := mk_cache (freeSpans_ s) (spanMap_ s) m (next_span s) (mapped s).

Definition set_next x sp := mk_span x (pageAddr sp) (numPages sp).
Definition set_pages n sp := mk_span (next sp) (pageAddr sp) n.

(** [p->f], and assigning to it. *)
Definition rd {A} (f : Span -> A) (p : nat) : pc A :=
  s ← get;
  if decide (p = 0) then raise NullDeref else
  match spans s !! p with
  | None => raise BadPointer
  | Some sp => mret (f sp)
  end.

Definition wr (p : nat) (f : Span -> Span) : pc unit :=
  sp ← rd id p;
  s ← get;
  modify (set_spans (<[p := f sp]> (spans s))).

(** [new Span] with its fields. *)
Definition new_span (sp : Span) : pc nat :=
  s ← get;
  put (mk_cache (freeSpans_ s) (spanMap_ s) (<[next_span s := sp]> (spans s)) (S (next_span s)) (mapped s)) ;;
  mret (next_span s).

(** [std::map::lower_bound]: the entry with the least key that is at least [n]. *)
Definition closer (n : Z) (kv : Z * nat) (best : option (Z * nat)) : option (Z * nat) :=
  if (kv.1 <? n)%Z then best else
  match best with
  | None => Some kv
  | Some b => if (kv.1 <? b.1)%Z then Some kv else best
  end.
Definition lower_bound (n : Z) (m : gmap Z nat) : option (Z * nat) :=
  foldr (closer n) None (map_to_list m).

(** [freeSpans_[n]]: a missing entry is made, with NULL. *)
Definition free_list (n : Z) : pc nat :=
  s ← get;
  match freeSpans_ s !! n with
  | Some h => mret h
  | None => modify (set_free (<[n := 0]> (freeSpans_ s))) ;; mret 0
  end.
Definition set_free_list (n : Z) (h : nat) : pc unit :=
  s ← get; modify (set_free (<[n := h]> (freeSpans_ s))).

(** A span goes to the front of the list of its size. *)
Definition push_front (p : nat) : pc unit :=
  n ← rd numPages p;
  h ← free_list n;
  wr p (set_next h) ;;
  set_free_list n p.

Definition record_span (p : nat) : pc Z :=
  a ← rd pageAddr p;
  s ← get;
  modify (set_span_map (<[a := p]> (spanMap_ s))) ;;
  mret a.

(** [mm]: what [mmap] returns, if it is called. *)
Definition systemAlloc (n : Z) (mm : option Z) : pc (option Z) :=
  match mm with
  | None => mret None
  | Some a =>
      s ← get;
      put (mk_cache (freeSpans_ s) (spanMap_ s) (spans s) (next_span s) ((a, n) :: mapped s)) ;;
      mret (Some a)
  end.

Definition allocateSpan (n : Z) (mm : option Z) : pc (option Z) :=
  s ← get;
  match lower_bound n (freeSpans_ s) with
  | Some (k, span) =>
      nx ← rd next span;
      (if decide (nx = 0) then modify (set_free (delete k (freeSpans_ s)))
       else modify (set_free (<[k := nx]> (freeSpans_ s)))) ;;
      np ← rd numPages span;
      (if (n <? np)%Z then
         a ← rd pageAddr span;
         newSpan ← new_span (mk_span 0 (a + n * PAGE_SIZE) (np - n));
         push_front newSpan ;;
         wr span (set_pages n)
       else mret tt) ;;
      a ← record_span span;
      mret (Some a)
  | None =>
      memory ← systemAlloc n mm;
      match memory with
      | None => mret None
      | Some a =>
          span ← new_span (mk_span 0 a n);
          a ← record_span span;
          mret (Some a)
      end
  end.

(** [while (prev->next)]: takes [p] out of the list behind [prev]. *)
Fixpoint unlink (fuel : nat) (prev p : nat) : pc bool :=
  match fuel with
  | O => out_of_fuel
  | S fuel =>
      nx ← rd next prev;
      if decide (nx = 0) then mret false else
      if decide (nx = p) then
        nn ← rd next p;
        wr prev (set_next nn) ;;
        mret true
      else unlink fuel nx p
  end.

(** Takes [p] out of the list of its size, if it is there.  The fuel: a step more than there
    are spans. *)
Definition take_out (p : nat) : pc bool :=
  n ← rd numPages p;
  h ← free_list n;
  if decide (h = p) then
    nn ← rd next p;
    set_free_list n nn ;;
    mret true
  else if decide (h = 0) then mret false
  else
    s ← get;
    unlink (S (size (spans s))) h p.

Definition deallocateSpan (ptr n : Z) : pc unit :=
  s ← get;
  match spanMap_ s !! ptr with
  | None => mret tt
  | Some span =>
      let nextAddr := (ptr + n * PAGE_SIZE)%Z in
      (match spanMap_ s !! nextAddr with
       | None => mret tt
       | Some nextSpan =>
           found ← take_out nextSpan;
           if (found : bool) then
             np ← rd numPages nextSpan;
             wr span (fun sp => set_pages (numPages sp + np) sp) ;;
             s ← get;
             modify (set_span_map (delete nextAddr (spanMap_ s))) ;;
             s ← get;
             modify (set_spans (delete nextSpan (spans s)))
           else mret tt
       end) ;;
      push_front span
  end.

End PageCache.
