(* ===== verification/PageCacheSpec.v ===== *)
(** * What the page cache guarantees

    Spans in use never overlap, whatever is allocated and given back, and lie in memory the
    system gave.  The cache works unless the list it picks was emptied by joining spans: the
    entry of such a list stays behind with NULL, and allocating from it dereferences NULL. *)

From S2P Require Import Prelude PageCache.
Import PageCache.

(** ** Runs of the small operations *)

Lemma span_rd_run {A} (f : Span -> A) p sp s al :
  p <> 0 -> spans s !! p = Some sp -> rd f p (s, al) = Ret (f sp, (s, al)).
Proof. intros Hp Hs. unfold rd. rewrite bind_get. cbn [fst]. by rewrite decide_False, Hs. Qed.

Lemma span_wr_run p f sp s al :
  p <> 0 -> spans s !! p = Some sp ->
  wr p f (s, al) = Ret (tt, (set_spans (<[p := f sp]> (spans s)) s, al)).
Proof. intros Hp Hs. unfold wr. by rewrite (bind_ret _ _ _ _ _ (span_rd_run id p sp s al Hp Hs)). Qed.

(** ** The entry [lower_bound] finds *)

Lemma lower_bound_fold n l :
  match foldr (closer n) None l with
  | None => forall kv, kv ∈ l -> (kv.1 < n)%Z
  | Some kv => kv ∈ l /\ (n <= kv.1)%Z /\ forall kv', kv' ∈ l -> (n <= kv'.1)%Z -> (kv.1 <= kv'.1)%Z
  end.
Proof.
  induction l as [|kv l IH]; cbn [foldr]; [intros ? H; by apply elem_of_nil in H|].
  unfold closer at 1. destruct (Z.ltb_spec kv.1 n) as [Hlt|Hge].
  - destruct (foldr (closer n) None l) as [b|].
    + destruct IH as (H1 & H2 & H3). split; [by right|]. split; [done|].
      intros kv' [->|H]%elem_of_cons Hn; [lia|by apply H3].
    + intros kv' [->|H]%elem_of_cons; [done|by apply IH].
  - destruct (foldr (closer n) None l) as [b|].
    + destruct IH as (H1 & H2 & H3). destruct (Z.ltb_spec kv.1 b.1).
      * split; [by left|]. split; [done|]. intros kv' [->|H']%elem_of_cons Hn; [lia|].
        specialize (H3 kv' H' Hn). lia.
      * split; [by right|]. split; [done|]. intros kv' [->|H']%elem_of_cons Hn; [lia|by apply H3].
    + split; [by left|]. split; [done|]. intros kv' [->|H']%elem_of_cons Hn; [lia|].
      specialize (IH kv' H'). lia.
Qed.

Lemma lower_bound_some n m k h :
  lower_bound n m = Some (k, h) ->
  m !! k = Some h /\ (n <= k)%Z /\ forall k', is_Some (m !! k') -> (n <= k')%Z -> (k <= k')%Z.
Proof.
  intros H. pose proof (lower_bound_fold n (map_to_list m)) as Hf. unfold lower_bound in H. rewrite H in Hf.
  destruct Hf as (H1 & H2 & H3). split; [by apply elem_of_map_to_list|]. split; [done|].
  intros k' [h' Hk'] Hn. by apply (H3 (k', h')); [apply elem_of_map_to_list|].
Qed.

(** ** Lists of spans *)

Definition head0 (l : list nat) : nat := default 0 (head l).

(** The spans [l], each pointing to the next one, the last one to NULL. *)
Fixpoint linked (sp : gmap nat Span) (l : list nat) : Prop :=
  match l with
  | [] => True
  | i :: l => i <> 0 /\ (exists x, sp !! i = Some x /\ next x = head0 l) /\ linked sp l
  end.

(** Only the spans of the list matter. *)
Lemma linked_frame sp sp' l :
  (forall i, i ∈ l -> sp' !! i = sp !! i) -> linked sp l -> linked sp' l.
Proof.
  induction l as [|i l IH]; intros Hf; [done|]. cbn [linked]. intros (Hi & (x & Hx & Hn) & Hl).
  split; [done|]. split.
  - exists x. rewrite Hf; [done|by left].
  - apply IH; [|done]. intros j Hj. apply Hf. by right.
Qed.

Lemma linked_insert sp i y l : i ∉ l -> linked sp l -> linked (<[i := y]> sp) l.
Proof. intros Hi. apply linked_frame. intros j Hj. apply lookup_insert_ne. by intros ->. Qed.

Lemma linked_delete sp i l : i ∉ l -> linked sp l -> linked (delete i sp) l.
Proof. intros Hi. apply linked_frame. intros j Hj. apply lookup_delete_ne. by intros ->. Qed.

(** ** The shape of the free lists

    [free]: the lists by size; [out]: the spans that are in none. *)
Record shape (s : page_cache) (free : gmap Z (list nat)) (out : gset nat) : Prop := {
  sh_heads : freeSpans_ s = head0 <$> free;
  sh_linked : forall k l, free !! k = Some l -> linked (spans s) l;
  sh_size : forall k l i, free !! k = Some l -> i ∈ l -> exists x, spans s !! i = Some x /\ numPages x = k;
  sh_nodup : forall k l, free !! k = Some l -> NoDup l;
  sh_out : forall k l i, free !! k = Some l -> i ∈ l -> i ∉ out;
  sh_live : forall i, i ∈ out -> is_Some (spans s !! i);
  sh_ids : forall i x, spans s !! i = Some x -> 0 < i < next_span s
}.

(** ** The areas of the spans *)

Definition area (x : Span) : Z * Z := (pageAddr x, numPages x).
Definition areas (s : page_cache) : gmap nat (Z * Z) := area <$> spans s.

(** The end of an area. *)
Definition ends (a : Z * Z) : Z := (a.1 + a.2 * PAGE_SIZE)%Z.
Definition apart (a b : Z * Z) : Prop := (ends a <= b.1)%Z \/ (ends b <= a.1)%Z.
Definition inside (y : Z) (a : Z * Z) : Prop := (a.1 <= y < ends a)%Z.
Definition is_mapped (mp : list (Z * Z)) (y : Z) : Prop := exists a, a ∈ mp /\ inside y a.

Record geometry (ar : gmap nat (Z * Z)) (mp : list (Z * Z)) : Prop := {
  g_pos : forall i a, ar !! i = Some a -> (0 < a.2)%Z;
  g_apart : forall i j a b, i <> j -> ar !! i = Some a -> ar !! j = Some b -> apart a b;
  g_mapped : forall i a y, ar !! i = Some a -> inside y a -> is_mapped mp y
}.

(** [spanMap_] finds the spans in use; what it finds is a span with that address. *)
Record named (m : gmap Z nat) (ar : gmap nat (Z * Z)) (live : gset nat) : Prop := {
  n_span : forall p i, m !! p = Some i -> exists n, ar !! i = Some (p, n);
  n_live : forall i a, i ∈ live -> ar !! i = Some a -> m !! a.1 = Some i
}.

Record inv (s : page_cache) (free : gmap Z (list nat)) (live : gset nat) : Prop := {
  i_shape : shape s free live;
  i_geometry : geometry (areas s) (mapped s);
  i_named : named (spanMap_ s) (areas s) live;
  i_next : 0 < next_span s
}.

Lemma areas_insert s i x : area <$> <[i := x]> (spans s) = <[i := area x]> (areas s).
Proof. apply fmap_insert. Qed.

(** A list loses its first span. *)
Lemma pop_shape s free out k i l :
  shape s free out -> free !! k = Some (i :: l) ->
  let free' := if decide (head0 l = 0) then delete k free else <[k := l]> free in
  shape (set_free (head0 <$> free') s) free' ({[i]} ∪ out).
Proof.
  intros [H1 H2 H3 H4 H5 H6 H7] Hk free'.
  pose proof (H4 k _ Hk) as [Hni Hnd]%list.NoDup_cons.
  assert (Hsub : forall k' l', free' !! k' = Some l' -> exists l0, free !! k' = Some l0 /\ l' `suffix_of` l0 /\ i ∉ l').
  { intros k' l' Hl'. assert (Hne : k <> k' -> free !! k' = Some l').
    { intros Hne. unfold free' in Hl'. case_decide; [by rewrite lookup_delete_ne in Hl'|by rewrite lookup_insert_ne in Hl']. }
    destruct (decide (k = k')) as [<-|Hkk].
    - unfold free' in Hl'. case_decide; [by rewrite lookup_delete_eq in Hl'|].
      rewrite lookup_insert_eq in Hl'. injection Hl' as <-. exists (i :: l). split; [done|]. split; [|done].
      by exists [i].
    - exists l'. split; [by apply Hne|]. split; [done|]. intros Hin.
      destruct (H3 k' l' i (Hne Hkk) Hin) as (x & Hx & Hn). destruct (H3 k _ i Hk ltac:(by left)) as (y & Hy & Hm).
      congruence. }
  assert (Hin : forall k' l' j, free' !! k' = Some l' -> j ∈ l' -> exists l0, free !! k' = Some l0 /\ j ∈ l0).
  { intros k' l' j Hl' Hj. destruct (Hsub k' l' Hl') as (l0 & E & (pre & ->) & _). eexists. split; [done|].
    apply elem_of_app. by right. }
  split; cbn [freeSpans_ set_free spans next_span]; try done.
  - intros k' l' Hl'. destruct (Hsub k' l' Hl') as (l0 & E & (pre & ->) & _). apply H2 in E.
    clear -E. induction pre as [|j pre IH]; [done|]. apply IH, E.
  - intros k' l' j Hl' Hj. destruct (Hin k' l' j Hl' Hj) as (l0 & E & Hj'). by apply (H3 k' l0).
  - intros k' l' Hl'. destruct (Hsub k' l' Hl') as (l0 & E & (pre & ->) & _). apply H4, list.NoDup_app in E. apply E.
  - intros k' l' j Hl' Hj [->%elem_of_singleton|Ho]%elem_of_union.
    + by destruct (Hsub k' l' Hl') as (l0 & _ & _ & Hni').
    + destruct (Hin k' l' j Hl' Hj) as (l0 & E & Hj'). by apply (H5 k' l0 j).
  - intros j [->%elem_of_singleton|Ho]%elem_of_union; [|by apply H6].
    destruct (H3 k _ i Hk ltac:(by left)) as (x & Hx & _). by eexists.
Qed.

(** A span outside the lists changes, keeping its address or not. *)
Lemma shape_insert s free out i x :
  shape s free out -> i ∈ out -> shape (set_spans (<[i := x]> (spans s)) s) free out.
Proof.
  intros [H1 H2 H3 H4 H5 H6 H7] Hi. split; cbn [freeSpans_ set_spans spans next_span]; try done.
  - intros k l Hl. apply linked_insert; [|by apply (H2 k)]. intros Hin. by apply (H5 k l i).
  - intros k l j Hl Hj. destruct (decide (i = j)) as [->|Hne]; [by destruct (H5 k l j Hl Hj)|].
    rewrite lookup_insert_ne by done. by apply (H3 k l).
  - intros j Hj. destruct (decide (i = j)) as [->|Hne]; [rewrite lookup_insert_eq; by eexists|].
    rewrite lookup_insert_ne by done. by apply H6.
  - intros j y Hy. destruct (decide (i = j)) as [->|Hne].
    + destruct (H6 j Hi) as [z Hz]. by apply (H7 j z).
    + rewrite lookup_insert_ne in Hy by done. by apply (H7 j y).
Qed.

(** [new]. *)
Definition with_span (x : Span) (s : page_cache) : page_cache :=
  mk_cache (freeSpans_ s) (spanMap_ s) (<[next_span s := x]> (spans s)) (S (next_span s)) (mapped s).

Lemma new_span_run x s : new_span x (s, []) = Ret (next_span s, (with_span x s, [])).
Proof. done. Qed.

Lemma next_fresh s free out : shape s free out -> spans s !! next_span s = None.
Proof.
  intros Hs. destruct (spans s !! next_span s) as [y|] eqn:E; [|done].
  apply (sh_ids _ _ _ Hs) in E. lia.
Qed.

Lemma next_not_listed s free out k l :
  shape s free out -> free !! k = Some l -> next_span s ∉ l.
Proof.
  intros Hs Hl Hin. destruct (sh_size _ _ _ Hs k l _ Hl Hin) as (y & Hy & _).
  rewrite (next_fresh s free out Hs) in Hy. done.
Qed.

Lemma shape_new s free out x :
  shape s free out -> 0 < next_span s -> shape (with_span x s) free ({[next_span s]} ∪ out).
Proof.
  intros Hs H0. pose proof Hs as [H1 H2 H3 H4 H5 H6 H7]. pose proof (next_fresh s free out Hs) as Hn.
  split; cbn [freeSpans_ with_span spans next_span]; try done.
  - intros k l Hl. apply linked_insert; [by eapply next_not_listed|by apply (H2 k)].
  - intros k l j Hl Hj. rewrite lookup_insert_ne; [by apply (H3 k l)|]. intros <-.
    by eapply next_not_listed in Hj.
  - intros k l j Hl Hj [->%elem_of_singleton|Ho]%elem_of_union; [by eapply next_not_listed in Hj|by apply (H5 k l j)].
  - intros j [->%elem_of_singleton|Ho]%elem_of_union; [rewrite lookup_insert_eq; by eexists|].
    destruct (decide (next_span s = j)) as [->|Hne]; [rewrite lookup_insert_eq; by eexists|].
    rewrite lookup_insert_ne by done. by apply H6.
  - intros j y Hy. destruct (decide (next_span s = j)) as [<-|Hne]; [lia|].
    rewrite lookup_insert_ne in Hy by done. apply H7 in Hy. lia.
Qed.

(** [delete]. *)
Lemma shape_delete s free out i :
  shape s free out -> i ∈ out -> shape (set_spans (delete i (spans s)) s) free (out ∖ {[i]}).
Proof.
  intros [H1 H2 H3 H4 H5 H6 H7] Hi. split; cbn [freeSpans_ set_spans spans next_span]; try done.
  - intros k l Hl. apply linked_delete; [|by apply (H2 k)]. intros Hin. by apply (H5 k l i).
  - intros k l j Hl Hj. rewrite lookup_delete_ne; [by apply (H3 k l)|]. intros ->. by apply (H5 k l j).
  - intros k l j Hl Hj Ho%elem_of_difference. by apply (H5 k l j), Ho.
  - intros j [Ho Hne]%elem_of_difference. rewrite lookup_delete_ne; [by apply H6|set_solver].
  - intros j y Hy. apply lookup_delete_Some in Hy as [_ Hy]. by apply (H7 j y).
Qed.

(** [operator[]] *)
Definition listed (n : Z) (free : gmap Z (list nat)) : gmap Z (list nat) := <[n := default [] (free !! n)]> free.

Lemma free_list_run s free out n :
  shape s free out ->
  exists s', free_list n (s, []) = Ret (head0 (default [] (free !! n)), (s', [])) /\
    shape s' (listed n free) out /\ s' = set_free (freeSpans_ s') s.
Proof.
  intros [H1 H2 H3 H4 H5 H6 H7]. unfold free_list. rewrite bind_get. cbn [fst]. rewrite H1, lookup_fmap.
  destruct (free !! n) as [l|] eqn:El; cbn [fmap option_fmap option_map default].
  - exists s. split; [done|]. unfold listed. rewrite El. cbn [default]. rewrite insert_id by done.
    split; [by split|]. by destruct s.
  - exists (set_free (<[n := 0]> (freeSpans_ s)) s). rewrite H1, bind_modify. cbn [fst snd]. split; [done|].
    split; [|done]. unfold listed. rewrite El. cbn [default].
    assert (Hl : forall k l, <[n := []]> free !! k = Some l -> l = [] \/ free !! k = Some l).
    { intros k l Hk. destruct (decide (n = k)) as [->|]; [rewrite lookup_insert_eq in Hk; injection Hk; by left|].
      rewrite lookup_insert_ne in Hk by done. by right. }
    split; cbn [freeSpans_ set_free spans next_span]; try done.
    + by rewrite fmap_insert.
    + intros k l [->|E]%Hl; [done|by apply (H2 k)].
    + intros k l j [->|E]%Hl Hj; [by apply elem_of_nil in Hj|by apply (H3 k l)].
    + intros k l [->|E]%Hl; [constructor|by apply (H4 k)].
    + intros k l j [->|E]%Hl Hj; [by apply elem_of_nil in Hj|by apply (H5 k l j)].
Qed.

(** A span goes to the front of its list; its area stays. *)
Definition pushed (i : nat) (n : Z) (free : gmap Z (list nat)) : gmap Z (list nat) :=
  <[n := i :: default [] (free !! n)]> free.

Lemma push_front_run s free out i x :
  shape s free out -> i ∈ out -> spans s !! i = Some x ->
  exists s', push_front i (s, []) = Ret (tt, (s', [])) /\
    shape s' (pushed i (numPages x) free) (out ∖ {[i]}) /\
    areas s' = areas s /\ spanMap_ s' = spanMap_ s /\ mapped s' = mapped s /\ next_span s' = next_span s.
Proof.
  intros Hs Hi Hx. assert (Hi0 : i <> 0) by (apply (sh_ids _ _ _ Hs) in Hx; lia).
  unfold push_front. rewrite (bind_ret _ _ _ _ _ (span_rd_run numPages i x s [] Hi0 Hx)).
  destruct (free_list_run s free out (numPages x) Hs) as (s1 & E1 & Hs1 & Es1).
  rewrite (bind_ret _ _ _ _ _ E1). set (l := default [] (free !! numPages x)) in *.
  assert (Hx1 : spans s1 !! i = Some x) by (by rewrite Es1).
  rewrite (bind_ret _ _ _ _ _ (span_wr_run i (set_next (head0 l)) x s1 [] Hi0 Hx1)).
  unfold set_free_list. rewrite bind_get. cbn [fst]. eexists. split; [reflexivity|].
  cbn [fst snd freeSpans_ set_free set_spans spanMap_ mapped next_span].
  split; [|split; [|by rewrite Es1]].
  2:{ unfold areas. cbn [spans set_free set_spans]. rewrite areas_insert.
      change (area (set_next (head0 l) x)) with (area x). unfold areas. rewrite insert_id.
      - by rewrite Es1.
      - by rewrite lookup_fmap, Hx1. }
  pose proof (shape_insert s1 (listed (numPages x) free) out i (set_next (head0 l) x) Hs1 Hi)
    as [H1 H2 H3 H4 H5 H6 H7].
  set (s2 := set_spans _ s1) in *. cbn [freeSpans_ spans next_span s2 set_spans] in *.
  assert (Hl : listed (numPages x) free !! numPages x = Some l) by apply lookup_insert_eq.
  assert (Hk : forall k l', pushed i (numPages x) free !! k = Some l' ->
    (k = numPages x /\ l' = i :: l) \/ listed (numPages x) free !! k = Some l').
  { intros k l' Hk. destruct (decide (numPages x = k)) as [<-|Hne].
    - left. unfold pushed in Hk. rewrite lookup_insert_eq in Hk. injection Hk as <-. done.
    - right. unfold pushed in Hk. rewrite lookup_insert_ne in Hk by done. unfold listed. by rewrite lookup_insert_ne. }
  split; cbn [freeSpans_ set_free spans next_span].
  - rewrite H1. unfold pushed, listed. rewrite !fmap_insert, insert_insert_eq. done.
  - intros k l' [[-> ->]|E]%Hk; [|by apply (H2 k)]. cbn [linked]. split; [done|]. split; [|by apply (H2 (numPages x))].
    eexists. split; [apply lookup_insert_eq|done].
  - intros k l' j [[-> ->]|E]%Hk Hj; [|by apply (H3 k l')].
    apply elem_of_cons in Hj as [->|Hj]; [|by apply (H3 (numPages x) l)].
    eexists. split; [apply lookup_insert_eq|done].
  - intros k l' [[-> ->]|E]%Hk; [|by apply (H4 k)]. constructor; [|by apply (H4 (numPages x))].
    intros Hin. by apply (H5 (numPages x) l i).
  - intros k l' j [[-> ->]|E]%Hk Hj [Ho Hne]%elem_of_difference; [|by apply (H5 k l' j)].
    apply elem_of_cons in Hj as [->|Hj]; [set_solver|by apply (H5 (numPages x) l j)].
  - intros j [Ho _]%elem_of_difference. by apply H6.
  - done.
Qed.

(** ** Taking a span out of its list *)

Fixpoint without (i : nat) (l : list nat) : list nat :=
  match l with
  | [] => []
  | j :: l => if decide (j = i) then l else j :: without i l
  end.

(** The walk behind the first span of a list. *)
Lemma span_unlink_run p : forall l fuel j s,
  linked (spans s) (j :: l) -> NoDup (j :: l) -> length l < fuel -> p <> j -> p <> 0 ->
  exists s', unlink fuel j p (s, []) = Ret (bool_decide (p ∈ l), (s', [])) /\
    linked (spans s') (without p (j :: l)) /\ areas s' = areas s /\
    s' = set_spans (spans s') s /\ (forall q, q ∉ j :: l -> spans s' !! q = spans s !! q) /\
    (p ∉ l -> s' = s).
Proof.
  induction l as [|j2 l IH]; intros fuel j s Hl Hnd Hf Hpj Hp; (destruct fuel as [|fuel]; [cbn in Hf; lia|]);
    cbn [unlink]; pose proof Hl as (Hj & (x & Hx & Hnx) & Hl2);
    rewrite (bind_ret _ _ _ _ _ (span_rd_run next j x s [] Hj Hx)), Hnx; cbn [head0 head default from_option id].
  - exists s. split; [done|]. cbn [without]. rewrite decide_False by done. split; [done|]. split; [done|].
    split; [by destruct s|]. split; done.
  - pose proof Hl2 as (Hj2 & (x2 & Hx2 & Hnx2) & Hl3).
    change (head0 (j2 :: l)) with j2. rewrite decide_False by done.
    apply list.NoDup_cons in Hnd as [Hnj Hnd]. pose proof Hnd as [Hnj2 _]%list.NoDup_cons.
    destruct (decide (j2 = p)) as [Ej|Hne]; [subst j2|].
    + rewrite (bind_ret _ _ _ _ _ (span_rd_run next p x2 s [] Hj2 Hx2)).
      rewrite (bind_ret _ _ _ _ _ (span_wr_run j (set_next (next x2)) x s [] Hj Hx)).
      eexists. split; [rewrite bool_decide_true by (by left); reflexivity|].
      cbn [set_spans spans]. split; [|split; [|split; [done|split]]].
      * cbn [without]. rewrite decide_False by done. rewrite decide_True by done. cbn [linked]. split; [done|].
        split; [eexists; by rewrite lookup_insert_eq|]. apply linked_insert; [|done]. intros Hin. apply Hnj. by right.
      * unfold areas. cbn [spans set_spans]. rewrite areas_insert. change (area (set_next (next x2) x)) with (area x).
        apply insert_id. unfold areas. by rewrite lookup_fmap, Hx.
      * intros q Hq. apply lookup_insert_ne. intros ->. apply Hq. by left.
      * intros Hin. exfalso. apply Hin. by left.
    + cbn [length] in Hf. destruct (IH fuel j2 s Hl2 Hnd ltac:(lia) ltac:(done) Hp) as (s' & E & H1 & H2 & H3 & H4 & H5).
      exists s'. split.
      { rewrite E. do 2 f_equal. apply bool_decide_ext. rewrite elem_of_cons. naive_solver. }
      split; [|split; [done|]; split; [done|]; split].
      * cbn [without] in H1 |- *. rewrite decide_False by done. cbn [linked]. split; [done|].
        split; [|done]. exists x. rewrite H4 by done. split; [done|]. rewrite Hnx.
        by rewrite decide_False.
      * intros q Hq. apply H4. intros Hin. apply Hq. by right.
      * intros Hin. apply H5. intros Hin'. apply Hin. by right.
Qed.

Lemma without_in p l j : j ∈ without p l -> j ∈ l.
Proof.
  induction l as [|i l IH]; [done|]. cbn [without]. case_decide; [by right|].
  intros [->|H']%elem_of_cons; [by left|right; by apply IH].
Qed.

Lemma without_nodup p l : NoDup l -> NoDup (without p l) /\ p ∉ without p l.
Proof.
  induction l as [|i l IH]; [split; [constructor|apply not_elem_of_nil]|].
  intros [Hi Hl]%list.NoDup_cons. cbn [without]. case_decide as E; [subst i; by split|].
  destruct (IH Hl) as [H1 H2]. split.
  - constructor; [|done]. intros Hin. by apply Hi, (without_in p).
  - intros [->|H']%elem_of_cons; done.
Qed.

(** The same areas, so the same sizes. *)
Lemma same_area (sp sp' : gmap nat Span) i x :
  area <$> sp' = area <$> sp -> sp !! i = Some x -> exists x', sp' !! i = Some x' /\ area x' = area x.
Proof.
  intros Ha Hx. apply (f_equal (lookup i)) in Ha. rewrite !lookup_fmap, Hx in Ha.
  destruct (sp' !! i) as [x'|]; [|done]. injection Ha as E1 E2. exists x'. split; [done|]. unfold area. congruence.
Qed.

Lemma shape_without s s' free out n l p :
  shape s free out -> free !! n = Some l -> p ∈ l ->
  linked (spans s') (without p l) -> areas s' = areas s ->
  (forall q, q ∉ l -> spans s' !! q = spans s !! q) ->
  freeSpans_ s' = <[n := head0 (without p l)]> (freeSpans_ s) -> next_span s' = next_span s ->
  shape s' (<[n := without p l]> free) ({[p]} ∪ out).
Proof.
  intros [H1 H2 H3 H4 H5 H6 H7] Hl Hp Hlk Ha Hq Hh Hns.
  assert (Hk : forall k l', <[n := without p l]> free !! k = Some l' ->
    (k = n /\ l' = without p l) \/ (k <> n /\ free !! k = Some l')).
  { intros k l' Hk. destruct (decide (n = k)) as [<-|Hne].
    - left. rewrite lookup_insert_eq in Hk. injection Hk as <-. done.
    - right. by rewrite lookup_insert_ne in Hk. }
  assert (Hsize : forall k l' i, free !! k = Some l' -> i ∈ l' -> exists x, spans s' !! i = Some x /\ numPages x = k).
  { intros k l' i E Hi. destruct (H3 k l' i E Hi) as (x & Hx & Hn).
    destruct (same_area _ _ i x Ha Hx) as (x' & Hx' & [= _ Hn']). exists x'. split; [done|congruence]. }
  assert (Hother : forall k l' i, k <> n -> free !! k = Some l' -> i ∈ l' -> i ∉ l).
  { intros k l' i Hne E Hi Hil. destruct (H3 k l' i E Hi) as (x & Hx & Hn).
    destruct (H3 n l i Hl Hil) as (y & Hy & Hm). congruence. }
  split.
  - by rewrite Hh, H1, fmap_insert.
  - intros k l' [[-> ->]|[Hne E]]%Hk; [done|]. apply (linked_frame (spans s)); [|by apply (H2 k)].
    intros i Hi. apply Hq. by apply (Hother k l').
  - intros k l' i [[-> ->]|[Hne E]]%Hk Hi; [|by apply (Hsize k l')].
    apply (Hsize n l); [done|]. by apply (without_in p).
  - intros k l' [[-> ->]|[Hne E]]%Hk; [|by apply (H4 k)]. by apply without_nodup, (H4 n).
  - intros k l' i [[-> ->]|[Hne E]]%Hk Hi [->%elem_of_singleton|Ho]%elem_of_union.
    + by apply (without_nodup p l (H4 n l Hl)).
    + apply (H5 n l i); [done|by apply (without_in p)|done].
    + by apply (Hother k l' p Hne E Hi).
    + by apply (H5 k l' i).
  - intros i [->%elem_of_singleton|Ho]%elem_of_union.
    + destruct (Hsize n l p Hl Hp) as (x & Hx & _). by eexists.
    + destruct (H6 i Ho) as [x Hx]. destruct (same_area _ _ i x Ha Hx) as (x' & Hx' & _). by eexists.
  - intros i x Hx. rewrite Hns. destruct (same_area (spans s') (spans s) i x) as (x' & Hx' & _); [by symmetry|done|].
    by apply (H7 i x').
Qed.

(** What [take_out] leaves alone. *)
Definition same_but_lists (s s' : page_cache) : Prop :=
  areas s' = areas s /\ spanMap_ s' = spanMap_ s /\ mapped s' = mapped s /\ next_span s' = next_span s.

Lemma nodup_bound (sp : gmap nat Span) l :
  NoDup l -> (forall i, i ∈ l -> is_Some (sp !! i)) -> length l <= size sp.
Proof.
  intros Hnd Hin. rewrite <- (size_dom (D := gset nat)).
  rewrite <- (size_list_to_set (C := gset nat) l) by done. apply subseteq_size.
  intros i Hi. apply elem_of_dom, Hin. by apply elem_of_list_to_set in Hi.
Qed.

Lemma take_out_listed s free out p x l :
  shape s free out -> spans s !! p = Some x -> free !! numPages x = Some l -> p ∈ l ->
  exists s', take_out p (s, []) = Ret (true, (s', [])) /\
    shape s' (<[numPages x := without p l]> free) ({[p]} ∪ out) /\ same_but_lists s s'.
Proof.
  intros Hs Hx Hl Hp. assert (Hp0 : p <> 0) by (apply (sh_ids _ _ _ Hs) in Hx; lia).
  unfold take_out. rewrite (bind_ret _ _ _ _ _ (span_rd_run numPages p x s [] Hp0 Hx)).
  destruct (free_list_run s free out (numPages x) Hs) as (s1 & E1 & Hs1 & Es1).
  rewrite (bind_ret _ _ _ _ _ E1). unfold listed in Hs1. rewrite Hl in Hs1 |- *. cbn [default from_option] in Hs1 |- *.
  rewrite insert_id in Hs1 by done.
  assert (Hx1 : spans s1 !! p = Some x) by (by rewrite Es1).
  assert (Hsame : same_but_lists s s1) by (rewrite Es1; by repeat split).
  pose proof (sh_linked _ _ _ Hs1 _ _ Hl) as Hlk. pose proof (sh_nodup _ _ _ Hs1 _ _ Hl) as Hnd.
  destruct l as [|h l]; [by apply elem_of_nil in Hp|]. cbn [head0 head default from_option id].
  destruct (decide (h = p)) as [Eh|Hne].
  - subst h. rewrite (bind_ret _ _ _ _ _ (span_rd_run next p x s1 [] Hp0 Hx1)).
    unfold set_free_list. rewrite bind_bind, bind_get. cbn [fst]. rewrite bind_modify. cbn [fst snd].
    eexists. split; [reflexivity|]. split; [|by destruct Hsame as (? & ? & ? & ?); repeat split].
    destruct Hlk as (_ & (x' & Hx' & Hnx) & Hlk). rewrite Hx1 in Hx'. injection Hx' as <-.
    apply (shape_without s1 _ free out (numPages x) (p :: l) p Hs1 Hl Hp); cbn [without set_free freeSpans_ spans next_span];
      rewrite ?decide_True by done; try done. by rewrite Hnx.
  - pose proof Hlk as (Hh0 & _). rewrite decide_False by done. rewrite bind_get. cbn [fst].
    assert (Hlen : length (h :: l) <= size (spans s1)).
    { apply nodup_bound; [done|]. intros i Hi. destruct (sh_size _ _ _ Hs1 _ _ i Hl Hi) as (y & Hy & _). by eexists. }
    cbn [length] in Hlen.
    destruct (span_unlink_run p l (S (size (spans s1))) h s1 Hlk Hnd ltac:(lia) ltac:(done) Hp0)
      as (s' & E & H1 & H2 & H3 & H4 & _).
    exists s'. rewrite bool_decide_true in E by (by apply elem_of_cons in Hp as [?|?]). split; [exact E|].
    split.
    + apply (shape_without s1 s' free out (numPages x) (h :: l) p Hs1 Hl Hp); try done.
      * rewrite H3. cbn [set_spans freeSpans_ without]. rewrite decide_False by done. cbn [head0 head default from_option id].
        rewrite insert_id; [done|]. rewrite (sh_heads _ _ _ Hs1), lookup_fmap, Hl. done.
      * by rewrite H3.
    + destruct Hsame as (? & ? & ? & ?). rewrite H3. unfold same_but_lists. cbn [set_spans spanMap_ mapped next_span].
      split; [|done]. rewrite <- H3. congruence.
Qed.

Lemma take_out_used s free out p x :
  shape s free out -> spans s !! p = Some x -> p ∉ default [] (free !! numPages x) ->
  exists s', take_out p (s, []) = Ret (false, (s', [])) /\
    shape s' (listed (numPages x) free) out /\ same_but_lists s s'.
Proof.
  intros Hs Hx Hp. assert (Hp0 : p <> 0) by (apply (sh_ids _ _ _ Hs) in Hx; lia).
  unfold take_out. rewrite (bind_ret _ _ _ _ _ (span_rd_run numPages p x s [] Hp0 Hx)).
  destruct (free_list_run s free out (numPages x) Hs) as (s1 & E1 & Hs1 & Es1).
  rewrite (bind_ret _ _ _ _ _ E1).
  assert (Hsame : same_but_lists s s1) by (rewrite Es1; by repeat split).
  assert (Hl : listed (numPages x) free !! numPages x = Some (default [] (free !! numPages x))) by apply lookup_insert_eq.
  revert Hl Hp. generalize (default [] (free !! numPages x)) as l. intros l Hl Hpl.
  pose proof (sh_linked _ _ _ Hs1 _ _ Hl) as Hlk. pose proof (sh_nodup _ _ _ Hs1 _ _ Hl) as Hnd.
  exists s1. split; [|done]. destruct l as [|h l]; cbn [head0 head default from_option id].
  - rewrite decide_False by done. by rewrite decide_True.
  - pose proof Hlk as (Hh0 & _). apply not_elem_of_cons in Hpl as [Hph Hpl].
    rewrite !decide_False by done. rewrite bind_get. cbn [fst].
    assert (Hlen : length (h :: l) <= size (spans s1)).
    { apply nodup_bound; [done|]. intros i Hi. destruct (sh_size _ _ _ Hs1 _ _ i Hl Hi) as (y & Hy & _). by eexists. }
    cbn [length] in Hlen.
    destruct (span_unlink_run p l (S (size (spans s1))) h s1 Hlk Hnd ltac:(lia) Hph Hp0) as (s' & E & _ & _ & _ & _ & Es').
    rewrite E, (Es' Hpl). by rewrite bool_decide_false.
Qed.

(** ** Splitting, joining and mapping areas *)

Lemma apart_points a b : (0 < a.2)%Z -> (0 < b.2)%Z -> (forall y, inside y a -> ~ inside y b) -> apart a b.
Proof.
  intros Ha Hb H. unfold apart, inside, ends, PAGE_SIZE in *.
  destruct (Z.le_gt_cases (a.1 + a.2 * 4096) b.1); [by left|].
  destruct (Z.le_gt_cases (b.1 + b.2 * 4096) a.1); [by right|].
  destruct (H (Z.max a.1 b.1)); lia.
Qed.

Lemma apart_sym a b : apart a b -> apart b a.
Proof. intros [H|H]; [by right|by left]. Qed.

(** Two spans at one address are one. *)
Lemma same_address ar mp i j a b :
  geometry ar mp -> ar !! i = Some a -> ar !! j = Some b -> a.1 = b.1 -> i = j.
Proof.
  intros [H1 H2 _] Hi Hj E. destruct (decide (i = j)) as [|Hne]; [done|].
  pose proof (H1 i a Hi). pose proof (H1 j b Hj). pose proof (H2 i j a b Hne Hi Hj) as [Ha|Ha];
    unfold ends, PAGE_SIZE in Ha; lia.
Qed.

Lemma geometry_map ar mp j a n :
  geometry ar mp -> ar !! j = None -> (0 < n)%Z -> (forall y, inside y (a, n) -> ~ is_mapped mp y) ->
  geometry (<[j := (a, n)]> ar) ((a, n) :: mp).
Proof.
  intros [H1 H2 H3] Hj Hn Hfresh.
  assert (Hap : forall i b, ar !! i = Some b -> apart (a, n) b).
  { intros i b Hi. apply apart_points; [done|by apply (H1 i)|]. intros y Hy Hb. by apply (Hfresh y Hy), (H3 i b). }
  split.
  - intros i b. rewrite lookup_insert_Some. intros [[_ <-]|[_ Hi]]; [done|by apply (H1 i)].
  - intros i k b c Hne. rewrite !lookup_insert_Some. intros [[<- <-]|[? Hi]] [[<- <-]|[? Hk]]; [done| | |].
    + by apply (Hap k).
    + by apply apart_sym, (Hap i).
    + by apply (H2 i k).
  - intros i b y. rewrite lookup_insert_Some. intros [[_ <-]|[_ Hi]] Hy.
    + exists (a, n). split; [by left|done].
    + destruct (H3 i b y Hi Hy) as (c & Hc & Hyc). exists c. split; [by right|done].
Qed.

Lemma geometry_split ar mp i j a k n :
  geometry ar mp -> ar !! i = Some (a, k) -> ar !! j = None -> (0 < n < k)%Z ->
  geometry (<[i := (a, n)]> (<[j := ((a + n * PAGE_SIZE)%Z, (k - n)%Z)]> ar)) mp.
Proof.
  intros [H1 H2 H3] Hi Hj Hn. assert (Hij : i <> j) by congruence.
  assert (Hap : forall q b, q <> i -> ar !! q = Some b -> apart (a, n) b /\ apart ((a + n * PAGE_SIZE)%Z, (k - n)%Z) b).
  { intros q b Hq Hb. pose proof (H2 i q _ b ltac:(done) Hi Hb) as H. pose proof (H1 q b Hb).
    unfold apart, ends, PAGE_SIZE in *. cbn [fst snd] in *. lia. }
  assert (Hself : apart (a, n) ((a + n * PAGE_SIZE)%Z, (k - n)%Z)) by (left; unfold ends; cbn [fst snd]; lia).
  split.
  - intros q b. rewrite !lookup_insert_Some. intros [[_ <-]|[_ [[_ <-]|[_ Hq]]]]; cbn [snd]; [lia|lia|by apply (H1 q)].
  - intros q r b c Hne. rewrite !lookup_insert_Some.
    intros [[<- <-]|[? [[<- <-]|[? Hq]]]] [[<- <-]|[? [[<- <-]|[? Hr]]]]; try done.
    + by apply (Hap r).
    + by apply (proj2 (Hap r c ltac:(done) Hr)).
    + by apply apart_sym, (Hap q).
    + by apply apart_sym, (proj2 (Hap q b ltac:(done) Hq)).
    + by apply (H2 q r).
  - intros q b y. rewrite !lookup_insert_Some. unfold inside, ends, PAGE_SIZE.
    intros [[_ <-]|[_ [[_ <-]|[_ Hq]]]]; cbn [fst snd]; intros Hy.
    + apply (H3 i (a, k) y Hi). unfold inside, ends, PAGE_SIZE. cbn [fst snd]. lia.
    + apply (H3 i (a, k) y Hi). unfold inside, ends, PAGE_SIZE. cbn [fst snd]. lia.
    + by apply (H3 q b y Hq).
Qed.

Lemma geometry_join ar mp i j a n m :
  geometry ar mp -> i <> j -> ar !! i = Some (a, n) -> ar !! j = Some ((a + n * PAGE_SIZE)%Z, m) ->
  geometry (delete j (<[i := (a, (n + m)%Z)]> ar)) mp.
Proof.
  intros [H1 H2 H3] Hij Hi Hj. pose proof (H1 i _ Hi) as Pn. pose proof (H1 j _ Hj) as Pm. cbn [snd] in Pn, Pm.
  assert (Hap : forall q b, q <> i -> q <> j -> ar !! q = Some b -> apart (a, (n + m)%Z) b).
  { intros q b Hq Hq' Hb. pose proof (H2 i q _ b ltac:(done) Hi Hb) as Ha1.
    pose proof (H2 j q _ b ltac:(done) Hj Hb) as Ha2. pose proof (H1 q b Hb).
    unfold apart, ends, PAGE_SIZE in *. cbn [fst snd] in *. lia. }
  split.
  - intros q b. rewrite lookup_delete_Some, lookup_insert_Some. intros [_ [[_ <-]|[_ Hq]]]; cbn [snd]; [lia|by apply (H1 q)].
  - intros q r b c Hne. rewrite !lookup_delete_Some, !lookup_insert_Some.
    intros [? [[<- <-]|[? Hq]]] [? [[<- <-]|[? Hr]]]; [done| | |].
    + by apply (Hap r).
    + by apply apart_sym, (Hap q).
    + by apply (H2 q r).
  - intros q b y. rewrite lookup_delete_Some, lookup_insert_Some. intros [_ [[_ <-]|[_ Hq]]] Hy; [|by apply (H3 q b y Hq)].
    unfold inside, ends, PAGE_SIZE in *. cbn [fst snd] in *.
    destruct (Z.lt_ge_cases y (a + n * 4096)).
    + apply (H3 i _ y Hi). unfold inside, ends, PAGE_SIZE. cbn [fst snd]. lia.
    + apply (H3 j _ y Hj). unfold inside, ends, PAGE_SIZE. cbn [fst snd]. lia.
Qed.

(** ** Names *)

Lemma named_record m ar mp live i p n :
  geometry ar mp -> named m ar live -> ar !! i = Some (p, n) -> named (<[p := i]> m) ar ({[i]} ∪ live).
Proof.
  intros Hg [H1 H2] Hi. split.
  - intros q j. rewrite lookup_insert_Some. intros [[<- <-]|[_ Hq]]; [by exists n|by apply H1].
  - intros j a Hj Ha. destruct (decide (p = a.1)) as [->|Hne].
    + rewrite lookup_insert_eq. f_equal. by apply (same_address ar mp i j _ a Hg Hi Ha).
    + rewrite lookup_insert_ne by done. apply elem_of_union in Hj as [->%elem_of_singleton|Hj]; [|by apply H2].
      rewrite Hi in Ha. by injection Ha as <-.
Qed.

(** Spans may be added and change their size. *)
Lemma named_areas m ar ar' live :
  named m ar live -> (forall i, i ∈ live -> is_Some (ar !! i)) ->
  (forall i a, ar !! i = Some a -> exists n, ar' !! i = Some (a.1, n)) -> named m ar' live.
Proof.
  intros [H1 H2] Hl Ha. split.
  - intros p i (n & Hi)%H1. destruct (Ha i _ Hi) as [n' Hn']. by exists n'.
  - intros i a Hi Hai. destruct (Hl i Hi) as [b Hb]. destruct (Ha i b Hb) as [n' Hn'].
    rewrite Hai in Hn'. injection Hn' as ->. cbn [fst]. by apply H2.
Qed.

Lemma named_subset m ar live live' : live' ⊆ live -> named m ar live -> named m ar live'.
Proof. intros Hs [H1 H2]. split; [done|]. intros i a Hi. apply H2. by apply Hs. Qed.

Lemma named_join m ar mp live i j a n k :
  geometry ar mp -> named m ar live -> j ∉ live -> i <> j ->
  ar !! i = Some (a, n) -> ar !! j = Some ((a + n * PAGE_SIZE)%Z, k) ->
  named (delete (a + n * PAGE_SIZE)%Z m) (delete j (<[i := (a, (n + k)%Z)]> ar)) live.
Proof.
  intros Hg [H1 H2] Hjl Hij Hi Hj. split.
  - intros p q. rewrite lookup_delete_Some. intros [Hp Hq]. destruct (H1 p q Hq) as [n' Hn'].
    assert (q <> j) by (intros ->; congruence).
    rewrite lookup_delete_ne by done. destruct (decide (i = q)) as [->|Hne].
    + rewrite lookup_insert_eq. rewrite Hi in Hn'. injection Hn' as <- _. by eexists.
    + rewrite lookup_insert_ne by done. by eexists.
  - intros q b Hq. rewrite lookup_delete_Some, lookup_insert_Some. intros [Hqj Hb].
    assert (Hb' : exists c, ar !! q = Some (b.1, c)).
    { destruct Hb as [[<- <-]|[_ Hb]]; [by exists n|]. destruct b as [b1 b2]. by exists b2. }
    destruct Hb' as [c Hc]. pose proof (H2 q _ Hq Hc) as Hm. cbn [fst] in Hm. rewrite lookup_delete_ne; [done|].
    intros Heq. apply Hqj. by apply (same_address ar mp j q _ _ Hg Hj Hc).
Qed.

(** ** Allocating *)

(** A span [a] of [n] pages is in use beside those of [live]. *)
Definition given (s : page_cache) (live : gset nat) (n a : Z) (s' : page_cache) : Prop :=
  exists free' i, i ∉ live /\ inv s' free' ({[i]} ∪ live) /\ areas s' !! i = Some (a, n) /\
    forall j, j ∈ live -> areas s' !! j = areas s !! j.

Lemma record_span_run i x s :
  i <> 0 -> spans s !! i = Some x ->
  record_span i (s, []) = Ret (pageAddr x, (set_span_map (<[pageAddr x := i]> (spanMap_ s)) s, [])).
Proof. intros Hi Hx. unfold record_span. by rewrite (bind_ret _ _ _ _ _ (span_rd_run pageAddr i x s [] Hi Hx)). Qed.

Lemma areas_lookup s i x : spans s !! i = Some x -> areas s !! i = Some (area x).
Proof. intros H. unfold areas. by rewrite lookup_fmap, H. Qed.

Lemma areas_spans s i a : areas s !! i = Some a -> exists x, spans s !! i = Some x /\ area x = a.
Proof. unfold areas. rewrite lookup_fmap. destruct (spans s !! i) as [x|]; [|done]. intros [= <-]. by exists x. Qed.

Lemma areas_none s i : spans s !! i = None -> areas s !! i = None.
Proof. intros H. unfold areas. by rewrite lookup_fmap, H. Qed.

Lemma live_areas s free live i : shape s free live -> i ∈ live -> is_Some (areas s !! i).
Proof.
  intros Hs Hi. destruct (sh_live _ _ _ Hs i Hi) as [x Hx]. rewrite (areas_lookup s i x Hx). by eexists.
Qed.

(** The last step: the span is recorded. *)
Lemma record_given s0 s free live i x n :
  i ∉ live -> shape s free ({[i]} ∪ live) -> geometry (areas s) (mapped s) -> named (spanMap_ s) (areas s) live ->
  0 < next_span s -> spans s !! i = Some x -> numPages x = n ->
  (forall j, j ∈ live -> areas s !! j = areas s0 !! j) ->
  exists s', record_span i (s, []) = Ret (pageAddr x, (s', [])) /\ given s0 live n (pageAddr x) s' /\ mapped s' = mapped s.
Proof.
  intros Hi Hs Hg Hn Hnx Hx <- Hj. assert (Hi0 : i <> 0) by (apply (sh_ids _ _ _ Hs) in Hx; lia).
  eexists. split; [by apply record_span_run|]. split; [|done]. exists free, i. split; [done|].
  split; [|split; [by apply areas_lookup|done]].
  split; cbn [mapped spanMap_ next_span set_span_map]; try done.
  - destruct Hs as [H1 H2 H3 H4 H5 H6 H7]. by split.
  - eapply (named_record _ (areas s) (mapped s)); [done|done|]. by apply areas_lookup.
Qed.

Lemma alloc_whole s free live k i l x n :
  inv s free live -> free !! k = Some (i :: l) -> spans s !! i = Some x -> i ∉ live -> numPages x = n ->
  let free' := if decide (head0 l = 0) then delete k free else <[k := l]> free in
  let s1 := set_free (head0 <$> free') s in
  exists s', record_span i (s1, []) = Ret (pageAddr x, (s', [])) /\ given s live n (pageAddr x) s' /\ mapped s' = mapped s.
Proof.
  intros [Hs Hg Hn Hnx] Hk Hx Hi Hp free' s1.
  by apply (record_given s s1 free' live i x n Hi (pop_shape s free live k i l Hs Hk) Hg Hn Hnx Hx Hp).
Qed.

Lemma alloc_part s free live k i l x n :
  inv s free live -> free !! k = Some (i :: l) -> spans s !! i = Some x -> i ∉ live -> numPages x = k -> (0 < n < k)%Z ->
  let free' := if decide (head0 l = 0) then delete k free else <[k := l]> free in
  let s1 := set_free (head0 <$> free') s in
  exists s', (newSpan ← new_span (mk_span 0 (pageAddr x + n * PAGE_SIZE) (k - n));
              push_front newSpan ;;
              wr i (set_pages n) ;;
              record_span i) (s1, []) = Ret (pageAddr x, (s', [])) /\
    given s live n (pageAddr x) s' /\ mapped s' = mapped s.
Proof.
  intros [Hs Hg Hn Hnx] Hk Hx Hi Hp Hlt free' s1.
  pose proof (pop_shape s free live k i l Hs Hk) as Hs1. fold free' s1 in Hs1.
  set (y := mk_span 0 (pageAddr x + n * PAGE_SIZE) (k - n)).
  set (j := next_span s). assert (Hj : spans s !! j = None) by (by eapply next_fresh).
  assert (Hij : i <> j) by congruence.
  rewrite (bind_ret _ _ _ _ _ (new_span_run y s1)). change (next_span s1) with j.
  pose proof (shape_new s1 free' ({[i]} ∪ live) y Hs1 Hnx) as Hs2. change (next_span s1) with j in Hs2.
  set (s2 := with_span y s1) in *.
  assert (Hy2 : spans s2 !! j = Some y) by apply lookup_insert_eq.
  destruct (push_front_run s2 free' ({[j]} ∪ ({[i]} ∪ live)) j y Hs2 ltac:(set_solver) Hy2)
    as (s3 & E3 & Hs3 & Ha3 & Hm3 & Hmp3 & Hn3).
  rewrite (bind_ret _ _ _ _ _ E3).
  assert (Hjl : j ∉ live).
  { intros Hin. destruct (sh_live _ _ _ Hs j Hin) as [z Hz]. congruence. }
  replace (({[j]} ∪ ({[i]} ∪ live)) ∖ {[j]}) with ({[i]} ∪ live) in Hs3 by set_solver.
  assert (Ha2 : areas s2 = <[j := area y]> (areas s)) by (unfold areas; apply areas_insert).
  assert (Hi3 : areas s3 !! i = Some (area x)).
  { rewrite Ha3, Ha2, lookup_insert_ne by done. by apply areas_lookup. }
  destruct (areas_spans s3 i _ Hi3) as (x3 & Hx3 & [= Hadr3 Hnp3]).
  assert (Hi0 : i <> 0) by (apply (sh_ids _ _ _ Hs) in Hx; lia).
  rewrite (bind_ret _ _ _ _ _ (span_wr_run i (set_pages n) x3 s3 [] Hi0 Hx3)).
  pose proof (shape_insert s3 _ _ i (set_pages n x3) Hs3 ltac:(set_solver)) as Hs4.
  set (s4 := set_spans (<[i := set_pages n x3]> (spans s3)) s3) in *.
  assert (Ha4 : areas s4 = <[i := (pageAddr x, n)]> (<[j := area y]> (areas s))).
  { change (area <$> <[i := set_pages n x3]> (spans s3) = <[i := (pageAddr x, n)]> (<[j := area y]> (areas s))).
    rewrite areas_insert, Ha3, Ha2. unfold area at 1. cbn [set_pages pageAddr numPages]. by rewrite Hadr3. }
  assert (Hai : areas s !! i = Some (pageAddr x, k)) by (rewrite (areas_lookup s i x Hx); unfold area; by rewrite Hp).
  assert (Haj : areas s !! j = None) by (by apply areas_none).
  destruct (record_given s s4 (pushed j (numPages y) free') live i (set_pages n x3) n) as (s5 & E5 & H5 & Hmp5); try done.
  - rewrite Ha4. change (mapped s4) with (mapped s3). rewrite Hmp3. change (mapped s2) with (mapped s).
    by apply (geometry_split _ _ i j (pageAddr x) k n).
  - change (spanMap_ s4) with (spanMap_ s3). rewrite Hm3, Ha4. change (spanMap_ s2) with (spanMap_ s).
    apply (named_areas _ (areas s)); [done|by intros q Hq; eapply live_areas|].
    intros q a Hq. destruct (decide (i = q)) as [<-|Hne].
    + rewrite lookup_insert_eq. rewrite Hai in Hq. injection Hq as <-. by exists n.
    + rewrite !lookup_insert_ne by congruence. exists a.2. by destruct a.
  - change (next_span s4) with (next_span s3). rewrite Hn3. unfold s2. cbn. lia.
  - apply lookup_insert_eq.
  - intros q Hq. rewrite Ha4. rewrite !lookup_insert_ne by (intros ->; done). done.
  - cbn [set_pages pageAddr] in E5, H5. rewrite Hadr3 in E5, H5. exists s5. split; [exact E5|]. split; [exact H5|].
    rewrite Hmp5. exact Hmp3.
Qed.

(** The list that is picked has no span. *)
Definition emptied (n : Z) (s : page_cache) : Prop := exists k, lower_bound n (freeSpans_ s) = Some (k, 0).

#[export] Instance emptied_dec n s : Decision (emptied n s).
Proof.
  unfold emptied. destruct (lower_bound n (freeSpans_ s)) as [[k [|h]]|].
  - left. by exists k.
  - right. intros [k' [= ]].
  - right. intros [k' [=]].
Defined.

Lemma emptied_faults n mm s al : emptied n s -> allocateSpan n mm (s, al) = Fault NullDeref.
Proof. intros [k H]. unfold allocateSpan. rewrite bind_get. cbn [fst]. by rewrite H. Qed.

Definition fresh_map (s : page_cache) (n : Z) (mm : option Z) : Prop :=
  forall a y, mm = Some a -> inside y (a, n) -> ~ is_mapped (mapped s) y.

Lemma picked s free live n k h :
  inv s free live -> lower_bound n (freeSpans_ s) = Some (k, h) -> h <> 0 ->
  exists l x, free !! k = Some (h :: l) /\ spans s !! h = Some x /\ h ∉ live /\ numPages x = k /\
    next x = head0 l /\ (n <= k)%Z.
Proof.
  intros [Hs _ _ _] Hb Hh. apply lower_bound_some in Hb as (Hk & Hn & _).
  rewrite (sh_heads _ _ _ Hs), lookup_fmap in Hk. destruct (free !! k) as [l|] eqn:El; [|done].
  injection Hk as Hk. destruct l as [|i l]; cbn [head0 head default from_option id] in Hk; [by subst|]. subst i.
  pose proof (sh_linked _ _ _ Hs _ _ El) as (_ & (x & Hx & Hnx) & _).
  destruct (sh_size _ _ _ Hs _ _ h El ltac:(by left)) as (x' & Hx' & Hp). rewrite Hx in Hx'. injection Hx' as <-.
  exists l, x. split; [done|]. split; [done|]. split; [|done]. by apply (sh_out _ _ _ Hs _ _ h El); left.
Qed.

Lemma alloc_found s free live n mm k h :
  inv s free live -> (0 < n)%Z -> lower_bound n (freeSpans_ s) = Some (k, h) -> h <> 0 ->
  exists a s', allocateSpan n mm (s, []) = Ret (Some a, (s', [])) /\ given s live n a s' /\ mapped s' = mapped s.
Proof.
  intros Hi Hn Hb Hh. destruct (picked s free live n k h Hi Hb Hh) as (l & x & El & Hx & Hl & Hp & Hnx & Hle).
  unfold allocateSpan. rewrite bind_get. cbn [fst]. rewrite Hb.
  rewrite (bind_ret _ _ _ _ _ (span_rd_run next h x s [] Hh Hx)), Hnx.
  set (free' := if decide (head0 l = 0) then delete k free else <[k := l]> free).
  set (s1 := set_free (head0 <$> free') s).
  assert (Epop : forall K : unit -> pc (option Z),
    ((if decide (head0 l = 0) then modify (set_free (delete k (freeSpans_ s)))
      else modify (set_free (<[k := head0 l]> (freeSpans_ s)))) ≫= K) (s, []) = K tt (s1, [])).
  { intros K. unfold s1, free'. rewrite (sh_heads _ _ _ (i_shape _ _ _ Hi)).
    case_decide; rewrite bind_modify; cbn [fst snd]; by rewrite ?fmap_delete, ?fmap_insert. }
  rewrite Epop. rewrite (bind_ret _ _ _ _ _ (span_rd_run numPages h x s1 [] Hh Hx)), Hp.
  destruct (Z.ltb_spec n k) as [Hlt|Hge].
  - rewrite bind_bind, (bind_ret _ _ _ _ _ (span_rd_run pageAddr h x s1 [] Hh Hx)).
    destruct (alloc_part s free live k h l x n Hi El Hx Hl Hp ltac:(lia)) as (s' & E & Hg & Hm).
    exists (pageAddr x), s'. split; [|done]. fold free' s1 in E. cbv zeta in E.
    rewrite bind_bind. revert E. unfold mbind, M_bind.
    destruct (new_span _ _) as [[j [s2 al2]]|f|]; [|done|done].
    destruct (push_front j _) as [[u3 [s3 al3]]|f|]; [|done|done].
    destruct (wr h _ _) as [[u4 [s4 al4]]|f|]; [|done|done].
    destruct (record_span h _) as [[u5 [s5 al5]]|f|]; [|done|done]. by intros [= -> -> ->].
  - rewrite bind_mret. assert (k = n) as -> by lia.
    destruct (alloc_whole s free live n h l x n Hi El Hx Hl Hp) as (s' & E & Hg & Hm).
    exists (pageAddr x), s'. split; [|done]. fold free' s1 in E. cbv zeta in E. by rewrite (bind_ret _ _ _ _ _ E).
Qed.

Lemma alloc_mapped s free live n a :
  inv s free live -> (0 < n)%Z -> lower_bound n (freeSpans_ s) = None -> fresh_map s n (Some a) ->
  exists s', allocateSpan n (Some a) (s, []) = Ret (Some a, (s', [])) /\ given s live n a s' /\
    mapped s' = (a, n) :: mapped s.
Proof.
  intros [Hs Hg Hn Hnx] Hn0 Hb Hf. unfold allocateSpan. rewrite bind_get. cbn [fst]. rewrite Hb.
  cbn [systemAlloc]. rewrite bind_bind, bind_get. cbn [fst]. rewrite bind_bind, bind_put, bind_mret. cbn [fst snd].
  set (s1 := mk_cache _ _ _ _ _). set (y := mk_span 0 a n).
  rewrite (bind_ret _ _ _ _ _ (new_span_run y s1)).
  assert (Hs1 : shape s1 free live) by (destruct Hs as [H1 H2 H3 H4 H5 H6 H7]; by split).
  set (j := next_span s). assert (Hj : spans s !! j = None) by (by eapply next_fresh).
  assert (Hjl : j ∉ live) by (intros Hin; destruct (sh_live _ _ _ Hs j Hin); congruence).
  assert (Ha : areas (with_span y s1) = <[j := (a, n)]> (areas s)) by (unfold areas; apply areas_insert).
  destruct (record_given s (with_span y s1) free live j y n Hjl) as (s' & E & Hgiven & Hm); try done.
  - by apply (shape_new s1 free live y Hs1).
  - rewrite Ha. apply geometry_map; [done|by apply areas_none|done|]. intros z Hz. by apply (Hf a z).
  - rewrite Ha. apply (named_areas _ (areas s)); [done|by intros q Hq; eapply live_areas|].
    intros q b Hq. rewrite lookup_insert_ne by (intros <-; by rewrite (areas_none s j Hj) in Hq).
    exists b.2. by destruct b.
  - cbn. lia.
  - apply lookup_insert_eq.
  - intros q Hq. rewrite Ha. apply lookup_insert_ne. by intros ->.
  - exists s'. change (next_span s1) with j. rewrite (bind_ret _ _ _ _ _ E). done.
Qed.

(** ** Giving back *)

(** A span in use goes back to a list; the others stay. *)
Definition returned (s : page_cache) (live : gset nat) (i : nat) (free' : gmap Z (list nat)) (s' : page_cache) : Prop :=
  inv s' free' (live ∖ {[i]}) /\ (forall j, j ∈ live -> j <> i -> areas s' !! j = areas s !! j) /\
  mapped s' = mapped s.

Lemma push_returned s0 s free live i x :
  inv s free live -> i ∈ live -> spans s !! i = Some x ->
  (forall j, j ∈ live -> j <> i -> areas s !! j = areas s0 !! j) -> mapped s = mapped s0 ->
  exists s', push_front i (s, []) = Ret (tt, (s', [])) /\ returned s0 live i (pushed i (numPages x) free) s' /\
    areas s' = areas s /\ spanMap_ s' = spanMap_ s.
Proof.
  intros [Hs Hg Hn Hnx] Hi Hx Hj Hm.
  destruct (push_front_run s free live i x Hs Hi Hx) as (s' & E & Hs' & Ha & Hsm & Hmp & Hns).
  exists s'. split; [done|]. split; [|done]. split; [|split].
  - split; [done|by rewrite Ha, Hmp| |by rewrite Hns]. rewrite Hsm, Ha. apply (named_subset _ _ live); [set_solver|done].
  - intros j Hjl Hne. rewrite Ha. by apply Hj.
  - congruence.
Qed.

Lemma span_of s free live i a n :
  inv s free live -> i ∈ live -> areas s !! i = Some (a, n) -> spanMap_ s !! a = Some i.
Proof. intros Hi Hl Ha. apply (n_live _ _ _ (i_named _ _ _ Hi) i (a, n) Hl Ha). Qed.

(** Nothing behind it, or nothing free. *)
Lemma dealloc_alone s free live i a n :
  inv s free live -> i ∈ live -> areas s !! i = Some (a, n) -> spanMap_ s !! (a + n * PAGE_SIZE)%Z = None ->
  exists s', deallocateSpan a n (s, []) = Ret (tt, (s', [])) /\ returned s live i (pushed i n free) s' /\
    areas s' = areas s /\ spanMap_ s' = spanMap_ s.
Proof.
  intros Hi Hl Ha Hnone. unfold deallocateSpan. rewrite bind_get. cbn [fst].
  rewrite (span_of s free live i a n Hi Hl Ha), Hnone, bind_mret.
  destruct (areas_spans s i _ Ha) as (x & Hx & [= _ <-]). by apply (push_returned s s free live i x).
Qed.

Lemma dealloc_used s free live i a n j m :
  inv s free live -> i ∈ live -> areas s !! i = Some (a, n) ->
  spanMap_ s !! (a + n * PAGE_SIZE)%Z = Some j -> areas s !! j = Some ((a + n * PAGE_SIZE)%Z, m) ->
  j ∉ default [] (free !! m) ->
  exists s', deallocateSpan a n (s, []) = Ret (tt, (s', [])) /\
    returned s live i (pushed i n (listed m free)) s'.
Proof.
  intros Hi Hl Ha Hsome Haj Hj. unfold deallocateSpan. rewrite bind_get. cbn [fst].
  rewrite (span_of s free live i a n Hi Hl Ha), Hsome. destruct (areas_spans s j _ Haj) as (y & Hy & [= _ <-]).
  destruct Hi as [Hs Hg Hn Hnx].
  destruct (take_out_used s free live j y Hs Hy Hj) as (s1 & E & Hs1 & Har & Hsm & Hmp & Hns).
  rewrite bind_bind, (bind_ret _ _ _ _ _ E), bind_mret.
  rewrite <- Har in Ha. destruct (areas_spans s1 i _ Ha) as (x & Hx & [= _ <-]).
  destruct (push_returned s s1 (listed (numPages y) free) live i x) as (s' & E' & H' & _); try done.
  - split; [done|by rewrite Har, Hmp|by rewrite Hsm, Har|by rewrite Hns].
  - intros q _ _. by rewrite Har.
  - by exists s'.
Qed.

Lemma dealloc_join s free live i a n j m l :
  inv s free live -> i ∈ live -> areas s !! i = Some (a, n) ->
  spanMap_ s !! (a + n * PAGE_SIZE)%Z = Some j -> areas s !! j = Some ((a + n * PAGE_SIZE)%Z, m) ->
  free !! m = Some l -> j ∈ l ->
  exists s', deallocateSpan a n (s, []) = Ret (tt, (s', [])) /\
    returned s live i (pushed i (n + m) (<[m := without j l]> free)) s'.
Proof.
  intros Hi Hl Ha Hsome Haj Hfl Hj. unfold deallocateSpan. rewrite bind_get. cbn [fst].
  rewrite (span_of s free live i a n Hi Hl Ha), Hsome. destruct (areas_spans s j _ Haj) as (y & Hy & [= _ <-]).
  destruct Hi as [Hs Hg Hn Hnx].
  assert (Hjl : j ∉ live) by (intros Hin; by apply (sh_out _ _ _ Hs _ _ j Hfl Hj)).
  assert (Hij : i <> j) by (intros ->; done).
  destruct (take_out_listed s free live j y l Hs Hy Hfl Hj) as (s1 & E & Hs1 & Har & Hsm & Hmp & Hns).
  rewrite bind_bind, (bind_ret _ _ _ _ _ E).
  rewrite <- Har in Ha, Haj. destruct (areas_spans s1 i _ Ha) as (x & Hx & [= Hxa Hxn]).
  destruct (areas_spans s1 j _ Haj) as (y1 & Hy1 & [= Hya Hyn]).
  assert (Hi0 : i <> 0) by (apply (sh_ids _ _ _ Hs1) in Hx; lia).
  assert (Hj0 : j <> 0) by (apply (sh_ids _ _ _ Hs1) in Hy1; lia).
  rewrite bind_bind, (bind_ret _ _ _ _ _ (span_rd_run numPages j y1 s1 [] Hj0 Hy1)), Hyn.
  rewrite bind_bind. erewrite bind_ret; [|by apply span_wr_run]. cbn beta. rewrite Hxn.
  set (x2 := set_pages (n + numPages y) x). rewrite bind_bind, bind_get. cbn [fst].
  rewrite bind_bind, bind_modify. cbn [fst snd]. rewrite bind_bind, bind_get. cbn [fst]. rewrite bind_modify. cbn [fst snd].
  pose proof (shape_delete _ _ _ j (shape_insert s1 _ _ i x2 Hs1 ltac:(set_solver)) ltac:(set_solver)) as Hs2.
  replace (({[j]} ∪ live) ∖ {[j]}) with live in Hs2 by set_solver.
  set (s2 := set_spans _ _) in Hs2 |- *.
  match goal with |- context [push_front i (?z, [])] => set (s3 := z) end.
  assert (Har3 : areas s3 = delete j (<[i := (a, (n + numPages y)%Z)]> (areas s))).
  { change (area <$> delete j (<[i := x2]> (spans s1)) = delete j (<[i := (a, (n + numPages y)%Z)]> (areas s))).
    rewrite fmap_delete, areas_insert, Har. unfold area at 1. cbn [x2 set_pages pageAddr numPages]. by rewrite Hxa. }
  rewrite Har in Ha, Haj.
  destruct (push_returned s s3 (<[numPages y := without j l]> free) live i x2) as (s' & E' & H' & _); try done.
  - split.
    + destruct Hs2 as [H1 H2 H3 H4 H5 H6 H7]. by split.
    + rewrite Har3. change (mapped s3) with (mapped s1). rewrite Hmp. by apply geometry_join.
    + rewrite Har3. change (spanMap_ s3) with (delete (a + n * PAGE_SIZE)%Z (spanMap_ s1)). rewrite Hsm.
      by apply (named_join _ _ (mapped s)).
    + change (next_span s3) with (next_span s1). by rewrite Hns.
  - change (spans s3) with (delete j (<[i := x2]> (spans s1))). rewrite lookup_delete_ne by done. apply lookup_insert_eq.
  - intros q Hq Hne. rewrite Har3. rewrite lookup_delete_ne by (intros ->; done). by rewrite lookup_insert_ne.
  - by exists s'.
Qed.

Lemma dealloc_run s free live i a n :
  inv s free live -> i ∈ live -> areas s !! i = Some (a, n) ->
  exists s' free', deallocateSpan a n (s, []) = Ret (tt, (s', [])) /\ returned s live i free' s'.
Proof.
  intros Hi Hl Ha. destruct (spanMap_ s !! (a + n * PAGE_SIZE)%Z) as [j|] eqn:Ej.
  - destruct (n_span _ _ _ (i_named _ _ _ Hi) _ _ Ej) as [m Hm].
    destruct (decide (j ∈ default [] (free !! m))) as [Hin|Hni].
    + destruct (free !! m) as [l|] eqn:El; [|by apply elem_of_nil in Hin].
      destruct (dealloc_join s free live i a n j m l Hi Hl Ha Ej Hm El Hin) as (s' & E & H). by eexists _, _.
    + destruct (dealloc_used s free live i a n j m Hi Hl Ha Ej Hm Hni) as (s' & E & H). by eexists _, _.
  - destruct (dealloc_alone s free live i a n Hi Hl Ha Ej) as (s' & E & H & _). by eexists _, _.
Qed.

(** ** The client *)

(** [held]: the spans a client has, by address. *)
Definition holds (s : page_cache) (held : gmap Z Z) : Prop :=
  exists free live, inv s free live /\
    forall a n, held !! a = Some n <-> exists i, i ∈ live /\ areas s !! i = Some (a, n).

Inductive client : page_cache -> gmap Z Z -> Prop :=
  | client_start : client page_cache0 ∅
  | client_allocate s held n mm a s' :
      client s held -> (0 < n)%Z -> fresh_map s n mm ->
      allocateSpan n mm (s, []) = Ret (Some a, (s', [])) -> client s' (<[a := n]> held)
  | client_deallocate s held a n s' :
      client s held -> held !! a = Some n ->
      deallocateSpan a n (s, []) = Ret (tt, (s', [])) -> client s' (delete a held).

Lemma holds_start : holds page_cache0 ∅.
Proof.
  exists ∅, ∅. split.
  - split; [split| split |split|cbn; lia]; cbn; try done.
  - intros a n. split; [done|]. intros (i & Hi & _). by apply elem_of_empty in Hi.
Qed.

(** The result of an allocation, whatever it finds. *)
Lemma alloc_run s free live n mm :
  inv s free live -> (0 < n)%Z -> fresh_map s n mm -> ~ emptied n s ->
  (mm = None /\ allocateSpan n mm (s, []) = Ret (None, (s, []))) \/
  exists a s', allocateSpan n mm (s, []) = Ret (Some a, (s', [])) /\ given s live n a s' /\
    (mapped s' = mapped s \/ mm = Some a /\ mapped s' = (a, n) :: mapped s).
Proof.
  intros Hi Hn Hf Hne. destruct (lower_bound n (freeSpans_ s)) as [[k h]|] eqn:E.
  - right. assert (h <> 0) by (intros ->; apply Hne; by exists k).
    destruct (alloc_found s free live n mm k h Hi Hn E ltac:(done)) as (a & s' & Ea & Hg & Hm). exists a, s'. auto.
  - destruct mm as [a|].
    + right. destruct (alloc_mapped s free live n a Hi Hn E Hf) as (s' & Ea & Hg & Hm). exists a, s'. auto.
    + left. split; [done|]. unfold allocateSpan. rewrite bind_get. cbn [fst]. by rewrite E.
Qed.

Lemma holds_given s held free live n a s' :
  inv s free live -> (forall a n, held !! a = Some n <-> exists i, i ∈ live /\ areas s !! i = Some (a, n)) ->
  given s live n a s' -> holds s' (<[a := n]> held).
Proof.
  intros Hi Hh (free' & i & Hl & Hi' & Ha & Hj). exists free', ({[i]} ∪ live). split; [done|].
  intros b m. rewrite lookup_insert_Some. split.
  - intros [[<- <-]|[_ (j & Hjl & Hjb)%Hh]]; [exists i; set_solver|]. exists j. split; [set_solver|].
    by rewrite Hj.
  - intros (j & [->%elem_of_singleton|Hjl]%elem_of_union & Hjb).
    + rewrite Ha in Hjb. injection Hjb as <- <-. by left.
    + right. split.
      * intros <-. apply Hl. by rewrite (same_address _ _ i j _ _ (i_geometry _ _ _ Hi') Ha Hjb).
      * apply Hh. exists j. split; [done|]. by rewrite <- Hj.
Qed.

Lemma holds_returned s held free live i a n free' s' :
  inv s free live -> (forall a n, held !! a = Some n <-> exists i, i ∈ live /\ areas s !! i = Some (a, n)) ->
  i ∈ live -> areas s !! i = Some (a, n) -> returned s live i free' s' -> holds s' (delete a held).
Proof.
  intros Hi Hh Hil Ha (Hi' & Hj & _). exists free', (live ∖ {[i]}). split; [done|].
  intros b m. rewrite lookup_delete_Some. split.
  - intros [Hne (j & Hjl & Hjb)%Hh]. assert (j <> i) by (intros ->; congruence).
    exists j. split; [set_solver|]. by rewrite Hj.
  - intros (j & [Hjl Hji]%elem_of_difference & Hjb). assert (j <> i) by set_solver.
    rewrite Hj in Hjb by done. split; [|apply Hh; by exists j].
    intros ->. by pose proof (same_address _ _ j i _ _ (i_geometry _ _ _ Hi) Hjb Ha eq_refl).
Qed.

Lemma client_holds s held : client s held -> holds s held.
Proof.
  induction 1 as [|s held n mm a s' _ (free & live & Hi & Hh) Hn Hf E|s held a n s' _ (free & live & Hi & Hh) Ha E].
  - apply holds_start.
  - destruct (decide (emptied n s)) as [He|He]; [by rewrite emptied_faults in E|].
    destruct (alloc_run s free live n mm Hi Hn Hf He) as [[_ E']|(a' & s2 & E' & Hg & _)]; rewrite E in E'; [done|].
    injection E' as <- <-. by apply (holds_given s held free live n a s').
  - pose proof Ha as (i & Hl & Hia)%Hh. destruct (dealloc_run s free live i a n Hi Hl Hia) as (s2 & free' & E' & Hr).
    rewrite E in E'. injection E' as <-. by apply (holds_returned s held free live i a n free').
Qed.

(** What the system gave are pages. *)
Lemma client_mapped s held : client s held -> Forall (fun a => 0 < a.2)%Z (mapped s).
Proof.
  induction 1 as [|s held n mm a s' Hc IH Hn Hf E|s held a n s' Hc IH Ha E]; [constructor|..];
    destruct (client_holds _ _ Hc) as (free & live & Hi & Hh).
  - destruct (decide (emptied n s)) as [He|He]; [by rewrite emptied_faults in E|].
    destruct (alloc_run s free live n mm Hi Hn Hf He) as [[_ E']|(a' & s2 & E' & _ & Hm)]; rewrite E in E'; [done|].
    injection E' as <- <-. destruct Hm as [->|[_ ->]]; [done|by constructor].
  - pose proof Ha as (i & Hl & Hia)%Hh. destruct (dealloc_run s free live i a n Hi Hl Hia) as (s2 & free' & E' & _ & _ & Hm).
    rewrite E in E'. injection E' as <-. by rewrite Hm.
Qed.

(** C14: however a client allocates and gives back spans, the spans it holds never overlap
    and lie in memory the system gave; giving back a span always works; allocating works, and
    fails only when the system refuses, except that it dereferences NULL exactly when the
    smallest list that is large enough has been emptied. *)
Theorem page_cache_serves_disjoint_spans s held :
  client s held ->
  (forall a n b m, held !! a = Some n -> held !! b = Some m -> a <> b -> apart (a, n) (b, m)) /\
  (forall a n y, held !! a = Some n -> inside y (a, n) -> is_mapped (mapped s) y) /\
  (forall a n, held !! a = Some n -> exists s', deallocateSpan a n (s, []) = Ret (tt, (s', []))) /\
  (forall n mm, (0 < n)%Z -> fresh_map s n mm ->
     if decide (emptied n s) then allocateSpan n mm (s, []) = Fault NullDeref
     else exists o s', allocateSpan n mm (s, []) = Ret (o, (s', [])) /\ (o = None -> mm = None)).
Proof.
  intros (free & live & Hi & Hh)%client_holds. pose proof (i_geometry _ _ _ Hi) as [H1 H2 H3]. split; [|split; [|split]].
  - intros a n b m (i & _ & Hia)%Hh (j & _ & Hjb)%Hh Hne. apply (H2 i j); [|done|done]. intros ->. congruence.
  - intros a n y (i & _ & Hia)%Hh. by apply (H3 i).
  - intros a n (i & Hl & Hia)%Hh. destruct (dealloc_run s free live i a n Hi Hl Hia) as (s' & _ & E & _). by exists s'.
  - intros n mm Hn Hf. case_decide as He; [by apply emptied_faults|].
    destruct (alloc_run s free live n mm Hi Hn Hf He) as [[Hm E]|(a & s' & E & _)]; by eexists _, _.
Qed.

(** ** Lists that are emptied by joining *)

Lemma lower_bound_least n (mp : gmap Z nat) k h :
  mp !! k = Some h -> (n <= k)%Z -> (forall k', is_Some (mp !! k') -> (n <= k')%Z -> (k <= k')%Z) ->
  lower_bound n mp = Some (k, h).
Proof.
  intros Hk Hn Hmin. destruct (lower_bound n mp) as [[k' h']|] eqn:E.
  - apply lower_bound_some in E as (Hk' & Hn' & Hmin').
    assert (k' = k) as -> by (pose proof (Hmin k' ltac:(by eexists) Hn'); pose proof (Hmin' k ltac:(by eexists) Hn); lia).
    congruence.
  - pose proof (lower_bound_fold n (map_to_list mp)) as Hf. unfold lower_bound in E. rewrite E in Hf.
    specialize (Hf (k, h) ltac:(by apply elem_of_map_to_list)). cbn [fst] in Hf. lia.
Qed.

(** Two neighbouring spans are given back, the one behind first: they are joined, the
    list of the second one stays behind with NULL, and the next allocation of that many pages
    dereferences it, although there is a free span that is large enough. *)
Theorem page_cache_join_faults s held a n m mm :
  client s held -> freeSpans_ s = ∅ ->
  held !! a = Some n -> held !! (a + n * PAGE_SIZE)%Z = Some m ->
  spanMap_ s !! (a + n * PAGE_SIZE + m * PAGE_SIZE)%Z = None ->
  (deallocateSpan (a + n * PAGE_SIZE) m ;; deallocateSpan a n ;; allocateSpan m mm) (s, []) = Fault NullDeref.
Proof.
  intros (free & live & Hi & Hh)%client_holds Hempty (i & Hil & Hia)%Hh (j & Hjl & Hja)%Hh Hnone.
  pose proof (g_pos _ _ (i_geometry _ _ _ Hi) _ _ Hia) as Pn. cbn [snd] in Pn.
  pose proof (g_pos _ _ (i_geometry _ _ _ Hi) _ _ Hja) as Pm. cbn [snd] in Pm.
  assert (Hij : i <> j) by (intros ->; rewrite Hia in Hja; injection Hja as E1 _; unfold PAGE_SIZE in E1; lia).
  assert (Hfree : free = ∅).
  { pose proof (sh_heads _ _ _ (i_shape _ _ _ Hi)) as Ef. rewrite Hempty in Ef. symmetry in Ef.
    by apply fmap_empty_inv in Ef. }
  subst free. destruct (dealloc_alone s ∅ live j _ m Hi Hjl Hja Hnone) as (s1 & E1 & (Hi1 & _ & _) & Ha1 & Hm1).
  rewrite (bind_ret _ _ _ _ _ E1). pose proof (span_of s ∅ live j _ m Hi Hjl Hja) as Hname.
  destruct (dealloc_join s1 (pushed j m ∅) (live ∖ {[j]}) i a n j m [j] Hi1) as (s2 & E2 & (Hi2 & _ & _)).
  - set_solver.
  - by rewrite Ha1.
  - by rewrite Hm1.
  - by rewrite Ha1.
  - apply lookup_insert_eq.
  - by left.
  - rewrite (bind_ret _ _ _ _ _ E2). apply emptied_faults. exists m.
    rewrite (sh_heads _ _ _ (i_shape _ _ _ Hi2)). unfold pushed. cbn [without]. rewrite decide_True by done.
    rewrite insert_insert_eq. rewrite (lookup_insert_ne _ m) by lia.
    apply lower_bound_least; [|done|].
    + rewrite lookup_fmap, lookup_insert_ne by lia. by rewrite lookup_insert_eq.
    + intros k. rewrite lookup_fmap, fmap_is_Some. intros [x Hx] Hk. done.
Qed.

(** ** Witnesses *)

(** 16 pages are mapped and given back, and then given out in two halves. *)
Definition one_mapped : page_cache := mk_cache ∅ {[65536%Z := 1]} {[1 := mk_span 0 65536 16]} 2 [(65536, 16)]%Z.
Definition one_free : page_cache :=
  mk_cache {[16%Z := 1]} {[65536%Z := 1]} {[1 := mk_span 0 65536 16]} 2 [(65536, 16)]%Z.
Definition one_half : page_cache :=
  mk_cache {[8%Z := 2]} {[65536%Z := 1]} {[1 := mk_span 0 65536 8; 2 := mk_span 0 98304 8]} 3 [(65536, 16)]%Z.
Definition two_halves : page_cache :=
  mk_cache ∅ {[65536%Z := 1; 98304%Z := 2]} {[1 := mk_span 0 65536 8; 2 := mk_span 0 98304 8]} 3 [(65536, 16)]%Z.

Definition halves_held : gmap Z Z := <[98304%Z := 8%Z]> (<[65536%Z := 8%Z]> (delete 65536%Z (<[65536%Z := 16%Z]> ∅))).

Lemma two_halves_client : client two_halves halves_held.
Proof.
  apply (client_allocate one_half _ 8 None 98304); [|lia|by intros ? ? [=]|vm_compute; reflexivity].
  apply (client_allocate one_free _ 8 None 65536); [|lia|by intros ? ? [=]|vm_compute; reflexivity].
  apply (client_deallocate one_mapped _ 65536 16); [|apply lookup_insert_eq|vm_compute; reflexivity].
  apply (client_allocate page_cache0 ∅ 16 (Some 65536%Z)); [apply client_start|lia| |vm_compute; reflexivity].
  intros b y _ _ (z & Hz & _). by apply elem_of_nil in Hz.
Qed.

Example page_cache_serves_disjoint_spans_witness :
  apart (65536, 8)%Z (98304, 8)%Z /\
  exists s', deallocateSpan 98304 8 (two_halves, []) = Ret (tt, (s', [])).
Proof.
  destruct (page_cache_serves_disjoint_spans _ _ two_halves_client) as (H1 & _ & H3 & _). split.
  - apply (H1 65536 8 98304 8)%Z; [vm_compute; reflexivity|vm_compute; reflexivity|discriminate].
  - apply (H3 98304 8)%Z. vm_compute. reflexivity.
Defined.

Example page_cache_join_faults_witness :
  (deallocateSpan 98304 8 ;; deallocateSpan 65536 8 ;; allocateSpan 8 None) (two_halves, []) = Fault NullDeref.
Proof.
  apply (page_cache_join_faults two_halves _ 65536 8 8 None two_halves_client); vm_compute; reflexivity.
Defined.
