(* ===== verification/CentralCache.v ===== *)
(** * The central cache of the C++ pool ([src/mempool/src/CentralCache.cpp])

    Free blocks by size class, linked through their first words; a class without blocks
    gets a span from the page cache and cuts it.  Trackers remember the spans, and when
    blocks come back often or late, spans whose blocks seem to be free go back to the page
    cache.  The spin lock of a class is held during the whole of [fetchRange] and
    [returnRange], so they are atomic for one class; what [steady_clock::now] and [mmap]
    return are arguments. *)

From S2P Require Import Prelude PageCache.

Module CentralCache.

(** [src/mempool/include/Common.h] *)
Definition ALIGNMENT : Z := 8.
Definition MAX_BYTES : Z := 256 * 1024.
Definition FREE_LIST_SIZE : Z := MAX_BYTES / ALIGNMENT.

Definition roundUp (bytes : Z) : Z := Z.land (wrap 64 (bytes + ALIGNMENT - 1)) (Z.lnot (ALIGNMENT - 1)).
Definition getIndex (bytes : Z) : Z := (wrap 64 (Z.max bytes ALIGNMENT + ALIGNMENT - 1) / ALIGNMENT - 1)%Z.

Definition SPAN_PAGES : Z := 8.
Definition SPAN_TRACKER_NUM : nat := 1024.
Definition MAX_DELAY_COUNT : Z := 48.
Definition DELAY_INTERVAL : Z := 100.   (** milliseconds *)

(** [count], which nothing reads or writes, is left out. *)
Record SpanTracker := mk_tracker { spanAddr : Z; t_numPages : Z; blockCount : Z; freeCount : Z }.
Definition tracker0 : SpanTracker := mk_tracker 0 0 0 0.

(** [words]: the memory of the spans, by address; what was never written is 0, as
    [systemAlloc] leaves it.  In the tables a missing entry is 0. *)
Record central := mk_central {
  words : gmap Z Z;
  pages : PageCache.page_cache;
  centralFreelist_ : gmap Z Z;
  spanTrackers_ : list SpanTracker;
  spanCount_ : nat;
  delayCounts_ : gmap Z Z;
  lastReturnTime_ : gmap Z Z
}.

(** [started]: the time of the constructor. *)
Definition central0 (started : Z) : central :=
  mk_central ∅ PageCache.page_cache0 ∅ (replicate SPAN_TRACKER_NUM tracker0) 0 ∅
    (list_to_map ((fun i => (Z.of_nat i, started)) <$> seq 0 (Z.to_nat FREE_LIST_SIZE))).

Abbreviation cc A := (M central A).

Definition set_words x c := mk_central x (pages c) (centralFreelist_ c) (spanTrackers_ c) (spanCount_ c) (delayCounts_ c) (lastReturnTime_ c).
Definition set_page_cache x c := mk_central (words c) x (centralFreelist_ c) (spanTrackers_ c) (spanCount_ c) (delayCounts_ c) (lastReturnTime_ c).
Definition set_lists x c := mk_central (words c) (pages c) x (spanTrackers_ c) (spanCount_ c) (delayCounts_ c) (lastReturnTime_ c).
Definition set_trackers x c := mk_central (words c) (pages c) (centralFreelist_ c) x (spanCount_ c) (delayCounts_ c) (lastReturnTime_ c).
Definition set_count x c := mk_central (words c) (pages c) (centralFreelist_ c) (spanTrackers_ c) x (delayCounts_ c) (lastReturnTime_ c).
Definition set_delays x c := mk_central (words c) (pages c) (centralFreelist_ c) (spanTrackers_ c) (spanCount_ c) x (lastReturnTime_ c).
Definition set_times x c := mk_central (words c) (pages c) (centralFreelist_ c) (spanTrackers_ c) (spanCount_ c) (delayCounts_ c) x.

Definition on_pages {A} (m : PageCache.pc A) : cc A := zoom pages set_page_cache m.

(** ** Memory *)

(** The eight bytes at [p] lie in memory the system gave. *)
Definition byte_mapped (mp : list (Z * Z)) (y : Z) : bool :=
  existsb (fun a => (a.1 <=? y) && (y <? a.1 + a.2 * PageCache.PAGE_SIZE))%Z mp.
Definition word_mapped (mp : list (Z * Z)) (p : Z) : bool :=
  forallb (fun k => byte_mapped mp (p + k)) [0; 1; 2; 3; 4; 5; 6; 7]%Z.

(** Reading and writing a pointer through [void **]. *)
Definition load (p : Z) : cc Z :=
  c ← get;
  if decide (p = 0)%Z then raise NullDeref else
  if word_mapped (PageCache.mapped (pages c)) p then mret (default 0%Z (words c !! p)) else raise BadPointer.

Definition store (p v : Z) : cc unit :=
  c ← get;
  if decide (p = 0)%Z then raise NullDeref else
  if word_mapped (PageCache.mapped (pages c)) p then modify (set_words (<[p := v]> (words c))) else raise BadPointer.

(** The fuel of the walks over linked blocks: one more than there are words, so that only a
    cycle uses it up. *)
Definition blocks_bound (c : central) : nat :=
  S (Z.to_nat (foldr (fun a n => n + a.2 * 512) 0 (PageCache.mapped (pages c))))%Z.

Definition get_list (index : Z) : cc Z := c ← get; mret (default 0%Z (centralFreelist_ c !! index)).
Definition set_list (index p : Z) : cc unit := c ← get; modify (set_lists (<[index := p]> (centralFreelist_ c))).

(** ** Fetching *)

(** [for (i = ..; i < blockNum; ++i)]: [n] steps from block [i]. *)
Fixpoint link_blocks (n : nat) (start size : Z) (i : Z) : cc unit :=
  match n with
  | O => mret tt
  | S n => store (start + (i - 1) * size) (start + i * size) ;; link_blocks n start size (i + 1)
  end.

Definition span_pages (size : Z) : Z :=
  if (size <=? SPAN_PAGES * PageCache.PAGE_SIZE)%Z then SPAN_PAGES
  else (size + PageCache.PAGE_SIZE - 1) / PageCache.PAGE_SIZE.

Definition fetchFromPageCache (size : Z) (mm : option Z) : cc (option Z) :=
  let numPages := ((size + PageCache.PAGE_SIZE - 1) / PageCache.PAGE_SIZE)%Z in
  if (size <? SPAN_PAGES * PageCache.PAGE_SIZE)%Z then on_pages (PageCache.allocateSpan SPAN_PAGES mm)
  else on_pages (PageCache.allocateSpan numPages mm).

(** [getFromRange]: the loop over the trackers in use; [n]: how many are left. *)
Fixpoint find_tracker (n i : nat) (addr : Z) : cc (option nat) :=
  match n with
  | O => mret None
  | S n =>
      c ← get;
      match spanTrackers_ c !! i with
      | None => raise OutOfBounds
      | Some t =>
          if ((spanAddr t <=? addr) && (addr <? spanAddr t + t_numPages t * PageCache.PAGE_SIZE))%Z
          then mret (Some i) else find_tracker n (S i) addr
      end
  end.
Definition getFromRange (addr : Z) : cc (option nat) := c ← get; find_tracker (spanCount_ c) 0 addr.

Definition upd_tracker (i : nat) (f : SpanTracker -> SpanTracker) : cc unit :=
  c ← get; modify (set_trackers (alter f i (spanTrackers_ c))).

(** NULL is [None]. *)
Definition fetchRange (index : Z) (mm : option Z) : cc (option Z) :=
  if (FREE_LIST_SIZE <=? index)%Z then mret None else
  result ← get_list index;
  if negb (result =? 0)%Z then mret (Some result) else
  let size := ((index + 1) * ALIGNMENT)%Z in
  fetched ← fetchFromPageCache size mm;
  match fetched with
  | None => mret None
  | Some start =>
      let numPages := span_pages size in
      let blockNum := (numPages * PageCache.PAGE_SIZE / size)%Z in
      (if (1 <? blockNum)%Z then
         link_blocks (Z.to_nat (blockNum - 1)) start size 1 ;;
         store (start + (blockNum - 1) * size) 0 ;;
         next ← load start;
         store start 0 ;;
         set_list index next ;;
         c ← get;
         let trackerIndex := spanCount_ c in
         modify (set_count (S trackerIndex)) ;;
         if decide (trackerIndex < length (spanTrackers_ c)) then
           upd_tracker trackerIndex (fun _ => mk_tracker start numPages blockNum (blockNum - 1))
         else mret tt
       else
         next ← load start;
         set_list index next ;;
         tracker ← getFromRange start;
         match tracker with
         | None => mret tt
         | Some t => upd_tracker t (fun x => mk_tracker (spanAddr x) (t_numPages x) (blockCount x) (wrap 64 (freeCount x - 1)))
         end) ;;
      mret (Some start)
  end.

(** ** Returning *)

(** The last block of a chain, or the [count]-th. *)
Fixpoint chain_end (fuel : nat) (p count blockcount : Z) : cc Z :=
  match fuel with
  | O => out_of_fuel
  | S fuel =>
      nx ← load p;
      if negb (nx =? 0)%Z && (count <? blockcount)%Z then chain_end fuel nx (count + 1) blockcount else mret p
  end.

(** Takes the blocks between [lo] and [hi] out of a list; returns the new head. *)
Fixpoint drop_span (fuel : nat) (lo hi : Z) (newhead prev current : Z) : cc Z :=
  match fuel with
  | O => out_of_fuel
  | S fuel =>
      if (current =? 0)%Z then mret newhead else
      next ← load current;
      if ((lo <=? current) && (current <? hi))%Z then
        if negb (prev =? 0)%Z then store prev next ;; drop_span fuel lo hi newhead prev next
        else drop_span fuel lo hi next prev next
      else drop_span fuel lo hi newhead current next
  end.

Definition updateSpanFreeCount (tracker : nat) (newFreeBlocks index : Z) : cc unit :=
  c ← get;
  match spanTrackers_ c !! tracker with
  | None => raise OutOfBounds
  | Some t =>
      let newFreeCount := wrap 64 (freeCount t + newFreeBlocks) in
      if (newFreeCount =? blockCount t)%Z then
        head ← get_list index;
        newhead ← drop_span (blocks_bound c) (spanAddr t) (spanAddr t + t_numPages t * PageCache.PAGE_SIZE) 0 0 head;
        set_list index newhead ;;
        on_pages (PageCache.deallocateSpan (spanAddr t) (t_numPages t))
      else mret tt
  end.

(** [spanFreeCounts[tracker]++] *)
Definition incr (m : gmap nat Z) (t : nat) : gmap nat Z := <[t := (default 0 (m !! t) + 1)%Z]> m.

Fixpoint count_free (fuel : nat) (current : Z) (counts : gmap nat Z) : cc (gmap nat Z) :=
  match fuel with
  | O => out_of_fuel
  | S fuel =>
      if (current =? 0)%Z then mret counts else
      tracker ← getFromRange current;
      next ← load current;
      count_free fuel next (match tracker with None => counts | Some t => incr counts t end)
  end.

Fixpoint update_spans (index : Z) (counts : list (nat * Z)) : cc unit :=
  match counts with
  | [] => mret tt
  | (t, n) :: counts => updateSpanFreeCount t n index ;; update_spans index counts
  end.

Section returning.
(** The order in which an [unordered_map] is visited. *)
Context (visit : gmap nat Z -> list (nat * Z)).

Definition performDelayReturn (index now : Z) : cc unit :=
  c ← get;
  modify (set_delays (<[index := 0%Z]> (delayCounts_ c))) ;;
  c ← get;
  modify (set_times (<[index := now]> (lastReturnTime_ c))) ;;
  currentBlock ← get_list index;
  counts ← count_free (blocks_bound c) currentBlock ∅;
  update_spans index (visit counts).

Definition shouldPerformDelayReturn (index currentCount now : Z) : cc bool :=
  c ← get;
  if (MAX_DELAY_COUNT <=? currentCount)%Z then mret true
  else mret (DELAY_INTERVAL <=? now - default 0%Z (lastReturnTime_ c !! index))%Z.

Definition returnRange (start size index now : Z) : cc unit :=
  if (start =? 0)%Z || (FREE_LIST_SIZE <=? index)%Z then mret tt else
  let block_size := ((index + 1) * ALIGNMENT)%Z in
  let blockcount := (size / block_size)%Z in
  c ← get;
  last ← chain_end (blocks_bound c) start 1 blockcount;
  current ← get_list index;
  store last current ;;
  set_list index start ;;
  c ← get;
  let currentCount := (default 0 (delayCounts_ c !! index) + 1)%Z in
  modify (set_delays (<[index := currentCount]> (delayCounts_ c))) ;;
  should ← shouldPerformDelayReturn index currentCount now;
  if (should : bool) then performDelayReturn index now else mret tt.

End returning.
End CentralCache.
