(* ===== verification/CentralCacheSpec.v ===== *)
(** * What the central cache guarantees

    Size classes hold what is asked of them; a class without blocks is filled with the
    blocks of a new span, which lie side by side in it.  The account of free blocks is not
    kept: a span goes back to the page cache exactly when one of its blocks is in the list,
    whoever has the others. *)

From S2P Require Import Prelude PageCache PageCacheSpec CentralCache.
Import CentralCache.

(** ** Size classes *)

Lemma land_lnot_7 x : Z.land x (Z.lnot 7) = (8 * (x / 8))%Z.
Proof.
  change (Z.land x (Z.lnot 7)) with (Z.ldiff x (Z.ones 3)).
  rewrite Z.ldiff_ones_r, Z.shiftr_div_pow2, Z.shiftl_mul_pow2 by lia. change (2 ^ 3)%Z with 8%Z. lia.
Qed.

Lemma wrap_small w z : (0 <= z < 2 ^ w)%Z -> wrap w z = z.
Proof. intros H. by apply Z.mod_small. Qed.

Lemma getIndex_small n : (0 <= n <= MAX_BYTES)%Z -> getIndex n = ((Z.max n 8 + 7) / 8 - 1)%Z.
Proof.
  intros H. unfold getIndex, MAX_BYTES, ALIGNMENT in *.
  rewrite wrap_small by lia. f_equal. f_equal. lia.
Qed.

(** The bytes of a block of a class. *)
Definition class_size (index : Z) : Z := ((index + 1) * ALIGNMENT)%Z.

Lemma size_class n :
  (0 < n <= MAX_BYTES)%Z ->
  (0 <= getIndex n < FREE_LIST_SIZE)%Z /\ class_size (getIndex n) = roundUp n /\
  (n <= roundUp n < n + ALIGNMENT)%Z /\ (forall i, (i < getIndex n)%Z -> (class_size i < n)%Z).
Proof.
  intros H. rewrite getIndex_small by lia. unfold roundUp. change (ALIGNMENT - 1)%Z with 7%Z. rewrite land_lnot_7.
  unfold class_size, MAX_BYTES, FREE_LIST_SIZE, MAX_BYTES, ALIGNMENT in *. change (256 * 1024 / 8)%Z with 32768%Z.
  rewrite wrap_small by lia.
  pose proof (Z.div_mod (n + 8 - 1) 8 ltac:(lia)). pose proof (Z.mod_pos_bound (n + 8 - 1) 8 ltac:(lia)).
  pose proof (Z.div_mod (Z.max n 8 + 7) 8 ltac:(lia)). pose proof (Z.mod_pos_bound (Z.max n 8 + 7) 8 ltac:(lia)).
  split; [lia|]. split; [lia|]. split; [lia|]. intros i Hi. lia.
Qed.

(** C18: every request of at most 256 KB has a size class; the blocks of the class have
    the size of the request rounded up to a multiple of 8, less than 8 bytes more than was
    asked, and those of every smaller class are too small. *)
Theorem size_class_fits n :
  (0 < n <= MAX_BYTES)%Z ->
  (0 <= getIndex n < FREE_LIST_SIZE)%Z /\ class_size (getIndex n) = roundUp n /\
  (n <= roundUp n < n + ALIGNMENT)%Z /\ (forall i, (i < getIndex n)%Z -> (class_size i < n)%Z).
Proof. apply size_class. Qed.

Example size_class_fits_witness : (0 <= getIndex 100 < FREE_LIST_SIZE)%Z /\ (100 <= roundUp 100 < 108)%Z.
Proof. destruct (size_class_fits 100) as (H1 & _ & H3 & _); [by unfold MAX_BYTES|]. by split. Defined.

(** ** Memory *)

(** The word at [p] can be used. *)
Definition usable (c : central) (p : Z) : Prop :=
  p <> 0%Z /\ word_mapped (PageCache.mapped (pages c)) p = true.

Lemma block_load_run c p : usable c p -> load p (c, []) = Ret (default 0%Z (words c !! p), (c, [])).
Proof. intros [H1 H2]. unfold load. rewrite bind_get. cbn [fst]. by rewrite decide_False, H2. Qed.

Lemma store_run c p v : usable c p -> store p v (c, []) = Ret (tt, (set_words (<[p := v]> (words c)) c, [])).
Proof. intros [H1 H2]. unfold store. rewrite bind_get. cbn [fst]. by rewrite decide_False, H2. Qed.

Lemma byte_mapped_spec mp y : byte_mapped mp y = true <-> is_mapped mp y.
Proof.
  unfold byte_mapped, is_mapped. rewrite existsb_exists. split.
  - intros (a & Ha & H). exists a. split; [by apply list_elem_of_In|]. unfold inside, ends. lia.
  - intros (a & Ha & H). exists a. split; [by apply list_elem_of_In|]. unfold inside, ends in H. lia.
Qed.

Lemma word_mapped_span mp a n p :
  (forall y, inside y (a, n) -> is_mapped mp y) -> (a <= p)%Z -> (p + 8 <= ends (a, n))%Z -> word_mapped mp p = true.
Proof.
  intros H H1 H2. unfold word_mapped. apply forallb_forall. intros k Hk. apply byte_mapped_spec, H.
  unfold inside, ends in *. cbn [fst snd] in *. cbn [In] in Hk. lia.
Qed.

(** ** Cutting a span *)

(** The blocks [l], each pointing to the next one, the last one to NULL. *)
Fixpoint chained (c : central) (l : list Z) : Prop :=
  match l with
  | [] => True
  | p :: l => usable c p /\ default 0%Z (words c !! p) = default 0%Z (head l) /\ chained c l
  end.

(** Block [i] of [n] blocks of [size] bytes, and the [k] blocks from it. *)
Definition block (start size i : Z) : Z := (start + i * size)%Z.
Fixpoint blocks_from (k : nat) (start size i : Z) : list Z :=
  match k with
  | O => []
  | S k => block start size i :: blocks_from k start size (i + 1)
  end.

Lemma blocks_from_in k start size : forall i p,
  p ∈ blocks_from k start size i <-> exists j, (i <= j < i + Z.of_nat k)%Z /\ p = block start size j.
Proof.
  induction k as [|k IH]; intros i p; cbn [blocks_from].
  - rewrite elem_of_nil. split; [done|]. intros (j & Hj & _). lia.
  - rewrite elem_of_cons, IH. split.
    + intros [->|(j & Hj & ->)]; [exists i; split; [lia|done]|exists j; split; [lia|done]].
    + intros (j & Hj & ->). destruct (decide (j = i)) as [->|]; [by left|]. right. exists j. split; [lia|done].
Qed.

Lemma chained_frame c c' l :
  (forall p, p ∈ l -> default 0%Z (words c' !! p) = default 0%Z (words c !! p)) ->
  PageCache.mapped (pages c') = PageCache.mapped (pages c) -> chained c l -> chained c' l.
Proof.
  intros Hw Hm. induction l as [|p l IH]; [done|]. cbn [chained]. intros (Hp & Hv & Hl). split; [|split].
  - unfold usable in *. by rewrite Hm.
  - rewrite Hw; [done|by left].
  - apply IH; [|done]. intros q Hq. apply Hw. by right.
Qed.

(** The loop and the store after it link the blocks [i-1 .. i-1+n]. *)
Lemma link_blocks_run n : forall c start size i,
  (0 < size)%Z -> (forall j, (i - 1 <= j < i + Z.of_nat n)%Z -> usable c (block start size j)) ->
  exists w, (link_blocks n start size i ;; store (start + (i - 1 + Z.of_nat n) * size) 0) (c, [])
      = Ret (tt, (set_words w c, [])) /\
    chained (set_words w c) (blocks_from (S n) start size (i - 1)) /\
    forall p, p ∉ blocks_from (S n) start size (i - 1) -> w !! p = words c !! p.
Proof.
  induction n as [|n IH]; intros c start size i Hs Hu; cbn [link_blocks].
  - rewrite bind_mret. exists (<[block start size (i - 1) := 0%Z]> (words c)).
    replace (i - 1 + Z.of_nat 0)%Z with (i - 1)%Z by lia. fold (block start size (i - 1)).
    split; [apply store_run, Hu; lia|]. split.
    + cbn [blocks_from chained]. split; [apply Hu; lia|]. split; [|done]. cbn [words set_words head default from_option].
      by rewrite lookup_insert_eq.
    + intros p Hp. cbn [blocks_from] in Hp. apply lookup_insert_ne. intros <-. apply Hp. by left.
  - fold (block start size (i - 1)). fold (block start size i). rewrite bind_bind.
    rewrite (bind_ret _ _ _ _ _ (store_run c (block start size (i - 1)) (block start size i) (Hu (i - 1)%Z ltac:(lia)))).
    set (c1 := set_words _ c).
    destruct (IH c1 start size (i + 1)%Z Hs) as (w & E & Hch & Hw).
    { intros j Hj. apply Hu. lia. }
    replace (i + 1 - 1)%Z with i in * by lia.
    replace (i - 1 + Z.of_nat (S n))%Z with (i + Z.of_nat n)%Z by lia.
    exists w. split; [exact E|].
    assert (Hfar : block start size (i - 1) ∉ blocks_from (S n) start size i).
    { rewrite blocks_from_in. intros (j & Hj & Heq). unfold block in Heq. nia. }
    split.
    + change (blocks_from (S (S n)) start size (i - 1))
        with (block start size (i - 1) :: blocks_from (S n) start size (i - 1 + 1)).
      replace (i - 1 + 1)%Z with i by lia. cbn [chained]. split; [apply Hu; lia|]. split.
      * cbn [words set_words]. rewrite Hw by done. cbn [c1 words set_words]. rewrite lookup_insert_eq. done.
      * exact Hch.
    + intros p Hp. change (blocks_from (S (S n)) start size (i - 1))
        with (block start size (i - 1) :: blocks_from (S n) start size (i - 1 + 1)) in Hp.
      replace (i - 1 + 1)%Z with i in Hp by lia. apply not_elem_of_cons in Hp as [Hp1 Hp2].
      rewrite Hw by done. cbn [c1 words set_words]. by rewrite lookup_insert_ne.
Qed.

Lemma fetch_pages size mm c :
  (0 < size)%Z -> fetchFromPageCache size mm (c, []) = on_pages (PageCache.allocateSpan (span_pages size) mm) (c, []).
Proof.
  intros Hs. unfold fetchFromPageCache, span_pages, SPAN_PAGES, PageCache.PAGE_SIZE. change (8 * 4096)%Z with 32768%Z.
  destruct (Z.ltb_spec size 32768).
  - destruct (Z.leb_spec size 32768); [done|lia].
  - destruct (Z.leb_spec size 32768); [|done]. assert (size = 32768)%Z as -> by lia. done.
Qed.

Lemma span_pages_pos size : (0 < size)%Z -> (0 < span_pages size)%Z.
Proof.
  intros Hs. unfold span_pages, SPAN_PAGES, PageCache.PAGE_SIZE. destruct (Z.leb_spec size (8 * 4096)); [lia|].
  apply Z.div_str_pos. lia.
Qed.

(** The page cache gives a span of mapped memory, or nothing when the system refuses. *)
Lemma span_run p held n mm :
  PageCacheSpec.client p held -> (0 < n)%Z -> fresh_map p n mm -> ~ emptied n p ->
  (forall y, is_mapped (PageCache.mapped p) y -> (0 < y)%Z) -> (forall a, mm = Some a -> (0 < a)%Z) ->
  (mm = None /\ PageCache.allocateSpan n mm (p, []) = Ret (None, (p, []))) \/
  exists a p', PageCache.allocateSpan n mm (p, []) = Ret (Some a, (p', [])) /\
    PageCacheSpec.client p' (<[a := n]> held) /\ (forall y, inside y (a, n) -> is_mapped (PageCache.mapped p') y) /\ (0 < a)%Z.
Proof.
  intros Hc Hn Hf He Hpos Ha. pose proof Hc as (free & live & Hi & _)%client_holds.
  destruct (alloc_run p free live n mm Hi Hn Hf He) as [H|(a & p' & E & (free' & i & _ & Hi' & Har & _) & Hm)]; [by left|].
  right. exists a, p'. split; [done|]. split; [by eapply client_allocate|].
  assert (Hin : forall y, inside y (a, n) -> is_mapped (PageCache.mapped p') y).
  { intros y. apply (g_mapped _ _ (i_geometry _ _ _ Hi') i _ y Har). }
  split; [done|]. destruct Hm as [Hm|[Hmm _]]; [|by apply Ha]. apply Hpos. rewrite <- Hm. apply Hin.
  unfold inside, ends, PageCache.PAGE_SIZE. cbn [fst snd]. lia.
Qed.

(** The steps of [fetchRange] that cut the span at [start]. *)
Lemma cut_run c index start size n b :
  (0 < size)%Z -> (8 <= size)%Z -> (1 < b)%Z -> (b * size <= n * PageCache.PAGE_SIZE)%Z -> (0 < start)%Z ->
  (forall y, inside y (start, n) -> is_mapped (PageCache.mapped (pages c)) y) ->
  exists w, (forall B (k : cc B), (link_blocks (Z.to_nat (b - 1)) start size 1 ;;
             store (start + (b - 1) * size) 0 ;;
             next ← load start;
             store start 0 ;;
             set_list index next ;; k) (c, [])
      = k (set_lists (<[index := block start size 1]> (centralFreelist_ c)) (set_words w c), [])) /\
    chained (set_words w c) (blocks_from (Z.to_nat (b - 1)) start size 1) /\
    w !! start = Some 0%Z /\
    forall p, p ∉ blocks_from (Z.to_nat b) start size 0 -> w !! p = words c !! p.
Proof.
  intros Hs H8 Hb Hfit Hpos Hmap. set (k := Z.to_nat (b - 1)).
  assert (Hk : Z.of_nat k = (b - 1)%Z) by (unfold k; lia).
  assert (Hu : forall j, (0 <= j < b)%Z -> usable c (block start size j)).
  { intros j Hj. unfold block. split; [nia|]. apply (word_mapped_span _ start n); [done|nia|].
    unfold ends. cbn [fst snd]. nia. }
  destruct (link_blocks_run k c start size 1 Hs) as (w & E & Hch & Hw).
  { intros j Hj. apply Hu. lia. }
  replace (1 - 1 + Z.of_nat k)%Z with (b - 1)%Z in E by lia. change (1 - 1)%Z with 0%Z in Hch, Hw.
  change (blocks_from (S k) start size 0) with (block start size 0 :: blocks_from k start size 1) in Hch, Hw.
  assert (H0 : block start size 0 = start) by (unfold block; lia). rewrite H0 in Hch, Hw.
  destruct Hch as (Hu0 & Hv0 & Hch). cbn [words set_words] in Hv0.
  exists (<[start := 0%Z]> w). split; [|split; [|split]].
  - intros B K. rewrite <- bind_bind. rewrite (bind_ret _ _ _ _ _ E).
    rewrite (bind_ret _ _ _ _ _ (block_load_run (set_words w c) start Hu0)). cbn [words set_words]. rewrite Hv0.
    rewrite (bind_ret _ _ _ _ _ (store_run (set_words w c) start 0 Hu0)). unfold set_list. rewrite bind_bind, bind_get. cbn [fst]. rewrite bind_modify. cbn [fst snd].
    destruct k as [|k']; [lia|]. done.
  - apply (chained_frame (set_words w c)); [|done|done]. intros p Hp. cbn [words set_words].
    rewrite lookup_insert_ne; [done|]. intros <-. apply blocks_from_in in Hp as (j & Hj & Heq). unfold block in Heq. nia.
  - apply lookup_insert_eq.
  - intros p Hp. replace (Z.to_nat b) with (S k) in Hp by lia.
    change (blocks_from (S k) start size 0) with (block start size 0 :: blocks_from k start size 1) in Hp.
    rewrite H0 in Hp. rewrite lookup_insert_ne; [by apply Hw|]. intros <-. apply Hp. by left.
Qed.

(** The blocks of a class: their size, the pages of a span, how many fit. *)
Definition class_pages (index : Z) : Z := span_pages (class_size index).
Definition class_blocks (index : Z) : Z := (class_pages index * PageCache.PAGE_SIZE / class_size index)%Z.

(** The state after cutting: memory, list and a tracker if one is left. *)
Definition cut (index start : Z) (w : gmap Z Z) (p : PageCache.page_cache) (c : central) : central :=
  mk_central w p (<[index := block start (class_size index) 1]> (centralFreelist_ c))
    (if decide (spanCount_ c < length (spanTrackers_ c))
     then alter (fun _ => mk_tracker start (class_pages index) (class_blocks index) (class_blocks index - 1))
            (spanCount_ c) (spanTrackers_ c)
     else spanTrackers_ c)
    (S (spanCount_ c)) (delayCounts_ c) (lastReturnTime_ c).

Lemma get_list_run index c : get_list index (c, []) = Ret (default 0%Z (centralFreelist_ c !! index), (c, [])).
Proof. done. Qed.

Lemma class_facts index :
  (0 <= index < FREE_LIST_SIZE)%Z ->
  (8 <= class_size index)%Z /\ (0 < class_pages index)%Z /\
  (class_blocks index * class_size index <= class_pages index * PageCache.PAGE_SIZE)%Z.
Proof.
  intros Hi. unfold class_blocks, class_pages, class_size, ALIGNMENT. split; [lia|].
  assert (0 < (index + 1) * 8)%Z by lia. split; [by apply span_pages_pos|].
  pose proof (Z.mul_div_le (span_pages ((index + 1) * 8) * PageCache.PAGE_SIZE) ((index + 1) * 8) ltac:(lia)). lia.
Qed.

Lemma fetch_range_run c held index mm :
  PageCacheSpec.client (pages c) held -> (0 <= index < FREE_LIST_SIZE)%Z ->
  default 0%Z (centralFreelist_ c !! index) = 0%Z -> (1 < class_blocks index)%Z ->
  fresh_map (pages c) (class_pages index) mm -> ~ emptied (class_pages index) (pages c) ->
  (forall y, is_mapped (PageCache.mapped (pages c)) y -> (0 < y)%Z) -> (forall a, mm = Some a -> (0 < a)%Z) ->
  (mm = None /\ fetchRange index mm (c, []) = Ret (None, (c, []))) \/
  exists start w p', let c' := cut index start w p' c in
    fetchRange index mm (c, []) = Ret (Some start, (c', [])) /\
    PageCacheSpec.client p' (<[start := class_pages index]> held) /\
    w !! start = Some 0%Z /\
    chained c' (blocks_from (Z.to_nat (class_blocks index - 1)) start (class_size index) 1) /\
    (forall i, (0 <= i < class_blocks index)%Z -> (start <= block start (class_size index) i)%Z /\
       (block start (class_size index) i + class_size index <= ends (start, class_pages index))%Z) /\
    (forall p, ~ inside p (start, class_pages index) -> w !! p = words c !! p) /\
    (0 < start)%Z /\ (forall y, inside y (start, class_pages index) -> is_mapped (PageCache.mapped p') y).
Proof.
  intros Hc Hidx Hl Hb Hf He Hpos Ha. destruct (class_facts index Hidx) as (Hs & Hn & Hfit).
  assert (E0 : fetchRange index mm (c, []) = (fetched ← on_pages (PageCache.allocateSpan (class_pages index) mm);
    match fetched with
    | None => mret None
    | Some start =>
        (link_blocks (Z.to_nat (class_blocks index - 1)) start (class_size index) 1 ;;
         store (start + (class_blocks index - 1) * class_size index) 0 ;;
         next ← load start;
         store start 0 ;;
         set_list index next ;;
         c ← get;
         modify (set_count (S (spanCount_ c))) ;;
         if decide (spanCount_ c < length (spanTrackers_ c)) then
           upd_tracker (spanCount_ c)
             (fun _ => mk_tracker start (class_pages index) (class_blocks index) (class_blocks index - 1))
         else mret tt) ;;
        mret (Some start)
    end) (c, [])).
  { unfold fetchRange. destruct (Z.leb_spec FREE_LIST_SIZE index); [lia|].
    rewrite (bind_ret _ _ _ _ _ (get_list_run index c)), Hl. cbn [Z.eqb negb].
    apply Z.ltb_lt in Hb. unfold class_blocks, class_pages, class_size in *. rewrite Hb.
    unfold mbind at 1 3, M_bind. by rewrite fetch_pages by lia. }
  rewrite E0. destruct (span_run (pages c) held (class_pages index) mm Hc Hn Hf He Hpos Ha)
    as [[-> E]|(start & p' & E & Hc' & Hmap & Hst)].
  - left. split; [done|]. unfold on_pages. erewrite bind_ret; [|apply (zoom_run pages set_page_cache), E].
    destruct c. done.
  - right. destruct (cut_run (set_page_cache p' c) index start (class_size index) (class_pages index) (class_blocks index))
      as (w & Ec & Hch & Hw0 & Hw); [lia|lia|done|done|done|done|].
    exists start, w, p'. cbv zeta. split; [|split; [done|split; [done|split; [|split; [|split; [|done]]]]]].
    + unfold on_pages. erewrite bind_ret; [|apply (zoom_run pages set_page_cache), E].
      cbn beta iota. erewrite bind_ret.
      2:{ rewrite Ec. rewrite bind_get. cbn [fst]. rewrite bind_modify. cbn [fst snd].
          instantiate (1 := (cut index start w p' c, [])). instantiate (1 := tt).
          unfold cut. cbn [spanCount_ spanTrackers_ set_lists set_words set_page_cache set_count].
          case_decide; [|done]. unfold upd_tracker. by rewrite bind_get. }
      done.
    + eapply chained_frame; [| |exact Hch]; done.
    + intros i Hi. unfold block, ends. cbn [fst snd]. nia.
    + intros p Hp. apply Hw. rewrite blocks_from_in. intros (j & Hj & ->). apply Hp. unfold inside, ends, block. cbn [fst snd]. nia.
Qed.


(** The bytes of the pages [mp]. *)
Definition page_bytes (mp : list (Z * Z)) : list Z := mp ≫= (fun a => seqZ a.1 (a.2 * PageCache.PAGE_SIZE)).

Lemma page_bytes_length mp :
  Forall (fun a => 0 < a.2)%Z mp ->
  Z.of_nat (length (page_bytes mp)) = (8 * foldr (fun a n => n + a.2 * 512) 0 mp)%Z.
Proof.
  induction 1 as [|a mp Ha _ IH]; [done|]. unfold page_bytes in *. cbn [mbind list_bind foldr].
  rewrite length_app, length_seqZ, Nat2Z.inj_add, IH. unfold PageCache.PAGE_SIZE. lia.
Qed.

(** Blocks that fit in mapped pages are fewer than the fuel of the walks. *)
Lemma blocks_fit c start n k size :
  Forall (fun a => 0 < a.2)%Z (PageCache.mapped (pages c)) ->
  (forall y, inside y (start, n) -> is_mapped (PageCache.mapped (pages c)) y) ->
  (8 <= size)%Z -> (Z.of_nat k * size <= n * PageCache.PAGE_SIZE)%Z -> k < blocks_bound c.
Proof.
  intros Hpos Hmap Hs Hk. pose proof (page_bytes_length _ Hpos) as Hl.
  assert (Hsub : seqZ start (n * PageCache.PAGE_SIZE) ⊆+ page_bytes (PageCache.mapped (pages c))).
  { apply NoDup_submseteq; [apply NoDup_seqZ|]. intros y Hy%elem_of_seqZ.
    destruct (Hmap y) as (a & Ha & Hin); [unfold inside, ends; cbn [fst snd]; lia|].
    apply list_elem_of_bind. exists a. split; [|done]. apply elem_of_seqZ. unfold inside, ends in Hin. lia. }
  apply submseteq_length in Hsub. rewrite length_seqZ in Hsub. unfold blocks_bound. nia.
Qed.

(** ** Linking lists *)

Lemma chained_usable c l p : chained c l -> p ∈ l -> usable c p.
Proof.
  induction l as [|q l IH]; [by rewrite elem_of_nil|]. intros (Hu & _ & Hl) [->|Hp]%elem_of_cons; [done|by apply IH].
Qed.

(** After the last block of [l1] is made to point to [l2], the lists are one. *)
Lemma chained_link c l1 x l2 :
  chained c (l1 ++ [x]) -> chained c l2 -> NoDup (l1 ++ [x]) -> x ∉ l2 ->
  chained (set_words (<[x := default 0%Z (head l2)]> (words c)) c) (l1 ++ x :: l2).
Proof.
  intros H1 H2 Hnd Hx. set (c' := set_words _ c).
  assert (H2' : chained c' l2) by (by apply (chained_frame c); [intros q Hq; cbn [c' words set_words];
    rewrite lookup_insert_ne by (by intros ->)| |]).
  induction l1 as [|q l1 IH]; cbn [app chained] in *.
  - destruct H1 as (Hu & _ & _). split; [done|]. split; [|done]. cbn [c' words set_words]. by rewrite lookup_insert_eq.
  - destruct H1 as (Hu & Hv & H1). apply list.NoDup_cons in Hnd as [Hq Hnd]. split; [done|]. split; [|by apply IH].
    cbn [c' words set_words]. rewrite lookup_insert_ne by (intros ->; set_solver). rewrite Hv. by destruct l1.
Qed.

(** After the last block of [l1] is made to point to NULL, there are two lists. *)
Lemma chained_cut c l1 x l2 :
  chained c (l1 ++ x :: l2) -> NoDup (l1 ++ x :: l2) ->
  chained (set_words (<[x := 0%Z]> (words c)) c) (l1 ++ [x]) /\ chained (set_words (<[x := 0%Z]> (words c)) c) l2.
Proof.
  intros H Hnd. set (c' := set_words _ c). induction l1 as [|q l1 IH]; cbn [app chained] in *.
  - destruct H as (Hu & _ & H). apply list.NoDup_cons in Hnd as [Hx Hnd]. split.
    + split; [done|]. split; [|done]. cbn [c' words set_words head default from_option]. by rewrite lookup_insert_eq.
    + apply (chained_frame c); [|done|done]. intros q Hq. cbn [c' words set_words].
      rewrite lookup_insert_ne; [done|by intros ->].
  - destruct H as (Hu & Hv & H). apply list.NoDup_cons in Hnd as [Hq Hnd]. destruct (IH H Hnd) as [I1 I2].
    split; [|done]. split; [done|]. split; [|done]. cbn [c' words set_words].
    rewrite lookup_insert_ne by (intros ->; set_solver). rewrite Hv. by destruct l1.
Qed.

(** The walk to the last block of a list. *)
Lemma chain_end_run c x : forall l fuel count blockcount,
  chained c (l ++ [x]) -> length l < fuel -> (count + Z.of_nat (length l) <= blockcount)%Z ->
  chain_end fuel (default 0%Z (head (l ++ [x]))) count blockcount (c, []) = Ret (x, (c, [])).
Proof.
  induction l as [|q l IH]; intros fuel count bc Hc Hf Hb; (destruct fuel as [|fuel]; [cbn in Hf; lia|]);
    cbn [app head default from_option id chain_end chained] in *.
  - destruct Hc as (Hu & Hv & _). rewrite (bind_ret _ _ _ _ _ (block_load_run c x Hu)), Hv. done.
  - destruct Hc as (Hu & Hv & Hc). rewrite (bind_ret _ _ _ _ _ (block_load_run c q Hu)), Hv. cbn [length] in *.
    assert (Hn : default 0%Z (head (l ++ [x])) <> 0%Z).
    { destruct l; cbn [app head default from_option id chained] in *; by destruct Hc as [[? _] _]. }
    destruct (Z.eqb_spec (default 0%Z (head (l ++ [x]))) 0); [done|]. destruct (Z.ltb_spec count bc); [|lia].
    cbn [negb andb]. apply IH; [done|lia|lia].
Qed.

(** The central list of a class has the blocks [l]. *)
Definition central_has (c : central) (index : Z) (l : list Z) : Prop :=
  default 0%Z (centralFreelist_ c !! index) = default 0%Z (head l) /\ chained c l.

(** Returned blocks are put before those of the list, when they do not come often or late. *)
Lemma return_range_run visit c index now size l1 x l2 :
  (0 <= index < FREE_LIST_SIZE)%Z -> chained c (l1 ++ [x]) -> central_has c index l2 ->
  NoDup (l1 ++ x :: l2) -> length (l1 ++ [x]) < blocks_bound c ->
  (Z.of_nat (length (l1 ++ [x])) <= size / class_size index)%Z ->
  (default 0 (delayCounts_ c !! index) + 1 < MAX_DELAY_COUNT)%Z ->
  (now - default 0 (lastReturnTime_ c !! index) < DELAY_INTERVAL)%Z ->
  exists c', returnRange visit (default 0%Z (head (l1 ++ [x]))) size index now (c, []) = Ret (tt, (c', [])) /\
    central_has c' index (l1 ++ x :: l2) /\ pages c' = pages c /\
    words c' = <[x := default 0%Z (head l2)]> (words c).
Proof.
  intros Hidx H1 [Hl2 H2] Hnd Hlen Hsz Hcnt Htime. unfold returnRange.
  assert (Hn : default 0%Z (head (l1 ++ [x])) <> 0%Z).
  { destruct l1; cbn [app head default from_option id chained] in *; by destruct H1 as [[? _] _]. }
  destruct (Z.eqb_spec (default 0%Z (head (l1 ++ [x]))) 0); [done|]. destruct (Z.leb_spec FREE_LIST_SIZE index); [lia|].
  cbn [orb]. rewrite bind_get. cbn [fst]. rewrite length_app in Hlen, Hsz. cbn [length] in Hlen, Hsz.
  unfold class_size in Hsz.
  rewrite (bind_ret _ _ _ _ _ (chain_end_run c x l1 (blocks_bound c) 1
    (size / ((index + 1) * ALIGNMENT)) H1 ltac:(lia) ltac:(lia))).
  rewrite (bind_ret _ _ _ _ _ (get_list_run index c)), Hl2.
  assert (Hx : usable c x) by (apply (chained_usable c (l1 ++ [x]) x H1); set_solver).
  rewrite (bind_ret _ _ _ _ _ (store_run c x _ Hx)). unfold set_list. rewrite bind_bind, bind_get. cbn [fst].
  rewrite bind_modify, bind_get, bind_modify. cbn [fst snd]. unfold shouldPerformDelayReturn.
  rewrite bind_bind, bind_get. cbn [fst set_delays set_lists set_words lastReturnTime_ delayCounts_].
  destruct (Z.leb_spec MAX_DELAY_COUNT (default 0%Z (delayCounts_ c !! index) + 1)); [lia|]. rewrite bind_mret.
  destruct (Z.leb_spec DELAY_INTERVAL (now - default 0%Z (lastReturnTime_ c !! index))); [lia|].
  eexists. split; [reflexivity|]. split; [|done]. split.
  - cbn [centralFreelist_ set_delays set_lists]. rewrite lookup_insert_eq. by destruct l1.
  - eapply (chained_frame (set_words (<[x := default 0%Z (head l2)]> (words c)) c)); [done|done|].
    apply list.NoDup_app in Hnd as (Hnd1 & Hd & Hnd2). apply list.NoDup_cons in Hnd2 as [Hx2 Hnd2].
    apply chained_link; [done|done| |done]. apply list.NoDup_app. split; [done|]. split; [|apply NoDup_singleton].
    intros q Hq Hqx%list_elem_of_singleton. subst q. apply (Hd x Hq). by left.
Qed.

(** ** Giving spans back *)

(** The first tracker in use whose span has the block is [tr], with the contents [t]. *)
Definition in_span (t : SpanTracker) (b : Z) : Prop :=
  (spanAddr t <= b < spanAddr t + t_numPages t * PageCache.PAGE_SIZE)%Z.

Record belongs (c : central) (tr : nat) (t : SpanTracker) (b : Z) : Prop := {
  bl_used : tr < spanCount_ c;
  bl_tracker : spanTrackers_ c !! tr = Some t;
  bl_in : in_span t b;
  bl_first : forall i t', i < tr -> spanTrackers_ c !! i = Some t' -> ~ in_span t' b
}.

Lemma find_tracker_run c tr t b al : spanTrackers_ c !! tr = Some t -> in_span t b ->
  (forall i t', i < tr -> spanTrackers_ c !! i = Some t' -> ~ in_span t' b) ->
  forall n i, i <= tr < i + n -> find_tracker n i b (c, al) = Ret (Some tr, (c, al)).
Proof.
  intros Ht Hin Hfirst. induction n as [|n IH]; intros i Hi; [lia|]. cbn [find_tracker]. rewrite bind_get. cbn [fst].
  destruct (decide (i = tr)) as [->|Hne].
  - rewrite Ht. unfold in_span in Hin. rewrite (proj2 (Z.leb_le _ _)), (proj2 (Z.ltb_lt _ _)) by lia. done.
  - destruct (lookup_lt_is_Some_2 (spanTrackers_ c) i) as [t' Ht']; [apply lookup_lt_Some in Ht; lia|].
    rewrite Ht'. pose proof (Hfirst i t' ltac:(lia) Ht') as Hn. unfold in_span in Hn.
    destruct (Z.leb_spec (spanAddr t') b), (Z.ltb_spec b (spanAddr t' + t_numPages t' * PageCache.PAGE_SIZE)%Z);
      cbn [andb]; try (apply IH; lia). lia.
Qed.

Lemma get_from_range_run c tr t b al : belongs c tr t b -> getFromRange b (c, al) = Ret (Some tr, (c, al)).
Proof. intros [H1 H2 H3 H4]. unfold getFromRange. rewrite bind_get. by apply (find_tracker_run c tr t); [..|cbn; lia]. Qed.

(** The walk counts the blocks of the list for their tracker. *)
Lemma count_free_run c tr t : forall l fuel counts,
  chained c l -> Forall (belongs c tr t) l -> length l < fuel ->
  count_free fuel (default 0%Z (head l)) counts (c, [])
  = Ret (match l with [] => counts | _ => <[tr := (default 0 (counts !! tr) + Z.of_nat (length l))%Z]> counts end, (c, [])).
Proof.
  induction l as [|b l IH]; intros fuel counts Hc Hb Hf; (destruct fuel as [|fuel]; [cbn in Hf; lia|]);
    cbn [count_free head default from_option id]; [done|].
  destruct Hc as (Hu & Hv & Hc). apply list.Forall_cons in Hb as [Hb Hbs]. cbn [length] in Hf.
  destruct (Z.eqb_spec b 0) as [->|_]; [by destruct Hu|].
  rewrite (bind_ret _ _ _ _ _ (get_from_range_run c tr t b [] Hb)), (bind_ret _ _ _ _ _ (block_load_run c b Hu)), Hv.
  rewrite IH by (done || lia). unfold incr. destruct l as [|b' l]; [cbn [length]; by rewrite Z.add_1_r|].
  rewrite lookup_insert_eq, insert_insert_eq. cbn [default from_option id length].
  do 2 f_equal. f_equal. lia.
Qed.

(** The counters after a check. *)
Definition checked (index now : Z) (c : central) : central :=
  set_times (<[index := now]> (lastReturnTime_ c)) (set_delays (<[index := 0%Z]> (delayCounts_ c)) c).

(** Taking the only block out of a list. *)
Lemma drop_only_block c b lo hi fuel :
  usable c b -> default 0%Z (words c !! b) = 0%Z -> (lo <= b < hi)%Z -> 1 < fuel ->
  drop_span fuel lo hi 0 0 b (c, []) = Ret (0%Z, (c, [])).
Proof.
  intros Hu Hv Hb Hf. destruct fuel as [|[|fuel]]; [lia|lia|]. cbn [drop_span].
  destruct (Z.eqb_spec b 0) as [->|_]; [by destruct Hu|].
  rewrite (bind_ret _ _ _ _ _ (block_load_run c b Hu)), Hv.
  rewrite (proj2 (Z.leb_le _ _)), (proj2 (Z.ltb_lt _ _)) by lia. done.
Qed.

(** C19: when the central list of a class is checked and its blocks are all of one span of
    more than one block, whose tracker is as [fetchRange] leaves it (all blocks free but one),
    the span is given back to the page cache, and the list emptied, exactly when the list has
    one block, so while others may be in use; with any other number of blocks, all of them
    too, only the counters of the class are reset. *)
Theorem span_given_back_with_one_free_block visit c tr start n bc index now l :
  (forall m, visit m ≡ₚ map_to_list m) ->
  (1 < bc < 2 ^ 63)%Z -> (Z.of_nat (length l) < 2 ^ 63)%Z -> length l < blocks_bound c ->
  central_has c index l -> Forall (belongs c tr (mk_tracker start n bc (bc - 1))) l ->
  performDelayReturn visit index now (c, [])
  = if decide (length l = 1)
    then on_pages (PageCache.deallocateSpan start n)
           (set_lists (<[index := 0%Z]> (centralFreelist_ c)) (checked index now c), [])
    else Ret (tt, (checked index now c, [])).
Proof.
  intros Hvisit Hbc Hl Hfuel [Hhd Hc] Hb. set (t := mk_tracker start n bc (bc - 1)) in *. unfold performDelayReturn.
  rewrite bind_get. cbn [fst]. rewrite bind_modify, bind_get. cbn [fst snd]. rewrite bind_modify. cbn [fst snd].
  set (c1 := set_times _ _). change (checked index now c) with c1.
  rewrite (bind_ret _ _ _ _ _ (get_list_run index c1)). change (centralFreelist_ c1) with (centralFreelist_ c). rewrite Hhd.
  assert (Hc1 : chained c1 l) by (by apply (chained_frame c)).
  assert (Hb1 : Forall (belongs c1 tr t) l) by (eapply list.Forall_impl; [exact Hb|]; intros b [? ? ? ?]; by split).
  change (blocks_bound c) with (blocks_bound c1) in Hfuel.
  match goal with |- context [count_free (blocks_bound ?x)] => change (blocks_bound x) with (blocks_bound c1) end.
  rewrite (bind_ret _ _ _ _ _ (count_free_run c1 tr t l (blocks_bound c1) ∅ Hc1 Hb1 Hfuel)).
  destruct l as [|b l].
  { pose proof (Hvisit ∅) as Hv. rewrite map_to_list_empty in Hv. apply Permutation_nil_r in Hv. by rewrite Hv. }
  rewrite lookup_empty. cbn [default from_option id]. rewrite Z.add_0_l.
  pose proof (Hvisit (<[tr := Z.of_nat (length (b :: l))]> ∅)) as Hv. rewrite insert_empty, map_to_list_singleton in Hv.
  apply Permutation_singleton_r in Hv. rewrite insert_empty, Hv. cbn [update_spans]. unfold updateSpanFreeCount.
  apply list.Forall_cons in Hb1 as [Hb1 _]. pose proof Hb1 as [_ Ht Hin _].
  rewrite bind_bind, bind_get. cbn [fst]. rewrite Ht. cbn [t freeCount blockCount spanAddr t_numPages].
  rewrite wrap_small by lia. destruct (Z.eqb_spec (bc - 1 + Z.of_nat (length (b :: l))) bc) as [E|E].
  - rewrite decide_True by lia. destruct l; [|cbn [length] in E; lia]. destruct Hc1 as (Hu & Hv1 & _).
    rewrite bind_bind, (bind_ret _ _ _ _ _ (get_list_run index c1)).
    change (centralFreelist_ c1) with (centralFreelist_ c). rewrite Hhd. cbn [head default from_option id].
    rewrite bind_bind, (bind_ret _ _ _ _ _ (drop_only_block c1 b _ _ (blocks_bound c1) Hu Hv1 Hin Hfuel)).
    unfold set_list. rewrite !bind_bind, bind_get. cbn [fst]. rewrite bind_modify. cbn [fst snd].
    unfold mbind, M_bind. destruct (on_pages _ _) as [[[] [? ?]]| |]; done.
  - rewrite decide_False by lia. by rewrite bind_mret.
Qed.

(** ** Witnesses *)

(** A central cache at time 0, and one with a span of two blocks of 16 KB, the first of
    which is in use. *)
Definition empty_central : central := mk_central ∅ PageCache.page_cache0 ∅ (replicate SPAN_TRACKER_NUM tracker0) 0 ∅ ∅.

Definition two_blocks : central :=
  mk_central {[65536%Z := 0%Z; 81920%Z := 0%Z]} (PageCache.mk_cache ∅ {[65536%Z := 1]} {[1 := PageCache.mk_span 0 65536 8]} 2 [(65536, 8)]%Z) {[2047%Z := 81920%Z]}
    (mk_tracker 65536 8 2 1 :: replicate 1023 tracker0) 1 ∅ ∅.


(** One block is back, and then both. *)
Definition both_back : central :=
  set_words {[65536%Z := 81920%Z; 81920%Z := 0%Z]} (set_lists {[2047%Z := 65536%Z]} two_blocks).

Example span_given_back_with_one_free_block_witness :
  performDelayReturn map_to_list 2047 0 (two_blocks, [])
    = on_pages (PageCache.deallocateSpan 65536 8)
        (set_lists (<[2047%Z := 0%Z]> (centralFreelist_ two_blocks)) (checked 2047 0 two_blocks), []) /\
  performDelayReturn map_to_list 2047 0 (both_back, []) = Ret (tt, (checked 2047 0 both_back, [])).
Proof.
  assert (Hb : forall c b, spanCount_ c = 1 -> spanTrackers_ c !! 0 = Some (mk_tracker 65536 8 2 1) ->
    (65536 <= b < 98304)%Z -> belongs c 0 (mk_tracker 65536 8 2 1) b).
  { intros c b H1 H2 H3. split; [lia|exact H2|unfold in_span, PageCache.PAGE_SIZE; cbn; lia|intros i t' Hi; lia]. }
  split.
  - apply (span_given_back_with_one_free_block map_to_list two_blocks 0 65536 8 2 2047 0 [81920%Z]);
      [done|lia|done|vm_compute; lia| |].
    + split; [reflexivity|]. cbn [chained]. split; [split; [discriminate|by vm_compute]|by vm_compute].
    + apply Forall_singleton. by apply Hb.
  - apply (span_given_back_with_one_free_block map_to_list both_back 0 65536 8 2 2047 0 [65536; 81920]%Z);
      [done|lia|done|vm_compute; lia| |].
    + split; [reflexivity|]. cbn [chained].
      split; [split; [discriminate|by vm_compute]|]. split; [by vm_compute|].
      split; [split; [discriminate|by vm_compute]|by vm_compute].
    + apply list.Forall_cons. split; [by apply Hb|]. apply Forall_singleton. by apply Hb.
Defined.
