(* ===== verification/ThreadCache.v ===== *)
(** * The thread caches of the C++ pool ([src/mempool/src/ThreadCache.cpp])

    Every thread has a list of free blocks for each size class.  An empty list is filled
    from the central cache, a long one is given back to it but for a quarter.
    [mempool_alloc] and [mempool_free] of [src/mempool/src/mempool_c_api.cpp] call these
    operations for the current thread.  The operations run one after the other; blocks of
    more than [MAX_BYTES] come from [malloc], whose result is an argument. *)

From S2P Require Import Prelude PageCache CentralCache.
Import CentralCache.

Module ThreadCache.

(** In both tables a missing entry is 0. *)
Record cache := mk_cache { freelist : gmap Z Z; freelistSize_ : gmap Z Z }.
Definition cache0 : cache := mk_cache ∅ ∅.

(** The shared parts, and the caches by thread. *)
Record pool := mk_pool { shared : central; threads : gmap nat cache }.

Definition pool0 (started : Z) : pool := mk_pool (central0 started) ∅.

Abbreviation tc A := (M pool A).

Definition set_shared c p := mk_pool c (threads p).
Definition set_threads t p := mk_pool (shared p) t.
Definition on_shared {A} (m : cc A) : tc A := zoom shared set_shared m.

Definition the_cache (t : nat) (p : pool) : cache := default cache0 (threads p !! t).
Definition upd_cache (t : nat) (f : cache -> cache) : tc unit :=
  p ← get; modify (set_threads (<[t := f (the_cache t p)]> (threads p))).

Definition get_free (t : nat) (index : Z) : tc Z :=
  p ← get; mret (default 0%Z (freelist (the_cache t p) !! index)).
Definition set_free (t : nat) (index b : Z) : tc unit :=
  upd_cache t (fun c => mk_cache (<[index := b]> (freelist c)) (freelistSize_ c)).
Definition get_size (t : nat) (index : Z) : tc Z :=
  p ← get; mret (default 0%Z (freelistSize_ (the_cache t p) !! index)).
(** A [size_t]. *)
Definition set_size (t : nat) (index n : Z) : tc unit :=
  upd_cache t (fun c => mk_cache (freelist c) (<[index := wrap 64 n]> (freelistSize_ c))).

(** The number of blocks of a chain. *)
Fixpoint chain_length (fuel : nat) (current n : Z) : cc Z :=
  match fuel with
  | O => out_of_fuel
  | S fuel => if (current =? 0)%Z then mret n else next ← load current; chain_length fuel next (n + 1)
  end.

(** NULL is [None]. *)
Definition fetchFromCentralCache (t : nat) (index : Z) (mm : option Z) : tc (option Z) :=
  start ← on_shared (fetchRange index mm);
  match start with
  | None => mret None
  | Some start =>
      next ← on_shared (load start);
      set_free t index next ;;
      p ← get;
      batchNum ← on_shared (chain_length (blocks_bound (shared p)) start 0);
      size ← get_size t index;
      set_size t index (size + batchNum) ;;
      mret (Some start)
  end.

(** [mm]: what [mmap] would return; [big]: what [malloc] would. *)
Definition allocate (t : nat) (size : Z) (mm big : option Z) : tc (option Z) :=
  let size := (if (size =? 0)%Z then ALIGNMENT else size) in
  if (MAX_BYTES <? size)%Z then mret big else
  let index := getIndex size in
  n ← get_size t index;
  set_size t index (n - 1) ;;
  ptr ← get_free t index;
  if negb (ptr =? 0)%Z then
    next ← on_shared (load ptr);
    set_free t index next ;;
    mret (Some ptr)
  else fetchFromCentralCache t index mm.

(** The loop that looks for the last block to keep: [steps] blocks further, from step [i].
    The result is the block (NULL when the chain ends) and the number to return. *)
Fixpoint split_at (fuel : nat) (i steps splitNode batchNum returnNum : Z) : cc (Z * Z) :=
  match fuel with
  | O => out_of_fuel
  | S fuel =>
      if (steps <=? i)%Z then mret (splitNode, returnNum) else
      next ← load splitNode;
      if (next =? 0)%Z then mret (0, batchNum - (i + 1))%Z
      else split_at fuel (i + 1) steps next batchNum returnNum
  end.

Section returning.
Context (visit : gmap nat Z -> list (nat * Z)).

Definition returnToCentralCache (t : nat) (start size now : Z) : tc unit :=
  let index := getIndex size in
  let alignedSize := roundUp size in
  batchNum ← get_size t index;
  if (batchNum <=? 1)%Z then mret tt else
  let keepNum := Z.max (batchNum / 4) 1 in
  let returnNum := (batchNum - keepNum)%Z in
  p ← get;
  sr ← on_shared (split_at (S (blocks_bound (shared p))) 0 (keepNum - 1) start batchNum returnNum);
  let splitNode := sr.1 in
  let returnNum := sr.2 in
  if (splitNode =? 0)%Z then mret tt else
  nextNode ← on_shared (load splitNode);
  on_shared (store splitNode 0) ;;
  set_free t index start ;;
  set_size t index keepNum ;;
  if (0 <? returnNum)%Z && negb (nextNode =? 0)%Z
  then on_shared (returnRange visit nextNode (wrap 64 (returnNum * alignedSize)) index now)
  else mret tt.

Definition shouldReturnToCentralCache (t : nat) (index : Z) : tc bool :=
  n ← get_size t index; mret (256 <? n)%Z.

Definition deallocate (t : nat) (ptr size now : Z) : tc unit :=
  if (MAX_BYTES <? size)%Z then mret tt else
  let index := getIndex size in
  h ← get_free t index;
  on_shared (store ptr h) ;;
  set_free t index ptr ;;
  n ← get_size t index;
  set_size t index (n + 1) ;;
  should ← shouldReturnToCentralCache t index;
  if (should : bool) then
    h ← get_free t index;
    returnToCentralCache t h size now
  else mret tt.

End returning.
End ThreadCache.
