(* ===== verification/ThreadCacheSpec.v ===== *)
(** * What the thread caches guarantee

    A block that a thread gives back is the next one it gets, and a new span is given out
    block by block.  But the central cache hands out its list without taking it off: two
    threads that ask for it get the same block, and so does one thread that uses up a span. *)

From S2P Require Import Prelude PageCache PageCacheSpec CentralCache CentralCacheSpec ThreadCache.
Import CentralCache ThreadCache.

(** ** Runs of the small operations *)

Definition free_of (p : pool) (t : nat) (index : Z) : Z := default 0%Z (freelist (the_cache t p) !! index).
Definition size_of (p : pool) (t : nat) (index : Z) : Z := default 0%Z (freelistSize_ (the_cache t p) !! index).

Definition with_cache (t : nat) (c : cache) (p : pool) : pool := set_threads (<[t := c]> (threads p)) p.

Lemma the_cache_eq t c p : the_cache t (with_cache t c p) = c.
Proof. unfold the_cache, with_cache. cbn [threads set_threads]. by rewrite lookup_insert_eq. Qed.

Lemma the_cache_ne t t' c p : t <> t' -> the_cache t' (with_cache t c p) = the_cache t' p.
Proof. intros H. unfold the_cache, with_cache. cbn [threads set_threads]. by rewrite lookup_insert_ne. Qed.

Definition cache_free (index b : Z) (c : cache) : cache := mk_cache (<[index := b]> (freelist c)) (freelistSize_ c).
Definition cache_size (index n : Z) (c : cache) : cache := mk_cache (freelist c) (<[index := wrap 64 n]> (freelistSize_ c)).

Lemma bind_set_free {B} t index b (k : unit -> tc B) p al :
  (set_free t index b ≫= k) (p, al) = k tt (with_cache t (cache_free index b (the_cache t p)) p, al).
Proof. done. Qed.

Lemma bind_set_size {B} t index n (k : unit -> tc B) p al :
  (set_size t index n ≫= k) (p, al) = k tt (with_cache t (cache_size index n (the_cache t p)) p, al).
Proof. done. Qed.

Lemma bind_get_free {B} t index (k : Z -> tc B) p al : (get_free t index ≫= k) (p, al) = k (free_of p t index) (p, al).
Proof. done. Qed.

Lemma bind_get_size {B} t index (k : Z -> tc B) p al : (get_size t index ≫= k) (p, al) = k (size_of p t index) (p, al).
Proof. done. Qed.

Lemma bind_shared {A B} (m : cc A) (k : A -> tc B) p a c :
  m (shared p, []) = Ret (a, (c, [])) -> (on_shared m ≫= k) (p, []) = k a (set_shared c p, []).
Proof. intros E. by erewrite bind_ret; [|apply (zoom_run shared set_shared), E]. Qed.

Lemma set_shared_id p : set_shared (shared p) p = p.
Proof. by destruct p. Qed.

(** ** The same block twice *)

Lemma chain_length_run : forall l fuel c n,
  chained c l -> length l < fuel -> 0%Z ∉ l ->
  chain_length fuel (default 0%Z (head l)) n (c, []) = Ret ((n + Z.of_nat (length l))%Z, (c, [])).
Proof.
  induction l as [|p l IH]; intros fuel c n Hc Hf H0; (destruct fuel as [|fuel]; [cbn in Hf; lia|]);
    cbn [chain_length head default from_option id].
  - cbn [length]. by rewrite Z.add_0_r.
  - destruct Hc as (Hu & Hv & Hc). cbn [length] in Hf |- *. apply not_elem_of_cons in H0 as [Hp H0].
    destruct (Z.eqb_spec p 0) as [->|_]; [done|].
    rewrite (bind_ret _ _ _ _ _ (block_load_run c p Hu)), Hv, IH by (done || lia). do 2 f_equal. lia.
Qed.

(** The central list of a class: its head [b] and the blocks behind it. *)
Record stocked (c : central) (index b : Z) (l : list Z) : Prop := {
  sk_list : default 0%Z (centralFreelist_ c !! index) = b;
  sk_chain : chained c (b :: l);
  sk_null : 0%Z ∉ b :: l;
  sk_bound : length (b :: l) < blocks_bound c
}.

Lemma index_range size : (0 < size <= MAX_BYTES)%Z -> (0 <= getIndex size < FREE_LIST_SIZE)%Z.
Proof.
  intros H. rewrite getIndex_small by lia. unfold FREE_LIST_SIZE, MAX_BYTES, ALIGNMENT in *.
  change (256 * 1024 / 8)%Z with 32768%Z.
  pose proof (Z.div_mod (Z.max size 8 + 7) 8 ltac:(lia)). pose proof (Z.mod_pos_bound (Z.max size 8 + 7) 8 ltac:(lia)).
  lia.
Qed.

(** A thread without blocks gets the first that [fetchRange] has, and keeps the others. *)
Lemma allocate_fetches t size mm big p c' b l :
  (0 < size <= MAX_BYTES)%Z -> free_of p t (getIndex size) = 0%Z ->
  fetchRange (getIndex size) mm (shared p, []) = Ret (Some b, (c', [])) ->
  chained c' (b :: l) -> 0%Z ∉ b :: l -> length (b :: l) < blocks_bound c' ->
  exists p', allocate t size mm big (p, []) = Ret (Some b, (p', [])) /\ shared p' = c' /\
    (forall t', t' <> t -> the_cache t' p' = the_cache t' p) /\
    size_of p' t (getIndex size) = wrap 64 (wrap 64 (size_of p t (getIndex size) - 1) + Z.of_nat (length (b :: l))) /\
    free_of p' t (getIndex size) = default 0%Z (head l).
Proof.
  intros Hsz Hf Efetch H2 H3 H4. set (index := getIndex size) in *.
  unfold allocate. destruct (Z.eqb_spec size 0); [lia|]. destruct (Z.ltb_spec MAX_BYTES size); [lia|].
  fold index. rewrite bind_get_size, bind_set_size, bind_get_free. set (p1 := with_cache _ _ _).
  assert (Hf1 : free_of p1 t index = 0%Z) by (unfold free_of, p1; rewrite the_cache_eq; exact Hf).
  rewrite Hf1. cbn [Z.eqb negb]. unfold fetchFromCentralCache.
  rewrite (bind_shared _ _ p1 _ c' Efetch). set (p2 := set_shared c' p1).
  pose proof H2 as (Hu & Hv & _).
  rewrite (bind_shared _ _ p2 _ _ (block_load_run (shared p2) b Hu)), set_shared_id.
  change (words (shared p2)) with (words c'). rewrite Hv.
  rewrite bind_set_free. set (p3 := with_cache _ _ _). rewrite bind_get. cbn [fst].
  rewrite (bind_shared _ _ p3 _ _ (chain_length_run (b :: l) (blocks_bound (shared p3)) (shared p3) 0 H2 H4 H3)), set_shared_id.
  rewrite bind_get_size, bind_set_size. eexists. split; [reflexivity|]. split; [done|]. split; [|split].
  - intros t' Ht. rewrite the_cache_ne by done. unfold p3. rewrite the_cache_ne by done.
    change (the_cache t' p2) with (the_cache t' p1). unfold p1. by rewrite the_cache_ne.
  - unfold size_of at 1. rewrite the_cache_eq. cbn [freelistSize_ cache_size]. rewrite lookup_insert_eq.
    cbn [default from_option id]. rewrite Z.add_0_l. do 2 f_equal. unfold size_of at 1, p3. rewrite the_cache_eq.
    cbn [freelistSize_ cache_free]. change (the_cache t p2) with (the_cache t p1). unfold p1.
    rewrite the_cache_eq. cbn [freelistSize_ cache_size]. by rewrite lookup_insert_eq.
  - unfold free_of. rewrite the_cache_eq. cbn [freelist cache_size]. unfold p3. rewrite the_cache_eq.
    cbn [freelist cache_free]. by rewrite lookup_insert_eq.
Qed.

(** The head of the central list is not taken off. *)
Lemma allocate_from_central t size mm big p b l :
  (0 < size <= MAX_BYTES)%Z -> free_of p t (getIndex size) = 0%Z -> stocked (shared p) (getIndex size) b l ->
  exists p', allocate t size mm big (p, []) = Ret (Some b, (p', [])) /\ shared p' = shared p /\
    (forall t', t' <> t -> the_cache t' p' = the_cache t' p) /\
    free_of p' t (getIndex size) = default 0%Z (head l).
Proof.
  intros Hsz Hf [H1 H2 H3 H4]. pose proof (index_range size Hsz) as Hidx.
  destruct (allocate_fetches t size mm big p (shared p) b l) as (p' & E & Hsh & Hc & _ & Hf'); try done; [|by exists p'].
  unfold fetchRange. destruct (Z.leb_spec FREE_LIST_SIZE (getIndex size)); [lia|].
  rewrite (bind_ret _ _ _ _ _ (get_list_run (getIndex size) (shared p))), H1.
  destruct (Z.eqb_spec b 0) as [->|]; [|done]. destruct H3. by left.
Qed.

(** As long as the central list of a class is not empty, [fetchRange] returns its head
    and leaves it in the list: two threads that ask for a block of the class, one after the
    other, are given the same block. *)
Theorem two_threads_get_one_block t1 t2 size mm1 mm2 big1 big2 p b l :
  t1 <> t2 -> (0 < size <= MAX_BYTES)%Z ->
  free_of p t1 (getIndex size) = 0%Z -> free_of p t2 (getIndex size) = 0%Z ->
  stocked (shared p) (getIndex size) b l ->
  exists p', (x ← allocate t1 size mm1 big1; y ← allocate t2 size mm2 big2; mret (x, y)) (p, [])
    = Ret ((Some b, Some b), (p', [])).
Proof.
  intros Ht Hsz H1 H2 Hs.
  destruct (allocate_from_central t1 size mm1 big1 p b l Hsz H1 Hs) as (p1 & E1 & Hsh & Hc & _).
  rewrite (bind_ret _ _ _ _ _ E1).
  assert (H2' : free_of p1 t2 (getIndex size) = 0%Z) by (unfold free_of; by rewrite Hc).
  rewrite <- Hsh in Hs.
  destruct (allocate_from_central t2 size mm2 big2 p1 b l Hsz H2' Hs) as (p2 & E2 & _).
  rewrite (bind_ret _ _ _ _ _ E2). by exists p2.
Qed.

(** ** A thread alone *)

(** A thread with blocks gets the first. *)
Lemma allocate_from_list t size mm big p b l :
  (0 < size <= MAX_BYTES)%Z -> free_of p t (getIndex size) = b -> chained (shared p) (b :: l) ->
  exists p', allocate t size mm big (p, []) = Ret (Some b, (p', [])) /\ shared p' = shared p /\
    free_of p' t (getIndex size) = default 0%Z (head l).
Proof.
  intros Hsz Hf (Hu & Hv & _). set (index := getIndex size) in *.
  unfold allocate. destruct (Z.eqb_spec size 0); [lia|]. destruct (Z.ltb_spec MAX_BYTES size); [lia|].
  fold index. rewrite bind_get_size, bind_set_size, bind_get_free. set (p1 := with_cache _ _ _).
  assert (Hf1 : free_of p1 t index = b) by (unfold free_of, p1; rewrite the_cache_eq; exact Hf). rewrite Hf1.
  destruct (Z.eqb_spec b 0) as [->|_]; [by destruct Hu|]. cbn [negb].
  rewrite (bind_shared _ _ p1 _ _ (block_load_run (shared p1) b Hu)), set_shared_id.
  change (words (shared p1)) with (words (shared p)). rewrite Hv, bind_set_free.
  eexists. split; [reflexivity|]. split; [done|]. unfold free_of. rewrite the_cache_eq.
  cbn [freelist cache_free]. by rewrite lookup_insert_eq.
Qed.

(** [n] allocations, one after the other. *)
Fixpoint allocations (n t : nat) (size : Z) (mm : option Z) : tc (list (option Z)) :=
  match n with
  | O => mret []
  | S n => b ← allocate t size mm None; bs ← allocations n t size mm; mret (b :: bs)
  end.

Lemma allocations_cons n t size mm s b s1 l s2 :
  allocate t size mm None s = Ret (b, s1) -> allocations n t size mm s1 = Ret (l, s2) ->
  allocations (S n) t size mm s = Ret (b :: l, s2).
Proof. intros E1 E2. cbn [allocations]. by rewrite (bind_ret _ _ _ _ _ E1), (bind_ret _ _ _ _ _ E2). Qed.

Lemma allocations_from_list t size mm b' : forall l p,
  (0 < size <= MAX_BYTES)%Z -> free_of p t (getIndex size) = default 0%Z (head l) -> chained (shared p) l ->
  (forall p', shared p' = shared p -> free_of p' t (getIndex size) = 0%Z ->
     exists p2, allocate t size mm None (p', []) = Ret (Some b', (p2, []))) ->
  exists p2, allocations (length l + 1) t size mm (p, []) = Ret (Some <$> (l ++ [b']), (p2, [])).
Proof.
  induction l as [|b l IH]; intros p Hsz Hf Hc Hlast; cbn [length Nat.add app].
  - destruct (Hlast p eq_refl Hf) as (p2 & E). exists p2. by apply (allocations_cons 0 _ _ _ _ _ _ _ _ E).
  - destruct (allocate_from_list t size mm None p b l Hsz Hf Hc) as (p1 & E & Hsh & Hf1).
    destruct (IH p1) as (p2 & E2); [done|done|rewrite Hsh; apply Hc|by rewrite Hsh|].
    exists p2. by apply (allocations_cons _ _ _ _ _ _ _ _ _ E).
Qed.

(** From a class with blocks a thread gets all of them, and then the first again. *)
Lemma allocations_repeat t size mm p b l :
  (0 < size <= MAX_BYTES)%Z -> free_of p t (getIndex size) = 0%Z -> stocked (shared p) (getIndex size) b l ->
  exists p2, allocations (S (length l + 1)) t size mm (p, []) = Ret (Some <$> (b :: l ++ [b]), (p2, [])).
Proof.
  intros Hsz Hf Hs. destruct (allocate_from_central t size mm None p b l Hsz Hf Hs) as (p1 & E1 & Hsh1 & _ & Hf1).
  destruct (allocations_from_list t size mm b l p1 Hsz Hf1) as (p2 & E2).
  - rewrite Hsh1. apply (sk_chain _ _ _ _ Hs).
  - intros p' Hsh Hf'. destruct (allocate_from_central t size mm None p' b l Hsz Hf') as (p4 & E4 & _).
    + by rewrite Hsh, Hsh1.
    + by exists p4.
  - exists p2. by apply (allocations_cons _ _ _ _ _ _ _ _ _ E1).
Qed.

Lemma allocate_refused t size mm big p c' :
  (0 < size <= MAX_BYTES)%Z -> free_of p t (getIndex size) = 0%Z ->
  fetchRange (getIndex size) mm (shared p, []) = Ret (None, (c', [])) ->
  exists p', allocate t size mm big (p, []) = Ret (None, (p', [])).
Proof.
  intros Hsz Hf E. unfold allocate. destruct (Z.eqb_spec size 0); [lia|]. destruct (Z.ltb_spec MAX_BYTES size); [lia|].
  rewrite bind_get_size, bind_set_size, bind_get_free. set (p1 := with_cache _ _ _).
  assert (Hf1 : free_of p1 t (getIndex size) = 0%Z) by (unfold free_of, p1; rewrite the_cache_eq; exact Hf).
  rewrite Hf1. cbn [Z.eqb negb]. unfold fetchFromCentralCache. rewrite (bind_shared _ _ p1 _ _ E). by eexists.
Qed.

Lemma length_blocks_from k start size : forall i, length (blocks_from k start size i) = k.
Proof. induction k as [|k IH]; intros i; cbn [blocks_from length]; [done|]. by rewrite IH. Qed.

(** The first allocation on a class without blocks: the system refuses, or the thread gets
    the first block of a new span and the central list has the others. *)
Lemma allocate_new_span t size mm big p held :
  let index := getIndex size in
  (0 < size <= MAX_BYTES)%Z -> (1 < class_blocks index)%Z -> free_of p t index = 0%Z ->
  default 0%Z (centralFreelist_ (shared p) !! index) = 0%Z ->
  PageCacheSpec.client (pages (shared p)) held ->
  fresh_map (pages (shared p)) (class_pages index) mm -> ~ emptied (class_pages index) (pages (shared p)) ->
  (forall y, is_mapped (PageCache.mapped (pages (shared p))) y -> (0 < y)%Z) -> (forall a, mm = Some a -> (0 < a)%Z) ->
  (mm = None /\ exists p', allocate t size mm big (p, []) = Ret (None, (p', []))) \/
  exists start p',
    let rest := blocks_from (Z.to_nat (class_blocks index - 1)) start (class_size index) 1 in
    allocate t size mm big (p, []) = Ret (Some start, (p', [])) /\
    free_of p' t index = 0%Z /\ size_of p' t index = wrap 64 (wrap 64 (size_of p t index - 1) + 1) /\
    usable (shared p') start /\
    default 0%Z (centralFreelist_ (shared p') !! index) = block start (class_size index) 1 /\
    chained (shared p') rest /\ 0%Z ∉ rest /\ length rest < blocks_bound (shared p') /\
    forall i, (0 <= i < class_blocks index)%Z -> (start <= block start (class_size index) i)%Z /\
      (block start (class_size index) i + class_size index <= ends (start, class_pages index))%Z.
Proof.
  intros index Hsz Hb Hf Hl Hc Hfm He Hpos Ha. pose proof (index_range size Hsz) as Hidx.
  destruct (class_facts index Hidx) as (Hs & Hn & Hfit).
  destruct (fetch_range_run (shared p) held index mm Hc Hidx Hl Hb Hfm He Hpos Ha)
    as [[-> E]|(start & w & pg & E & Hc' & Hw0 & Hch & Hin & _ & Hst & Hmap)].
  - left. split; [done|]. by eapply allocate_refused.
  - right. set (c' := cut index start w pg (shared p)) in *.
    pose proof (client_mapped _ _ Hc') as Hpages.
    assert (Hfew : forall k, (Z.of_nat k <= class_blocks index)%Z -> k < blocks_bound c').
    { intros k Hk. apply (blocks_fit c' start (class_pages index) k (class_size index)); [done|done|lia|nia]. }
    assert (Hu : usable c' start).
    { split; [lia|]. apply (word_mapped_span _ start (class_pages index)); [done|lia|].
      unfold ends. cbn [fst snd]. nia. }
    destruct (allocate_fetches t size mm big p c' start [] Hsz Hf E) as (p1 & E1 & Hsh1 & _ & Hn1 & Hf1).
    { cbn [chained head default from_option]. split; [done|]. split; [|done]. cbn [words c' cut]. by rewrite Hw0. }
    { intros Hin0%list_elem_of_singleton. lia. }
    { apply Hfew. cbn [length]. lia. }
    exists start, p1. cbv zeta. rewrite Hsh1. split; [exact E1|]. split; [exact Hf1|]. split; [exact Hn1|].
    split; [done|]. split; [cbn [centralFreelist_ c' cut]; by rewrite lookup_insert_eq|]. split; [exact Hch|].
    split; [|split; [apply Hfew; rewrite length_blocks_from; lia|exact Hin]].
    rewrite blocks_from_in. intros (j & Hj & Heq). unfold block in Heq. nia.
Qed.


(** ** Giving back and getting again *)

(** The list of a thread has the blocks [l], and the thread knows how many. *)
Definition thread_has (p : pool) (t : nat) (index : Z) (l : list Z) : Prop :=
  free_of p t index = default 0%Z (head l) /\ size_of p t index = Z.of_nat (length l) /\ chained (shared p) l.

Lemma split_at_run c x rest steps bn rn : forall l fuel i,
  chained c (l ++ x :: rest) -> (i + Z.of_nat (length l) = steps)%Z -> length l < fuel ->
  split_at fuel i steps (default 0%Z (head (l ++ x :: rest))) bn rn (c, []) = Ret ((x, rn), (c, [])).
Proof.
  induction l as [|q l IH]; intros fuel i Hc Hi Hf; (destruct fuel as [|fuel]; [cbn in Hf; lia|]);
    cbn [app head default from_option id split_at chained length] in *.
  - destruct (Z.leb_spec steps i); [done|lia].
  - destruct (Z.leb_spec steps i); [lia|]. destruct Hc as (Hu & Hv & Hc).
    rewrite (bind_ret _ _ _ _ _ (block_load_run c q Hu)), Hv.
    assert (Hn : default 0%Z (head (l ++ x :: rest)) <> 0%Z).
    { destruct l; cbn [app head default from_option id chained] in *; by destruct Hc as [[? _] _]. }
    destruct (Z.eqb_spec (default 0%Z (head (l ++ x :: rest))) 0); [done|]. apply IH; [done|lia|lia].
Qed.

Lemma cut_facts (keep : list Z) x back y l2 :
  NoDup ((keep ++ x :: back ++ [y]) ++ l2) -> x ∉ l2 /\ y ∉ keep ++ [x] /\ NoDup (back ++ y :: l2).
Proof.
  rewrite list.NoDup_app. intros (HndL & Hdis & Hnd2).
  assert (HndL' : NoDup ((keep ++ [x]) ++ back ++ [y])) by (by rewrite <- app_assoc).
  apply list.NoDup_app in HndL' as (_ & Hd & Hb). split; [apply Hdis; set_solver|]. split.
  - intros Hy. apply (Hd y Hy). set_solver.
  - replace (back ++ y :: l2) with ((back ++ [y]) ++ l2) by (by rewrite <- app_assoc). apply list.NoDup_app.
    split; [done|]. split; [|done]. intros q Hq. apply Hdis. set_solver.
Qed.

Lemma chained_next c (keep : list Z) x rest :
  chained c (keep ++ x :: rest) -> default 0%Z (words c !! x) = default 0%Z (head rest).
Proof. intros H. induction keep as [|q keep IH]; cbn [app chained] in H; [apply H|by apply IH, H]. Qed.

(** A list of [n] blocks is cut behind its first quarter. *)
Lemma return_to_central_run visit t size now p keep x back y l2 :
  let index := getIndex size in
  (0 < size <= MAX_BYTES)%Z -> thread_has p t index (keep ++ x :: back ++ [y]) -> central_has (shared p) index l2 ->
  NoDup ((keep ++ x :: back ++ [y]) ++ l2) -> length (keep ++ x :: back ++ [y]) < blocks_bound (shared p) ->
  (Z.of_nat (S (length keep)) = Z.max (Z.of_nat (length (keep ++ x :: back ++ [y])) / 4) 1)%Z ->
  (Z.of_nat (length (keep ++ x :: back ++ [y])) < 2 ^ 32)%Z ->
  (default 0 (delayCounts_ (shared p) !! index) + 1 < MAX_DELAY_COUNT)%Z ->
  (now - default 0 (lastReturnTime_ (shared p) !! index) < DELAY_INTERVAL)%Z ->
  exists p', returnToCentralCache visit t (default 0%Z (head (keep ++ x :: back ++ [y]))) size now (p, []) = Ret (tt, (p', [])) /\
    thread_has p' t index (keep ++ [x]) /\ central_has (shared p') index (back ++ y :: l2) /\
    (forall t', t' <> t -> the_cache t' p' = the_cache t' p) /\ pages (shared p') = pages (shared p) /\
    words (shared p') = <[y := default 0%Z (head l2)]> (<[x := 0%Z]> (words (shared p))).
Proof.
  intros index Hsz (Hf & Hn & Hch) [Hl2 Hc2] Hnd Hbound Hkeep Hbig Hdelay Htime.
  set (L := keep ++ x :: back ++ [y]) in *. set (n := length L) in *.
  destruct (size_class size Hsz) as (Hidx & Hclass & Hround & _). fold index in Hidx, Hclass.
  assert (HnL : n = length keep + 1 + length back + 1) by (unfold n, L; rewrite length_app; cbn [length]; rewrite length_app; cbn [length]; lia).
  unfold returnToCentralCache. fold index. rewrite bind_get_size, Hn.
  destruct (Z.leb_spec (Z.of_nat n) 1); [lia|]. rewrite <- Hkeep. rewrite bind_get. cbn [fst].
  rewrite (bind_shared _ _ p _ _ (split_at_run (shared p) x (back ++ [y]) (Z.of_nat (S (length keep)) - 1) _ _ keep
    (S (blocks_bound (shared p))) 0 Hch ltac:(lia) ltac:(lia))), set_shared_id. cbn [fst snd].
  assert (Hux : usable (shared p) x) by (apply (chained_usable _ L x Hch); unfold L; set_solver).
  destruct (Z.eqb_spec x 0) as [->|_]; [by destruct Hux|].
  rewrite (bind_shared _ _ p _ _ (block_load_run (shared p) x Hux)), set_shared_id.
  destruct (cut_facts keep x back y l2 Hnd) as (Hxl2 & Hyk & Hback). apply list.NoDup_app in Hnd as (HndL & _).
  pose proof (chained_next (shared p) keep x (back ++ [y]) Hch) as Hnext.
  rewrite Hnext, (bind_shared _ _ p _ _ (store_run (shared p) x 0 Hux)).
  destruct (chained_cut (shared p) keep x (back ++ [y]) Hch HndL) as [Hkeep1 Hback1].
  set (c1 := set_words (<[x := 0%Z]> (words (shared p))) (shared p)) in *.
  rewrite bind_set_free, bind_set_size. set (p3 := with_cache t _ _).
  assert (Hnull : default 0%Z (head (back ++ [y])) <> 0%Z).
  { destruct back; cbn [app head default from_option id chained] in *; by destruct Hback1 as [[? _] _]. }
  destruct (Z.ltb_spec 0 (Z.of_nat n - Z.of_nat (S (length keep)))); [|lia].
  destruct (Z.eqb_spec (default 0%Z (head (back ++ [y]))) 0); [done|]. cbn [negb andb].
  assert (Hc2' : central_has c1 index l2).
  { split; [done|]. apply (chained_frame (shared p)); [|done|done]. intros q Hq. cbn [c1 words set_words].
    rewrite lookup_insert_ne; [done|by intros ->]. }
  assert (Hlen : length (back ++ [y]) = n - S (length keep)) by (rewrite length_app; cbn [length]; lia).
  rewrite wrap_small by (unfold MAX_BYTES, ALIGNMENT in *; nia).
  destruct (return_range_run visit c1 index now ((Z.of_nat n - Z.of_nat (S (length keep))) * roundUp size) back y l2 Hidx Hback1 Hc2'
    Hback) as (c' & E & Hcen & Hpg & Hwd); [rewrite Hlen; change (blocks_bound c1) with (blocks_bound (shared p)); lia| |done|done|].
  { rewrite Hclass, Z.div_mul by (unfold ALIGNMENT in *; lia). rewrite Hlen. lia. }
  unfold on_shared. erewrite (zoom_run shared set_shared); [|exact E]. eexists. split; [reflexivity|].
  split; [|split; [exact Hcen|split; [|split; [exact Hpg|exact Hwd]]]].
  - unfold thread_has, free_of, size_of. change (the_cache t (set_shared c' p3)) with (the_cache t p3). unfold p3.
    rewrite the_cache_eq. cbn [freelist freelistSize_ cache_size cache_free]. rewrite the_cache_eq.
    cbn [freelist freelistSize_ cache_size cache_free]. rewrite !lookup_insert_eq. split; [|split].
    + cbn [default from_option id]. unfold L. by destruct keep.
    + cbn [default from_option id]. rewrite wrap_small by lia. rewrite length_app. cbn [length]. lia.
    + apply (chained_frame c1); [|cbn [shared set_shared]; by rewrite Hpg|done]. intros q Hq. cbn [shared set_shared].
      rewrite Hwd, lookup_insert_ne; [done|by intros ->].
  - intros t' Ht. change (the_cache t' (set_shared c' p3)) with (the_cache t' p3). unfold p3. by rewrite !the_cache_ne by done.
Qed.

(** A block is put before the others. *)
Lemma push_run t index b p l l2 :
  thread_has p t index l -> central_has (shared p) index l2 -> usable (shared p) b -> b ∉ l ++ l2 ->
  (Z.of_nat (length l) < 2 ^ 32)%Z ->
  exists p2, (forall B (k : tc B), (h ← get_free t index; on_shared (store b h) ;; set_free t index b ;;
      n ← get_size t index; set_size t index (n + 1) ;; k) (p, []) = k (p2, [])) /\
    thread_has p2 t index (b :: l) /\ central_has (shared p2) index l2 /\
    (forall t', t' <> t -> the_cache t' p2 = the_cache t' p) /\
    shared p2 = set_words (<[b := default 0%Z (head l)]> (words (shared p))) (shared p).
Proof.
  intros (Hf & Hn & Hch) [Hl2 Hc2] Hu Hb Hl. rewrite not_elem_of_app in Hb. destruct Hb as [Hbl Hbl2].
  set (c1 := set_words (<[b := default 0%Z (head l)]> (words (shared p))) (shared p)).
  set (p1 := with_cache t (cache_free index b (the_cache t (set_shared c1 p))) (set_shared c1 p)).
  assert (Hn1 : size_of p1 t index = Z.of_nat (length l)) by (unfold size_of, p1; rewrite the_cache_eq; exact Hn).
  exists (with_cache t (cache_size index (Z.of_nat (length l) + 1) (the_cache t p1)) p1). split.
  { intros B k. rewrite bind_get_free, Hf, (bind_shared _ _ p _ _ (store_run (shared p) b _ Hu)). fold c1.
    rewrite bind_set_free, bind_get_size. fold p1. by rewrite Hn1, bind_set_size. } split; [|split; [|split; [|done]]].
  - unfold thread_has, free_of, size_of. rewrite the_cache_eq. cbn [freelist freelistSize_ cache_size]. unfold p1.
    rewrite the_cache_eq. cbn [freelist freelistSize_ cache_free]. rewrite !lookup_insert_eq.
    split; [done|]. split; [cbn [default from_option id length]; rewrite wrap_small by lia; lia|].
    split; [done|]. split; [cbn; by rewrite lookup_insert_eq|]. apply (chained_frame (shared p)); [|done|done].
    intros q Hq. cbn. rewrite lookup_insert_ne; [done|by intros ->].
  - split; [done|]. apply (chained_frame (shared p)); [|done|done].
    intros q Hq. cbn. rewrite lookup_insert_ne; [done|by intros ->].
  - intros t' Ht. rewrite the_cache_ne by done. unfold p1. by rewrite the_cache_ne.
Qed.

(** Giving a block back, up to the return of a long list. *)
Lemma deallocate_pushes visit t size now p b l l2 :
  let index := getIndex size in
  (0 < size <= MAX_BYTES)%Z -> thread_has p t index l -> central_has (shared p) index l2 ->
  usable (shared p) b -> b ∉ l ++ l2 -> length l <= 256 ->
  exists p2, deallocate visit t b size now (p, [])
      = (if decide (length l < 256) then mret tt else returnToCentralCache visit t b size now) (p2, []) /\
    thread_has p2 t index (b :: l) /\ central_has (shared p2) index l2 /\
    (forall t', t' <> t -> the_cache t' p2 = the_cache t' p) /\
    shared p2 = set_words (<[b := default 0%Z (head l)]> (words (shared p))) (shared p).
Proof.
  intros index Hsz Ht Hc Hu Hb Hl. unfold deallocate. destruct (Z.ltb_spec MAX_BYTES size); [lia|]. fold index.
  destruct (push_run t index b p l l2 Ht Hc Hu Hb) as (p2 & Epush & Ht2 & Hrest); [lia|].
  exists p2. split; [|by split].
  rewrite (Epush _ (should ← shouldReturnToCentralCache t index;
    if (should : bool) then h ← get_free t index; returnToCentralCache visit t h size now else mret tt)).
  pose proof Ht2 as (Hf2 & Hn2 & _). unfold shouldReturnToCentralCache.
  rewrite bind_bind, bind_get_size, bind_mret, Hn2. cbn [length].
  destruct (Z.ltb_spec 256 (Z.of_nat (S (length l)))).
  - rewrite decide_False by lia. by rewrite bind_get_free, Hf2.
  - by rewrite decide_True by lia.
Qed.

(** A list of 257 blocks, around the 64th and the last. *)
Lemma list_257 (l : list Z) : length l = 257 -> exists keep x back y, l = keep ++ x :: back ++ [y] /\ length keep = 63.
Proof.
  intros Hl. destruct (lookup_lt_is_Some_2 l 63) as [x Hx]; [lia|].
  assert (Hd : drop 64 l <> []) by (intros E; apply (f_equal length) in E; rewrite length_drop, Hl in E; cbn in E; lia).
  destruct (exists_last Hd) as (back & y & E). exists (take 63 l), x, back, y. rewrite <- E.
  split; [|rewrite length_take; lia]. by rewrite (take_drop_middle l 63 x Hx).
Qed.

(** C16: giving blocks back loses none: the block goes to the front of the thread's list, and
    as soon as that has more than 256 blocks, its first 64 stay and the others go to the front
    of the central list; together the two lists hold what they held and the block, and only
    these blocks are written.  (As long as blocks do not come back often or late, when the
    central cache looks at its spans.) *)
Theorem deallocate_keeps_blocks visit t size now p b l l2 :
  let index := getIndex size in
  (0 < size <= MAX_BYTES)%Z -> thread_has p t index l -> central_has (shared p) index l2 ->
  usable (shared p) b -> NoDup ((b :: l) ++ l2) -> length l <= 256 -> length (b :: l) < blocks_bound (shared p) ->
  (default 0 (delayCounts_ (shared p) !! index) + 1 < MAX_DELAY_COUNT)%Z ->
  (now - default 0 (lastReturnTime_ (shared p) !! index) < DELAY_INTERVAL)%Z ->
  exists p' l' l2', deallocate visit t b size now (p, []) = Ret (tt, (p', [])) /\
    thread_has p' t index l' /\ central_has (shared p') index l2' /\ l' ++ l2' = (b :: l) ++ l2 /\
    length l' = (if decide (length l < 256) then S (length l) else 64) /\
    (forall t', t' <> t -> the_cache t' p' = the_cache t' p) /\ pages (shared p') = pages (shared p) /\
    (forall q, q ∉ b :: l -> words (shared p') !! q = words (shared p) !! q).
Proof.
  intros index Hsz Ht Hc Hu Hnd Hl Hbound Hdelay Htime.
  assert (Hb : b ∉ l ++ l2) by (cbn [app] in Hnd; by apply list.NoDup_cons in Hnd as [Hb _]).
  destruct (deallocate_pushes visit t size now p b l l2 Hsz Ht Hc Hu Hb Hl) as (p2 & -> & Ht2 & Hc2 & Hoth & Hsh).
  fold index in Ht2, Hc2. case_decide.
  - exists p2, (b :: l), l2. do 5 (split; [done|]). split; [done|]. split; [by rewrite Hsh|].
    intros q Hq. rewrite Hsh. cbn [words set_words]. apply lookup_insert_ne. intros ->. apply Hq. by left.
  - assert (Hlen : length (b :: l) = 257) by (cbn [length]; lia).
    change b with (default 0%Z (head (b :: l))) at 1.
    destruct (list_257 _ Hlen) as (keep & x & back & y & EL & Hkeep). rewrite EL in *.
    destruct (return_to_central_run visit t size now p2 keep x back y l2 Hsz Ht2 Hc2 Hnd) as (p' & E & H1 & H2 & H3 & H4 & H5);
      [by rewrite Hsh|rewrite Hlen, Hkeep; reflexivity|rewrite Hlen; lia|by rewrite Hsh|by rewrite Hsh|].
    exists p', (keep ++ [x]), (back ++ y :: l2). split; [exact E|]. split; [exact H1|]. split; [exact H2|].
    split; [by rewrite <- !app_assoc; cbn; rewrite <- app_assoc|].
    split; [rewrite length_app; cbn [length]; lia|].
    split; [intros t' Ht'; rewrite H3, Hoth; done|]. split; [by rewrite H4, Hsh|].
    intros q Hq. rewrite H5, Hsh. assert (Hbq : b ∈ keep ++ x :: back ++ [y]) by (rewrite <- EL; by left).
    cbn [words set_words]. rewrite !lookup_insert_ne; [done|..]; intros ->; apply Hq; set_solver.
Qed.

(** C17: when a thread gives back a block and asks for one of the same class again, it gets
    that block, and its list and its count are what they were, as long as the list is not long
    enough to be returned. *)
Theorem block_is_reused visit t size size' now mm big p b :
  (0 < size <= MAX_BYTES)%Z -> (0 < size' <= MAX_BYTES)%Z -> getIndex size' = getIndex size ->
  usable (shared p) b -> (0 <= size_of p t (getIndex size) < 256)%Z ->
  exists p1 p', deallocate visit t b size now (p, []) = Ret (tt, (p1, [])) /\
    allocate t size' mm big (p1, []) = Ret (Some b, (p', [])) /\
    free_of p' t (getIndex size) = free_of p t (getIndex size) /\
    size_of p' t (getIndex size) = size_of p t (getIndex size) /\
    (forall t', t' <> t -> the_cache t' p' = the_cache t' p) /\
    shared p' = set_words (<[b := free_of p t (getIndex size)]> (words (shared p))) (shared p).
Proof.
  intros Hsz Hsz' Heq Hu Hn. set (index := getIndex size) in *. unfold deallocate.
  destruct (Z.ltb_spec MAX_BYTES size); [lia|]. fold index. rewrite bind_get_free.
  rewrite (bind_shared _ _ p _ _ (store_run (shared p) b (free_of p t index) Hu)).
  set (p0 := set_shared _ p). rewrite bind_set_free. set (p1 := with_cache t _ p0).
  assert (Hn1 : size_of p1 t index = size_of p t index) by (unfold size_of, p1; by rewrite the_cache_eq).
  rewrite bind_get_size, bind_set_size, Hn1. set (p2 := with_cache t _ p1).
  assert (Hn2 : size_of p2 t index = (size_of p t index + 1)%Z).
  { unfold size_of at 1, p2. rewrite the_cache_eq. cbn [freelistSize_ cache_size]. rewrite lookup_insert_eq.
    apply wrap_small. lia. }
  assert (Hf2 : free_of p2 t index = b).
  { unfold free_of, p2. rewrite the_cache_eq. cbn [freelist cache_size]. unfold p1. rewrite the_cache_eq.
    cbn [freelist cache_free]. by rewrite lookup_insert_eq. }
  unfold shouldReturnToCentralCache. rewrite bind_bind, bind_get_size, bind_mret, Hn2.
  destruct (Z.ltb_spec 256 (size_of p t index + 1)); [lia|].
  exists p2. eexists. split; [reflexivity|]. unfold allocate.
  destruct (Z.eqb_spec size' 0); [lia|]. destruct (Z.ltb_spec MAX_BYTES size'); [lia|]. rewrite Heq.
  rewrite bind_get_size, bind_set_size, Hn2, bind_get_free. set (p3 := with_cache t _ p2).
  assert (Hf3 : free_of p3 t index = b) by (unfold free_of, p3; rewrite the_cache_eq; exact Hf2).
  rewrite Hf3. destruct (Z.eqb_spec b 0) as [E|_]; [by destruct Hu|]. cbn [negb].
  assert (Hu3 : usable (shared p3) b) by exact Hu.
  rewrite (bind_shared _ _ p3 _ _ (block_load_run (shared p3) b Hu3)), set_shared_id.
  assert (Hw : words (shared p3) !! b = Some (free_of p t index)) by apply lookup_insert_eq.
  rewrite Hw, bind_set_free. split; [reflexivity|]. split; [|split; [|split; [|done]]].
  - unfold free_of at 1. rewrite the_cache_eq. cbn [freelist cache_free]. by rewrite lookup_insert_eq.
  - unfold size_of at 1. rewrite the_cache_eq. cbn [freelistSize_ cache_free]. unfold p3.
    rewrite the_cache_eq. cbn [freelistSize_ cache_size]. rewrite lookup_insert_eq.
    cbn [default from_option id]. rewrite wrap_small by lia. lia.
  - intros t' Ht. unfold p3, p2, p1. by rewrite !the_cache_ne.
Qed.

(** ** Witnesses *)

(** The central cache has one block of 16 KB; no thread has any. *)
Definition one_left : pool := mk_pool two_blocks ∅.

Lemma one_left_stocked : stocked two_blocks 2047 81920 [].
Proof.
  split; [reflexivity| | |vm_compute; lia].
  - cbn [chained]. split; [split; [discriminate|by vm_compute]|by vm_compute].
  - by intros ?%list_elem_of_singleton.
Qed.

Example two_threads_get_one_block_witness :
  exists p', (x ← allocate 0 16384 None None; y ← allocate 1 16384 None None; mret (x, y)) (one_left, [])
    = Ret ((Some 81920%Z, Some 81920%Z), (p', [])).
Proof.
  apply (two_threads_get_one_block 0 1 16384 None None None None one_left 81920 []);
    [discriminate|by vm_compute|reflexivity|reflexivity|exact one_left_stocked].
Defined.

(** A new pool: a span of 8 pages holds two blocks of 16 KB. *)
Definition new_pool : pool := mk_pool empty_central ∅.


Example block_is_reused_witness :
  exists p1 p', deallocate map_to_list 0 65536 16384 0 (one_left, []) = Ret (tt, (p1, [])) /\
    allocate 0 16380 None None (p1, []) = Ret (Some 65536%Z, (p', [])).
Proof.
  destruct (block_is_reused map_to_list 0 16384 16380 0 None None one_left 65536) as (p1 & p' & E1 & E2 & _).
  - by vm_compute.
  - by vm_compute.
  - reflexivity.
  - split; [discriminate|by vm_compute].
  - split; [by vm_compute|reflexivity].
  - exists p1, p'. by split.
Defined.

Example deallocate_keeps_blocks_witness :
  exists p' l' l2', deallocate map_to_list 0 65536 16384 0 (one_left, []) = Ret (tt, (p', [])) /\
    thread_has p' 0 2047 l' /\ central_has (shared p') 2047 l2' /\ l' ++ l2' = [65536; 81920]%Z.
Proof.
  pose proof one_left_stocked as [Hl Hc _ _].
  destruct (deallocate_keeps_blocks map_to_list 0 16384 0 one_left 65536 [] [81920%Z]) as (p' & l' & l2' & E & H1 & H2 & H3 & _).
  - by vm_compute.
  - by split.
  - split; [exact Hl|exact Hc].
  - split; [discriminate|by vm_compute].
  - change (([65536] ++ []) ++ [81920])%Z with [65536; 81920]%Z. apply list.NoDup_cons. split; [set_solver|apply NoDup_singleton].
  - cbn. lia.
  - vm_compute. lia.
  - by vm_compute.
  - by vm_compute.
  - exists p', l', l2'. by split.
Defined.
