(* ===== verification/UnitTest.v ===== *)
(** * The unit test of the C++ pool ([src/mempool/tests/UnitTest.cpp])

    [MemoryPool] forwards to the cache of the thread.  The result says whether the
    assertions hold; messages are left out, and nothing in the pool lets an exception out. *)

From S2P Require Import Prelude PageCache PageCacheSpec CentralCache CentralCacheSpec ThreadCache ThreadCacheSpec.
Import CentralCache ThreadCache.

Module UnitTest.
Section test.
Context (visit : gmap nat Z -> list (nat * Z)).

(** [mm]: what [mmap] would return; [big]: what [malloc] would. *)
Definition testBasicAllocation (t : nat) (mm big : option Z) (now : Z) : tc bool :=
  ptr1 ← allocate t 8 mm big;
  match ptr1 with
  | None => mret false
  | Some ptr1 =>
      deallocate visit t ptr1 8 now ;;
      ptr3 ← allocate t (1024 * 1024) mm big;
      match ptr3 with
      | None => mret false
      | Some ptr3 =>
          deallocate visit t ptr3 (1024 * 1024) now ;;
          mret true
      end
  end.

(** The first block of a span comes before the others. *)
Lemma first_block_apart k start size :
  (0 < size)%Z -> start ∉ blocks_from k start size 1.
Proof. intros Hs. rewrite blocks_from_in. intros (j & Hj & Heq). unfold block in Heq. nia. Qed.

(** More than [MAX_BYTES] come from the C library and go back to it. *)
Lemma large_allocation t mm big p al :
  allocate t (1024 * 1024) mm big (p, al) = Ret (big, (p, al)).
Proof. done. Qed.

(** In a new process the test passes exactly when the system has memory for a span and for
    the megabyte; then the thread has back the block it gave, and the central list of the
    class the others of the span. *)
Theorem basic_allocation_passes started t mm big now :
  (forall a, mm = Some a -> (0 < a)%Z) ->
  exists p', testBasicAllocation t mm big now (pool0 started, [])
      = Ret (bool_decide (is_Some mm) && bool_decide (is_Some big), (p', [])) /\
    (is_Some mm -> exists start rest, thread_has p' t 0 [start] /\ central_has (shared p') 0 rest /\
       length rest = Z.to_nat (class_blocks 0 - 1)).
Proof.
  intros Ha. unfold testBasicAllocation. change 0%Z with (getIndex 8). destruct mm as [a|].
  2: { destruct (allocate_refused t 8 None big (pool0 started) (central0 started)) as (p' & E); [done|done|done|].
       rewrite (bind_ret _ _ _ _ _ E). exists p'. split; [done|]. by intros [? ?]. }
  destruct (allocate_new_span t 8 (Some a) big (pool0 started) ∅)
    as [[? _]|(start & p1 & E & Hf & Hn & Hu & Hcl & Hch & H0 & Hlen & Hin)];
    [done|done|done|done|apply client_start| |intros [k Hk]; done| |exact Ha|done|..].
  - intros b y _ _ (z & Hz & _). by apply elem_of_nil in Hz.
  - intros y (z & Hz & _). by apply elem_of_nil in Hz.
  - rewrite (bind_ret _ _ _ _ _ E). set (rest := blocks_from _ _ _ _) in *.
    destruct (deallocate_pushes visit t 8 now p1 start [] rest) as (p2 & E2 & Ht & Hc & _).
    + done.
    + split; [exact Hf|]. split; [exact Hn|done].
    + split; [|exact Hch]. by rewrite Hcl.
    + exact Hu.
    + by apply first_block_apart.
    + cbn. lia.
    + rewrite decide_True in E2 by (cbn; lia). rewrite (bind_ret _ _ _ _ _ E2). exists p2. split.
      * rewrite (bind_ret _ _ _ _ _ (large_allocation t _ big p2 [])). by destruct big.
      * intros _. exists start, rest. split; [done|]. split; [done|]. apply length_blocks_from.
Qed.

End test.
End UnitTest.
