(* ===== verification/KvsSkiptable.v ===== *)
(** * The skip list of scored members ([src/kvs_skiptable.c]): the code

    Nodes live on a heap indexed by addresses; address 0 is NULL.  Scores are IEEE 754
    doubles ([spec_float] with 53 bits).  The values [rand] will return are part of the
    state.  Loops along the list take fuel: one more than the number of nodes. *)

From Stdlib Require Import SpecFloat.
From S2P Require Import Prelude.

Module Skip.

(** ** Doubles *)

Abbreviation double := spec_float.
Definition prec : Z := 53.
Definition emax : Z := 1024.
Definition dlt (x y : double) : bool := SFltb x y.
Definition deq (x y : double) : bool := SFeqb x y.
Definition dle (x y : double) : bool := SFleb x y.
Definition dzero : double := S754_zero false.

(** An integer as a double. *)
Definition dint (z : Z) : double := binary_normalize prec emax z 0 false.

(** ** Data *)

Definition SKIP_MAX_LEVEL : nat := 6.
Definition MAX_KEY_LEN : nat := 128.
Definition MAX_VALUE_LEN : nat := 128.

Abbreviation ptr := nat.

Record SkipNode := mk_node {
  key : cptr;
  value : cptr;
  score : double;
  forward : list ptr
}.

Record SkipList := mk_list {
  level : nat;
  header : ptr;
  lock : mutex;          (** the read-write lock, as one thread sees it *)
  sl_length : Z;
  nodes : gmap ptr SkipNode;
  next : ptr;            (** the address of the next node *)
  rands : list Z         (** what [rand] returns next; 0 after the end *)
}.

Record ZRangeEntry := mk_entry { e_key : cstr; e_value : cstr; e_score : double }.

Abbreviation sk A := (M SkipList A).

Definition set_level n l :=
  mk_list n (header l) (lock l) (sl_length l) (nodes l) (next l) (rands l).
Definition set_header p l :=
  mk_list (level l) p (lock l) (sl_length l) (nodes l) (next l) (rands l).
Definition set_lock m l :=
  mk_list (level l) (header l) m (sl_length l) (nodes l) (next l) (rands l).
Definition set_length n l :=
  mk_list (level l) (header l) (lock l) n (nodes l) (next l) (rands l).
Definition set_nodes h l :=
  mk_list (level l) (header l) (lock l) (sl_length l) h (next l) (rands l).
Definition set_rands r l :=
  mk_list (level l) (header l) (lock l) (sl_length l) (nodes l) (next l) r.

Definition set_forward f n := mk_node (key n) (value n) (score n) f.
Definition set_value v n := mk_node (key n) v (score n) (forward n).

(** [int] arithmetic of the length field. *)
Definition int_of (z : Z) : Z :=
  (wrap 32 (z + 2 ^ 31) - 2 ^ 31)%Z.

(** ** Access to nodes *)

Definition load (p : ptr) : sk SkipNode :=
  l ← get;
  if decide (p = 0) then raise NullDeref else
  match nodes l !! p with
  | None => raise BadPointer
  | Some n => mret n
  end.

Definition store (p : ptr) (n : SkipNode) : sk unit :=
  modify (fun l => set_nodes (<[p := n]> (nodes l)) l).

(** [p->forward[i]] *)
Definition fwd (p : ptr) (i : nat) : sk ptr :=
  n ← load p;
  match forward n !! i with
  | None => raise OutOfBounds
  | Some q => mret q
  end.

(** [p->forward[i] = q] *)
Definition set_fwd (p : ptr) (i : nat) (q : ptr) : sk unit :=
  n ← load p;
  if decide (i < length (forward n)) then store p (set_forward (<[i := q]> (forward n)) n)
  else raise OutOfBounds.

Definition node_key (p : ptr) : sk cstr := n ← load p; deref (key n).

(** The local array [update], with [SKIP_MAX_LEVEL + 1] entries that are not set. *)
Abbreviation updates := (list (option ptr)).
Definition update0 : updates := replicate (S SKIP_MAX_LEVEL) None.

Definition upd_set (u : updates) (i : nat) (p : ptr) : sk updates :=
  if decide (i < length u) then mret (<[i := Some p]> u) else raise OutOfBounds.

Definition upd_get (u : updates) (i : nat) : sk ptr :=
  match u !! i with
  | None => raise OutOfBounds
  | Some None => raise Indeterminate
  | Some (Some p) => mret p
  end.

Definition wrlock : sk unit :=
  l ← get; m ← mutex_lock (lock l); modify (set_lock m).
Definition rdlock : sk unit := wrlock.
Definition unlock : sk unit :=
  l ← get; m ← mutex_unlock (lock l); modify (set_lock m).

(** ** Random levels *)

Definition rand : sk Z :=
  l ← get;
  match rands l with
  | [] => mret 0%Z
  | r :: rs => put (set_rands rs l) ;; mret r
  end.

(** [(rand() & 0xFFFF) < 0.5 * 0xFFFF]: the right side is 32767.5. *)
Fixpoint randomLevel_loop (fuel level : nat) : sk nat :=
  match fuel with
  | O => out_of_fuel
  | S n =>
      r ← rand;
      if (2 * Z.land r 65535 <? 65535)%Z && bool_decide (level < SKIP_MAX_LEVEL)
      then randomLevel_loop n (S level)
      else mret level
  end.

Definition randomLevel : sk nat := randomLevel_loop (S SKIP_MAX_LEVEL) 0.

(** ** Nodes *)

Definition strdup (s : cstr) : sk cptr :=
  ok ← malloc_ok; mret (if (ok : bool) then Str s else Null).

(** The results of [malloc] are not tested. *)
Definition createSkipNode (lvl : nat) (key0 value0 : cstr) (score0 : double) : sk ptr :=
  ok ← malloc_ok;
  if negb ok then raise NullDeref else
  k ← strdup key0;
  v ← strdup value0;
  okf ← malloc_ok;
  if negb okf then raise NullDeref else
  l ← get;
  put (mk_list (level l) (header l) (lock l) (sl_length l)
         (<[next l := mk_node k v score0 (replicate (S lvl) 0)]> (nodes l))
         (S (next l)) (rands l)) ;;
  mret (next l).

Definition free_node (p : ptr) : sk unit :=
  n ← load p;
  free_str (key n) ;;
  free_str (value n) ;;
  modify (fun l => set_nodes (delete p (nodes l)) l).

Definition node_fuel : sk nat := l ← get; mret (S (size (nodes l))).

(** ** Insertion *)

(** [while (current->forward[i] && before(current->forward[i])) current = ...] *)
Fixpoint advance (before : SkipNode -> sk bool) (fuel i : nat) (current : ptr) : sk ptr :=
  match fuel with
  | O => out_of_fuel
  | S n =>
      q ← fwd current i;
      if decide (q = 0) then mret current else
      nq ← load q;
      b ← before nq;
      if (b : bool) then advance before n i q else mret current
  end.

(** The levels from [S i - 1] down to 0. *)
Fixpoint descend (before : SkipNode -> sk bool) (fuel i : nat) (current : ptr) (u : updates)
    : sk (ptr * updates) :=
  match i with
  | O => mret (current, u)
  | S i =>
      c ← advance before fuel i current;
      u ← upd_set u i c;
      descend before fuel i c u
  end.

Definition before_zadd (key0 : cstr) (score0 : double) (n : SkipNode) : sk bool :=
  if dlt (score n) score0 then mret true else
  if deq (score n) score0 then k ← deref (key n); mret (strcmp k key0 <? 0)%Z
  else mret false.

(** [for (i = from; i < from + n; i++) update[i] = list->header] *)
Fixpoint raise_levels (n from : nat) (u : updates) : sk updates :=
  match n with
  | O => mret u
  | S n => l ← get; u ← upd_set u from (header l); raise_levels n (S from) u
  end.

(** [for (i = from; i < from + n; i++)] link the new node at level [i]. *)
Fixpoint link (n from : nat) (u : updates) (node : ptr) : sk unit :=
  match n with
  | O => mret tt
  | S n =>
      p ← upd_get u from;
      q ← fwd p from;
      set_fwd node from q ;;
      set_fwd p from node ;;
      link n (S from) u node
  end.

Definition kvs_skiptable_zadd (key0 value0 : cstr) (score0 : double) : sk Z :=
  wrlock ;;
  l ← get;
  fuel ← node_fuel;
  cu ← descend (before_zadd key0 score0) fuel (S (level l)) (header l) update0;
  let u := cu.2 in
  cur ← fwd cu.1 0;
  same ← (if decide (cur = 0) then mret false else
            n ← load cur;
            if deq (score n) score0 then k ← deref (key n); mret (strcmp k key0 =? 0)%Z
            else mret false);
  if (same : bool) then
    n ← load cur;
    free_str (value n) ;;
    v ← strdup value0;
    store cur (set_value v n) ;;
    unlock ;;
    mret 1%Z
  else
    lvl ← randomLevel;
    l ← get;
    u ← (if decide (level l < lvl) then
           u ← raise_levels (lvl - level l) (S (level l)) u;
           modify (set_level lvl) ;; mret u
         else mret u);
    node ← createSkipNode lvl key0 value0 score0;
    link (S lvl) 0 u node ;;
    modify (fun l => set_length (int_of (sl_length l + 1)) l) ;;
    unlock ;;
    mret 0%Z.

(** ** Removal *)

Definition before_zrem (key0 : cstr) (n : SkipNode) : sk bool :=
  k ← deref (key n); mret (strcmp k key0 <? 0)%Z.

(** [for (i = from; i < from + n; i++)] unlink [cur] until a level does not hold it. *)
Fixpoint unlink (n from : nat) (u : updates) (cur : ptr) : sk unit :=
  match n with
  | O => mret tt
  | S n =>
      p ← upd_get u from;
      q ← fwd p from;
      if decide (q <> cur) then mret tt else
      r ← fwd cur from;
      set_fwd p from r ;;
      unlink n (S from) u cur
  end.

(** [while (list->level > 0 && header->forward[level] == NULL) level--] *)
Fixpoint lower_level (lvl : nat) : sk unit :=
  match lvl with
  | O => modify (set_level 0)
  | S l' =>
      l ← get;
      q ← fwd (header l) lvl;
      if decide (q = 0) then lower_level l' else modify (set_level lvl)
  end.

Definition kvs_skiptable_zrem (key0 : cstr) : sk Z :=
  wrlock ;;
  l ← get;
  fuel ← node_fuel;
  cu ← descend (before_zrem key0) fuel (S (level l)) (header l) update0;
  let u := cu.2 in
  cur ← fwd cu.1 0;
  same ← (if decide (cur = 0) then mret false else
            k ← node_key cur; mret (strcmp k key0 =? 0)%Z);
  if (same : bool) then
    unlink (S (level l)) 0 u cur ;;
    free_node cur ;;
    lower_level (level l) ;;
    modify (fun l => set_length (int_of (sl_length l - 1)) l) ;;
    unlock ;;
    mret 0%Z
  else
    unlock ;;
    mret (-1)%Z.

(** ** Range queries *)

Fixpoint skip_below (fuel : nat) (mn : double) (cur : ptr) : sk ptr :=
  match fuel with
  | O => out_of_fuel
  | S n =>
      if decide (cur = 0) then mret 0 else
      nd ← load cur;
      if dlt (score nd) mn then q ← fwd cur 0; skip_below n mn q else mret cur
  end.

(** [strncpy(dst, s, n - 1); dst[n - 1] = 0]: the string [dst] then holds. *)
Definition strncpy_cut (n : nat) (s : cstr) : cstr := take (n - 1) s.

Fixpoint collect (fuel : nat) (mx : double) (cur : ptr) (room : nat) : sk (list ZRangeEntry) :=
  match fuel with
  | O => out_of_fuel
  | S n =>
      if decide (cur = 0) then mret [] else
      nd ← load cur;
      if negb (dle (score nd) mx) then mret [] else
      match room with
      | O => mret []
      | S room =>
          k ← deref (key nd);
          v ← deref (value nd);
          q ← fwd cur 0;
          es ← collect n mx q room;
          mret (mk_entry (strncpy_cut MAX_KEY_LEN k) (strncpy_cut MAX_VALUE_LEN v) (score nd) :: es)
      end
  end.

(** The entries that are filled in; their number is the function's result. *)
Definition kvs_skiptable_zrange_entries (mn mx : double) (max_results : nat)
    : sk (list ZRangeEntry) :=
  rdlock ;;
  l ← get;
  cur ← fwd (header l) 0;
  fuel ← node_fuel;
  cur ← skip_below fuel mn cur;
  es ← collect fuel mx cur max_results;
  unlock ;;
  mret es.

(** ** Creation and destruction *)

Definition global_skiptable0 (rs : list Z) : SkipList := mk_list 0 0 Unlocked 0 ∅ 1 rs.

Fixpoint clear_forward (n from : nat) : sk unit :=
  match n with
  | O => mret tt
  | S n => l ← get; set_fwd (header l) from 0 ;; clear_forward n (S from)
  end.

Definition kvs_skiptable_create : sk Z :=
  modify (set_level 0) ;;
  h ← createSkipNode SKIP_MAX_LEVEL [] [] dzero;
  modify (set_header h) ;;
  clear_forward (S SKIP_MAX_LEVEL) 0 ;;
  modify (set_lock Unlocked) ;;
  modify (set_length 0) ;;
  mret 0%Z.

Fixpoint destroy_loop (fuel : nat) (cur : ptr) : sk unit :=
  match fuel with
  | O => out_of_fuel
  | S n =>
      if decide (cur = 0) then mret tt else
      nxt ← fwd cur 0;
      free_node cur ;;
      destroy_loop n nxt
  end.

Definition kvs_skiptable_destory : sk unit :=
  l ← get;
  fuel ← node_fuel;
  destroy_loop fuel (header l) ;;
  modify (set_lock Destroyed) ;;
  modify (set_header 0) ;;
  modify (set_level 0) ;;
  modify (set_length 0).

(** ** The table of named lists *)

Definition ZSET_TABLE_SIZE : Z := 1024.

Record ZSetEntry {A : Type} := mk_zset { zset_name : cstr; zset : A }.
Arguments ZSetEntry : clear implicits.

(** The characters are signed and the sum wraps around. *)
Fixpoint zset_hash_loop (hash : Z) (s : cstr) : Z :=
  match s with
  | [] => hash
  | c :: s => zset_hash_loop (wrap 32 (wrap 32 (wrap 32 (Z.shiftl hash 5) + hash) + schar c)) s
  end.
Definition zset_hash (s : cstr) : Z := (zset_hash_loop 5381 s mod ZSET_TABLE_SIZE)%Z.

Fixpoint find_entry {A} (name : cstr) (chain : list (ZSetEntry A)) : option A :=
  match chain with
  | [] => None
  | e :: chain =>
      if (strcmp (zset_name e) name =? 0)%Z then Some (zset e) else find_entry name chain
  end.

(** [table]: the chain of every slot. *)
Definition find_zset {A} (table : list (list (ZSetEntry A))) (name : cstr) : option A :=
  chain ← table !! Z.to_nat (zset_hash name); find_entry name chain.

End Skip.
