(* ===== verification/SkipRep.v ===== *)
(** * Skip lists as lists

    The nodes of a skip list after its header are described by the list of items they
    hold, each with its address and the number of its forward pointers.  Walking down the
    levels finds the place of a new item, and linking or unlinking a node level by level
    is insertion into or removal from that list. *)

From Stdlib Require Import SpecFloat.
From S2P Require Import Prelude KvsSkiptable.
Import Skip.

(** ** Items and their cells *)

(** [cap]: the length of [forward]. *)
Record item := mk_item { addr : ptr; ikey : cstr; ival : cstr; iscore : double; cap : nat }.

(** Where level [i] leads: to the first item of the list that has the level, or to what
    follows the list. *)
Fixpoint nxt (i : nat) (rest : list item) (t : nat -> ptr) : ptr :=
  match rest with
  | [] => t i
  | it :: rest => if decide (i < cap it) then addr it else nxt i rest t
  end.

Definition fws (c : nat) (t : nat -> ptr) : list ptr := t <$> seq 0 c.

Definition cell (it : item) (t : nat -> ptr) : SkipNode :=
  mk_node (Str (ikey it)) (Str (ival it)) (iscore it) (fws (cap it) t).

(** The nodes of a list of items that is followed by [t]. *)
Fixpoint seg (h : gmap ptr SkipNode) (A : list item) (t : nat -> ptr) : Prop :=
  match A with
  | [] => True
  | it :: A => h !! addr it = Some (cell it (fun i => nxt i A t)) /\ seg h A t
  end.

Definition last_ptr : nat -> ptr := fun _ => 0.

(** The last item of [c :: A] that has level [i]. *)
Fixpoint pred (i : nat) (c : item) (A : list item) : item :=
  match A with
  | [] => c
  | y :: A => if decide (i < cap y) then pred i y A else pred i c A
  end.

Lemma fws_lookup c t i : i < c -> fws c t !! i = Some (t i).
Proof. intros H. unfold fws. rewrite list_lookup_fmap, lookup_seq_lt by done. done. Qed.

Lemma length_fws c t : length (fws c t) = c.
Proof. unfold fws. by rewrite length_fmap, length_seq. Qed.

Lemma fws_ext c t t' : (forall i, i < c -> t i = t' i) -> fws c t = fws c t'.
Proof.
  intros H. apply list_eq. intros i. destruct (decide (i < c)).
  - rewrite !fws_lookup by done. by rewrite H.
  - rewrite !lookup_ge_None_2 by (rewrite length_fws; lia). done.
Qed.

Lemma fws_insert c t i q : fws c (fun j => if decide (j = i) then q else t j) = <[i := q]> (fws c t).
Proof.
  apply list_eq. intros j. destruct (decide (j < c)) as [Hj|Hj].
  - rewrite fws_lookup by done. case_decide as E.
    + subst. by rewrite list_lookup_insert_eq by (by rewrite length_fws).
    + by rewrite list_lookup_insert_ne, fws_lookup by done.
  - rewrite !lookup_ge_None_2 by (rewrite ?length_insert, length_fws; lia). done.
Qed.

Lemma nxt_app i A B t : nxt i (A ++ B) t = nxt i A (fun j => nxt j B t).
Proof. induction A as [|a A IH]; cbn [nxt app]; [done|]. case_decide; [done|exact IH]. Qed.

Lemma nxt_ext i A t t' : t i = t' i -> nxt i A t = nxt i A t'.
Proof. intros H. induction A as [|a A IH]; cbn [nxt]; [done|]. case_decide; [done|exact IH]. Qed.

Lemma nxt_skip i A t : Forall (fun y => cap y <= i) A -> nxt i A t = t i.
Proof.
  induction 1 as [|y A Hy _ IH]; cbn [nxt]; [done|]. rewrite decide_False by lia. exact IH.
Qed.

Lemma seg_app h A B t : seg h (A ++ B) t <-> seg h A (fun i => nxt i B t) /\ seg h B t.
Proof.
  induction A as [|a A IH]; cbn [seg app]; [naive_solver|]. rewrite IH.
  assert (E : cell a (fun i => nxt i (A ++ B) t) = cell a (fun i => nxt i A (fun j => nxt j B t))).
  { unfold cell. f_equal. apply fws_ext. intros i _. apply nxt_app. }
  rewrite E. naive_solver.
Qed.

(** What follows matters only at the levels the items have. *)
Lemma seg_tail h A t t' :
  (forall it i, it ∈ A -> i < cap it -> t i = t' i) -> seg h A t -> seg h A t'.
Proof.
  induction A as [|a A IH]; cbn [seg]; [done|]. intros Ht [Ha HA]. split.
  - rewrite Ha. unfold cell. do 2 f_equal. apply fws_ext. intros i Hi. apply nxt_ext.
    apply (Ht a); [apply elem_of_cons; by left|done].
  - apply IH; [|done]. intros it i Hit. apply Ht. apply elem_of_cons. by right.
Qed.

Lemma seg_frame h A t a n : a ∉ addr <$> A -> seg h A t -> seg (<[a := n]> h) A t.
Proof.
  induction A as [|y A IH]; cbn [seg fmap list_fmap]; [done|].
  rewrite not_elem_of_cons. intros [Hy HA] [Hc Hs]. rewrite lookup_insert_ne by done. by split; [|apply IH].
Qed.

Lemma seg_delete h A t a : a ∉ addr <$> A -> seg h A t -> seg (delete a h) A t.
Proof.
  induction A as [|y A IH]; cbn [seg fmap list_fmap]; [done|].
  rewrite not_elem_of_cons. intros [Hy HA] [Hc Hs]. rewrite lookup_delete_ne by done. by split; [|apply IH].
Qed.

Lemma seg_lookup h A B it t : seg h (A ++ it :: B) t -> h !! addr it = Some (cell it (fun i => nxt i B t)).
Proof. rewrite seg_app. cbn [seg]. naive_solver. Qed.

(** ** Predecessors *)

Lemma pred_spec i A : forall c,
  i < cap c ->
  exists A1 A2, c :: A = A1 ++ pred i c A :: A2 /\ i < cap (pred i c A) /\ Forall (fun y => cap y <= i) A2.
Proof.
  induction A as [|y A IH]; intros c Hc; cbn [pred].
  - exists [], []. by split.
  - case_decide as Hy.
    + destruct (IH y Hy) as (A1 & A2 & E & H1 & H2). exists (c :: A1), A2. cbn [app]. rewrite <- E. by split.
    + destruct (IH c Hc) as (A1 & A2 & E & H1 & H2). destruct A1 as [|z A1]; cbn [app] in E; injection E as Ez EA.
      * subst A2. exists [], (y :: A). cbn [app]. rewrite <- Ez. split; [done|]. split; [done|].
        constructor; [lia|done].
      * subst z. exists (c :: y :: A1), A2. cbn [app]. rewrite EA at 1. by split.
Qed.

Lemma pred_from i c c' A1 A2 : i < cap c' -> pred i c (A1 ++ c' :: A2) = pred i c' A2.
Proof.
  intros H. revert c. induction A1 as [|y A1 IH]; intros c; cbn [pred app].
  - by rewrite decide_True.
  - case_decide; apply IH.
Qed.

Lemma pred_split i c A A1 c' A2 :
  c :: A = A1 ++ c' :: A2 -> i < cap c' -> pred i c A = pred i c' A2.
Proof.
  destruct A1 as [|z A1]; cbn [app]; intros [= -> ->] H; [done|]. by apply pred_from.
Qed.

Lemma pred_none i c A : Forall (fun y => cap y <= i) A -> pred i c A = c.
Proof. induction 1 as [|y A Hy _ IH]; cbn [pred]; [done|]. rewrite decide_False by lia. exact IH. Qed.

Lemma pred_addr_in i c A : addr (pred i c A) ∈ addr <$> c :: A.
Proof.
  revert c. induction A as [|y A IH]; intros c; cbn [pred].
  - apply elem_of_cons. by left.
  - case_decide.
    + apply elem_of_cons. right. apply IH.
    + pose proof (IH c) as Hc. cbn [fmap list_fmap] in *. rewrite !elem_of_cons in *. naive_solver.
Qed.

(** ** Runs on a described list *)

(** The operations only see the nodes. *)
Definition at_nodes (l : SkipList) (h : gmap ptr SkipNode) : SkipList := set_nodes h l.

Lemma load_node_run l al p n : p <> 0 -> nodes l !! p = Some n -> load p (l, al) = Ret (n, (l, al)).
Proof. intros Hp Hn. unfold load. rewrite bind_get. cbn [fst]. rewrite decide_False by done. by rewrite Hn. Qed.

Lemma fwd_run l al it t i :
  addr it <> 0 -> nodes l !! addr it = Some (cell it t) -> i < cap it ->
  fwd (addr it) i (l, al) = Ret (t i, (l, al)).
Proof.
  intros Hp Hn Hi. unfold fwd. rewrite (bind_ret _ _ _ _ _ (load_node_run _ _ _ _ Hp Hn)).
  cbn [cell forward]. by rewrite fws_lookup.
Qed.

Lemma set_fwd_run l al p n i q :
  p <> 0 -> nodes l !! p = Some n -> i < length (forward n) ->
  set_fwd p i q (l, al) = Ret (tt, (set_nodes (<[p := set_forward (<[i := q]> (forward n)) n]> (nodes l)) l, al)).
Proof.
  intros Hp Hn Hi. unfold set_fwd. rewrite (bind_ret _ _ _ _ _ (load_node_run _ _ _ _ Hp Hn)).
  by rewrite decide_True.
Qed.

(** Reading and changing the predecessor at a level. *)
Lemma seg_pred h c A t i :
  seg h (c :: A) t -> i < cap c ->
  exists t', h !! addr (pred i c A) = Some (cell (pred i c A) t') /\ i < cap (pred i c A) /\ t' i = t i.
Proof.
  intros Hs Hc. destruct (pred_spec i A c Hc) as (A1 & A2 & E & Hp & HA2). rewrite E in Hs.
  eexists. split; [by apply seg_lookup in Hs|]. split; [done|]. cbn beta. by rewrite nxt_skip.
Qed.

Lemma seg_update h c A t i q :
  seg h (c :: A) t -> i < cap c -> NoDup (addr <$> c :: A) ->
  exists n, h !! addr (pred i c A) = Some n /\ i < length (forward n) /\
    seg (<[addr (pred i c A) := set_forward (<[i := q]> (forward n)) n]> h) (c :: A)
      (fun j => if decide (j = i) then q else t j).
Proof.
  intros Hs Hc Hnd. destruct (pred_spec i A c Hc) as (A1 & A2 & E & Hp & HA2).
  set (p := pred i c A) in *. rewrite E in *. rewrite fmap_app, fmap_cons in Hnd.
  apply list.NoDup_app in Hnd as (_ & Hd1 & Hd2). apply list.NoDup_cons in Hd2 as [Hd2 _].
  apply seg_app in Hs as [HA1 Hs]. destruct Hs as [Hpc Hs2]. cbn beta in Hpc.
  eexists. split; [exact Hpc|]. split; [cbn [cell forward]; by rewrite length_fws|].
  apply seg_app. split; [|split].
  - apply seg_frame.
    { intros Hin. apply (Hd1 _ Hin). apply elem_of_cons. by left. }
    eapply seg_tail; [|exact HA1]. intros it j _ _. cbn [nxt]. case_decide; [done|].
    apply nxt_ext. case_decide; [lia|done].
  - rewrite lookup_insert_eq. cbn [cell forward set_forward key value score]. unfold cell, set_forward. cbn [key value score].
    do 2 f_equal. rewrite <- fws_insert. apply fws_ext. intros j _. case_decide as Ej.
    + subst j. rewrite nxt_skip by done. by rewrite decide_True.
    + apply nxt_ext. by rewrite decide_False.
  - apply seg_frame; [done|]. eapply seg_tail; [|exact Hs2]. intros it j Hit Hj.
    pose proof (proj1 (list.Forall_forall _ _) HA2 _ Hit) as Hle. cbn beta in Hle. rewrite decide_False; [done|lia].
Qed.

(** ** Walking down *)

Lemma nxt_cases h i R :
  seg h R last_ptr ->
  nxt i R last_ptr = 0 \/
  exists y t, y ∈ R /\ nxt i R last_ptr = addr y /\ h !! addr y = Some (cell y t).
Proof.
  induction R as [|y R IH]; cbn [nxt seg]; [by left|]. intros [Hy HR]. case_decide.
  - right. exists y. eexists. split; [apply elem_of_cons; by left|]. by split.
  - destruct (IH HR) as [?|(z & t & Hz & ? & ?)]; [by left|]. right. exists z, t.
    split; [apply elem_of_cons; by right|]. by split.
Qed.

Section walk.
Context (before : SkipNode -> sk bool) (bf : item -> bool).
Context (Hbf : forall it t s, before (cell it t) s = Ret (bf it, s)).
Context (l : SkipList) (al : alloc).

Definition nonnull (it : item) : Prop := addr it <> 0.

(** At one level, from an item: to the last of the items to pass. *)
Lemma advance_run i R : forall L c M fuel,
  nodes l !! addr c = Some (cell c (fun j => nxt j (M ++ L ++ R) last_ptr)) ->
  Forall (fun y => cap y <= i) M ->
  seg (nodes l) (L ++ R) last_ptr -> Forall nonnull (c :: L ++ R) ->
  Forall (fun y => bf y = true) L -> Forall (fun y => bf y = false) R ->
  i < cap c -> length L < fuel ->
  advance before fuel i (addr c) (l, al) = Ret (addr (pred i c L), (l, al)).
Proof.
  induction L as [|y L IH]; intros c M fuel Hc HM Hs Hnn HL HR Hi Hf;
    (destruct fuel as [|fuel]; [cbn [length] in Hf; lia|]); cbn [app length] in *.
  - apply list.Forall_cons in Hnn as [Hnc HnR]. cbn [advance pred].
    rewrite (bind_ret _ _ _ _ _ (fwd_run _ _ _ _ _ Hnc Hc Hi)). cbn beta.
    rewrite nxt_app, nxt_skip by done.
    destruct (nxt_cases _ i R Hs) as [->|(y & t & Hy & -> & Hcell)]; [by rewrite decide_True|].
    pose proof (proj1 (list.Forall_forall _ _) HnR _ Hy) as Hny.
    pose proof (proj1 (list.Forall_forall _ _) HR _ Hy) as Hby. cbn beta in Hby.
    rewrite decide_False by exact Hny.
    rewrite (bind_ret _ _ _ _ _ (load_node_run _ _ _ _ Hny Hcell)), (bind_ret _ _ _ _ _ (Hbf _ _ _)).
    by rewrite Hby.
  - apply list.Forall_cons in HL as [Hby HL]. apply list.Forall_cons in Hnn as [Hnc HnL].
    destruct Hs as [Hy Hs]. cbn [pred]. case_decide as Hyi.
    + cbn [advance]. rewrite (bind_ret _ _ _ _ _ (fwd_run _ _ _ _ _ Hnc Hc Hi)). cbn beta.
      rewrite nxt_app, nxt_skip by done. cbn [nxt]. rewrite (decide_True (P := i < cap y)) by done.
      pose proof HnL as HnL'. apply list.Forall_cons in HnL' as [Hny _]. rewrite decide_False by exact Hny.
      rewrite (bind_ret _ _ _ _ _ (load_node_run _ _ _ _ Hny Hy)), (bind_ret _ _ _ _ _ (Hbf _ _ _)). rewrite Hby.
      apply (IH y []); try done. lia.
    + apply (IH c (M ++ [y])); try done.
      * by rewrite <- app_assoc.
      * apply Forall_app. split; [done|]. constructor; [lia|done].
      * apply list.Forall_cons in HnL as [_ HnL]. by constructor.
      * lia.
Qed.

(** What [update] holds after the levels below [n]. *)
Definition updated (hd : item) (L : list item) (n : nat) (u u' : updates) : Prop :=
  length u' = length u /\
  forall j, u' !! j = if decide (j < n) then Some (Some (addr (pred j hd L))) else u !! j.

Lemma descend_run hd L R fuel : forall n c u A1 A2,
  seg (nodes l) (hd :: L ++ R) last_ptr -> Forall nonnull (hd :: L ++ R) ->
  Forall (fun y => bf y = true) L -> Forall (fun y => bf y = false) R ->
  length L < fuel -> hd :: L = A1 ++ c :: A2 -> n <= cap c -> n <= length u ->
  exists u', descend before fuel n (addr c) u (l, al)
      = Ret ((addr (if decide (n = 0) then c else pred 0 hd L), u'), (l, al)) /\
    updated hd L n u u'.
Proof.
  induction n as [|n IH]; intros c u A1 A2 Hs Hnn HL HR Hf E Hc Hu.
  - exists u. rewrite decide_True by done. split; [done|]. split; [done|].
    intros j. by rewrite decide_False by lia.
  - cbn [descend].
    assert (HsA : seg (nodes l) (A1 ++ c :: A2 ++ R) last_ptr).
    { change (hd :: L ++ R) with ((hd :: L) ++ R) in Hs. rewrite E, <- app_assoc in Hs. exact Hs. }
    assert (HnA : Forall nonnull (A1 ++ c :: A2 ++ R)).
    { change (hd :: L ++ R) with ((hd :: L) ++ R) in Hnn. rewrite E, <- app_assoc in Hnn. exact Hnn. }
    assert (HL2 : Forall (fun y => bf y = true) A2 /\ length A2 <= length L).
    { destruct A1 as [|z A1]; cbn [app] in E; injection E as E1 E2; subst; [by split|].
      apply Forall_app in HL as [_ HL]. apply list.Forall_cons in HL as [_ HL]. split; [done|].
      rewrite length_app. cbn [length]. lia. }
    destruct HL2 as [HL2 Hlen].
    pose proof (seg_lookup _ _ _ _ _ HsA) as Hcell. apply seg_app in HsA as [_ [_ HsA]].
    apply Forall_app in HnA as [_ HnA].
    erewrite bind_ret; [|apply (advance_run n R A2 c [] fuel); try done; lia]. cbn beta.
    rewrite <- (pred_split n hd L A1 c A2 E) by lia.
    unfold upd_set at 1. rewrite decide_True by lia. rewrite bind_mret.
    assert (Hhd : n < cap (pred n hd L)).
    { rewrite (pred_split n hd L A1 c A2 E) by lia. destruct (pred_spec n A2 c) as (? & ? & _ & ? & _); [lia|done]. }
    assert (Esplit : exists B1 B2, hd :: L = B1 ++ pred n hd L :: B2).
    { rewrite (pred_split n hd L A1 c A2 E) by lia.
      destruct (pred_spec n A2 c) as (B1 & B2 & EB & _); [lia|].
      exists (A1 ++ B1), B2. by rewrite E, EB, <- app_assoc. }
    destruct Esplit as (B1 & B2 & EB).
    destruct (IH (pred n hd L) (<[n := Some (addr (pred n hd L))]> u) B1 B2 Hs Hnn HL HR Hf EB) as (u' & Erun & Hlen' & Hu');
      [lia|rewrite length_insert; lia|].
    exists u'. rewrite Erun. split.
    + do 3 f_equal. rewrite (decide_False (P := S n = 0)) by lia. case_decide as En; [by subst|done].
    + split; [by rewrite Hlen', length_insert|]. intros j. rewrite Hu'.
      destruct (decide (j < n)); [by rewrite decide_True by lia|].
      destruct (decide (j = n)) as [->|].
      * rewrite decide_True by lia. by rewrite list_lookup_insert_eq by lia.
      * rewrite decide_False by lia. by rewrite list_lookup_insert_ne by done.
Qed.
End walk.

(** ** Random levels *)

Lemma rand_run l al : exists r rs, rand (l, al) = Ret (r, (set_rands rs l, al)).
Proof.
  destruct l as [lv hd lk n nd nx [|r rs]]; unfold rand; rewrite bind_get; cbn [fst rands].
  - by exists 0%Z, [].
  - by exists r, rs.
Qed.

Lemma randomLevel_loop_run al : forall fuel lvl l,
  0 < fuel -> lvl + fuel = S SKIP_MAX_LEVEL ->
  exists lvl' rs, lvl' <= SKIP_MAX_LEVEL /\ randomLevel_loop fuel lvl (l, al) = Ret (lvl', (set_rands rs l, al)).
Proof.
  induction fuel as [|fuel IH]; intros lvl l Hf Hl; [lia|]. cbn [randomLevel_loop].
  destruct (rand_run l al) as (r & rs & Er). rewrite (bind_ret _ _ _ _ _ Er).
  destruct (_ && _) eqn:E.
  - apply andb_prop in E as [_ E]. apply bool_decide_eq_true in E. unfold SKIP_MAX_LEVEL in *.
    destruct (IH (S lvl) (set_rands rs l)) as (lvl' & rs' & Hle & ->); [lia|lia|].
    by exists lvl', rs'.
  - exists lvl, rs. split; [unfold SKIP_MAX_LEVEL in *; lia|done].
Qed.

Lemma randomLevel_run l al :
  exists lvl rs, lvl <= SKIP_MAX_LEVEL /\ randomLevel (l, al) = Ret (lvl, (set_rands rs l, al)).
Proof. apply randomLevel_loop_run; unfold SKIP_MAX_LEVEL; lia. Qed.

(** ** Linking a node *)

(** What follows the items before [x] when [x] is linked at the levels below [n]. *)
Definition upto (n : nat) (x : ptr) (t : nat -> ptr) (i : nat) : ptr := if decide (i < n) then x else t i.

Lemma set_nodes_set_nodes h h' l : set_nodes h (set_nodes h' l) = set_nodes h l.
Proof. done. Qed.

Section link.
Context (hd : item) (L R : list item) (x : item).
Context (Hnd : NoDup (addr <$> (hd :: L) ++ x :: R)).
Context (Hnn : Forall nonnull ((hd :: L) ++ x :: R)).
Context (Hcap : cap x <= cap hd).

Lemma link_distinct : addr x ∉ addr <$> hd :: L /\ addr x ∉ addr <$> R /\ NoDup (addr <$> hd :: L) /\
  (forall a, a ∈ addr <$> hd :: L -> a ∉ addr <$> R).
Proof.
  rewrite fmap_app, fmap_cons in Hnd. apply list.NoDup_app in Hnd as (H1 & H2 & H3).
  apply list.NoDup_cons in H3 as [H3 _]. split; [|split; [done|split; [done|]]].
  - intros Hin. apply (H2 _ Hin). apply elem_of_cons. by left.
  - intros a Ha HR. apply (H2 _ Ha). apply elem_of_cons. by right.
Qed.

Lemma link_nonnull a : a ∈ addr <$> (hd :: L) ++ x :: R -> a <> 0.
Proof.
  intros Ha. apply list_elem_of_fmap in Ha as (it & -> & Hit). exact (proj1 (list.Forall_forall _ _) Hnn _ Hit).
Qed.

Lemma link_run u : forall m n l al,
  seg (nodes l) (hd :: L) (upto n (addr x) (fun i => nxt i R last_ptr)) ->
  seg (nodes l) R last_ptr ->
  nodes l !! addr x = Some (cell x (fun i => if decide (i < n) then nxt i R last_ptr else 0)) ->
  n + m <= cap x ->
  (forall j, j < n + m -> u !! j = Some (Some (addr (pred j hd L)))) ->
  exists h, link m n u (addr x) (l, al) = Ret (tt, (set_nodes h l, al)) /\
    seg h (hd :: L) (upto (n + m) (addr x) (fun i => nxt i R last_ptr)) /\
    seg h R last_ptr /\
    h !! addr x = Some (cell x (fun i => if decide (i < n + m) then nxt i R last_ptr else 0)).
Proof.
  destruct link_distinct as (Dx1 & Dx2 & DL & DR).
  induction m as [|m IH]; intros n l al HL HR Hx Hm Hu; cbn [link].
  - exists (nodes l). rewrite Nat.add_0_r. split; [by destruct l|done].
  - set (p := pred n hd L).
    assert (Hp : addr p ∈ addr <$> hd :: L) by apply pred_addr_in.
    assert (Hp0 : addr p <> 0) by (apply link_nonnull; rewrite fmap_app; apply elem_of_app; by left).
    assert (Hx0 : addr x <> 0) by (apply link_nonnull; rewrite fmap_app; apply elem_of_app; right; apply elem_of_cons; by left).
    unfold upd_get at 1. rewrite Hu by lia. rewrite bind_mret.
    destruct (seg_pred _ _ _ _ n HL) as (t' & Hpc & Hpi & Ht'); [lia|]. fold p in Hpc, Hpi.
    rewrite (bind_ret _ _ _ _ _ (fwd_run _ _ _ _ _ Hp0 Hpc Hpi)). rewrite Ht'. unfold upto at 1.
    rewrite decide_False by lia.
    erewrite bind_ret; [|apply set_fwd_run; [exact Hx0|exact Hx|cbn [cell forward]; rewrite length_fws; lia]].
    cbn beta. set (l1 := set_nodes _ l).
    assert (HL1 : seg (nodes l1) (hd :: L) (upto n (addr x) (fun i => nxt i R last_ptr)))
      by (unfold l1; cbn [nodes set_nodes]; by apply seg_frame).
    assert (HR1 : seg (nodes l1) R last_ptr) by (unfold l1; cbn [nodes set_nodes]; by apply seg_frame).
    assert (Hx1 : nodes l1 !! addr x = Some (cell x (fun i => if decide (i < S n) then nxt i R last_ptr else 0))).
    { unfold l1. cbn [nodes set_nodes]. rewrite lookup_insert_eq. unfold set_forward, cell. cbn [key value score forward].
      do 2 f_equal. rewrite <- fws_insert. apply fws_ext. intros i _.
      destruct (decide (i = n)) as [->|]; [by rewrite decide_True by lia|].
      destruct (decide (i < n)); [by rewrite decide_True by lia|by rewrite decide_False by lia]. }
    destruct (seg_update _ _ _ _ n (addr x) HL1) as (nd & Hnd1 & Hlen & HL2); [lia|done|]. fold p in Hnd1, HL2.
    erewrite bind_ret; [|apply set_fwd_run; [exact Hp0|exact Hnd1|exact Hlen]]. cbn beta.
    destruct (IH (S n) (set_nodes (<[addr p := set_forward (<[n := addr x]> (forward nd)) nd]> (nodes l1)) l1) al)
      as (h & Erun & H1 & H2 & H3).
    + cbn [nodes set_nodes]. eapply seg_tail; [|exact HL2]. intros it i _ _. unfold upto.
      destruct (decide (i = n)) as [->|]; [by rewrite decide_True by lia|].
      destruct (decide (i < n)); [by rewrite decide_True by lia|by rewrite decide_False by lia].
    + cbn [nodes set_nodes]. apply seg_frame; [by apply DR|done].
    + cbn [nodes set_nodes]. rewrite lookup_insert_ne; [done|]. intros E. apply Dx1. by rewrite <- E.
    + lia.
    + intros j Hj. apply Hu. lia.
    + exists h. replace (n + S m) with (S n + m) by lia. split; [exact Erun|done].
Qed.
End link.

(** ** Unlinking a node *)

(** What follows the items before [x] when [x] is unlinked at the levels below [n]. *)
Definition from (n : nat) (x : item) (R : list item) (i : nat) : ptr :=
  if decide (i < n) then nxt i R last_ptr else nxt i (x :: R) last_ptr.

Lemma nxt_in i R : nxt i R last_ptr = 0 \/ nxt i R last_ptr ∈ addr <$> R.
Proof.
  induction R as [|y R IH]; cbn [nxt fmap list_fmap]; [by left|]. rewrite elem_of_cons. case_decide; naive_solver.
Qed.

Section unlink.
Context (hd : item) (L R : list item) (x : item).
Context (Hnd : NoDup (addr <$> (hd :: L) ++ x :: R)).
Context (Hnn : Forall nonnull ((hd :: L) ++ x :: R)).

Lemma unlink_run u : forall m n l al,
  seg (nodes l) (hd :: L) (from n x R) -> seg (nodes l) R last_ptr ->
  nodes l !! addr x = Some (cell x (fun i => nxt i R last_ptr)) ->
  cap x <= n + m <= cap hd ->
  (forall j, j < n + m -> u !! j = Some (Some (addr (pred j hd L)))) ->
  exists h, unlink m n u (addr x) (l, al) = Ret (tt, (set_nodes h l, al)) /\
    seg h (hd :: L) (fun i => nxt i R last_ptr) /\ seg h R last_ptr /\
    h !! addr x = Some (cell x (fun i => nxt i R last_ptr)).
Proof.
  destruct (link_distinct hd L R x Hnd) as (Dx1 & Dx2 & DL & DR).
  assert (Hend : forall n h, cap x <= n -> seg h (hd :: L) (from n x R) -> seg h (hd :: L) (fun i => nxt i R last_ptr)).
  { intros n h Hn. apply seg_tail. intros it i _ _. unfold from. cbn [nxt].
    case_decide; [done|]. by rewrite decide_False by lia. }
  induction m as [|m IH]; intros n l al HL HR Hx Hm Hu; cbn [unlink].
  - exists (nodes l). split; [by destruct l|]. split; [by apply (Hend n); [lia|]|]. rewrite Hx. eauto.
  - set (p := pred n hd L).
    assert (Hp : addr p ∈ addr <$> hd :: L) by apply pred_addr_in.
    assert (Hp0 : addr p <> 0) by (apply (link_nonnull _ _ _ _ Hnn); rewrite fmap_app; apply elem_of_app; by left).
    assert (Hx0 : addr x <> 0) by (apply (link_nonnull _ _ _ _ Hnn); rewrite fmap_app; apply elem_of_app; right; apply elem_of_cons; by left).
    unfold upd_get at 1. rewrite Hu by lia. rewrite bind_mret.
    destruct (seg_pred _ _ _ _ n HL) as (t' & Hpc & Hpi & Ht'); [lia|]. fold p in Hpc, Hpi.
    rewrite (bind_ret _ _ _ _ _ (fwd_run _ _ _ _ _ Hp0 Hpc Hpi)). rewrite Ht'.
    assert (Efrom : from n x R n = nxt n (x :: R) last_ptr) by (unfold from; by rewrite decide_False by lia).
    rewrite Efrom. clear Efrom Ht'. cbn [nxt]. destruct (decide (n < cap x)) as [Hn|Hn].
    + rewrite (decide_False (P := addr x <> addr x)) by (intros Hne; by apply Hne).
      rewrite (bind_ret _ _ _ _ _ (fwd_run _ _ _ _ _ Hx0 Hx Hn)). cbn beta.
      destruct (seg_update _ _ _ _ n (nxt n R last_ptr) HL) as (nd & Hnd1 & Hlen & HL2); [lia|done|]. fold p in Hnd1, HL2.
      erewrite bind_ret; [|apply set_fwd_run; [exact Hp0|exact Hnd1|exact Hlen]]. cbn beta.
      destruct (IH (S n) (set_nodes (<[addr p := set_forward (<[n := nxt n R last_ptr]> (forward nd)) nd]> (nodes l)) l) al)
        as (h & Erun & H1 & H2 & H3).
      * cbn [nodes set_nodes]. eapply seg_tail; [|exact HL2]. intros it i _ _. unfold from.
        destruct (decide (i = n)) as [->|]; [by rewrite decide_True by lia|].
        destruct (decide (i < n)); [by rewrite decide_True by lia|by rewrite decide_False by lia].
      * cbn [nodes set_nodes]. apply seg_frame; [by apply DR|done].
      * cbn [nodes set_nodes]. rewrite lookup_insert_ne; [done|]. intros E. apply Dx1. by rewrite <- E.
      * lia.
      * intros j Hj. apply Hu. lia.
      * exists h. by split.
    + rewrite decide_True.
      * exists (nodes l). split; [by destruct l|]. split; [by apply (Hend n); [lia|]|]. rewrite Hx. eauto.
      * intros E. destruct (nxt_in n R) as [E0|E0]; [by rewrite E0 in E|]. by rewrite E in E0.
Qed.
End unlink.

(** ** Lowering the level *)

Lemma nxt_0_caps h i A : seg h A last_ptr -> Forall nonnull A -> nxt i A last_ptr = 0 -> Forall (fun y => cap y <= i) A.
Proof.
  induction A as [|y A IH]; cbn [nxt seg]; [constructor|]. intros [_ Hs] Hnn E.
  apply list.Forall_cons in Hnn as [Hn Hnn]. case_decide; [done|]. constructor; [lia|by apply IH].
Qed.

Lemma lower_level_run hd A al l : forall lvl,
  seg (nodes l) (hd :: A) last_ptr -> Forall nonnull (hd :: A) -> header l = addr hd -> lvl < cap hd ->
  Forall (fun y => cap y <= S lvl) A ->
  exists lv, lv <= lvl /\ lower_level lvl (l, al) = Ret (tt, (set_level lv l, al)) /\
    Forall (fun y => cap y <= S lv) A /\ (lv = 0 \/ nxt lv A last_ptr <> 0).
Proof.
  induction lvl as [|lvl IH]; intros Hs Hnn Hh Hl Hc; cbn [lower_level].
  { exists 0. split; [done|]. split; [done|]. split; [done|by left]. }
  rewrite bind_get. cbn [fst]. rewrite Hh. pose proof Hs as [Hhd HsA].
  pose proof Hnn as Hnn'. apply list.Forall_cons in Hnn' as [Hn HnA].
  rewrite (bind_ret _ _ _ _ _ (fwd_run _ _ _ _ _ Hn Hhd Hl)). case_decide as E.
  - destruct IH as (lv & H1 & H2 & H3); try done; [lia|by eapply nxt_0_caps|]. exists lv. split; [lia|done].
  - exists (S lvl). split; [done|]. split; [done|]. split; [done|by right].
Qed.
