(* ===== verification/SkipSpec.v ===== *)
(** * What the skip list guarantees

    Members are kept in the order of score and key; adding and range queries are those of
    a sorted list.  Removal searches by key alone, and finds a member only when the order
    of the list agrees with the order of the keys. *)

From Stdlib Require Import SpecFloat Sorted.
From S2P Require Import Prelude KvsSkiptable SkipRep.
Import Skip.

(** ** The order of doubles *)

Definition real (x : double) : Prop := x <> S754_nan.

(** Sign, exponent and mantissa, so that doubles compare as their ranks. *)
Definition rank (x : double) : Z * Z * Z :=
  match x with
  | S754_infinity true => (-2, 0, 0)
  | S754_finite true m e => (-1, - e, - Z.pos m)
  | S754_zero _ | S754_nan => (0, 0, 0)
  | S754_finite false m e => (1, e, Z.pos m)
  | S754_infinity false => (2, 0, 0)
  end%Z.

Definition rank_lt (r s : Z * Z * Z) : Prop :=
  (r.1.1 < s.1.1 \/ (r.1.1 = s.1.1 /\ (r.1.2 < s.1.2 \/ (r.1.2 = s.1.2 /\ r.2 < s.2))))%Z.

Lemma SFcompare_rank x y : real x -> real y ->
  match SFcompare x y with
  | Some Lt => rank_lt (rank x) (rank y)
  | Some Eq => rank x = rank y
  | Some Gt => rank_lt (rank y) (rank x)
  | None => False
  end.
Proof.
  intros Hx Hy. unfold rank_lt.
  destruct x as [|[]| |[] m e], y as [|[]| |[] m' e']; try done; cbn; try lia;
    destruct (Z.compare_spec e e'); cbn; try lia;
    change (Pos.compare_cont Eq m m') with (Pos.compare m m');
    destruct (Pos.compare_spec m m'); cbn; subst; first [done|lia].
Qed.

Ltac by_rank x y Hx Hy :=
  pose proof (SFcompare_rank x y Hx Hy); unfold dlt, deq, dle, SFltb, SFeqb, SFleb;
  destruct (SFcompare x y) as [[]|]; unfold rank_lt in *.

Lemma rank_eq r s : r.1.1 = s.1.1 -> r.1.2 = s.1.2 -> r.2 = s.2 -> r = s :> Z * Z * Z.
Proof. destruct r as [[? ?] ?], s as [[? ?] ?]; cbn; by intros -> -> ->. Qed.

Lemma dlt_rank x y : real x -> real y -> dlt x y = true <-> rank_lt (rank x) (rank y).
Proof. intros Hx Hy. by_rank x y Hx Hy; split; try done; try lia; intros; exfalso; try rewrite H in *; lia. Qed.

Lemma deq_rank x y : real x -> real y -> deq x y = true <-> rank x = rank y.
Proof.
  intros Hx Hy. by_rank x y Hx Hy; split; try done; intros E; exfalso; rewrite E in *; lia.
Qed.

Lemma dle_rank x y : real x -> real y -> dle x y = true <-> ~ rank_lt (rank y) (rank x).
Proof.
  intros Hx Hy. by_rank x y Hx Hy; split; try done; try (intros; try rewrite H in *; lia); intros E; exfalso; lia.
Qed.

(** ** Sorted sets of members *)

(** [e] goes before a member with key [k] and score [s]: what the code tests. *)
Definition before (k : cstr) (s : double) (e : ZRangeEntry) : bool :=
  dlt (e_score e) s || (deq (e_score e) s && (strcmp (e_key e) k <? 0)%Z).
Definition same (k : cstr) (s : double) (e : ZRangeEntry) : bool :=
  deq (e_score e) s && (strcmp (e_key e) k =? 0)%Z.

Definition entry_lt (a b : ZRangeEntry) : Prop := before (e_key b) (e_score b) a = true.

(** No score is a NaN. *)
Definition reals (es : list ZRangeEntry) : Prop := Forall (fun e => real (e_score e)) es.
Definition sorted (es : list ZRangeEntry) : Prop := StronglySorted entry_lt es.

(** Adding to a sorted set: the set and what the call returns. *)
Fixpoint zset_add (k v : cstr) (s : double) (es : list ZRangeEntry) : list ZRangeEntry * Z :=
  match es with
  | [] => ([mk_entry k v s], 0%Z)
  | e :: es' =>
      if before k s e then let r := zset_add k v s es' in (e :: r.1, r.2)
      else if same k s e then (mk_entry (e_key e) v (e_score e) :: es', 1%Z)
      else (mk_entry k v s :: es, 0%Z)
  end.

(** A member as the range query returns it. *)
Definition cut_entry (e : ZRangeEntry) : ZRangeEntry :=
  mk_entry (strncpy_cut MAX_KEY_LEN (e_key e)) (strncpy_cut MAX_VALUE_LEN (e_value e)) (e_score e).

Definition in_range (mn mx : double) (e : ZRangeEntry) : bool :=
  dle mn (e_score e) && dle (e_score e) mx.

Definition zset_range (mn mx : double) (n : nat) (es : list ZRangeEntry) : list ZRangeEntry :=
  cut_entry <$> take n (filter (fun e => in_range mn mx e = true) es).

Lemma before_rank k s e : real s -> real (e_score e) ->
  before k s e = true <->
  rank_lt (rank (e_score e)) (rank s) \/ (rank (e_score e) = rank s /\ cstr_lt (e_key e) k).
Proof.
  intros Hs He. unfold before. rewrite orb_true_iff, andb_true_iff, dlt_rank, deq_rank by done.
  rewrite Z.ltb_lt. done.
Qed.

Lemma rank_lt_trans a b c : rank_lt a b -> rank_lt b c -> rank_lt a c.
Proof. unfold rank_lt. lia. Qed.

Lemma rank_total a b : rank_lt a b \/ a = b \/ rank_lt b a.
Proof.
  unfold rank_lt. destruct (Z.lt_total a.1.1 b.1.1) as [?|[?|?]]; [lia| |lia].
  destruct (Z.lt_total a.1.2 b.1.2) as [?|[?|?]]; [lia| |lia].
  destruct (Z.lt_total a.2 b.2) as [?|[?|?]]; [lia| |lia].
  right. left. by apply rank_eq.
Qed.

Lemma rank_irrefl a : ~ rank_lt a a.
Proof. unfold rank_lt. lia. Qed.

(** A member before one that goes before is before. *)
Lemma before_trans k s a b : real s -> real (e_score a) -> real (e_score b) ->
  entry_lt a b -> before k s b = true -> before k s a = true.
Proof.
  intros Hs Ha Hb. unfold entry_lt. rewrite !before_rank by done.
  intros [H1|[H1 H1']] [H2|[H2 H2']].
  - left. by eapply rank_lt_trans.
  - left. by rewrite <- H2.
  - left. by rewrite H1.
  - right. split; [by rewrite H1|]. by etrans.
Qed.

(** Two members that are neither the same nor in order are in the other order. *)
Lemma before_total k s e : real s -> real (e_score e) ->
  before k s e = false -> same k s e = false -> forall v, entry_lt (mk_entry k v s) e.
Proof.
  intros Hs He Hb Hn v. unfold entry_lt. apply before_rank; [done|done|]. cbn [e_score e_key].
  assert (Hb' : ~ (rank_lt (rank (e_score e)) (rank s) \/ (rank (e_score e) = rank s /\ cstr_lt (e_key e) k)))
    by (rewrite <- before_rank, Hb by done; done).
  assert (Hn' : ~ (rank (e_score e) = rank s /\ strcmp (e_key e) k = 0%Z)).
  { rewrite <- deq_rank, <- Z.eqb_eq, <- andb_true_iff by done. unfold same in Hn. by rewrite Hn. }
  destruct (rank_total (rank (e_score e)) (rank s)) as [?|[E|?]]; [naive_solver| |by left].
  right. split; [done|]. unfold cstr_lt in *. rewrite strcmp_antisym. 
  destruct (Z.lt_total (strcmp (e_key e) k) 0) as [?|[?|?]]; [naive_solver|naive_solver|lia].
Qed.

(** The place of a member splits a sorted set. *)
Lemma sorted_split k s es : real s -> reals es -> sorted es ->
  exists L R, es = L ++ R /\ Forall (fun e => before k s e = true) L /\ Forall (fun e => before k s e = false) R.
Proof.
  intros Hs Hr Hsort. induction es as [|e es IH]; [by exists [], []|].
  apply list.Forall_cons in Hr as [He Hr]. apply StronglySorted_inv in Hsort as [Hsort Hlt].
  destruct (before k s e) eqn:Eb.
  - destruct (IH Hr Hsort) as (L & R & -> & HL & HR). exists (e :: L), R. split; [done|]. split; [|done]. by constructor.
  - exists [], (e :: es). split; [done|]. split; [constructor|]. constructor; [done|].
    apply list.Forall_forall. intros b Hb. apply not_true_is_false. intros E. apply not_true_iff_false in Eb. apply Eb.
    apply (before_trans k s e b); try done.
    + exact (proj1 (list.Forall_forall _ _) Hr _ Hb).
    + exact (proj1 (list.Forall_forall _ _) Hlt _ Hb).
Qed.

Lemma zset_add_split k v s L R :
  Forall (fun e => before k s e = true) L -> Forall (fun e => before k s e = false) R ->
  zset_add k v s (L ++ R)
  = match R with
    | e :: R' => if same k s e then (L ++ mk_entry (e_key e) v (e_score e) :: R', 1%Z) else (L ++ mk_entry k v s :: R, 0%Z)
    | [] => (L ++ [mk_entry k v s], 0%Z)
    end.
Proof.
  intros HL HR. induction HL as [|e L He _ IH].
  - destruct HR as [|e R He _]; cbn [app zset_add]; [done|]. rewrite He. done.
  - cbn [app zset_add]. rewrite He, IH. destruct R as [|e' R']; [done|]. by destruct (same k s e').
Qed.

(** Adding brings no key and no score that was not there, apart from the new ones. *)
Lemma zset_add_Forall (P : cstr -> double -> Prop) k v s es :
  Forall (fun e => P (e_key e) (e_score e)) es -> P k s ->
  Forall (fun e => P (e_key e) (e_score e)) (zset_add k v s es).1.
Proof.
  intros Hes Hks. induction Hes as [|e es He Hes IH]; cbn [zset_add]; [by constructor|].
  destruct (before k s e); [by constructor|]. destruct (same k s e); constructor; try done. by constructor.
Qed.

Lemma zset_add_reals k v s es : real s -> reals es -> reals (zset_add k v s es).1.
Proof. intros Hs Hr. by apply (zset_add_Forall (fun _ s => real s)). Qed.

(** Adding keeps the order. *)
Lemma zset_add_sorted k v s es : real s -> reals es -> sorted es -> sorted (zset_add k v s es).1.
Proof.
  intros Hs Hr Hsort. induction es as [|e es IH]; cbn [zset_add]; [by repeat constructor|].
  apply list.Forall_cons in Hr as [He Hr]. pose proof Hsort as Hall.
  apply StronglySorted_inv in Hsort as [Hsort Hlt].
  destruct (before k s e) eqn:Eb.
  - constructor; [by apply IH|].
    by apply (zset_add_Forall (fun k' s' => before k' s' e = true)).
  - destruct (same k s e) eqn:Es; [by constructor|]. constructor; [done|].
    assert (Hne : entry_lt (mk_entry k v s) e) by by apply before_total.
    constructor; [done|]. apply list.Forall_forall. intros b Hb.
    apply (before_trans _ _ _ e); cbn [e_score]; try done.
    + exact (proj1 (list.Forall_forall _ _) Hr _ Hb).
    + exact (proj1 (list.Forall_forall _ _) Hlt _ Hb).
Qed.

(** ** The representation *)

Definition entry_of (it : item) : ZRangeEntry := mk_entry (ikey it) (ival it) (iscore it).

Definition head_item (l : SkipList) : item := mk_item (header l) [] [] dzero (S SKIP_MAX_LEVEL).

(** The nodes hold the items [A]. *)
Record srep (l : SkipList) (A : list item) : Prop := {
  s_seg : seg (nodes l) (head_item l :: A) last_ptr;
  s_nodup : NoDup (addr <$> head_item l :: A);
  s_addr : Forall (fun it => 0 < addr it < next l) (head_item l :: A);
  s_cap : Forall (fun it => 1 <= cap it <= S (level l)) A;
  s_level : level l <= SKIP_MAX_LEVEL
}.

(** The list is a sorted set: its members, its length field and its lock. *)
Record zrep (l : SkipList) (es : list ZRangeEntry) : Prop := {
  z_items : exists A, srep l A /\ es = entry_of <$> A;
  z_sorted : sorted es;
  z_reals : reals es;
  z_length : sl_length l = int_of (Z.of_nat (length es));
  z_lock : lock l = Unlocked
}.

Lemma srep_set_lock l A m : srep l A -> srep (set_lock m l) A.
Proof. intros [H1 H2 H3 H4 H5]. by split. Qed.

Lemma seg_dom h A t : seg h A t -> Forall (fun it => addr it ∈ dom h) A.
Proof.
  induction A as [|a A IH]; cbn [seg]; [constructor|]. intros [Ha HA]. constructor; [|by apply IH].
  by apply elem_of_dom_2 in Ha.
Qed.

(** There is fuel for every item. *)
Lemma srep_fuel l A : srep l A -> length A < size (nodes l).
Proof.
  intros [H1 H2 _ _ _]. apply seg_dom in H1.
  assert (Hs : list_to_set (addr <$> head_item l :: A) ⊆ dom (nodes l)).
  { intros a Ha. apply elem_of_list_to_set, list_elem_of_fmap in Ha as (it & -> & Hit).
    exact (proj1 (list.Forall_forall _ _) H1 _ Hit). }
  apply subseteq_size in Hs. rewrite size_list_to_set in Hs by done.
  rewrite size_dom, length_fmap in Hs. cbn [length] in Hs. lia.
Qed.

Lemma srep_nonnull l A : srep l A -> Forall nonnull (head_item l :: A).
Proof. intros [_ _ H _ _]. eapply list.Forall_impl; [exact H|]. unfold nonnull. cbn beta. intros it Hit. lia. Qed.

(** A split of the members is a split of the items. *)
Lemma entries_split A L R :
  entry_of <$> A = L ++ R -> exists A1 A2, A = A1 ++ A2 /\ entry_of <$> A1 = L /\ entry_of <$> A2 = R.
Proof. intros H. apply fmap_app_inv in H as (A1 & A2 & -> & -> & ->). by exists A1, A2. Qed.

(** At the lowest level everything is in the list. *)
Lemma nxt_0 A : Forall (fun it => 1 <= cap it) A ->
  nxt 0 A last_ptr = match A with [] => 0 | it :: _ => addr it end.
Proof. destruct 1 as [|it A H _]; cbn [nxt]; [done|]. by rewrite decide_True by lia. Qed.

Lemma s_cap1 l A : srep l A -> Forall (fun it => 1 <= cap it) A.
Proof. intros [_ _ _ H _]. eapply list.Forall_impl; [exact H|]. cbn beta. lia. Qed.

Lemma addr_nonnull A a : Forall nonnull A -> a ∈ addr <$> A -> a <> 0.
Proof.
  intros HA Ha. apply list_elem_of_fmap in Ha as (it & -> & Hit).
  exact (proj1 (list.Forall_forall _ _) HA _ Hit).
Qed.

(** The search of an operation: it ends before the first item that is not passed. *)
Lemma search_run bf before_op l A L R al :
  (forall it t s, before_op (cell it t) s = Ret (bf it, s)) ->
  srep l A -> A = L ++ R ->
  Forall (fun y => bf y = true) L -> Forall (fun y => bf y = false) R ->
  exists u p, descend before_op (S (size (nodes l))) (S (level l)) (header l) update0 (l, al)
      = Ret ((p, u), (l, al)) /\
    updated (head_item l) L (S (level l)) update0 u /\
    fwd p 0 (l, al) = Ret (match R with [] => 0 | it :: _ => addr it end, (l, al)).
Proof.
  intros Hbf Hrep -> HL HR. pose proof (srep_fuel _ _ Hrep) as Hfuel. pose proof (srep_nonnull _ _ Hrep) as Hnn.
  pose proof (s_cap1 _ _ Hrep) as Hcap. destruct Hrep as [Hseg _ _ _ Hlev].
  rewrite length_app in Hfuel.
  destruct (descend_run before_op bf Hbf l al (head_item l) L R (S (size (nodes l))) (S (level l)) (head_item l) update0 [] L)
    as (u & Erun & Hu); try done; try lia.
  { cbn [cap head_item]. lia. }
  { unfold update0. rewrite length_replicate. lia. }
  cbn [Nat.eqb] in Erun. rewrite decide_False in Erun by lia.
  exists u, (addr (pred 0 (head_item l) L)). split; [exact Erun|]. split; [exact Hu|].
  change (head_item l :: L ++ R) with ((head_item l :: L) ++ R) in Hseg. apply seg_app in Hseg as [Hseg _].
  destruct (seg_pred _ _ _ _ 0 Hseg) as (t & Hp & Hp0 & Ht); [cbn; lia|].
  rewrite (fwd_run _ _ _ t); [|eapply addr_nonnull; [|apply pred_addr_in]|done|done].
  2: { change (head_item l :: L ++ R) with ((head_item l :: L) ++ R) in Hnn. by apply Forall_app in Hnn as [? _]. }
  rewrite Ht, nxt_0; [done|]. by apply Forall_app in Hcap as [_ ?].
Qed.

(** ** Insertion *)

Lemma raise_levels_run l al : forall n from u,
  from + n <= length u ->
  exists u', raise_levels n from u (l, al) = Ret (u', (l, al)) /\ length u' = length u /\
    forall j, u' !! j = if decide (from <= j < from + n) then Some (Some (header l)) else u !! j.
Proof.
  induction n as [|n IH]; intros from u Hu; cbn [raise_levels].
  - exists u. split; [done|]. split; [done|]. intros j. by rewrite decide_False by lia.
  - rewrite bind_get. cbn [fst]. unfold upd_set. rewrite decide_True by lia. rewrite bind_mret.
    destruct (IH (S from) (<[from := Some (header l)]> u)) as (u' & E & Hlen & Hu'); [rewrite length_insert; lia|].
    exists u'. split; [exact E|]. split; [by rewrite Hlen, length_insert|]. intros j. rewrite Hu'.
    destruct (decide (from <= j < from + S n)) as [Hj|Hj].
    + case_decide; [done|]. assert (j = from) as -> by lia. by rewrite list_lookup_insert_eq by lia.
    + rewrite decide_False by lia. by rewrite list_lookup_insert_ne by lia.
Qed.

(** The levels a new node needs: [update] holds its predecessors. *)
Lemma raise_run l al A L lvl u :
  srep l A -> Forall (fun it => cap it <= S (level l)) L -> lvl <= SKIP_MAX_LEVEL ->
  updated (head_item l) L (S (level l)) update0 u ->
  exists u', (if decide (level l < lvl) then
       u ← raise_levels (lvl - level l) (S (level l)) u; modify (set_level lvl) ;; mret u
     else mret u) (l, al) = Ret (u', (set_level (Nat.max (level l) lvl) l, al)) /\
    forall j, j < S lvl -> u' !! j = Some (Some (addr (pred j (head_item l) L))).
Proof.
  intros Hrep HL Hlvl [Hlen Hu]. pose proof (s_level _ _ Hrep) as Hlev. case_decide as Hd.
  - destruct (raise_levels_run l al (lvl - level l) (S (level l)) u) as (u' & E & Hlen' & Hu').
    { rewrite Hlen. unfold update0. rewrite length_replicate. unfold SKIP_MAX_LEVEL in *. lia. }
    rewrite (bind_ret _ _ _ _ _ E). rewrite bind_modify. cbn [fst snd].
    exists u'. split; [by rewrite Nat.max_r by lia|]. intros j Hj. rewrite Hu'. case_decide as Hj'.
    + rewrite pred_none; [done|]. eapply list.Forall_impl; [exact HL|]. cbn beta. lia.
    + by rewrite Hu, decide_True by lia.
  - exists u. rewrite Nat.max_l by lia. split; [by destruct l|]. intros j Hj. by rewrite Hu, decide_True by lia.
Qed.

Lemma createSkipNode_run lvl k v s l :
  createSkipNode lvl k v s (l, []) = Ret (next l,
    (mk_list (level l) (header l) (lock l) (sl_length l)
       (<[next l := cell (mk_item (next l) k v s (S lvl)) last_ptr]> (nodes l)) (S (next l)) (rands l), [])).
Proof.
  unfold createSkipNode, strdup. mcbn. do 3 f_equal. unfold cell. cbn [ikey ival iscore cap].
  do 4 f_equal. unfold fws. clear. generalize 0 at 2. induction (S lvl) as [|n IH]; intros i; cbn; [done|].
  by rewrite <- IH.
Qed.

(** The second half of [kvs_skiptable_zadd]. *)
Definition insert_node (k v : cstr) (s : double) (u : updates) : sk Z :=
  lvl ← randomLevel;
  l ← get;
  u ← (if decide (level l < lvl) then
         u ← raise_levels (lvl - level l) (S (level l)) u;
         modify (set_level lvl) ;; mret u
       else mret u);
  node ← createSkipNode lvl k v s;
  link (S lvl) 0 u node ;;
  modify (fun l => set_length (int_of (sl_length l + 1)) l) ;;
  unlock ;;
  mret 0%Z.

Lemma nodup_middle A x B :
  NoDup (addr <$> A ++ x :: B) <-> addr x ∉ addr <$> A ++ B /\ NoDup (addr <$> A ++ B).
Proof.
  rewrite <- list.NoDup_cons, <- fmap_cons. apply NoDup_Permutation_proper.
  apply fmap_Permutation. symmetry. apply Permutation_middle.
Qed.

Lemma srep_insert l A B lvl h k v s rs :
  let x := mk_item (next l) k v s (S lvl) in
  srep l (A ++ B) -> lvl <= SKIP_MAX_LEVEL ->
  seg h (head_item l :: A) (upto (S lvl) (addr x) (fun i => nxt i B last_ptr)) ->
  seg h B last_ptr -> h !! addr x = Some (cell x (fun i => if decide (i < S lvl) then nxt i B last_ptr else 0)) ->
  forall n m, srep (mk_list (Nat.max (level l) lvl) (header l) m n h (S (next l)) rs) (A ++ x :: B).
Proof.
  intros x [Hseg Hnd Haddr Hcap Hlev] Hlvl HA HB Hx n m. pose (l' := mk_list (Nat.max (level l) lvl) (header l) m n h (S (next l)) rs).
  change (head_item l) with (head_item l') in *. fold l'.
  assert (Hfresh : Forall (fun it => addr it <> next l) (head_item l' :: A ++ B)).
  { eapply list.Forall_impl; [exact Haddr|]. cbn beta. lia. }
  split.
  - change (head_item l' :: A ++ x :: B) with ((head_item l' :: A) ++ x :: B). apply seg_app. split; [|split].
    + eapply seg_tail; [|exact HA]. intros it i _ _. cbn [nxt cap x]. unfold upto. by case_decide.
    + cbn [nodes l']. rewrite Hx. unfold cell. do 2 f_equal. apply fws_ext. intros i Hi. by rewrite decide_True.
    + exact HB.
  - change (head_item l' :: A ++ x :: B) with ((head_item l' :: A) ++ x :: B).
    apply nodup_middle. split; [|done]. intros Hin. apply list_elem_of_fmap in Hin as (it & E & Hit).
    by apply (proj1 (list.Forall_forall _ _) Hfresh it Hit).
  - change (head_item l' :: A ++ x :: B) with ((head_item l' :: A) ++ x :: B).
    change (head_item l' :: A ++ B) with ((head_item l' :: A) ++ B) in Haddr.
    apply Forall_app in Haddr as [H1 H2]. apply Forall_app. cbn [next l'].
    split; [|constructor]; try (eapply list.Forall_impl; [eassumption|]; cbn beta; lia).
    cbn [addr x]. apply list.Forall_cons in H1 as [H1 _]. lia.
  - cbn [level l']. apply Forall_app in Hcap as [H1 H2]. apply Forall_app.
    split; [|constructor]; try (eapply list.Forall_impl; [eassumption|]; cbn beta; lia). cbn [cap x]. lia.
  - cbn [level l']. lia.
Qed.

Lemma insert_node_run l L R u k v s :
  srep l (L ++ R) -> updated (head_item l) L (S (level l)) update0 u -> lock l = Locked ->
  exists l' lvl, insert_node k v s u (l, []) = Ret (0%Z, (l', [])) /\
    srep l' (L ++ mk_item (next l) k v s (S lvl) :: R) /\
    lock l' = Unlocked /\ sl_length l' = int_of (sl_length l + 1).
Proof.
  intros Hrep Hu Hlock. unfold insert_node.
  destruct (randomLevel_run l []) as (lvl & rs & Hlvl & E). rewrite (bind_ret _ _ _ _ _ E). clear E.
  rewrite bind_get. cbn [fst].
  assert (Hrep' : srep (set_rands rs l) (L ++ R)) by (destruct Hrep; by split).
  destruct (raise_run (set_rands rs l) [] (L ++ R) L lvl u Hrep') as (u' & E & Hu'); [|done|exact Hu|].
  { pose proof (s_cap _ _ Hrep) as Hc. apply Forall_app in Hc as [Hc _]. eapply list.Forall_impl; [exact Hc|]. cbn beta. cbn. lia. }
  rewrite (bind_ret _ _ _ _ _ E). clear E. rewrite (bind_ret _ _ _ _ _ (createSkipNode_run _ _ _ _ _)).
  cbn [level header lock sl_length nodes next rands set_level set_rands].
  set (x := mk_item (next l) k v s (S lvl)).
  assert (Hnew : forall it, it ∈ head_item l :: L ++ R -> addr it <> next l).
  { intros it Hit. pose proof (proj1 (list.Forall_forall _ _) (s_addr _ _ Hrep) it Hit). cbn beta in *. lia. }
  assert (Hout : forall A : list item, (forall it, it ∈ A -> it ∈ head_item l :: L ++ R) -> next l ∉ addr <$> A).
  { intros A HA Hin. apply list_elem_of_fmap in Hin as (it & E & Hit). symmetry in E. by apply (Hnew it (HA _ Hit)). }
  pose proof (s_seg _ _ Hrep) as Hseg. change (head_item l :: L ++ R) with ((head_item l :: L) ++ R) in *.
  apply seg_app in Hseg as [HsL HsR].
  destruct (link_run (head_item l) L R x) with (u := u') (m := S lvl) (n := 0) (al := @nil bool)
    (l := mk_list (Nat.max (level l) lvl) (header l) (lock l) (sl_length l)
            (<[next l := cell x last_ptr]> (nodes l)) (S (next l)) rs) as (h & Elink & H1 & H2 & H3).
  - apply nodup_middle. split; [by apply Hout|]. exact (s_nodup _ _ Hrep).
  - pose proof (srep_nonnull _ _ Hrep) as Hnn. change (head_item l :: L ++ R) with ((head_item l :: L) ++ R) in Hnn.
    apply Forall_app in Hnn as [Hn1 Hn2]. apply Forall_app. split; [done|]. constructor; [|done].
    unfold nonnull. cbn [addr x]. pose proof (s_addr _ _ Hrep) as Ha. apply list.Forall_cons in Ha as [Ha _]. lia.
  - cbn [cap x head_item]. lia.
  - cbn [nodes]. apply seg_frame; [|done]. apply Hout. intros it Hit. apply elem_of_app. by left.
  - cbn [nodes]. apply seg_frame; [|done]. apply Hout. intros it Hit. apply elem_of_app. by right.
  - cbn [nodes]. rewrite lookup_insert_eq. done.
  - cbn [cap x]. lia.
  - intros j Hj. apply Hu'. lia.
  - rewrite (bind_ret _ _ _ _ _ Elink). rewrite bind_modify.
    eexists _, lvl. split; [unfold unlock; mcbn; cbn [lock set_length set_nodes fst snd]; rewrite Hlock; cbn; reflexivity|].
    split; [|done]. cbn [Nat.add] in *. exact (srep_insert l L R lvl h k v s rs Hrep Hlvl H1 H2 H3 _ _).
Qed.

(** ** Adding a member *)

Definition with_value (v : cstr) (it : item) : item := mk_item (addr it) (ikey it) v (iscore it) (cap it).

Lemma nxt_with_value i A x B t v : nxt i (A ++ with_value v x :: B) t = nxt i (A ++ x :: B) t.
Proof. induction A as [|a A IH]; cbn [nxt app]; [done|]. by rewrite IH. Qed.

Lemma seg_with_value h A x B t v :
  seg h (A ++ x :: B) t -> NoDup (addr <$> A ++ x :: B) ->
  seg (<[addr x := cell (with_value v x) (fun i => nxt i B t)]> h) (A ++ with_value v x :: B) t.
Proof.
  intros Hs Hnd. apply nodup_middle in Hnd as [Hx Hnd]. rewrite fmap_app, not_elem_of_app in Hx.
  destruct Hx as [HxA HxB]. apply seg_app in Hs as [HA [Hc HB]]. apply seg_app. split; [|split].
  - apply seg_frame; [done|]. eapply seg_tail; [|exact HA]. intros it i _ _. symmetry. apply (nxt_with_value i []).
  - cbn [addr with_value]. by rewrite lookup_insert_eq.
  - by apply seg_frame.
Qed.

Lemma srep_with_value l A x B v :
  srep l (A ++ x :: B) ->
  srep (set_nodes (<[addr x := cell (with_value v x) (fun i => nxt i B last_ptr)]> (nodes l)) l)
    (A ++ with_value v x :: B).
Proof.
  intros [H1 H2 H3 H4 H5]. set (l' := set_nodes _ l). change (head_item l) with (head_item l') in *.
  assert (E : addr <$> head_item l' :: A ++ with_value v x :: B = addr <$> head_item l' :: A ++ x :: B)
    by (cbn [fmap list_fmap]; f_equal; rewrite !fmap_app; done).
  change (head_item l' :: A ++ x :: B) with ((head_item l' :: A) ++ x :: B) in *.
  change (head_item l' :: A ++ with_value v x :: B) with ((head_item l' :: A) ++ with_value v x :: B) in *.
  assert (Hmid : forall P : item -> Prop, (P x -> P (with_value v x)) -> forall C, Forall P (C ++ x :: B) ->
    Forall P (C ++ with_value v x :: B)).
  { intros P HP C HC. apply Forall_app in HC as [? HC]. apply list.Forall_cons in HC as [? ?].
    apply Forall_app. split; [done|]. constructor; [by apply HP|done]. }
  split.
  - exact (seg_with_value _ (head_item l' :: A) x B _ v H1 H2).
  - change (NoDup (addr <$> (head_item l' :: A) ++ with_value v x :: B)). by rewrite E.
  - apply (Hmid (fun it => 0 < addr it < next l) (fun H => H) (head_item l' :: A) H3).
  - apply (Hmid (fun it => 1 <= cap it <= S (level l)) (fun H => H) A H4).
  - done.
Qed.

Lemma int_of_add n : int_of (int_of (Z.of_nat n) + 1) = int_of (Z.of_nat (S n)).
Proof.
  unfold int_of, wrap. f_equal.
  replace ((Z.of_nat n + 2 ^ 31) mod 2 ^ 32 - 2 ^ 31 + 1 + 2 ^ 31)%Z with ((Z.of_nat n + 2 ^ 31) mod 2 ^ 32 + 1)%Z by lia.
  rewrite Z.add_mod_idemp_l by lia. f_equal. lia.
Qed.

Lemma zset_add_length k v s es : length (zset_add k v s es).1 =
  if ((zset_add k v s es).2 =? 0)%Z then S (length es) else length es.
Proof.
  induction es as [|e es IH]; cbn [zset_add]; [done|].
  destruct (before k s e); cbn [fst snd length]; [rewrite IH; by case_match|]. by destruct (same k s e).
Qed.

Lemma wrlock_run l al : lock l = Unlocked -> wrlock (l, al) = Ret (tt, (set_lock Locked l, al)).
Proof. intros H. unfold wrlock. mcbn. rewrite H. done. Qed.

Lemma unlock_run l al : lock l = Locked -> unlock (l, al) = Ret (tt, (set_lock Unlocked l, al)).
Proof. intros H. unfold unlock. mcbn. rewrite H. done. Qed.

Lemma before_zadd_cell k s it t st : before_zadd k s (cell it t) st = Ret (before k s (entry_of it), st).
Proof.
  unfold before_zadd, before. cbn [cell score key entry_of e_score e_key].
  destruct (dlt _ _); [done|]. by destruct (deq _ _).
Qed.

(** The call, up to the choice between updating a node and making one. *)
Lemma zadd_run k v s l L R :
  srep l (L ++ R) -> lock l = Unlocked ->
  Forall (fun it => before k s (entry_of it) = true) L ->
  Forall (fun it => before k s (entry_of it) = false) R ->
  let l1 := set_lock Locked l in
  exists u, updated (head_item l) L (S (level l)) update0 u /\
  kvs_skiptable_zadd k v s (l, []) =
    match R with
    | x :: B =>
        if same k s (entry_of x)
        then Ret (1%Z, (set_lock Unlocked (set_nodes
               (<[addr x := cell (with_value v x) (fun i => nxt i B last_ptr)]> (nodes l)) l), []))
        else insert_node k v s u (l1, [])
    | [] => insert_node k v s u (l1, [])
    end.
Proof.
  intros Hrep Hlock HL HR l1.
  assert (Hrep1 : srep l1 (L ++ R)) by by apply srep_set_lock.
  destruct (search_run (fun it => before k s (entry_of it)) (before_zadd k s) l1 (L ++ R) L R []
    (before_zadd_cell k s) Hrep1 eq_refl HL HR) as (u & p & E1 & Hu & E2).
  exists u. split; [exact Hu|]. unfold kvs_skiptable_zadd.
  rewrite (bind_ret _ _ _ _ _ (wrlock_run l [] Hlock)), bind_get. cbn [fst]. fold l1.
  unfold node_fuel. rewrite bind_bind, bind_get. cbn [fst]. rewrite bind_mret.
  rewrite (bind_ret _ _ _ _ _ E1). cbn [fst snd]. rewrite (bind_ret _ _ _ _ _ E2).
  destruct R as [|x B]; [by rewrite decide_True|].
  pose proof (srep_nonnull _ _ Hrep) as Hnn. apply list.Forall_cons in Hnn as [_ Hnn].
  apply Forall_app in Hnn as [_ Hnn]. apply list.Forall_cons in Hnn as [Hx _].
  pose proof (s_seg _ _ Hrep1) as Hseg. change (head_item l1 :: L ++ x :: B) with ((head_item l1 :: L) ++ x :: B) in Hseg.
  apply seg_lookup in Hseg. rewrite decide_False by exact Hx.
  rewrite bind_bind, (bind_ret _ _ _ _ _ (load_node_run _ _ _ _ Hx Hseg)). cbn [cell score key].
  assert (Esame : forall s0 : SkipList * alloc,
    (if deq (iscore x) s then k0 ← deref (Str (ikey x)); mret (strcmp k0 k =? 0)%Z else mret false : sk bool) s0
    = Ret (same k s (entry_of x), s0)).
  { intros s0. unfold same. cbn [entry_of e_score e_key]. by destruct (deq _ _). }
  rewrite (bind_ret _ _ _ _ _ (Esame _)). destruct (same k s (entry_of x)); [|done].
  rewrite (bind_ret _ _ _ _ _ (load_node_run _ _ _ _ Hx Hseg)). cbn [cell value free_str]. rewrite bind_mret.
  unfold strdup. rewrite bind_bind, bind_malloc_nil, bind_mret. unfold store. rewrite bind_modify. cbn [fst snd].
  erewrite bind_ret; [|by apply unlock_run]. done.
Qed.

Lemma Forall_fmap_1 {A B} (f : A -> B) (P : B -> Prop) l : Forall P (f <$> l) -> Forall (fun x => P (f x)) l.
Proof. by rewrite Forall_fmap. Qed.

Lemma zadd_rep k v s l es :
  zrep l es -> real s ->
  exists l', kvs_skiptable_zadd k v s (l, []) = Ret ((zset_add k v s es).2, (l', [])) /\
    zrep l' (zset_add k v s es).1.
Proof.
  intros [(A & Hrep & ->) Hsort Hreals Hlen Hlock] Hs.
  pose proof (zset_add_sorted k v s _ Hs Hreals Hsort) as Hsort'.
  pose proof (zset_add_reals k v s _ Hs Hreals) as Hreals'.
  pose proof (zset_add_length k v s (entry_of <$> A)) as Hlen'. rewrite length_fmap in Hlen, Hlen'.
  destruct (sorted_split k s _ Hs Hreals Hsort) as (L' & R' & E & HL & HR).
  rewrite E in Hsort', Hreals', Hlen' |- *. apply entries_split in E as (L & R & -> & <- & <-).
  destruct (zadd_run k v s l L R Hrep Hlock (Forall_fmap_1 _ _ _ HL) (Forall_fmap_1 _ _ _ HR)) as (u & Hu & ->).
  rewrite zset_add_split in Hsort', Hreals', Hlen' |- * by done.
  destruct (insert_node_run (set_lock Locked l) L R u k v s) as (l' & lvl & E & Hrep' & Hlk & Hln);
    [by apply srep_set_lock|exact Hu|done|].
  cbn [next sl_length set_lock] in Hrep', Hln. rewrite Hlen, int_of_add in Hln.
  destruct R as [|x B]; [|cbn [fmap list_fmap] in *; destruct (same k s (entry_of x)) eqn:Es].
  - exists l'. split; [exact E|]. split; try done; [|by rewrite Hln, Hlen'].
    eexists. split; [exact Hrep'|]. by rewrite fmap_app.
  - eexists. split; [reflexivity|]. split; try done.
    + eexists. split; [by apply srep_set_lock, srep_with_value|]. by rewrite fmap_app.
    + cbn [sl_length set_lock set_nodes]. by rewrite Hlen, Hlen'.
  - exists l'. split; [exact E|]. split; try done; [|by rewrite Hln, Hlen'].
    eexists. split; [exact Hrep'|]. by rewrite fmap_app.
Qed.

(** C26: adding a member is adding it to the sorted set: a new pair of score and key is
    put in its place and the call returns 0; a pair that is there gets the new value and
    the call returns 1; the order, the levels and the length field are kept, whatever
    levels the random numbers choose. *)
Theorem zadd_refines_sorted_set k v s l es :
  zrep l es -> real s ->
  exists l', kvs_skiptable_zadd k v s (l, []) = Ret ((zset_add k v s es).2, (l', [])) /\
    zrep l' (zset_add k v s es).1.
Proof. apply zadd_rep. Qed.

(** ** Range queries *)

(** The loops on the members. *)
Fixpoint skip_low (mn : double) (A : list item) : list item :=
  match A with
  | [] => []
  | it :: A' => if dlt (iscore it) mn then skip_low mn A' else A
  end.
Fixpoint keep_high (mx : double) (A : list item) : list item :=
  match A with
  | [] => []
  | it :: A' => if dle (iscore it) mx then it :: keep_high mx A' else []
  end.

Lemma skip_below_run mn l al A : forall fuel,
  seg (nodes l) A last_ptr -> Forall nonnull A -> Forall (fun it => 1 <= cap it) A -> length A < fuel ->
  skip_below fuel mn (nxt 0 A last_ptr) (l, al) = Ret (nxt 0 (skip_low mn A) last_ptr, (l, al)).
Proof.
  induction A as [|it A IH]; intros fuel Hs Hnn Hc Hf; (destruct fuel as [|fuel]; [cbn in Hf; lia|]);
    rewrite nxt_0 by done; cbn [skip_below skip_low]; [by rewrite decide_True|].
  destruct Hs as [Hit Hs]. apply list.Forall_cons in Hnn as [Hn Hnn]. pose proof Hc as Hc'.
  apply list.Forall_cons in Hc' as [Hci Hc'].
  rewrite decide_False by exact Hn. rewrite (bind_ret _ _ _ _ _ (load_node_run _ _ _ _ Hn Hit)). cbn [cell score].
  destruct (dlt (iscore it) mn); [|by rewrite nxt_0].
  rewrite (bind_ret _ _ _ _ _ (fwd_run _ _ _ _ _ Hn Hit Hci)).
  apply IH; try done. cbn in Hf. lia.
Qed.

Lemma collect_run mx l al A : forall fuel room,
  seg (nodes l) A last_ptr -> Forall nonnull A -> Forall (fun it => 1 <= cap it) A -> length A < fuel ->
  collect fuel mx (nxt 0 A last_ptr) room (l, al)
  = Ret (cut_entry <$> (entry_of <$> take room (keep_high mx A)), (l, al)).
Proof.
  induction A as [|it A IH]; intros fuel room Hs Hnn Hc Hf; (destruct fuel as [|fuel]; [cbn in Hf; lia|]);
    rewrite nxt_0 by done; cbn [collect keep_high]; [by rewrite decide_True, take_nil|].
  destruct Hs as [Hit Hs]. apply list.Forall_cons in Hnn as [Hn Hnn]. pose proof Hc as Hc'.
  apply list.Forall_cons in Hc' as [Hci Hc'].
  rewrite decide_False by exact Hn. rewrite (bind_ret _ _ _ _ _ (load_node_run _ _ _ _ Hn Hit)). cbn [cell score key value].
  destruct (dle (iscore it) mx); cbn [negb]; [|by rewrite take_nil].
  destruct room as [|room]; [done|]. cbn [deref]. rewrite !bind_mret.
  rewrite (bind_ret _ _ _ _ _ (fwd_run _ _ _ _ _ Hn Hit Hci)).
  rewrite (bind_ret _ _ _ _ _ (IH fuel room Hs Hnn Hc' ltac:(cbn in Hf; lia))). done.
Qed.

(** On a sorted set the two loops select the range. *)
Lemma sorted_scores a b : real (e_score a) -> real (e_score b) -> entry_lt a b ->
  ~ rank_lt (rank (e_score b)) (rank (e_score a)).
Proof.
  intros Ha Hb. unfold entry_lt. rewrite before_rank by done. unfold rank_lt.
  intros [?|[E _]]; [lia|]. rewrite E. lia.
Qed.

Lemma keep_high_filter mx A : real mx -> reals (entry_of <$> A) -> sorted (entry_of <$> A) ->
  entry_of <$> keep_high mx A = filter (fun e => dle (e_score e) mx = true) (entry_of <$> A).
Proof.
  intros Hmx Hr Hs. induction A as [|it A IH]; cbn [keep_high fmap list_fmap] in *; [done|].
  apply list.Forall_cons in Hr as [Hri Hr]. apply StronglySorted_inv in Hs as [Hs Hlt].
  change (iscore it) with (e_score (entry_of it)). rewrite filter_cons.
  destruct (dle (e_score (entry_of it)) mx) eqn:E.
  - rewrite decide_True by done. cbn [fmap list_fmap]. f_equal. by apply IH.
  - rewrite decide_False by done. symmetry. cbn [fmap list_fmap]. 
    apply not_true_iff_false in E. rewrite dle_rank in E by done.
    clear IH Hs. induction A as [|b A IH]; [done|]. cbn [fmap list_fmap] in *.
    apply list.Forall_cons in Hr as [Hrb Hr]. apply list.Forall_cons in Hlt as [Hltb Hlt].
    rewrite filter_cons, decide_False; [by apply IH|]. rewrite dle_rank by done. intros Hn. apply E.
    pose proof (sorted_scores _ _ Hri Hrb Hltb). unfold rank_lt in *. lia.
Qed.

Lemma skip_low_filter mn mx A : real mn -> reals (entry_of <$> A) -> sorted (entry_of <$> A) ->
  filter (fun e => dle (e_score e) mx = true) (entry_of <$> skip_low mn A)
  = filter (fun e => in_range mn mx e = true) (entry_of <$> A) /\
  sorted (entry_of <$> skip_low mn A) /\ reals (entry_of <$> skip_low mn A).
Proof.
  intros Hmn Hr Hs. induction A as [|it A IH]; cbn [skip_low fmap list_fmap] in *; [done|].
  pose proof Hr as Hr'. apply list.Forall_cons in Hr' as [Hri Hr']. pose proof Hs as Hs'.
  apply StronglySorted_inv in Hs' as [Hs' Hlt]. change (iscore it) with (e_score (entry_of it)).
  destruct (dlt (e_score (entry_of it)) mn) eqn:E.
  - destruct (IH Hr' Hs') as [IH1 IH2]. split; [|exact IH2]. rewrite IH1, filter_cons, decide_False; [done|].
    unfold in_range. rewrite andb_true_iff, dle_rank by done. rewrite dlt_rank in E by done. naive_solver.
  - split; [|done]. cbn [fmap list_fmap]. apply not_true_iff_false in E. rewrite dlt_rank in E by done.
    assert (Hge : Forall (fun e => dle mn (e_score e) = true) (entry_of it :: (entry_of <$> A))).
    { constructor; [by apply dle_rank|]. apply list.Forall_forall. intros b Hb.
      pose proof (proj1 (list.Forall_forall _ _) Hr' _ Hb) as Hrb. pose proof (proj1 (list.Forall_forall _ _) Hlt _ Hb) as Hltb.
      cbn beta in *. apply dle_rank; [done|done|]. pose proof (sorted_scores _ _ Hri Hrb Hltb). unfold rank_lt in *. lia. }
    clear -Hge. induction Hge as [|e es He _ IH]; [done|]. rewrite !filter_cons, IH. unfold in_range. rewrite He.
    cbn [andb]. done.
Qed.

Lemma zrange_rep mn mx n l es al :
  zrep l es -> real mn -> real mx ->
  kvs_skiptable_zrange_entries mn mx n (l, al) = Ret (zset_range mn mx n es, (l, al)).
Proof.
  intros [(A & Hrep & ->) Hsort Hreals _ Hlock] Hmn Hmx. unfold kvs_skiptable_zrange_entries, rdlock.
  rewrite (bind_ret _ _ _ _ _ (wrlock_run l al Hlock)), bind_get. cbn [fst].
  set (l1 := set_lock Locked l). assert (Hrep1 : srep l1 A) by by apply srep_set_lock.
  pose proof (srep_fuel _ _ Hrep1) as Hfuel. pose proof (srep_nonnull _ _ Hrep1) as Hnn. pose proof (s_cap1 _ _ Hrep1) as Hcap.
  pose proof (s_seg _ _ Hrep1) as [Hh Hseg]. apply list.Forall_cons in Hnn as [Hn Hnn].
  erewrite bind_ret; [|apply (fwd_run l1 al (head_item l1)); [exact Hn|exact Hh|cbn; lia]]. cbn beta.
  unfold node_fuel. rewrite bind_bind, bind_get. cbn [fst]. rewrite bind_mret.
  assert (Hfuel1 : length A < S (size (nodes l1))) by lia.
  rewrite (bind_ret _ _ _ _ _ (skip_below_run mn l1 al A _ Hseg Hnn Hcap Hfuel1)).
  assert (Hsub : exists A1, A = A1 ++ skip_low mn A).
  { clear. induction A as [|it A [A1 IH]]; cbn [skip_low]; [by exists []|]. case_match; [|by exists []].
    exists (it :: A1). cbn [app]. by rewrite <- IH. }
  destruct Hsub as [A1 EA]. pose proof (skip_low_filter mn mx A Hmn Hreals Hsort) as (Ef & Hs2 & Hr2).
  rewrite EA in Hseg, Hnn, Hcap, Hfuel. rewrite length_app in Hfuel.
  apply seg_app in Hseg as [_ Hseg]. apply Forall_app in Hnn as [_ Hnn]. apply Forall_app in Hcap as [_ Hcap].
  erewrite bind_ret; [|apply collect_run; try done; lia]. cbn beta.
  erewrite bind_ret; [|by apply unlock_run]. rewrite run_mret.
  rewrite fmap_take, keep_high_filter, Ef by done. unfold zset_range.
  do 3 f_equal. destruct l; cbn in *. by rewrite Hlock.
Qed.

(** C27: a range query returns, in the order of the set, the first members with a score
    between the bounds, at most as many as asked for, with keys and values cut to 127
    characters, and leaves the list as it was. *)
Theorem zrange_selects_range mn mx n l es al :
  zrep l es -> real mn -> real mx ->
  kvs_skiptable_zrange_entries mn mx n (l, al) = Ret (zset_range mn mx n es, (l, al)).
Proof. apply zrange_rep. Qed.

(** ** Removing a member *)

Lemma before_zrem_cell k it t st : before_zrem k (cell it t) st = Ret ((strcmp (ikey it) k <? 0)%Z, st).
Proof. done. Qed.

(** The call, up to the removal. *)
Definition remove_node (u : updates) (cur : ptr) : sk Z :=
  l ← get;
  unlink (S (level l)) 0 u cur ;;
  free_node cur ;;
  lower_level (level l) ;;
  modify (fun l => set_length (int_of (sl_length l - 1)) l) ;;
  unlock ;;
  mret 0%Z.

Lemma zrem_run k l L R al :
  srep l (L ++ R) -> lock l = Unlocked ->
  Forall (fun it => (strcmp (ikey it) k <? 0)%Z = true) L ->
  Forall (fun it => (strcmp (ikey it) k <? 0)%Z = false) R ->
  let l1 := set_lock Locked l in
  exists u, updated (head_item l) L (S (level l)) update0 u /\
  kvs_skiptable_zrem k (l, al) =
    match R with
    | x :: _ => if decide (ikey x = k) then remove_node u (addr x) (l1, al) else Ret ((-1)%Z, (l, al))
    | [] => Ret ((-1)%Z, (l, al))
    end.
Proof.
  intros Hrep Hlock HL HR l1.
  assert (Hrep1 : srep l1 (L ++ R)) by by apply srep_set_lock.
  destruct (search_run (fun it => (strcmp (ikey it) k <? 0)%Z) (before_zrem k) l1 (L ++ R) L R al
    (before_zrem_cell k) Hrep1 eq_refl HL HR) as (u & p & E1 & Hu & E2).
  exists u. split; [exact Hu|]. unfold kvs_skiptable_zrem.
  rewrite (bind_ret _ _ _ _ _ (wrlock_run l al Hlock)), bind_get. cbn [fst]. fold l1.
  unfold node_fuel. rewrite bind_bind, bind_get. cbn [fst]. rewrite bind_mret.
  rewrite (bind_ret _ _ _ _ _ E1). cbn [fst snd]. rewrite (bind_ret _ _ _ _ _ E2).
  assert (Eun : (unlock ;; mret (-1)%Z) (l1, al) = Ret ((-1)%Z, (l, al))).
  { erewrite bind_ret; [|by apply unlock_run]. rewrite run_mret. unfold l1. destruct l; cbn in *. by rewrite Hlock. }
  destruct R as [|x B]; [rewrite decide_True by done; rewrite bind_mret; exact Eun|].
  pose proof (srep_nonnull _ _ Hrep) as Hnn. apply list.Forall_cons in Hnn as [_ Hnn].
  apply Forall_app in Hnn as [_ Hnn]. apply list.Forall_cons in Hnn as [Hx _].
  pose proof (s_seg _ _ Hrep1) as Hseg. change (head_item l1 :: L ++ x :: B) with ((head_item l1 :: L) ++ x :: B) in Hseg.
  apply seg_lookup in Hseg. rewrite decide_False by exact Hx.
  unfold node_key. rewrite !bind_bind, (bind_ret _ _ _ _ _ (load_node_run _ _ _ _ Hx Hseg)). cbn [cell key deref].
  rewrite !bind_mret. destruct (decide (ikey x = k)) as [<-|Hne].
  - rewrite strcmp_refl. done.
  - apply strcmp_neq, Z.eqb_neq in Hne. rewrite Hne. exact Eun.
Qed.

Lemma int_of_sub n : int_of (int_of (Z.of_nat (S n)) - 1) = int_of (Z.of_nat n).
Proof.
  unfold int_of, wrap. f_equal.
  replace ((Z.of_nat (S n) + 2 ^ 31) mod 2 ^ 32 - 2 ^ 31 - 1 + 2 ^ 31)%Z with ((Z.of_nat (S n) + 2 ^ 31) mod 2 ^ 32 + - 1)%Z by lia.
  rewrite Z.add_mod_idemp_l by lia. f_equal. lia.
Qed.

(** The level of the list is the highest that the header uses (0 when it uses none). *)
Definition top_level (l : SkipList) : Prop := exists n, nodes l !! header l = Some n /\
  (level l = 0 \/ default 0 (forward n !! level l) <> 0) /\
  forall i, level l < i -> default 0 (forward n !! i) = 0.

Lemma srep_top_level l A :
  srep l A -> (level l = 0 \/ nxt (level l) A last_ptr <> 0) -> top_level l.
Proof.
  intros [Hseg _ _ Hcap Hlev] Htop. destruct Hseg as [Hh _]. cbn [addr head_item] in Hh.
  eexists. split; [exact Hh|]. cbn [forward cell cap head_item]. split.
  - destruct Htop as [H|H]; [by left|right]. by rewrite fws_lookup by lia.
  - intros i Hi. destruct (decide (i < S SKIP_MAX_LEVEL)).
    + rewrite fws_lookup by done. apply nxt_skip. eapply list.Forall_impl; [exact Hcap|]. cbn beta. lia.
    + rewrite lookup_ge_None_2 by (rewrite length_fws; lia). done.
Qed.

Lemma remove_node_run l L x R u :
  srep l (L ++ x :: R) -> updated (head_item l) L (S (level l)) update0 u -> lock l = Locked ->
  exists l', remove_node u (addr x) (l, []) = Ret (0%Z, (l', [])) /\ srep l' (L ++ R) /\
    lock l' = Unlocked /\ sl_length l' = int_of (sl_length l - 1) /\ top_level l' /\ level l' <= level l.
Proof.
  intros Hrep [_ Hu] Hlock. unfold remove_node. rewrite bind_get. cbn [fst].
  pose proof (srep_nonnull _ _ Hrep) as Hnn. destruct Hrep as [Hseg Hnd Haddr Hcap Hlev].
  change (head_item l :: L ++ x :: R) with ((head_item l :: L) ++ x :: R) in *.
  apply seg_app in Hseg as [HsL [Hx HsR]].
  assert (Hcx : cap x <= S (level l)).
  { apply Forall_app in Hcap as [_ Hc]. apply list.Forall_cons in Hc as [Hc _]. lia. }
  destruct (unlink_run (head_item l) L R x Hnd Hnn u (S (level l)) 0 l []) as (h & E & H1 & H2 & H3); try done.
  { unfold SKIP_MAX_LEVEL in Hlev. cbn [cap head_item Nat.add]. unfold SKIP_MAX_LEVEL. lia. }
  { intros j Hj. by rewrite Hu, decide_True by lia. }
  rewrite (bind_ret _ _ _ _ _ E). clear E.
  assert (Hx0 : addr x <> 0) by (apply (addr_nonnull _ _ Hnn); rewrite fmap_app; apply elem_of_app; right; apply elem_of_cons; by left).
  unfold free_node at 1. rewrite bind_bind, (bind_ret _ _ _ _ _ (load_node_run (set_nodes h l) _ _ _ Hx0 H3)). cbn [cell key value free_str].
  repeat (rewrite bind_bind || rewrite bind_mret). rewrite bind_modify. cbn [fst snd].
  pose proof Hnd as Hnd'. apply nodup_middle in Hnd' as [Hxn HndA]. set (l2 := set_nodes _ _).
  assert (Hs2 : seg (nodes l2) (head_item l :: L ++ R) last_ptr).
  { change (head_item l :: L ++ R) with ((head_item l :: L) ++ R). cbn [nodes l2 set_nodes].
    apply seg_delete; [done|]. by apply seg_app. }
  assert (Hsplit : forall P : item -> Prop, Forall P ((head_item l :: L) ++ x :: R) -> Forall P (head_item l :: L ++ R)).
  { intros P HP. change (head_item l :: L ++ R) with ((head_item l :: L) ++ R). apply Forall_app in HP as [? HP].
    apply list.Forall_cons in HP as [_ ?]. by apply Forall_app. }
  assert (HcapA : Forall (fun it => 1 <= cap it <= S (level l)) (L ++ R)).
  { apply Forall_app in Hcap as [? Hc]. apply list.Forall_cons in Hc as [_ ?]. by apply Forall_app. }
  destruct (lower_level_run (head_item l) (L ++ R) [] l2 (level l)) as (lv & Hlv & E & Hcaps & Htop); try done.
  { by apply Hsplit. }
  { cbn. lia. }
  { eapply list.Forall_impl; [exact HcapA|]. cbn beta. lia. }
  rewrite (bind_ret _ _ _ _ _ E). clear E. rewrite bind_modify.
  eexists. split; [erewrite bind_ret; [|by apply unlock_run]; reflexivity|].
  match goal with |- srep ?l' _ /\ _ => assert (Hrep' : srep l' (L ++ R)) end.
  2: { split; [exact Hrep'|]. split; [done|]. split; [done|]. split; [|done]. by apply (srep_top_level _ _ Hrep'). }
  split; try done.
  - by apply Hsplit.
  - rewrite list.Forall_forall in HcapA. apply list.Forall_forall. intros it Hit.
    pose proof (HcapA it Hit) as Hc1. pose proof (proj1 (list.Forall_forall _ _) Hcaps it Hit) as Hc2. cbn beta in *. cbn. lia.
  - cbn. lia.
Qed.

(** The members are also in the order of their keys. *)
Definition by_key (es : list ZRangeEntry) : Prop := StronglySorted (fun a b => cstr_lt (e_key a) (e_key b)) es.

Definition zset_rem (k : cstr) (es : list ZRangeEntry) : list ZRangeEntry :=
  filter (fun e => e_key e <> k) es.

Lemma by_key_split k A : by_key (entry_of <$> A) ->
  exists L R, A = L ++ R /\ Forall (fun it => (strcmp (ikey it) k <? 0)%Z = true) L /\
    Forall (fun it => (strcmp (ikey it) k <? 0)%Z = false) R.
Proof.
  induction A as [|it A IH]; cbn [fmap list_fmap]; intros Hs; [by exists [], []|].
  apply StronglySorted_inv in Hs as [Hs Hlt]. destruct (strcmp (ikey it) k <? 0)%Z eqn:E.
  - destruct (IH Hs) as (L & R & -> & HL & HR). exists (it :: L), R. split; [done|]. split; [by constructor|done].
  - exists [], (it :: A). split; [done|]. split; [constructor|]. constructor; [done|].
    apply list.Forall_forall. intros b Hb. apply Z.ltb_ge. apply Z.ltb_ge in E.
    assert (Hlt' : cstr_lt (ikey it) (ikey b)).
    { apply (proj1 (list.Forall_forall _ _) Hlt (entry_of b)). apply list_elem_of_fmap. by exists b. }
    destruct (Z.lt_ge_cases (strcmp (ikey b) k) 0) as [Hbk|]; [|done].
    pose proof (strcmp_trans _ _ _ Hlt' Hbk). lia.
Qed.

Lemma StronglySorted_filter {A} (R : A -> A -> Prop) (P : A -> Prop) `{forall x, Decision (P x)} l :
  StronglySorted R l -> StronglySorted R (filter P l).
Proof.
  induction 1 as [|x l Hl IH Hx]; [constructor|]. rewrite filter_cons. case_decide; [|done].
  constructor; [done|]. apply list.Forall_forall. intros y [_ Hy]%list_elem_of_filter.
  exact (proj1 (list.Forall_forall _ _) Hx y Hy).
Qed.

Lemma zset_rem_all k es : Forall (fun e => e_key e <> k) es -> zset_rem k es = es.
Proof. unfold zset_rem. induction 1 as [|e es He _ IH]; [done|]. by rewrite filter_cons, decide_True, IH. Qed.

(** Removing from a set in key order. *)
Lemma zset_rem_split k L R :
  Forall (fun it => (strcmp (ikey it) k <? 0)%Z = true) L ->
  by_key (entry_of <$> L ++ R) -> Forall (fun it => (strcmp (ikey it) k <? 0)%Z = false) R ->
  zset_rem k (entry_of <$> L ++ R) = (entry_of <$> L) ++
    match R with
    | x :: B => if decide (ikey x = k) then entry_of <$> B else entry_of <$> x :: B
    | [] => []
    end.
Proof.
  intros HL Hs HR. unfold zset_rem. rewrite fmap_app, list.filter_app. f_equal.
  - apply (zset_rem_all k). apply Forall_fmap. eapply list.Forall_impl; [exact HL|]. cbn. intros it Hit E.
    rewrite E, strcmp_refl in Hit. done.
  - destruct R as [|x B]; [done|]. rewrite fmap_app in Hs.
    assert (HB : Forall (fun e => e_key e <> k) (entry_of <$> B)).
    { assert (Hx : StronglySorted (fun a b => cstr_lt (e_key a) (e_key b)) (entry_of <$> x :: B)).
      { clear -Hs. induction L as [|y L IH]; [exact Hs|]. apply IH. by apply StronglySorted_inv in Hs as [? _]. }
      apply StronglySorted_inv in Hx as [_ Hx]. apply list.Forall_cons in HR as [Hxk _].
      eapply list.Forall_impl; [exact Hx|]. cbn. intros e He E. rewrite E in He. unfold cstr_lt in He.
      apply Z.ltb_ge in Hxk. lia. }
    cbn [fmap list_fmap]. rewrite filter_cons. pose proof (zset_rem_all k _ HB) as HBr. unfold zset_rem in HBr.
    rewrite HBr. cbn [entry_of e_key]. destruct (decide (ikey x = k)); [by rewrite decide_False by (intros H; by apply H)|by rewrite decide_True].
Qed.

Lemma zrem_run_all k l es :
  zrep l es -> by_key es ->
  exists l', kvs_skiptable_zrem k (l, [])
      = Ret ((if decide (k ∈ e_key <$> es) then 0 else -1)%Z, (l', [])) /\
    zrep l' (zset_rem k es) /\
    if decide (k ∈ e_key <$> es) then top_level l' /\ level l' <= level l else l' = l.
Proof.
  intros Hz Hk. pose proof Hz as [(A & Hrep & ->) Hsort Hreals Hlen Hlock].
  destruct (by_key_split k A Hk) as (L & R & -> & HL & HR).
  pose proof (zset_rem_split k L R HL Hk HR) as Er.
  assert (HnL : k ∉ e_key <$> (entry_of <$> L)).
  { intros Hin. apply list_elem_of_fmap in Hin as (e & -> & Hin). apply list_elem_of_fmap in Hin as (it & -> & Hin).
    pose proof (proj1 (list.Forall_forall _ _) HL it Hin) as Hit. cbn in Hit. by rewrite strcmp_refl in Hit. }
  assert (Hmem : k ∈ e_key <$> (entry_of <$> L ++ R) <-> k ∈ e_key <$> (entry_of <$> R)).
  { rewrite !fmap_app, elem_of_app. naive_solver. }
  destruct (zrem_run k l L R [] Hrep Hlock HL HR) as (u & Hu & ->).
  assert (Hkeep : zset_rem k (entry_of <$> L ++ R) = entry_of <$> L ++ R -> k ∉ e_key <$> (entry_of <$> R) ->
    exists l', Ret ((-1)%Z, (l, [] : alloc)) = Ret ((if decide (k ∈ e_key <$> (entry_of <$> L ++ R)) then 0 else -1)%Z, (l', [])) /\
      zrep l' (zset_rem k (entry_of <$> L ++ R)) /\
      if decide (k ∈ e_key <$> (entry_of <$> L ++ R)) then top_level l' /\ level l' <= level l else l' = l).
  { intros E Hn. exists l. rewrite !decide_False by (by rewrite Hmem). split; [done|]. by rewrite E. }
  destruct R as [|x B]; [|destruct (decide (ikey x = k)) as [Ek|Ek]].
  - apply Hkeep; [by rewrite Er, fmap_app|apply not_elem_of_nil].
  - destruct (remove_node_run (set_lock Locked l) L x B u) as (l' & E & Hrep' & Hlk & Hln & Htop);
      [by apply srep_set_lock|exact Hu|done|].
    exists l'. rewrite !decide_True by (rewrite Hmem; cbn [fmap list_fmap]; apply elem_of_cons; by left).
    split; [exact E|]. split; [|exact Htop]. split.
    + exists (L ++ B). split; [done|]. by rewrite Er, fmap_app.
    + by apply StronglySorted_filter.
    + apply list.Forall_forall. intros e [_ He]%list_elem_of_filter. exact (proj1 (list.Forall_forall _ _) Hreals e He).
    + rewrite Hln. cbn [sl_length set_lock]. rewrite Hlen, Er, length_app, !length_fmap, length_app. cbn [length].
      rewrite Nat.add_succ_r. apply int_of_sub.
    + done.
  - apply Hkeep; [by rewrite Er, fmap_app|].
    intros Hin. assert (Hall : zset_rem k (entry_of <$> L ++ x :: B) = entry_of <$> L ++ x :: B) by (by rewrite Er, fmap_app).
    unfold zset_rem in Hall. apply list_elem_of_fmap in Hin as (e & -> & Hin).
    assert (He : e ∈ filter (fun e' => e_key e' <> e_key e) (entry_of <$> L ++ x :: B)).
    { rewrite Hall, fmap_app. apply elem_of_app. by right. }
    apply list_elem_of_filter in He as [He _]. done.
Qed.

Lemma zrem_rep k l es :
  zrep l es -> by_key es ->
  exists l', kvs_skiptable_zrem k (l, [])
      = Ret ((if decide (k ∈ e_key <$> es) then 0 else -1)%Z, (l', [])) /\
    zrep l' (zset_rem k es).
Proof. intros Hz Hk. destruct (zrem_run_all k l es Hz Hk) as (l' & E & Hz' & _). by exists l'. Qed.

(** C28: when the order of the members is also the order of their keys, removing a key
    that is there returns 0 and takes out that member alone, on every level; the length goes
    down by one, and the level to the highest that the header still uses.  Removing another
    key returns -1 and leaves the list exactly as it is. *)
Theorem zrem_removes_in_key_order k l es :
  zrep l es -> by_key es ->
  exists l', kvs_skiptable_zrem k (l, [])
      = Ret ((if decide (k ∈ e_key <$> es) then 0 else -1)%Z, (l', [])) /\
    zrep l' (zset_rem k es) /\
    if decide (k ∈ e_key <$> es) then top_level l' /\ level l' <= level l else l' = l.
Proof. apply zrem_run_all. Qed.

(** In general removal misses members: when no key is before [k] and the first
    member of the list has another key, [kvs_skiptable_zrem] returns -1 for [k], even if
    [k] is a member, and changes nothing. *)
Theorem zrem_misses_member k l e es al :
  zrep l (e :: es) -> Forall (fun e => (0 <= strcmp (e_key e) k)%Z) (e :: es) -> e_key e <> k ->
  kvs_skiptable_zrem k (l, al) = Ret ((-1)%Z, (l, al)).
Proof.
  intros [(A & Hrep & EA) _ _ _ Hlock] Hge Hne.
  destruct A as [|x B]; [done|]. injection EA as -> ->.
  destruct (zrem_run k l [] (x :: B) al Hrep Hlock) as (u & _ & ->); [constructor| |by rewrite decide_False].
  eapply list.Forall_impl; [exact (Forall_fmap_1 entry_of _ (x :: B) Hge)|]. cbn. intros it Hit. by apply Z.ltb_ge.
Qed.

(** ** Lists that exist *)

(** The list a server starts with. *)
Definition fresh_list (rs : list Z) : SkipList :=
  mk_list 0 1 Unlocked 0 {[1 := cell (mk_item 1 [] [] dzero 7) last_ptr]} 2 rs.

Lemma skip_create_run rs : kvs_skiptable_create (global_skiptable0 rs, []) = Ret (0%Z, (fresh_list rs, [])).
Proof. vm_compute. reflexivity. Qed.

Lemma fresh_list_zrep rs : zrep (fresh_list rs) [].
Proof.
  split; [|constructor|constructor|done|done]. exists []. split; [|done]. split.
  - split; [|done]. unfold fresh_list. cbn [nodes addr head_item header]. apply lookup_singleton_eq.
  - apply NoDup_singleton.
  - apply Forall_singleton. cbn. lia.
  - constructor.
  - cbn. lia.
Qed.

(** Two members whose scores and keys are in different orders. *)
Definition b2a3 : list ZRangeEntry := [mk_entry (bs "b") (bs "1") (dint 2); mk_entry (bs "a") (bs "2") (dint 3)].

Lemma two_members (rs : list Z) : exists l, zrep l b2a3.
Proof.
  destruct (zadd_rep (bs "b") (bs "1") (dint 2) (fresh_list rs) [] (fresh_list_zrep rs)) as (l1 & _ & H1); [by vm_compute|].
  destruct (zadd_rep (bs "a") (bs "2") (dint 3) l1 _ H1) as (l2 & _ & H2); [by vm_compute|].
  by exists l2.
Qed.

Example zadd_refines_sorted_set_witness :
  exists l', kvs_skiptable_zadd (bs "a") (bs "1") (dint 2) (fresh_list [1; 70000]%Z, []) = Ret (0%Z, (l', [])) /\
    zrep l' [mk_entry (bs "a") (bs "1") (dint 2)].
Proof.
  apply (zadd_refines_sorted_set (bs "a") (bs "1") (dint 2) (fresh_list [1; 70000]%Z) [] (fresh_list_zrep _)).
  by vm_compute.
Defined.

Example zrange_selects_range_witness :
  exists l, kvs_skiptable_zrange_entries (dint 0) (dint 2) 100 (l, [])
    = Ret ([mk_entry (bs "b") (bs "1") (dint 2)], (l, [])).
Proof.
  destruct (two_members [1; 70000; 5]%Z) as [l Hl]. exists l.
  rewrite (zrange_selects_range (dint 0) (dint 2) 100 l b2a3 [] Hl) by by vm_compute. by vm_compute.
Defined.

Example zrem_removes_in_key_order_witness :
  exists l l', zrep l [mk_entry (bs "b") (bs "1") (dint 2)] /\
    kvs_skiptable_zrem (bs "b") (l, []) = Ret (0%Z, (l', [])) /\ zrep l' [] /\ top_level l'.
Proof.
  destruct (zadd_rep (bs "b") (bs "1") (dint 2) (fresh_list []) [] (fresh_list_zrep [])) as (l & _ & Hl); [by vm_compute|].
  exists l. destruct (zrem_removes_in_key_order (bs "b") l _ Hl) as (l' & E & H' & Htop).
  - by repeat constructor.
  - exists l'. split; [exact Hl|]. split; [exact E|]. split; [exact H'|]. apply Htop.
Defined.

(** The member [a] is there and cannot be removed. *)
Example zrem_misses_member_witness :
  exists l, zrep l b2a3 /\ kvs_skiptable_zrem (bs "a") (l, []) = Ret ((-1)%Z, (l, [])).
Proof.
  destruct (two_members []) as [l Hl]. exists l. split; [exact Hl|].
  apply (zrem_misses_member (bs "a") l _ _ [] Hl).
  - by repeat constructor.
  - by vm_compute.
Defined.
