(* ===== verification/CNum.v ===== *)
(** * Numbers and strings of the C library: [atoi], [%d], [atof], [sscanf("%lf")], [%.2f]

    The conversions the store uses, written out as functions on byte strings.  Doubles
    are [spec_float] values; conversions from and to decimal round to nearest, ties to
    even, from the exact value. *)

From Stdlib Require Import SpecFloat.
From S2P Require Import Prelude KvsSkiptable.

Module CNum.
Import Skip.

(** ** Characters *)

Definition isspace (c : byte) : bool :=
  let z := b2z c in ((z =? 32) || ((9 <=? z) && (z <=? 13)))%Z.
Definition isdigit (c : byte) : bool := let z := b2z c in ((48 <=? z) && (z <=? 57))%Z.
Definition tolower (c : byte) : byte :=
  let z := b2z c in if ((65 <=? z) && (z <=? 90))%Z then z2b (z + 32) else c.

(** The value of a hexadecimal digit. *)
Definition xdigit (c : byte) : option Z :=
  let z := b2z (tolower c) in
  if ((48 <=? z) && (z <=? 57))%Z then Some (z - 48)%Z
  else if ((97 <=? z) && (z <=? 102))%Z then Some (z - 87)%Z else None.
Definition ddigit (c : byte) : option Z := if isdigit c then Some (b2z c - 48)%Z else None.

Fixpoint skip_space (s : cstr) : cstr :=
  match s with
  | c :: s' => if isspace c then skip_space s' else s
  | [] => []
  end.

(** A sign, and whether it is a minus. *)
Definition take_sign (s : cstr) : bool * cstr :=
  match s with
  | c :: s' => if decide (c = x2d) then (true, s') else if decide (c = x2b) then (false, s') else (false, s)
  | [] => (false, [])
  end.

(** The digits at the front: their value after [acc], their number, and the rest. *)
Fixpoint take_digits (base : Z) (dig : byte -> option Z) (acc n : Z) (s : cstr) : Z * Z * cstr :=
  match s with
  | c :: s' =>
      match dig c with
      | Some d => take_digits base dig (acc * base + d)%Z (n + 1)%Z s'
      | None => (acc, n, s)
      end
  | [] => (acc, n, [])
  end.

(** ** Integers *)

(** [strtol] in base 10 saturates at the bounds of [long]; [atoi] keeps the low 32 bits. *)
Definition strtol (s : cstr) : Z :=
  let '(neg, s) := take_sign (skip_space s) in
  let '(v, _, _) := take_digits 10 ddigit 0 0 s in
  Z.max (- 2 ^ 63) (Z.min (2 ^ 63 - 1) (if neg then - v else v)).
Definition atoi (s : cstr) : Z := int_of (strtol s).

(** Decimal digits, least significant first; [fuel] bounds their number. *)
Fixpoint dec_rev (fuel : nat) (z : Z) : list byte :=
  match fuel with
  | O => []
  | S n => z2b (48 + z mod 10) :: (if (z <? 10)%Z then [] else dec_rev n (z / 10))
  end.
Definition dec (z : Z) : cstr := reverse (dec_rev (S (Z.to_nat (Z.log2 z))) z).

(** ["%d"] and ["%0wd"]. *)
Definition fmt_d (z : Z) : cstr := if (z <? 0)%Z then x2d :: dec (- z) else dec z.
Definition fmt_0d (w : nat) (z : Z) : cstr :=
  if (z <? 0)%Z then x2d :: replicate (w - 1 - length (dec (- z))) x30 ++ dec (- z)
  else replicate (w - length (dec z)) x30 ++ dec z.

(** *** Printing and reading back *)

Definition digits_val (acc : Z) (l : list byte) : Z :=
  foldl (fun a c => a * 10 + (b2z c - 48))%Z acc l.

Lemma take_digits_all l : forall acc n,
  Forall (fun c => isdigit c = true) l ->
  take_digits 10 ddigit acc n l = (digits_val acc l, (n + Z.of_nat (length l))%Z, []).
Proof.
  induction l as [|c l IH]; intros acc n H; cbn [take_digits digits_val foldl length].
  - by rewrite Z.add_0_r.
  - apply list.Forall_cons in H as [Hc H]. unfold ddigit at 1. rewrite Hc, IH by done.
    unfold digits_val. do 2 f_equal. lia.
Qed.

Lemma digit_byte z : (0 <= z < 10)%Z -> isdigit (z2b (48 + z)) = true /\ b2z (z2b (48 + z)) = (48 + z)%Z.
Proof.
  intros Hz. assert (E : b2z (z2b (48 + z)) = (48 + z)%Z) by (rewrite b2z_z2b; apply Z.mod_small; lia).
  split; [|done]. unfold isdigit. rewrite E. lia.
Qed.

Lemma dec_rev_digits fuel : forall z,
  (0 <= z)%Z -> Forall (fun c => isdigit c = true) (dec_rev fuel z).
Proof.
  induction fuel as [|n IH]; intros z Hz; cbn [dec_rev]; constructor.
  - apply digit_byte. apply Z.mod_pos_bound. lia.
  - destruct (z <? 10)%Z; [constructor|]. apply IH. apply Z.div_pos; lia.
Qed.

Lemma dec_rev_val fuel : forall z,
  (0 <= z < 10 ^ Z.of_nat fuel)%Z -> digits_val 0 (reverse (dec_rev fuel z)) = z.
Proof.
  induction fuel as [|n IH]; intros z Hz; [cbn in *; lia|]. cbn [dec_rev].
  rewrite reverse_cons. unfold digits_val. rewrite foldl_app. cbn [foldl].
  pose proof (Z.mod_pos_bound z 10 ltac:(lia)). rewrite (proj2 (digit_byte (z mod 10) ltac:(lia))).
  pose proof (Z.div_mod z 10 ltac:(lia)). destruct (Z.ltb_spec z 10).
  - cbn. rewrite Z.mod_small by lia. lia.
  - fold (digits_val 0 (reverse (dec_rev n (z / 10)))). rewrite IH; [lia|].
    rewrite Nat2Z.inj_succ, Z.pow_succ_r in Hz by lia.
    split; [apply Z.div_pos; lia|]. apply Z.div_lt_upper_bound; lia.
Qed.

Lemma dec_val z : (0 <= z)%Z -> digits_val 0 (dec z) = z.
Proof.
  intros Hz. apply dec_rev_val. split; [done|].
  destruct (decide (z = 0)%Z) as [->|]; [done|].
  rewrite Nat2Z.inj_succ, Z2Nat.id by apply Z.log2_nonneg.
  eapply Z.lt_le_trans; [apply Z.log2_spec; lia|].
  apply Z.pow_le_mono_l. lia.
Qed.

Lemma dec_digits z : (0 <= z)%Z -> Forall (fun c => isdigit c = true) (dec z).
Proof. intros Hz. by apply Forall_reverse, dec_rev_digits. Qed.

Lemma dec_cons z : exists c l, dec z = c :: l.
Proof.
  destruct (dec z) as [|c l] eqn:E; [|by exists c, l].
  apply (f_equal length) in E. unfold dec in E. rewrite length_reverse in E. done.
Qed.

Lemma isdigit_plain c :
  isdigit c = true -> isspace c = false /\ c <> x2d /\ c <> x2b /\ c <> x00 /\ c <> x20 /\ c <> x0a /\
    c <> x0d.
Proof. destruct c; (discriminate || by repeat split). Qed.

(** Reading what ["%d"] prints. *)
Lemma strtol_dec z : (0 <= z < 2 ^ 63)%Z -> strtol (dec z) = z.
Proof.
  intros Hz. unfold strtol. pose proof (dec_digits z ltac:(lia)) as Hd.
  destruct (dec_cons z) as (c & l & E). rewrite E in *.
  pose proof Hd as Hd'. apply list.Forall_cons in Hd' as [Hc _].
  destruct (isdigit_plain c Hc) as (H1 & H2 & H3 & _). cbn [skip_space]. rewrite H1. cbn [take_sign].
  rewrite decide_False, decide_False by done. rewrite take_digits_all by done.
  rewrite <- E, dec_val by lia. lia.
Qed.

Lemma strtol_minus z : (0 <= z <= 2 ^ 63)%Z -> strtol (x2d :: dec z) = (- z)%Z.
Proof.
  intros Hz. unfold strtol. cbn [skip_space isspace take_sign].
  change (isspace x2d) with false. cbn [take_sign]. rewrite decide_True by done.
  rewrite take_digits_all by (apply dec_digits; lia). rewrite dec_val by lia. lia.
Qed.

Lemma int_of_small z : (- 2 ^ 31 <= z < 2 ^ 31)%Z -> int_of z = z.
Proof. intros Hz. unfold int_of, wrap. rewrite Z.mod_small; lia. Qed.

Lemma atoi_fmt_d z : (- 2 ^ 31 <= z < 2 ^ 31)%Z -> atoi (fmt_d z) = z.
Proof.
  intros Hz. unfold atoi, fmt_d. destruct (Z.ltb_spec z 0).
  - rewrite strtol_minus by lia. rewrite int_of_small; lia.
  - rewrite strtol_dec by lia. by apply int_of_small.
Qed.

(** ** Doubles from text *)

Definition dnorm (m e : Z) (neg : bool) : double :=
  if (m =? 0)%Z then S754_zero neg
  else binary_normalize prec emax (if neg then - m else m)%Z e neg.

(** [m * 10^e], rounded.  Exponents far out of range need no computation. *)
Definition dec_double (m e : Z) (neg : bool) : double :=
  if (m =? 0)%Z then S754_zero neg
  else if (400 <? e)%Z then S754_infinity neg
  else if (e + Z.log2 m <? -400)%Z then S754_zero neg
  else if (0 <=? e)%Z then dnorm (m * 10 ^ e) 0 neg
  else
    let d := (10 ^ (- e))%Z in
    let n := (m * 2 ^ 1200)%Z in
    dnorm (2 * (n / d) + (if n mod d =? 0 then 0 else 1))%Z (-1201) neg.

Definition is_prefix (p : string) (s : cstr) : bool :=
  bool_decide (take (length (bs p)) (tolower <$> s) = bs p).

(** An exponent part after the marker [mark]: its value and the rest.  [None]: a marker
    with no digits.  Without a marker the exponent is 0. *)
Definition take_exp (mark : byte) (s : cstr) : option (Z * cstr) :=
  match s with
  | c :: s' =>
      if decide (tolower c = mark) then
        let '(neg, s'') := take_sign s' in
        let '(v, n, rest) := take_digits 10 ddigit 0 0 s'' in
        if (n =? 0)%Z then None else Some (if neg then - v else v, rest)%Z
      else Some (0%Z, s)
  | [] => Some (0%Z, [])
  end.

(** Digits, a point, digits: the value without the point, the number of digits, the
    number of them after the point, and the rest. *)
Definition take_mantissa (base : Z) (dig : byte -> option Z) (s : cstr) : Z * Z * Z * cstr :=
  let '(v, n, rest) := take_digits base dig 0 0 s in
  match rest with
  | c :: rest' =>
      if decide (c = x2e) then
        let '(v', n', rest'') := take_digits base dig v 0 rest' in
        if (n + n' =? 0)%Z then (v, n, 0%Z, rest) else (v', (n + n')%Z, n', rest'')
      else (v, n, 0%Z, rest)
  | [] => (v, n, 0%Z, [])
  end.

(** What [sscanf] consumes of an exponent part without digits. *)
Definition skip_mark (s : cstr) : cstr := (take_sign (drop 1 s)).2.

(** A double at the front of [s] after white space, and the rest.  [strict]: the rules of
    [sscanf] in glibc, which consumes a started exponent or prefix; [strtod] takes the
    longest number instead. *)
Definition scan_double (strict : bool) (s : cstr) : option (double * cstr) :=
  let '(neg, s) := take_sign (skip_space s) in
  if is_prefix "inf" s then
    if is_prefix "infinity" s then Some (S754_infinity neg, drop 8 s)
    else if strict && is_prefix "infi" s then None
    else Some (S754_infinity neg, drop 3 s)
  else if is_prefix "nan" s then Some (S754_nan, drop 3 s)
  else
    let hex := is_prefix "0x" s in
    let '(m, n, frac, rest) :=
      if hex then take_mantissa 16 xdigit (drop 2 s) else take_mantissa 10 ddigit s in
    if (n =? 0)%Z then
      if hex then
        if negb strict then Some (S754_zero neg, drop 1 s)
        else if bool_decide (head rest = Some x2e) then Some (S754_zero neg, drop 1 rest) else None
      else None
    else
      match take_exp (if hex then x70 else x65) rest with
      | None => Some (if hex then dnorm m (-4 * frac) neg else dec_double m (- frac) neg,
                      if strict then skip_mark rest else rest)
      | Some (e, rest) =>
          Some (if hex then dnorm m (Z.max (-20000) (Z.min 20000 e) - 4 * frac) neg
                else dec_double m (e - frac) neg, rest)
      end.

Definition atof (s : cstr) : double :=
  match scan_double false s with Some (d, _) => d | None => S754_zero false end.

(** [sscanf(s, "%lf %lf", &a, &b) == 2] *)
Definition sscanf_lf_lf (s : cstr) : option (double * double) :=
  '(a, s) ← scan_double true s;
  '(b, _) ← scan_double true s;
  Some (a, b).

(** ** Doubles to text *)

(** [n / d] rounded to nearest, ties to even. *)
Definition div_even (n d : Z) : Z :=
  let q := (n / d)%Z in let r := (n mod d)%Z in
  if (2 * r <? d)%Z then q else if (d <? 2 * r)%Z then (q + 1)%Z
  else if Z.even q then q else (q + 1)%Z.

(** The absolute value in hundredths. *)
Definition hundredths (m : positive) (e : Z) : Z :=
  if (0 <=? e)%Z then (Z.pos m * 2 ^ e * 100)%Z else div_even (Z.pos m * 100) (2 ^ (- e)).

Definition fmt_f2_abs (h : Z) : cstr := dec (h / 100) ++ [x2e] ++ fmt_0d 2 (h mod 100).

(** ["%.2f"].  The sign of a NaN is not kept. *)
Definition fmt_f2 (d : double) : cstr :=
  match d with
  | S754_nan => bs "nan"
  | S754_infinity neg => (if neg then [x2d] else []) ++ bs "inf"
  | S754_zero neg => (if neg then [x2d] else []) ++ bs "0.00"
  | S754_finite neg m e => (if neg then [x2d] else []) ++ fmt_f2_abs (hundredths m e)
  end.

End CNum.
