(* ===== verification/Crc.v ===== *)
(** * The checksum of the snapshot file ([crc64_table], [rdb_calculate_crc64] of
      [src/kv_RDB.c])

    The table of the source has 152 initialisers for 256 entries; C sets the others to
    zero. *)

From S2P Require Import Prelude.

Module Crc.

Definition crc64_init : list Z :=
  [0x0000000000000000; 0x42f0e1eba9ea3693; 0x85e1c3d753d46d26;
    0xc711223cfa3e5bb5; 0x493366450e42ecdf; 0x0bc387aea7a8da4c;
    0xccd2a5925d9681f9; 0x8e224479f47cb76a; 0x9266cc8a1c85d9be;
    0xd0962d61b56fef2d; 0x17870f5d4f51b498; 0x5577eeb6e6bb820b;
    0xdb55aacf12c73561; 0x99a54b24bb2d03f2; 0x5eb4691841135847;
    0x1c4488f3e8f96ed4; 0x663d78ff90e185ef; 0x24cd9914390bb37c;
    0xe3dcbb28c335e8c9; 0xa12c5ac36adfde5a; 0x2f0e1eba9ea36930;
    0x6dfeff5137495fa3; 0xaaefdd6dcd770416; 0xe81f3c86649d3285;
    0xf45bb4758c645c51; 0xb6ab559e258e6ac2; 0x71ba77a2dfb03177;
    0x334a9649765a07e4; 0xbd68d2308226b08e; 0xff9833db2bcc861d;
    0x388911e7d1f2dda8; 0x7a79f00c7818eb3b; 0xcc7af1ff21c30bde;
    0x8e8a101488293d4d; 0x499b3228721766f8; 0x0b6bd3c3dbfd506b;
    0x854997ba2f81e701; 0xc7b97651866bd192; 0x00a8546d7c558a27;
    0x4258b586d5bfbcb4; 0x5e1c3d753d46d260; 0x1cecdc9e94ace4f3;
    0xdbfdfea26e92bf46; 0x990d1f49c77889d5; 0x172f5b3033043ebf;
    0x55dfbadb9aee082c; 0x92ce98e760d05399; 0xd03e790cc93a650a;
    0xaa478900b1228e31; 0xe8b768eb18c8b8a2; 0x2fa64ad7e2f6e317;
    0x6d56ab3c4b1cd584; 0xe374ef45bf6062ee; 0xa1840eae168a547d;
    0x66952c92ecb40fc8; 0x2465cd79455e395b; 0x3821458aada7578f;
    0x7ad1a461044d611c; 0xbdc0865dfe733aa9; 0xff3067b657990c3a;
    0x711223cfa3e5bb50; 0x33e2c2240a0f8dc3; 0xf4f3e018f031d676;
    0xb60301f359dbe0e5; 0xda050215ea6c212f; 0x98f5e3fe438617bc;
    0x5fe4c1c2b9b84c09; 0x1d14202910527a9a; 0x93366450e42ecdf0;
    0xd1c685bb4dc4fb63; 0x16d7a787b7faa0d6; 0x5427466c1e109645;
    0x4863ce9ff6e9f891; 0x0a932f745f03ce02; 0xcd820d48a53d95b7;
    0x8f72eca30cd7a324; 0x0150a8daf8ab144e; 0x43a04931514122dd;
    0x84b16b0dab7f7968; 0xc6418ae602954ffb; 0xbc387aea7a8da4c0;
    0xfec89b01d3679253; 0x39d9b93d2959c9e6; 0x7b2958d680b3ff75;
    0xf50b1caf74cf481f; 0xb7fbfd44dd257e8c; 0x70eadf78271b2539;
    0x321a3e938ef113aa; 0x2e5eb66066087d7e; 0x6cae578bcfe24bed;
    0xabbf75b735dc1058; 0xe94f945c9c3626cb; 0x676dd025684a91a1;
    0x259d31cec1a0a732; 0xe28c13f23b9efc87; 0xa07cf2199274ca14;
    0x167ff3eacbaf2af1; 0x548f120162451c62; 0x939e303d987b47d7;
    0xd16ed1d631917144; 0x5f4c95afc5edc62e; 0x1dbc74446c07f0bd;
    0xdaad56789639ab08; 0x985db7933fd39d9b; 0x84193f60d72af3af;
    0xc6e9de8b7ec0c53c; 0x01f8fcb784fe9e89; 0x43081d5c2d14a81a;
    0xcd2a5925d9681f70; 0x8fdab8ce708229e3; 0x4a6acb4778ec7256;
    0x089a2aacd10644c5; 0x14dea25f39ff2a61; 0x562e43b490151cf2;
    0x913f61886a2b4747; 0xd3cf8063c3c171d4; 0x5dfb059b1b3dc6be;
    0x1f0be470b2d7f02d; 0xd81ac64c48e9ab98; 0x9afac7a7e1039d0b;
    0x86b64f5409faf3df; 0xc446aebfa010c54c; 0x03578c835a2e9ef9;
    0x41a76d68f3c4a86a; 0xcf85291107b81f00; 0x8d75c8faae522993;
    0x4a64eac6546c7226; 0x08940b2dfd8644b5; 0x72edfb21859eaf8e;
    0x301d1acacef4991d; 0xf70c38f634cac2a8; 0xb5fcd91d9d20f43b;
    0x3bded5646a5c4351; 0x792e348fc3b675c2; 0xbe3f16b339882e77;
    0xfccff758906218e4; 0xe08b7faf789b7630; 0xa27b9e44d17140a3;
    0x656abc782b4f1b16; 0x279a5d9382a52d85; 0xa9ba19eab6d99aef;
    0xeb4af8011f33ac7c; 0x2c5bdaddc50df7c9; 0x6ea55b366cf7c15a;
    0x72e1da21871eaf8e; 0x30113bcacef4991d; 0xf70019f634cac2a8;
    0xb5f0f81d9d20f43b; 0x3bd2bc64695c4351; 0x79225d8fc0b675c2;
    0xbe337fb33a882e77; 0xfcc39e58936218e4]%Z.

Definition crc64_table : list Z := crc64_init ++ replicate (256 - length crc64_init) 0%Z.

Definition crc_step (crc b : Z) : Z :=
  Z.lxor (nth (Z.to_nat (Z.land (Z.lxor crc b) 255)) crc64_table 0%Z) (Z.shiftr crc 8).

Fixpoint crc_loop (crc : Z) (bytes : list byte) : Z :=
  match bytes with
  | [] => crc
  | b :: bytes => crc_loop (crc_step crc (b2z b)) bytes
  end.

Definition rdb_calculate_crc64 (bytes : list byte) : Z :=
  Z.lxor (crc_loop (2 ^ 64 - 1) bytes) (2 ^ 64 - 1).

(** ** Bounds *)

Lemma lxor_range a b : (0 <= a < 2 ^ 64)%Z -> (0 <= b < 2 ^ 64)%Z -> (0 <= Z.lxor a b < 2 ^ 64)%Z.
Proof.
  intros Ha Hb. assert (H : (0 <= Z.lxor a b)%Z) by (apply Z.lxor_nonneg; lia). split; [done|].
  assert (Hlog : forall x, (0 <= x < 2 ^ 64)%Z -> (Z.log2 x < 64)%Z).
  { intros x Hx. destruct (decide (x = 0%Z)) as [->|]; [done|]. apply Z.log2_lt_pow2; lia. }
  destruct (decide (Z.lxor a b = 0%Z)) as [->|]; [done|]. apply Z.log2_lt_pow2; [lia|].
  eapply Z.le_lt_trans; [apply Z.log2_lxor; lia|]. apply Z.max_lub_lt; by apply Hlog.
Qed.

Lemma crc64_table_range i : (0 <= nth i crc64_table 0 < 2 ^ 64)%Z.
Proof.
  assert (H : forallb (fun x => (0 <=? x) && (x <? 2 ^ 64))%Z crc64_table = true)
    by (vm_compute; reflexivity).
  destruct (nth_in_or_default i crc64_table 0%Z) as [Hin| ->]; [|lia].
  rewrite forallb_forall in H. apply H in Hin. lia.
Qed.

Lemma crc_step_range crc b : (0 <= crc < 2 ^ 64)%Z -> (0 <= crc_step crc b < 2 ^ 64)%Z.
Proof.
  intros Hc. unfold crc_step. apply lxor_range; [apply crc64_table_range|].
  rewrite Z.shiftr_div_pow2 by lia. split; [apply Z.div_pos; lia|].
  apply Z.div_lt_upper_bound; lia.
Qed.

Lemma crc_loop_range bytes : forall crc,
  (0 <= crc < 2 ^ 64)%Z -> (0 <= crc_loop crc bytes < 2 ^ 64)%Z.
Proof.
  induction bytes as [|b bytes IH]; intros crc Hc; cbn [crc_loop]; [done|].
  by apply IH, crc_step_range.
Qed.

Lemma crc64_range bytes : (0 <= rdb_calculate_crc64 bytes < 2 ^ 64)%Z.
Proof. apply lxor_range; [by apply crc_loop_range|lia]. Qed.

Lemma crc_loop_app l l' : forall crc, crc_loop crc (l ++ l') = crc_loop (crc_loop crc l) l'.
Proof. induction l as [|b l IH]; intros crc; cbn; [done|]. apply IH. Qed.

(** ** What the checksum does not see *)

(** The byte that makes the table index [i] in the state [crc]. *)
Definition byte_for (crc i : Z) : byte := z2b (Z.lxor (Z.land crc 255) i).

Lemma byte_for_index crc i :
  (0 <= i < 256)%Z -> Z.land (Z.lxor crc (b2z (byte_for crc i))) 255 = i.
Proof.
  intros Hi. unfold byte_for. rewrite b2z_z2b. change 256%Z with (2 ^ 8)%Z.
  rewrite <- Z.land_ones by lia. change (Z.ones 8) with 255%Z.
  assert (Hsmall : forall x, Z.land x 255 = (x mod 2 ^ 8)%Z).
  { intros x. change 255%Z with (Z.ones 8). by apply Z.land_ones. }
  rewrite <- (Z.mod_small i (2 ^ 8)) at 2 by lia. rewrite <- Hsmall.
  apply Z.bits_inj'. intros n Hn.
  rewrite !Z.land_spec, !Z.lxor_spec, !Z.land_spec, !Z.lxor_spec, !Z.land_spec.
  destruct (Z.testbit crc n), (Z.testbit i n), (Z.testbit 255 n); done.
Qed.

(** Whatever comes before and after it, every byte of a snapshot has values
    that the checksum does not tell apart: an index from 152 on hits an entry of the
    table that the source leaves zero. *)
Theorem crc64_misses_byte_changes p q i j :
  (152 <= i < 256)%Z -> (152 <= j < 256)%Z -> i <> j ->
  exists b1 b2, b1 <> b2 /\
    rdb_calculate_crc64 (p ++ b1 :: q) = rdb_calculate_crc64 (p ++ b2 :: q).
Proof.
  intros Hi Hj Hij. set (crc := crc_loop (2 ^ 64 - 1) p).
  exists (byte_for crc i), (byte_for crc j). split.
  - intros E. apply Hij. rewrite <- (byte_for_index crc i), <- (byte_for_index crc j) by lia.
    by rewrite E.
  - assert (H0 : forall k, (152 <= k < 256)%Z -> nth (Z.to_nat k) crc64_table 0%Z = 0%Z).
    { intros k Hk. unfold crc64_table. change (length crc64_init) with 152.
      rewrite app_nth2 by (change (length crc64_init) with 152; lia).
      rewrite nth_lookup. destruct (replicate _ _ !! _) eqn:E; [|done].
      by apply lookup_replicate_1 in E as [-> _]. }
    unfold rdb_calculate_crc64. rewrite !crc_loop_app. fold crc. cbn [crc_loop].
    do 2 f_equal. unfold crc_step. rewrite !byte_for_index by lia. by rewrite !H0.
Qed.

Example crc64_misses_byte_changes_witness :
  exists b1 b2, b1 <> b2 /\
    rdb_calculate_crc64 (bs "ab" ++ b1 :: bs "c") = rdb_calculate_crc64 (bs "ab" ++ b2 :: bs "c").
Proof. apply (crc64_misses_byte_changes (bs "ab") (bs "c") 152 153); lia. Defined.

(** ** The table of the polynomial the comment names *)

Definition ECMA_182 : Z := 0x42f0e1eba9ea3693.

Fixpoint poly_bits (n : nat) (c : Z) : Z :=
  match n with
  | O => c
  | S n => poly_bits n (Z.lxor (wrap 64 (Z.shiftl c 1)) (if Z.testbit c 63 then ECMA_182 else 0))
  end.
Definition ecma_entry (i : nat) : Z := poly_bits 8 (Z.shiftl (Z.of_nat i) 56).

(** The first 104 entries of the table are those of the ECMA-182 polynomial
    (most significant bit first); of the other 152, none is. *)
Theorem crc64_table_is_ecma_up_to_104 i :
  i < 256 -> (nth i crc64_table 0%Z = ecma_entry i <-> i < 104).
Proof.
  intros Hi.
  assert (H : forallb (fun i => Bool.eqb (nth i crc64_table 0 =? ecma_entry i)%Z (bool_decide (i < 104)))
                (seq 0 256) = true) by (vm_compute; reflexivity).
  rewrite forallb_forall in H. specialize (H i). rewrite in_seq in H.
  specialize (H ltac:(lia)). apply Bool.eqb_prop in H.
  rewrite <- Z.eqb_eq, H. apply bool_decide_eq_true.
Qed.

Example crc64_table_is_ecma_up_to_104_witness :
  nth 103 crc64_table 0%Z = ecma_entry 103.
Proof. apply (crc64_table_is_ecma_up_to_104 103); lia. Defined.

End Crc.
