(* ===== verification/Stdio.v ===== *)
(** * Files and streams of the C library

    A file system maps paths to contents.  A stream is a path, a mode and a position;
    reads and writes go to the file.  Reading from a stream opened for writing fails, as
    POSIX says ([EBADF]): [fread] returns 0. *)

From S2P Require Import Prelude.

Record fs := mk_fs {
  files : gmap cstr (list byte);
  dirs : gset cstr;
  (** which paths can be opened for writing, given the directories *)
  may_write : gset cstr -> cstr -> bool;
  (** what [time(NULL)] returns *)
  now : Z
}.

Definition set_files (f : gmap cstr (list byte)) (s : fs) : fs :=
  mk_fs f (dirs s) (may_write s) (now s).

Inductive fmode := ModeR | ModeW.
#[export] Instance fmode_eq_dec : EqDecision fmode.
Proof. solve_decision. Defined.

Record FILE := mk_FILE { f_path : cstr; f_mode : fmode; f_pos : nat; f_eof : bool }.

Abbreviation io A := (M fs A).

Definition contents (s : fs) (p : cstr) : list byte := default [] (files s !! p).

(** [access(path, F_OK) == 0] *)
Definition access (p : cstr) : io bool :=
  s ← get; mret (bool_decide (is_Some (files s !! p) \/ p ∈ dirs s)).

(** [stat(path) == -1], then [mkdir] *)
Definition ensure_dir (p : cstr) : io unit :=
  s ← get;
  if decide (is_Some (files s !! p) \/ p ∈ dirs s) then mret tt else
  put (mk_fs (files s) ({[p]} ∪ dirs s) (may_write s) (now s)).

Definition time : io Z := s ← get; mret (now s).

Definition fopen (p : cstr) (m : fmode) : io (option FILE) :=
  s ← get;
  match m with
  | ModeR => mret (match files s !! p with None => None | Some _ => Some (mk_FILE p ModeR 0 false) end)
  | ModeW =>
      if may_write s (dirs s) p then
        put (set_files (<[p := []]> (files s)) s) ;; mret (Some (mk_FILE p ModeW 0 false))
      else mret None
  end.

(** Writing past the end fills the gap with zeros. *)
Definition overwrite (pos : nat) (bytes data : list byte) : list byte :=
  take pos (data ++ replicate (pos - length data) x00) ++ bytes ++ drop (pos + length bytes) data.

(** [fwrite(p, 1, n, fp)] of the bytes. *)
Definition fwrite (bytes : list byte) (fp : FILE) : io FILE :=
  modify (fun s =>
    set_files (<[f_path fp := overwrite (f_pos fp) bytes (contents s (f_path fp))]> (files s)) s) ;;
  mret (mk_FILE (f_path fp) (f_mode fp) (f_pos fp + length bytes) (f_eof fp)).

(** [fread(buf, 1, n, fp)]: the bytes read. *)
Definition fread (n : nat) (fp : FILE) : io (list byte * FILE) :=
  s ← get;
  if decide (f_mode fp = ModeW) then mret ([], fp) else
  let got := take n (drop (f_pos fp) (contents s (f_path fp))) in
  mret (got, mk_FILE (f_path fp) (f_mode fp) (f_pos fp + length got)
               (f_eof fp || bool_decide (length got < n))).

Definition ftell (fp : FILE) : Z := Z.of_nat (f_pos fp).
Definition fseek_set (pos : nat) (fp : FILE) : FILE :=
  mk_FILE (f_path fp) (f_mode fp) pos false.
Definition fseek_end (fp : FILE) : io FILE :=
  s ← get; mret (mk_FILE (f_path fp) (f_mode fp) (length (contents s (f_path fp))) false).

(** The bytes of a line of at most [n] bytes, the newline included. *)
Fixpoint line_of (n : nat) (l : list byte) : list byte :=
  match n, l with
  | S n, c :: l => if decide (c = x0a) then [c] else c :: line_of n l
  | _, _ => []
  end.

(** [fgets(buf, n, fp)]: [None] at the end of the file. *)
Definition fgets (n : nat) (fp : FILE) : io (option (list byte) * FILE) :=
  s ← get;
  let rest := drop (f_pos fp) (contents s (f_path fp)) in
  let line := line_of (n - 1) rest in
  let fp' := mk_FILE (f_path fp) (f_mode fp) (f_pos fp + length line)
               (f_eof fp || bool_decide (length rest <= length line)) in
  mret (if decide (line = []) then None else Some line, fp').

(** [while ((n = fread(buf, 1, 4096, src)) > 0) fwrite(buf, 1, n, dst)] *)
Fixpoint copy_loop (fuel : nat) (src dst : FILE) : io unit :=
  match fuel with
  | O => out_of_fuel
  | S n =>
      r ← fread 4096 src;
      if decide (r.1 = []) then mret tt else
      dst ← fwrite r.1 dst;
      copy_loop n r.2 dst
  end.

(** The fuel of the loop: one more than the bytes of the source. *)
Definition copy_file (src dst : FILE) : io unit :=
  s ← get; copy_loop (S (length (contents s (f_path src)))) src dst.

(** ** Lemmas *)

Lemma overwrite_end data bytes : overwrite (length data) bytes data = data ++ bytes.
Proof.
  unfold overwrite. rewrite Nat.sub_diag, app_nil_r, take_ge by lia.
  rewrite drop_ge by lia. by rewrite app_nil_r.
Qed.

Lemma overwrite_front bytes data rest :
  length bytes = length data -> overwrite 0 bytes (data ++ rest) = bytes ++ rest.
Proof.
  intros H. unfold overwrite. rewrite take_0. cbn. rewrite H. by rewrite drop_app_length.
Qed.

Lemma contents_insert s p q d :
  contents (set_files (<[p := d]> (files s)) s) q = if decide (p = q) then d else contents s q.
Proof.
  unfold contents. cbn. destruct (decide (p = q)) as [->|]; [by rewrite lookup_insert_eq|].
  by rewrite lookup_insert_ne.
Qed.

Lemma set_files_set_files f f' s : set_files f (set_files f' s) = set_files f s.
Proof. done. Qed.

(** Appending to a stream at its end. *)
Lemma fwrite_append s al bytes p data :
  files s !! p = Some data ->
  fwrite bytes (mk_FILE p ModeW (length data) false) (s, al)
  = Ret (mk_FILE p ModeW (length (data ++ bytes)) false,
         (set_files (<[p := data ++ bytes]> (files s)) s, al)).
Proof.
  intros H. unfold fwrite. mcbn. unfold contents. cbn [f_path f_pos f_mode f_eof]. rewrite H. cbn [default].
  by rewrite overwrite_end, length_app.
Qed.

Lemma fread_run s al n p pos eof data :
  files s !! p = Some data ->
  fread n (mk_FILE p ModeR pos eof) (s, al)
  = Ret ((take n (drop pos data),
          mk_FILE p ModeR (pos + length (take n (drop pos data)))
            (eof || bool_decide (length (take n (drop pos data)) < n))), (s, al)).
Proof. intros H. unfold fread. mcbn. cbn. unfold contents. by rewrite H. Qed.

(** The copy loop appends what is left of the source to the destination. *)
Lemma copy_loop_run p q data : forall fuel s al pos eof done,
  p <> q -> files s !! p = Some data -> files s !! q = Some done ->
  length data - pos < fuel ->
  copy_loop fuel (mk_FILE p ModeR pos eof) (mk_FILE q ModeW (length done) false) (s, al)
  = Ret (tt, (set_files (<[q := done ++ drop pos data]> (files s)) s, al)).
Proof.
  induction fuel as [|n IH]; intros s al pos eof don Hpq Hp Hq Hf; [lia|]. cbn [copy_loop].
  rewrite (bind_ret _ _ _ _ _ (fread_run s al 4096 p pos eof data Hp)). cbn [fst snd].
  set (got := take 4096 (drop pos data)).
  destruct (decide (got = [])) as [E|E].
  - assert (Hd : drop pos data = []) by (unfold got in E; destruct (drop pos data); done).
    rewrite Hd, app_nil_r, insert_id by done. by destruct s.
  - rewrite (bind_ret _ _ _ _ _ (fwrite_append s al got q don Hq)).
    assert (Hlen : 0 < length got) by (destruct got; [done|cbn; lia]).
    assert (Hle : length got <= length data - pos)
      by (unfold got; rewrite length_take, length_drop; lia).
    rewrite IH; cbn [files set_files]; [|done|by rewrite lookup_insert_ne|by rewrite lookup_insert_eq|lia].
    rewrite insert_insert_eq, <- app_assoc, set_files_set_files.
    assert (Hg : got ++ drop (pos + length got) data = drop pos data).
    { rewrite <- drop_drop. unfold got. generalize (drop pos data) as r. intros r.
      rewrite length_take. destruct (Nat.le_gt_cases (length r) 4096).
      - rewrite Nat.min_r by done. rewrite take_ge, drop_ge by lia. apply app_nil_r.
      - rewrite Nat.min_l by lia. apply take_drop. }
    by rewrite Hg.
Qed.

(** Copying a file gives the destination the contents of the source. *)
Lemma copy_file_run p q data s al :
  p <> q -> files s !! p = Some data -> files s !! q = Some [] ->
  copy_file (mk_FILE p ModeR 0 false) (mk_FILE q ModeW 0 false) (s, al)
  = Ret (tt, (set_files (<[q := data]> (files s)) s, al)).
Proof.
  intros Hpq Hp Hq. unfold copy_file. mcbn. cbn [f_path]. unfold contents. rewrite Hp. cbn [default].
  change 0 with (length (@nil byte)) at 2.
  rewrite (copy_loop_run p q data _ s al 0 false []); [done|done|done|done|]. cbn. lia.
Qed.

(** Lines. *)
Definition nl : cstr := [x0a].

Lemma line_of_length n l : length (line_of n l) <= length l.
Proof.
  revert l. induction n as [|n IH]; intros [|c l]; cbn; try lia.
  case_decide; cbn; [lia|]. specialize (IH l). lia.
Qed.

Lemma line_of_line n l rest : x0a ∉ l -> length l < n -> line_of n (l ++ x0a :: rest) = l ++ nl.
Proof.
  revert n. induction l as [|c l IH]; intros n Hl Hn; destruct n as [|n]; cbn in *; try lia.
  - done.
  - rewrite decide_False by set_solver. rewrite IH; [done|set_solver|lia].
Qed.
