(* ===== verification/Rss.v ===== *)
(** * The memory figure of the pool tests ([get_rss_kb] of [src/kv_mempool_slab.c])

    It reads [/proc/self/status] line by line until a line has the field [VmRSS:]. *)

From S2P Require Import Prelude KvsSkiptable CNum Stdio.
Import CNum.

Module Rss.

Definition STATUS : cstr := bs "/proc/self/status".

(** [sscanf(line, "VmRSS: %zu", &rss)]: the number, when it returns 1.  Too large a number
    gives the largest [size_t], a minus sign negates. *)
Definition sscanf_vmrss (s : cstr) : option Z :=
  if decide (take 6 s = bs "VmRSS:") then
    let '(neg, s) := take_sign (skip_space (drop 6 s)) in
    let '(v, n, _) := take_digits 10 ddigit 0 0 s in
    if (n =? 0)%Z then None
    else Some (if (2 ^ 64 <=? v)%Z then 2 ^ 64 - 1 else wrap 64 (if neg then - v else v))%Z
  else None.

Fixpoint rss_loop (fuel : nat) (fp : FILE) : io Z :=
  match fuel with
  | O => out_of_fuel
  | S n =>
      r ← fgets 256 fp;
      match r.1 with
      | None => mret 0%Z
      | Some line =>
          match sscanf_vmrss (cut_nul line) with
          | Some v => mret v
          | None => rss_loop n r.2
          end
      end
  end.

(** Every line takes a byte of the file. *)
Definition get_rss_kb : io Z :=
  f ← fopen STATUS ModeR;
  match f with
  | None => mret 0%Z
  | Some fp => s ← get; rss_loop (S (length (contents s STATUS))) fp
  end.

(** ** What it returns *)

(** A line without its newline. *)
Definition status_line (l : cstr) : Prop := x0a ∉ l /\ x00 ∉ l /\ length l < 255.

Definition status_text (ls : list cstr) : list byte := concat ((fun l => l ++ nl) <$> ls).

(** The value of the first line that has the field. *)
Definition rss_of (ls : list cstr) : Z := default 0%Z (head (omap (fun l => sscanf_vmrss (l ++ nl)) ls)).

Lemma rss_loop_run s al : forall ls fuel pre eof,
  files s !! STATUS = Some (pre ++ status_text ls) -> Forall status_line ls -> length ls < fuel ->
  rss_loop fuel (mk_FILE STATUS ModeR (length pre) eof) (s, al) = Ret (rss_of ls, (s, al)).
Proof.
  induction ls as [|l ls IH]; intros fuel pre eof Hs Hok Hf; (destruct fuel as [|n]; [cbn in Hf; lia|]);
    cbn [rss_loop]; unfold fgets; mcbn; cbn [f_pos f_path f_mode f_eof]; unfold contents; rewrite Hs;
    cbn [default from_option id]; rewrite drop_app_length.
  - done.
  - apply list.Forall_cons in Hok as [(Hnl & H0 & Hl) Hok]. cbn [length] in Hf.
    assert (Et : status_text (l :: ls) = l ++ x0a :: status_text ls)
      by (unfold status_text; rewrite fmap_cons; cbn [concat]; by rewrite <- app_assoc).
    change (256 - 1) with 255. rewrite Et, line_of_line by done.
    rewrite decide_False by (by destruct l). rewrite cut_nul_id by (unfold cstr_ok; set_solver).
    unfold rss_of. cbn [omap list_omap]. destruct (sscanf_vmrss (l ++ nl)) as [v|]; [done|].
    rewrite <- length_app. apply IH; [|done|lia]. by rewrite Hs, Et, <- !app_assoc.
Qed.

(** The field as the kernel writes it. *)
Lemma sscanf_vmrss_field sp z rest :
  Forall (fun c => isspace c = true) sp -> (0 <= z < 2 ^ 64)%Z ->
  sscanf_vmrss (bs "VmRSS:" ++ sp ++ dec z ++ x20 :: rest) = Some z.
Proof.
  intros Hsp Hz. unfold sscanf_vmrss. rewrite decide_True by done.
  change (drop 6 (bs "VmRSS:" ++ sp ++ dec z ++ x20 :: rest)) with (sp ++ dec z ++ x20 :: rest).
  pose proof (dec_digits z ltac:(lia)) as Hd. pose proof (dec_val z ltac:(lia)) as Hv.
  destruct (dec_cons z) as (c & l & E). rewrite E in *.
  assert (Hc : isdigit c = true) by (by apply list.Forall_cons in Hd as [Hc _]).
  destruct (isdigit_plain c Hc) as (H1 & H2 & H3 & _).
  assert (Esp : skip_space (sp ++ (c :: l) ++ x20 :: rest) = (c :: l) ++ x20 :: rest).
  { induction Hsp as [|x sp Hx _ IH]; cbn [app skip_space]; [by rewrite H1|by rewrite Hx]. }
  rewrite Esp. cbn [app take_sign]. rewrite !decide_False by done.
  assert (Edig : forall ds acc n, Forall (fun c => isdigit c = true) ds ->
    take_digits 10 ddigit acc n (ds ++ x20 :: rest) = (digits_val acc ds, (n + Z.of_nat (length ds))%Z, x20 :: rest)).
  { induction ds as [|d ds IH]; intros acc n Hds; cbn [app take_digits digits_val foldl length].
    - by rewrite Z.add_0_r.
    - apply list.Forall_cons in Hds as [Hdd Hds]. unfold ddigit at 1. rewrite Hdd, IH by done.
      unfold digits_val. do 2 f_equal. lia. }
  change (c :: l ++ x20 :: rest) with ((c :: l) ++ x20 :: rest). rewrite Edig by done. rewrite Hv.
  destruct (Z.eqb_spec (0 + Z.of_nat (length (c :: l))) 0) as [E0|_]; [cbn [length] in E0; lia|].
  destruct (Z.leb_spec (2 ^ 64) z); [lia|]. f_equal. by apply Z.mod_small.
Qed.

(** C29: [get_rss_kb] returns the number in the first line of the status file that has the
    field [VmRSS:], or 0 when no line has it, as long as every line fits the buffer. *)
Theorem get_rss_reads_first_field ls s al :
  files s !! STATUS = Some (status_text ls) -> Forall status_line ls ->
  get_rss_kb (s, al) = Ret (rss_of ls, (s, al)).
Proof.
  intros Hs Hok. unfold get_rss_kb, fopen. mcbn. rewrite Hs. mcbn. unfold contents. rewrite Hs.
  apply (rss_loop_run s al ls _ [] false Hs Hok). cbn [default from_option id].
  assert (Hlen : length ls <= length (status_text ls)); [|lia].
  clear. unfold status_text. induction ls as [|l ls IH]; [done|]. rewrite fmap_cons. cbn [concat length].
  rewrite !length_app. cbn. lia.
Qed.

Definition status_file : list cstr := [bs "Name: test"; bs "VmRSS:     1234 kB"; bs "Threads: 1"].

Definition status_fs : fs := mk_fs {[STATUS := status_text status_file]} ∅ (fun _ _ => true) 0.

Example get_rss_reads_first_field_witness :
  get_rss_kb (status_fs, [])
  = Ret (1234%Z, (status_fs, [])).
Proof.
  rewrite (get_rss_reads_first_field status_file); [reflexivity|reflexivity|].
  repeat constructor; vm_compute; try set_solver; lia.
Defined.

End Rss.
