(* ===== verification/World.v ===== *)
(** * The global state of the server

    The engines, the configuration and the file system, as the globals of
    [src/kvstore.c] and [src/kv_RDB.c] hold them.  An operation of a part runs on the
    whole by [zoom]. *)

From S2P Require Import Prelude Engine KvsArray KvsHash KvsRbtree KvsSkiptable Stdio.

(** [rdb_config_t] of [src/kvstore.h]; the flags are [int]s. *)
Record rdb_config_t := mk_conf {
  save_interval : Z;
  rdb_file : cstr;
  rdb_enabled : Z;
  rdb_compression : Z;
  rdb_crc64 : Z;
  rdb_backup : Z;
  backup_dir : cstr
}.

Definition MAX_CONFIG_LINE : nat := 256.
Definition MAX_PATH_LEN : nat := 512.

(** The initialiser of [g_rdb_config]. *)
Definition g_rdb_config0 : rdb_config_t :=
  mk_conf 300 (bs "kvs.rdb") 1 0 1 1 (bs "./backup").

Record world := mk_world {
  w_array : Array.kvs_array_t;
  w_rbtree : Rbtree.rbtree;
  w_hash : Hash.hashtable_t;
  w_skip : Skip.SkipList;
  w_conf : rdb_config_t;
  w_fs : fs;
  last_save_time : Z
}.

Abbreviation W A := (M world A).

Definition set_array a w :=
  mk_world a (w_rbtree w) (w_hash w) (w_skip w) (w_conf w) (w_fs w) (last_save_time w).
Definition set_rbtree t w :=
  mk_world (w_array w) t (w_hash w) (w_skip w) (w_conf w) (w_fs w) (last_save_time w).
Definition set_hash h w :=
  mk_world (w_array w) (w_rbtree w) h (w_skip w) (w_conf w) (w_fs w) (last_save_time w).
Definition set_skip l w :=
  mk_world (w_array w) (w_rbtree w) (w_hash w) l (w_conf w) (w_fs w) (last_save_time w).
Definition set_conf c w :=
  mk_world (w_array w) (w_rbtree w) (w_hash w) (w_skip w) c (w_fs w) (last_save_time w).
Definition set_fs f w :=
  mk_world (w_array w) (w_rbtree w) (w_hash w) (w_skip w) (w_conf w) f (last_save_time w).
Definition set_last_save t w :=
  mk_world (w_array w) (w_rbtree w) (w_hash w) (w_skip w) (w_conf w) (w_fs w) t.

Definition on_array {A} (m : M Array.kvs_array_t A) : W A := zoom w_array set_array m.
Definition on_rbtree {A} (m : M Rbtree.rbtree A) : W A := zoom w_rbtree set_rbtree m.
Definition on_hash {A} (m : M Hash.hashtable_t A) : W A := zoom w_hash set_hash m.
Definition on_skip {A} (m : M Skip.SkipList A) : W A := zoom w_skip set_skip m.
Definition on_fs {A} (m : io A) : W A := zoom w_fs set_fs m.

Definition config : W rdb_config_t := w ← get; mret (w_conf w).
