(* ===== verification/RdbConfig.v ===== *)
(** * The configuration file (the [rdb_config_*] functions of [src/kv_RDB.c])

    [config_line] is the body of the load loop on one line, [config_text] the text
    [rdb_config_save] writes.  Saving a configuration and loading it gives it back, as
    long as its paths fit on a line. *)

From S2P Require Import Prelude KvsArray KvsHash KvsRbtree KvsSkiptable CNum Stdio World.
Import CNum.

Definition RDB_CONFIG_FILE : cstr := bs "kvs.conf".

Definition set_save_interval z c :=
  mk_conf z (rdb_file c) (rdb_enabled c) (rdb_compression c) (rdb_crc64 c) (rdb_backup c) (backup_dir c).
Definition set_rdb_file f c :=
  mk_conf (save_interval c) f (rdb_enabled c) (rdb_compression c) (rdb_crc64 c) (rdb_backup c) (backup_dir c).
Definition set_rdb_enabled z c :=
  mk_conf (save_interval c) (rdb_file c) z (rdb_compression c) (rdb_crc64 c) (rdb_backup c) (backup_dir c).
Definition set_rdb_compression z c :=
  mk_conf (save_interval c) (rdb_file c) (rdb_enabled c) z (rdb_crc64 c) (rdb_backup c) (backup_dir c).
Definition set_rdb_crc64 z c :=
  mk_conf (save_interval c) (rdb_file c) (rdb_enabled c) (rdb_compression c) z (rdb_backup c) (backup_dir c).
Definition set_rdb_backup z c :=
  mk_conf (save_interval c) (rdb_file c) (rdb_enabled c) (rdb_compression c) (rdb_crc64 c) z (backup_dir c).
Definition set_backup_dir d c :=
  mk_conf (save_interval c) (rdb_file c) (rdb_enabled c) (rdb_compression c) (rdb_crc64 c) (rdb_backup c) d.

Definition modify_conf (f : rdb_config_t -> rdb_config_t) : W unit :=
  modify (fun w => set_conf (f (w_conf w)) w).

(** [strncpy(dst, s, MAX_PATH_LEN - 1); dst[MAX_PATH_LEN - 1] = 0] *)
Definition path_copy (s : cstr) : cstr := take (MAX_PATH_LEN - 1) s.

(** ** Loading *)

(** [if (p = strchr(s, c)) *p = 0] *)
Definition cut_at (c : byte) (s : cstr) : cstr :=
  match strchr s c with None => s | Some i => take i s end.

Fixpoint ltrim (s : cstr) : cstr :=
  match s with
  | c :: s' => if decide (c = x20) then ltrim s' else s
  | [] => []
  end.

(** The spaces at the end; the loop [while (end > s && *end == ' ')] keeps the first byte. *)
Fixpoint rstrip (s : cstr) : cstr :=
  match s with
  | [] => []
  | c :: s' =>
      match rstrip s' with
      | [] => if decide (c = x20) then [] else [c]
      | r => c :: r
      end
  end.
Definition rtrim (s : cstr) : cstr :=
  match s with [] => [] | c :: s' => c :: rstrip s' end.

Definition yes_or_1 (v : cstr) : Z :=
  if (strcmp v (bs "yes") =? 0)%Z || (strcmp v (bs "1") =? 0)%Z then 1 else 0.

Definition is_key (k : cstr) (name : string) : bool := (strcmp k (bs name) =? 0)%Z.

Definition config_assign (k v : cstr) (c : rdb_config_t) : rdb_config_t :=
  if is_key k "save_interval" then set_save_interval (atoi v) c
  else if is_key k "rdb_file" then set_rdb_file (path_copy v) c
  else if is_key k "rdb_enabled" then set_rdb_enabled (yes_or_1 v) c
  else if is_key k "rdb_compression" then set_rdb_compression (yes_or_1 v) c
  else if is_key k "rdb_backup" then set_rdb_backup (yes_or_1 v) c
  else if is_key k "backup_dir" then set_backup_dir (path_copy v) c
  else if is_key k "rdb_crc64" then set_rdb_crc64 (yes_or_1 v) c
  else c.

(** [line]: the bytes [fgets] stored. *)
Definition config_line (line : list byte) (c : rdb_config_t) : rdb_config_t :=
  match line with
  | [] => c
  | b :: _ =>
      if decide (b = x23 \/ b = x0a \/ b = x0d) then c else
      let s := cut_at x0d (cut_at x0a (cut_nul line)) in
      match strchr s x3d with
      | None => c
      | Some i => config_assign (rtrim (ltrim (take i s))) (rtrim (ltrim (drop (S i) s))) c
      end
  end.

Fixpoint config_load_loop (fuel : nat) (fp : FILE) : W unit :=
  match fuel with
  | O => out_of_fuel
  | S n =>
      r ← on_fs (fgets MAX_CONFIG_LINE fp);
      match r.1 with
      | None => mret tt
      | Some line => modify_conf (config_line line) ;; config_load_loop n r.2
      end
  end.

(** Every line takes a byte of the file. *)
Definition rdb_config_load (config_file : cstr) : W Z :=
  o ← on_fs (fopen config_file ModeR);
  match o with
  | None => mret (-1)%Z
  | Some fp =>
      w ← get;
      config_load_loop (S (length (contents (w_fs w) config_file))) fp ;;
      mret 0%Z
  end.

(** ** Saving *)

Definition yes_no (z : Z) : cstr := if (z =? 0)%Z then bs "no" else bs "yes".

(** The arguments of the [fprintf] calls, formatted. *)
Definition config_prints (c : rdb_config_t) : list cstr :=
  [ bs "# KVS RDB 配置文件" ++ nl;
    bs "# 格式: key = value" ++ nl;
    bs "# 注释以 # 开头" ++ nl ++ nl;
    bs "# 自动保存间隔（秒）" ++ nl ++ bs "save_interval = " ++ fmt_d (save_interval c) ++ nl ++ nl;
    bs "# RDB 文件路径" ++ nl ++ bs "rdb_file = " ++ rdb_file c ++ nl ++ nl;
    bs "# 是否启用 RDB" ++ nl ++ bs "rdb_enabled = " ++ yes_no (rdb_enabled c) ++ nl ++ nl;
    bs "# 是否启用压缩（可选）" ++ nl ++ bs "rdb_compression = " ++ yes_no (rdb_compression c) ++ nl ++ nl;
    bs "# 是否启用CRC64校验" ++ nl ++ bs "rdb_crc64 = " ++ yes_no (rdb_crc64 c) ++ nl ++ nl;
    bs "# 是否启用备份" ++ nl ++ bs "rdb_backup = " ++ yes_no (rdb_backup c) ++ nl ++ nl;
    bs "# 备份目录" ++ nl ++ bs "backup_dir = " ++ backup_dir c ++ nl ].

Fixpoint fwrite_all (l : list cstr) (fp : FILE) : io FILE :=
  match l with
  | [] => mret fp
  | s :: l => fp ← fwrite s fp; fwrite_all l fp
  end.

Definition rdb_config_save (config_file : cstr) : W Z :=
  o ← on_fs (fopen config_file ModeW);
  match o with
  | None => mret (-1)%Z
  | Some fp => c ← config; _ ← on_fs (fwrite_all (config_prints c) fp); mret 0%Z
  end.

Definition rdb_config_init : W Z :=
  r ← rdb_config_load RDB_CONFIG_FILE;
  (if (r =? 0)%Z then mret tt else _ ← rdb_config_save RDB_CONFIG_FILE; mret tt) ;;
  mret 0%Z.

(** ** Setters *)

Definition rdb_config_set_save_interval (interval : Z) : W Z :=
  if (interval <=? 0)%Z then mret (-1)%Z
  else modify_conf (set_save_interval interval) ;; mret 0%Z.

Definition rdb_config_set_rdb_file (file : option cstr) : W Z :=
  match file with
  | None => mret (-1)%Z
  | Some f => modify_conf (set_rdb_file (path_copy f)) ;; mret 0%Z
  end.

Definition flag (z : Z) : Z := if (z =? 0)%Z then 0 else 1.

Definition rdb_config_set_enabled (enabled : Z) : W Z :=
  modify_conf (set_rdb_enabled (flag enabled)) ;; mret 0%Z.
Definition rdb_config_set_compression (enabled : Z) : W Z :=
  modify_conf (set_rdb_compression (flag enabled)) ;; mret 0%Z.
Definition rdb_config_set_crc64 (enabled : Z) : W Z :=
  modify_conf (set_rdb_crc64 (flag enabled)) ;; mret 0%Z.
Definition rdb_config_set_backup (enabled : Z) (dir : option cstr) : W Z :=
  modify_conf (set_rdb_backup (flag enabled)) ;;
  match dir with
  | None => mret tt
  | Some d => modify_conf (set_backup_dir (path_copy d))
  end ;;
  mret 0%Z.

(** The older interface. *)
Definition kvs_rdb_set_path (path : option cstr) : W Z := rdb_config_set_rdb_file path.
Definition kvs_rdb_set_directory (dir : option cstr) : W Z := rdb_config_set_backup 1 dir.
Definition kvs_rdb_set_filename (filename : option cstr) : W Z := rdb_config_set_rdb_file filename.
Definition kvs_rdb_set_auto_save (enabled interval : Z) : W Z :=
  _ ← rdb_config_set_enabled enabled;
  (if (0 <? interval)%Z then _ ← rdb_config_set_save_interval interval; mret tt else mret tt) ;;
  mret 0%Z.
(** The string in the buffer after the call, if there is a buffer. *)
Definition kvs_rdb_get_full_path (buf : option cstr) (max_len : Z) : W (Z * option cstr) :=
  c ← config;
  match buf with
  | None => mret ((-1)%Z, None)
  | Some b =>
      if (max_len =? 0)%Z then mret ((-1)%Z, Some b)
      else mret (0%Z, Some (take (Z.to_nat (max_len - 1)) (rdb_file c)))
  end.
Definition kvs_rdb_init_config : W Z := rdb_config_init.

(** ** The loop as a function of the text *)

Fixpoint load_text (fuel : nat) (text : list byte) (c : rdb_config_t) : rdb_config_t :=
  match fuel with
  | O => c
  | S n =>
      match line_of (MAX_CONFIG_LINE - 1) text with
      | [] => c
      | line => load_text n (drop (length line) text) (config_line line c)
      end
  end.

Lemma on_fs_get_run {A} (m : io A) w al a :
  m (w_fs w, al) = Ret (a, (w_fs w, al)) -> on_fs m (w, al) = Ret (a, (w, al)).
Proof. intros H. unfold on_fs. rewrite (zoom_run w_fs set_fs _ _ _ _ _ _ H). by destruct w. Qed.

Lemma config_load_loop_run p data fuel : forall w al pos eof,
  files (w_fs w) !! p = Some data -> length data - pos < fuel ->
  config_load_loop fuel (mk_FILE p ModeR pos eof) (w, al)
  = Ret (tt, (set_conf (load_text fuel (drop pos data) (w_conf w)) w, al)).
Proof.
  induction fuel as [|n IH]; intros w al pos eof Hp Hf; [lia|]. cbn [config_load_loop load_text].
  erewrite bind_ret.
  2:{ apply on_fs_get_run. unfold fgets. mcbn. cbn [f_pos f_path f_mode f_eof]. unfold contents.
      rewrite Hp. cbn [from_option id]. reflexivity. }
  cbn [fst snd]. destruct (line_of (MAX_CONFIG_LINE - 1) (drop pos data)) as [|b line] eqn:E.
  - rewrite decide_True by done. by destruct w.
  - rewrite decide_False by done. unfold modify_conf. rewrite bind_modify. cbn [fst snd].
    pose proof (line_of_length (MAX_CONFIG_LINE - 1) (drop pos data)) as Hl.
    rewrite E, length_drop in Hl. cbn [length] in *.
    rewrite IH; [|done|lia]. cbn [w_conf set_conf]. by rewrite drop_drop.
Qed.

(** Text made of whole lines. *)
Definition unlines (ls : list cstr) : cstr := concat ((fun l => l ++ nl) <$> ls).

Definition line_ok (l : cstr) : Prop := x0a ∉ l /\ length l < MAX_CONFIG_LINE - 1.

Lemma load_text_unlines ls : forall fuel c,
  Forall line_ok ls -> length (unlines ls) < fuel ->
  load_text fuel (unlines ls) c = foldl (fun c l => config_line (l ++ nl) c) c ls.
Proof.
  induction ls as [|l ls IH]; intros fuel c Hok Hf; (destruct fuel as [|n]; [lia|]); cbn [load_text foldl].
  - done.
  - apply list.Forall_cons in Hok as [[Hnl Hlen] Hok].
    assert (E : unlines (l :: ls) = l ++ x0a :: unlines ls)
      by (unfold unlines; rewrite fmap_cons; cbn [concat]; by rewrite <- app_assoc).
    rewrite E in *. rewrite line_of_line by done.
    destruct (l ++ nl) as [|b line] eqn:El; [by destruct l|]. rewrite <- El.
    replace (l ++ x0a :: unlines ls) with ((l ++ nl) ++ unlines ls) by (by rewrite <- app_assoc).
    rewrite drop_app_length. apply IH; [done|]. rewrite length_app in Hf. cbn in Hf. lia.
Qed.

(** ** Lines of the form [name = value] *)

Record value_ok (v : cstr) : Prop := {
  v_plain : x00 ∉ v /\ x0a ∉ v /\ x0d ∉ v;
  v_head : head v <> Some x20;
  v_last : list.last v <> Some x20
}.

Lemma strchr_none s c : c ∉ s -> strchr s c = None.
Proof.
  induction s as [|b s IH]; intros H; cbn; [done|]. rewrite decide_False by set_solver.
  by rewrite IH by set_solver.
Qed.

Lemma strchr_app k c t : c ∉ k -> strchr (k ++ c :: t) c = Some (length k).
Proof.
  induction k as [|b k IH]; intros H; cbn; [by rewrite decide_True|].
  rewrite decide_False by set_solver. by rewrite IH by set_solver.
Qed.

Lemma cut_at_none s c : c ∉ s -> cut_at c s = s.
Proof. intros H. unfold cut_at. by rewrite strchr_none. Qed.

Lemma cut_at_app k c t : c ∉ k -> cut_at c (k ++ c :: t) = k.
Proof. intros H. unfold cut_at. rewrite strchr_app by done. by rewrite take_app_length. Qed.

Lemma ltrim_id s : head s <> Some x20 -> ltrim s = s.
Proof. destruct s as [|c s]; cbn; [done|]. intros H. rewrite decide_False; [done|congruence]. Qed.

Lemma rstrip_id s : list.last s <> Some x20 -> rstrip s = s.
Proof.
  induction s as [|c s IH]; [done|]. intros H. cbn [rstrip].
  destruct s as [|d s]; [cbn; cbn in H; rewrite decide_False; [done|congruence]|].
  rewrite IH by done. done.
Qed.

Lemma rtrim_id s : list.last s <> Some x20 -> rtrim s = s.
Proof.
  destruct s as [|c s]; [done|]. intros H. cbn [rtrim]. f_equal.
  destruct s as [|d s]; [done|]. by apply rstrip_id.
Qed.

Lemma rstrip_space s : rstrip (s ++ [x20]) = rstrip s.
Proof. induction s as [|c s IH]; [done|]. cbn [app rstrip]. by rewrite IH. Qed.

Lemma drop_sep (a : cstr) x t : drop (S (length a)) (a ++ x :: t) = t.
Proof. induction a as [|c a IH]; cbn; [done|]. apply IH. Qed.

(** The names of the settings. *)
Definition name_ok (k : cstr) : bool :=
  match k with
  | [] => false
  | b :: _ =>
      bool_decide (b <> x23) &&
      forallb (fun c => bool_decide (c <> x00 /\ c <> x0a /\ c <> x0d /\ c <> x3d /\ c <> x20)) k
  end.

Lemma name_ok_not k c :
  name_ok k = true -> c = x00 \/ c = x0a \/ c = x0d \/ c = x3d \/ c = x20 -> c ∉ k.
Proof.
  intros H Hc Hin. destruct k as [|b k]; [done|]. unfold name_ok in H.
  apply andb_true_iff in H as [_ H]. rewrite forallb_forall in H.
  apply list_elem_of_In, H, bool_decide_eq_true in Hin. naive_solver.
Qed.

Lemma config_line_setting k v c :
  name_ok k = true -> value_ok v ->
  config_line ((k ++ bs " = " ++ v) ++ nl) c = config_assign k v c.
Proof.
  intros Hk [(H0 & Ha & Hd) Hh Hl].
  assert (Hnot := fun c => name_ok_not k c Hk).
  assert (Hcons : exists b k', k = b :: k' /\ b <> x23) by
    (destruct k as [|b k']; [done|]; exists b, k'; unfold name_ok in Hk;
     apply andb_true_iff in Hk as [Hb _]; by apply bool_decide_eq_true in Hb).
  destruct Hcons as (b & k' & Ek & Hb).
  unfold config_line. destruct ((k ++ bs " = " ++ v) ++ nl) as [|b0 l0] eqn:E; [by subst|].
  assert (b0 = b) as -> by (rewrite Ek in E; by injection E).
  assert (b <> x0a) by (intros ->; apply (Hnot x0a); [auto|rewrite Ek; set_solver]).
  assert (b <> x0d) by (intros ->; apply (Hnot x0d); [auto|rewrite Ek; set_solver]).
  rewrite decide_False by naive_solver. rewrite <- E.
  assert (Hno : forall c, c = x00 \/ c = x0a \/ c = x0d -> c ∉ k ++ bs " = " ++ v).
  { intros c' Hc'. assert (c' ∉ k) by (apply Hnot; naive_solver).
    assert (c' ∉ bs " = ") by (destruct Hc' as [->|[->| ->]]; vm_compute; set_solver).
    rewrite !elem_of_app. naive_solver. }
  rewrite cut_nul_id by (unfold cstr_ok; rewrite elem_of_app; intros [Hx|Hx];
    [by apply (Hno x00) in Hx; auto|vm_compute in Hx; set_solver]).
  unfold nl. rewrite cut_at_app by auto. rewrite cut_at_none by auto.
  change (bs " = ") with ([x20] ++ x3d :: [x20]). rewrite <- app_assoc, app_assoc. cbn [app].
  rewrite strchr_app.
  2:{ rewrite elem_of_app. intros [Hx|Hx]; [apply (Hnot x3d) in Hx; auto|set_solver]. }
  rewrite take_app_length.
  rewrite drop_sep.
  cbn [ltrim]. rewrite decide_True by done. rewrite (ltrim_id v), (rtrim_id v) by done.
  rewrite ltrim_id by (rewrite Ek; cbn; intros [= ->]; apply (Hnot x20); [auto|rewrite Ek; set_solver]).
  f_equal. rewrite Ek. cbn [app rtrim]. f_equal. rewrite rstrip_space. apply rstrip_id.
  intros Hx. apply last_Some_elem_of in Hx. apply (Hnot x20); [auto|rewrite Ek; set_solver].
Qed.

(** ** Round trip *)

Definition setting (k v : cstr) : cstr := k ++ bs " = " ++ v.

Definition config_lines (c : rdb_config_t) : list cstr :=
  [ bs "# KVS RDB 配置文件"; bs "# 格式: key = value"; bs "# 注释以 # 开头"; [];
    bs "# 自动保存间隔（秒）"; setting (bs "save_interval") (fmt_d (save_interval c)); [];
    bs "# RDB 文件路径"; setting (bs "rdb_file") (rdb_file c); [];
    bs "# 是否启用 RDB"; setting (bs "rdb_enabled") (yes_no (rdb_enabled c)); [];
    bs "# 是否启用压缩（可选）"; setting (bs "rdb_compression") (yes_no (rdb_compression c)); [];
    bs "# 是否启用CRC64校验"; setting (bs "rdb_crc64") (yes_no (rdb_crc64 c)); [];
    bs "# 是否启用备份"; setting (bs "rdb_backup") (yes_no (rdb_backup c)); [];
    bs "# 备份目录"; setting (bs "backup_dir") (backup_dir c) ].

Lemma config_prints_lines c : concat (config_prints c) = unlines (config_lines c).
Proof.
  unfold unlines, config_lines, config_prints, setting. rewrite !fmap_cons, fmap_nil.
  cbn [concat]. repeat (rewrite <- app_assoc || rewrite app_nil_l). rewrite !app_nil_r.
  done.
Qed.

Lemma fwrite_all_run p l : forall s al data,
  files s !! p = Some data ->
  fwrite_all l (mk_FILE p ModeW (length data) false) (s, al)
  = Ret (mk_FILE p ModeW (length (data ++ concat l)) false,
         (set_files (<[p := data ++ concat l]> (files s)) s, al)).
Proof.
  induction l as [|b l IH]; intros s al data Hp; cbn [fwrite_all concat].
  - rewrite app_nil_r, insert_id by done. by destruct s.
  - rewrite (bind_ret _ _ _ _ _ (fwrite_append s al b p data Hp)).
    rewrite IH by (cbn; apply lookup_insert_eq). cbn [files set_files].
    rewrite insert_insert_eq, set_files_set_files. by rewrite <- app_assoc.
Qed.

(** A configuration that a text file can hold: 32-bit interval, flags 0 or 1, and paths
    that fit on a line of [MAX_CONFIG_LINE - 2] bytes and have no line breaks or spaces
    at their ends. *)
Record conf_ok (c : rdb_config_t) : Prop := {
  c_interval : (- 2 ^ 31 <= save_interval c < 2 ^ 31)%Z;
  c_enabled : flag (rdb_enabled c) = rdb_enabled c;
  c_compression : flag (rdb_compression c) = rdb_compression c;
  c_crc64 : flag (rdb_crc64 c) = rdb_crc64 c;
  c_backup : flag (rdb_backup c) = rdb_backup c;
  c_file : value_ok (rdb_file c) /\ length (rdb_file c) < 244;
  c_dir : value_ok (backup_dir c) /\ length (backup_dir c) < 242
}.

Lemma yes_no_ok z : value_ok (yes_no z) /\ length (yes_no z) <= 3.
Proof.
  unfold yes_no. destruct (z =? 0)%Z; (split; [split; vm_compute; (set_solver || done)|cbn; lia]).
Qed.

Lemma yes_or_1_yes_no z : flag z = z -> yes_or_1 (yes_no z) = z.
Proof. unfold flag, yes_no. intros <-. destruct (z =? 0)%Z; reflexivity. Qed.

Lemma fmt_d_digits z : exists s d, fmt_d z = s ++ d /\ (s = [] \/ s = [x2d]) /\ d <> [] /\
  Forall (fun c => isdigit c = true) d.
Proof.
  unfold fmt_d. destruct (Z.ltb_spec z 0).
  - exists [x2d], (dec (- z)). split; [done|]. split; [auto|].
    split; [by destruct (dec_cons (- z)) as (? & ? & ->)|apply dec_digits; lia].
  - exists [], (dec z). split; [done|]. split; [auto|].
    split; [by destruct (dec_cons z) as (? & ? & ->)|apply dec_digits; lia].
Qed.

Lemma fmt_d_ok z : value_ok (fmt_d z).
Proof.
  destruct (fmt_d_digits z) as (s & d & -> & Hs & Hd & Hall).
  assert (Hno : forall c, c ∈ s ++ d -> c = x2d \/ isdigit c = true).
  { intros c Hc. apply elem_of_app in Hc as [Hc|Hc].
    - left. destruct Hs as [->| ->]; set_solver.
    - right. rewrite list.Forall_forall in Hall. auto. }
  assert (Hbad : forall c, c = x00 \/ c = x0a \/ c = x0d \/ c = x20 -> c ∉ s ++ d).
  { intros c Hc Hin. apply Hno in Hin as [->|Hin]; [naive_solver|].
    apply isdigit_plain in Hin. naive_solver. }
  split; [split; [|split]; apply Hbad; auto| |].
  - intros Hh. apply (Hbad x20); [auto|]. apply list_elem_of_lookup. exists 0. by destruct (s ++ d).
  - intros Hl. apply last_Some_elem_of in Hl. by apply (Hbad x20); [auto|].
Qed.

Lemma dec_rev_length fuel : forall z, length (dec_rev fuel z) <= fuel.
Proof.
  induction fuel as [|n IH]; intros z; cbn; [lia|].
  destruct (z <? 10)%Z; cbn; [lia|]. specialize (IH (z / 10)%Z). lia.
Qed.

Lemma fmt_d_length z : (- 2 ^ 31 <= z < 2 ^ 31)%Z -> length (fmt_d z) <= 34.
Proof.
  intros Hz. assert (H : forall y, (0 <= y <= 2 ^ 31)%Z -> length (dec y) <= 33).
  { intros y Hy. unfold dec. rewrite length_reverse. etrans; [apply dec_rev_length|].
    pose proof (Z.log2_le_mono y (2 ^ 31) ltac:(lia)) as Hl. rewrite Z.log2_pow2 in Hl by lia. lia. }
  unfold fmt_d. destruct (Z.ltb_spec z 0); cbn [length].
  - specialize (H (- z)%Z ltac:(lia)). lia.
  - specialize (H z ltac:(lia)). lia.
Qed.

Lemma setting_line_ok k v :
  name_ok k = true -> value_ok v -> length k + length v < 252 -> line_ok (setting k v).
Proof.
  intros Hk [(_ & Ha & _) _ _] Hl. unfold setting. split.
  - rewrite !elem_of_app. intros [H|[H|H]]; [|vm_compute in H; set_solver|done].
    apply (name_ok_not k x0a) in H; auto.
  - rewrite !length_app. change (length (bs " = ")) with 3. unfold MAX_CONFIG_LINE. lia.
Qed.

Lemma comment_line_ok (s : cstr) :
  (forallb (fun c => negb (b2z c =? 10)%Z) s && (length s <? 255) = true) -> line_ok s.
Proof.
  intros H. apply andb_true_iff in H as [H1 H2]. rewrite forallb_forall in H1. split.
  - intros Hin. apply list_elem_of_In, H1 in Hin. done.
  - apply Nat.ltb_lt in H2. done.
Qed.

Lemma config_lines_ok c : conf_ok c -> Forall line_ok (config_lines c).
Proof.
  intros [H1 _ _ _ _ [H6 H6'] [H7 H7']]. unfold config_lines.
  pose proof (fmt_d_length _ H1). pose proof (fmt_d_ok (save_interval c)).
  pose proof (proj1 (yes_no_ok (rdb_enabled c))). pose proof (proj2 (yes_no_ok (rdb_enabled c))).
  pose proof (proj1 (yes_no_ok (rdb_compression c))). pose proof (proj2 (yes_no_ok (rdb_compression c))).
  pose proof (proj1 (yes_no_ok (rdb_crc64 c))). pose proof (proj2 (yes_no_ok (rdb_crc64 c))).
  pose proof (proj1 (yes_no_ok (rdb_backup c))). pose proof (proj2 (yes_no_ok (rdb_backup c))).
  repeat apply list.Forall_cons_2; try (apply Forall_nil_2);
    first [ apply setting_line_ok; [reflexivity|done|cbn [length bs String.list_byte_of_string]; cbn; lia]
          | apply comment_line_ok; vm_compute; reflexivity ].
Qed.

Lemma assign_save_interval v c :
  config_assign (bs "save_interval") v c = set_save_interval (atoi v) c.
Proof. reflexivity. Qed.
Lemma assign_rdb_file v c : config_assign (bs "rdb_file") v c = set_rdb_file (path_copy v) c.
Proof. reflexivity. Qed.
Lemma assign_rdb_enabled v c : config_assign (bs "rdb_enabled") v c = set_rdb_enabled (yes_or_1 v) c.
Proof. reflexivity. Qed.
Lemma assign_rdb_compression v c :
  config_assign (bs "rdb_compression") v c = set_rdb_compression (yes_or_1 v) c.
Proof. reflexivity. Qed.
Lemma assign_rdb_crc64 v c : config_assign (bs "rdb_crc64") v c = set_rdb_crc64 (yes_or_1 v) c.
Proof. reflexivity. Qed.
Lemma assign_rdb_backup v c : config_assign (bs "rdb_backup") v c = set_rdb_backup (yes_or_1 v) c.
Proof. reflexivity. Qed.
Lemma assign_backup_dir v c : config_assign (bs "backup_dir") v c = set_backup_dir (path_copy v) c.
Proof. reflexivity. Qed.

(** Loading the lines of a configuration over any other. *)
Lemma config_lines_load c c0 :
  conf_ok c -> foldl (fun c l => config_line (l ++ nl) c) c0 (config_lines c) = c.
Proof.
  intros [H1 H2 H3 H4 H5 [H6 H6'] [H7 H7']]. unfold config_lines. cbn [foldl]. unfold setting.
  rewrite !config_line_setting by (reflexivity || apply fmt_d_ok || apply yes_no_ok || done).
  assert (Hc : forall s c, match s with x23 :: _ => true | [] => true | _ => false end = true ->
    config_line (s ++ nl) c = c).
  { intros s c' Hs. destruct s as [|b s]; [done|]. cbn [app config_line].
    rewrite decide_True; [done|]. left. by destruct b. }
  rewrite !Hc by reflexivity.
  rewrite assign_save_interval, assign_rdb_file, assign_rdb_enabled, assign_rdb_compression,
    assign_rdb_crc64, assign_rdb_backup, assign_backup_dir.
  rewrite atoi_fmt_d by done. rewrite !yes_or_1_yes_no by done. unfold path_copy.
  rewrite !take_ge by (unfold MAX_PATH_LEN; lia).
  destruct c as [x1 x2 x3 x4 x5 x6 x7], c0 as [y1 y2 y3 y4 y5 y6 y7].
  cbv [set_save_interval set_rdb_file set_rdb_enabled set_rdb_compression
    set_rdb_crc64 set_rdb_backup set_backup_dir save_interval rdb_file rdb_enabled rdb_compression
    rdb_crc64 rdb_backup backup_dir]. done.
Qed.

(** C30: writing a configuration and reading it back, over any other configuration,
    gives the same configuration, when its paths fit on a line of the file. *)
Theorem config_roundtrip w al p :
  conf_ok (w_conf w) -> may_write (w_fs w) (dirs (w_fs w)) p = true ->
  exists w', rdb_config_save p (w, al) = Ret (0%Z, (w', al)) /\ w_conf w' = w_conf w /\
    forall c0, rdb_config_load p (set_conf c0 w', al) = Ret (0%Z, (w', al)).
Proof.
  intros Hok Hw. set (text := concat (config_prints (w_conf w))).
  exists (set_fs (set_files (<[p := text]> (files (w_fs w))) (w_fs w)) w). split; [|split; [done|]].
  - unfold rdb_config_save. erewrite bind_ret.
    2:{ unfold on_fs. apply zoom_run. unfold fopen. mcbn. rewrite Hw. mcbn. reflexivity. }
    unfold config. mcbn. cbn [w_conf set_fs]. erewrite bind_ret; [reflexivity|].
    unfold on_fs. erewrite zoom_run.
    2:{ apply (fwrite_all_run p _ _ _ []). cbn. apply lookup_insert_eq. }
    cbn [app w_fs set_fs files set_files]. rewrite insert_insert_eq. done.
  - intros c0. unfold rdb_config_load. erewrite bind_ret.
    2:{ apply on_fs_get_run. unfold fopen. mcbn. cbn [w_fs set_conf set_fs files set_files].
        rewrite lookup_insert_eq. reflexivity. }
    cbn beta iota. mcbn. cbn [w_fs set_conf set_fs]. rewrite contents_insert, decide_True by done.
    erewrite bind_ret.
    2:{ apply (config_load_loop_run p text); [cbn; apply lookup_insert_eq|lia]. }
    rewrite drop_0. unfold text. rewrite config_prints_lines.
    rewrite load_text_unlines by (try lia; by apply config_lines_ok).
    rewrite config_lines_load by done. by destruct w.
Qed.

Lemma default_conf_ok : conf_ok g_rdb_config0.
Proof.
  split; try (vm_compute; done); (split; [split; vm_compute; (done || set_solver)|cbn; lia]).
Qed.

(** The globals at program start, on an empty file system. *)
Definition fs0 : fs := mk_fs ∅ ∅ (fun _ _ => true) 0.
Definition world0 : world :=
  mk_world Array.global_array0 (Rbtree.global_rbtree0 true) Hash.global_hash0
    (Skip.global_skiptable0 []) g_rdb_config0 fs0 0.

Example config_roundtrip_witness :
  conf_ok (w_conf world0) /\
  exists w', rdb_config_save RDB_CONFIG_FILE (world0, []) = Ret (0%Z, (w', [])) /\
    forall c0, rdb_config_load RDB_CONFIG_FILE (set_conf c0 w', []) = Ret (0%Z, (w', [])).
Proof.
  split; [apply default_conf_ok|].
  destruct (config_roundtrip world0 [] RDB_CONFIG_FILE default_conf_ok eq_refl)
    as (w' & E & _ & H). exists w'. split; [exact E|exact H].
Defined.

(** With a saved configuration in [kvs.conf], the initialisation takes it over. *)
Lemma config_init_run w al c :
  conf_ok c -> files (w_fs w) !! RDB_CONFIG_FILE = Some (concat (config_prints c)) ->
  rdb_config_init (w, al) = Ret (0%Z, (set_conf c w, al)).
Proof.
  intros Hok Hf. unfold rdb_config_init, rdb_config_load. mcbn.
  erewrite bind_ret.
  2:{ apply on_fs_get_run. unfold fopen. mcbn. rewrite Hf. reflexivity. }
  cbn beta iota. mcbn. unfold contents. rewrite Hf. cbn [from_option id].
  erewrite bind_ret.
  2:{ apply (config_load_loop_run RDB_CONFIG_FILE (concat (config_prints c))); [exact Hf|lia]. }
  mcbn. rewrite drop_0, config_prints_lines.
  rewrite load_text_unlines by (try lia; by apply config_lines_ok).
  by rewrite config_lines_load.
Qed.

(** C34: [main] sets the snapshot path from the command line and then initialises
    the configuration: when [kvs.conf] holds a saved configuration, its path replaces the
    one given on the command line. *)
Theorem config_file_overrides_path w al c p :
  conf_ok c -> files (w_fs w) !! RDB_CONFIG_FILE = Some (concat (config_prints c)) ->
  (kvs_rdb_set_path (Some p) ;; rdb_config_init) (w, al) = Ret (0%Z, (set_conf c w, al)).
Proof.
  intros Hok Hf. unfold kvs_rdb_set_path, rdb_config_set_rdb_file, modify_conf. mcbn.
  by rewrite (config_init_run _ al c Hok).
Qed.

Example config_file_overrides_path_witness :
  let w := set_fs (set_files {[RDB_CONFIG_FILE := concat (config_prints g_rdb_config0)]} fs0) world0 in
  (kvs_rdb_set_path (Some (bs "/data/kvstore.rdb")) ;; rdb_config_init) (w, [])
  = Ret (0%Z, (set_conf g_rdb_config0 w, [])) /\ rdb_file g_rdb_config0 = bs "kvs.rdb".
Proof.
  split; [|reflexivity].
  apply (config_file_overrides_path _ [] g_rdb_config0 (bs "/data/kvstore.rdb") default_conf_ok).
  exact (lookup_singleton_eq (M := gmap cstr) RDB_CONFIG_FILE _).
Defined.
