(* ===== verification/Rdb.v ===== *)
(** * Snapshots ([src/kv_RDB.c]): the code

    [kvs_rdb_save] writes the engines to a file, [kvs_rdb_load] reads them back,
    [rdb_verify_file_integrity] checks a file, and there are copies to and from a backup
    directory.  Structures are packed and little-endian, as the x86-64 build writes
    them. *)

From S2P Require Import Prelude Engine KvsArray KvsHash KvsRbtree KvsSkiptable CNum Crc Stdio World.
From S2P Require Import RdbConfig.
Import CNum.

Module Rdb.

Definition RDB_MAGIC : Z := 0x5244424B.
Definition RDB_VERSION : Z := 1.
Definition RDB_FOOTER_SIZE : Z := 20.
Definition RDB_HEADER_BYTES : nat := 32.      (** [sizeof(rdb_header_t)] *)
Definition RDB_EOF_MARKER : list byte := bs "EOF" ++ [x00].

(** [RDB_ALIGN_SIZE]: up to a multiple of 8. *)
Definition RDB_ALIGN_SIZE (size : Z) : Z := Z.land (size + 8 - 1) (Z.lnot (8 - 1)).

Record rdb_header_t := mk_header {
  h_magic : Z; h_version : Z; h_flags : Z; h_data_size : Z; h_record_count : Z;
  h_save_time : Z; h_padding : Z
}.

Definition header_bytes (h : rdb_header_t) : list byte :=
  le_bytes 4 (h_magic h) ++ le_bytes 4 (h_version h) ++ le_bytes 4 (h_flags h) ++
  le_bytes 4 (h_data_size h) ++ le_bytes 4 (h_record_count h) ++
  le_bytes 8 (h_save_time h) ++ le_bytes 4 (h_padding h).

Definition slice (from n : nat) (l : list byte) : list byte := take n (drop from l).

Definition header_of (l : list byte) : rdb_header_t :=
  mk_header (le_val (slice 0 4 l)) (le_val (slice 4 4 l)) (le_val (slice 8 4 l))
    (le_val (slice 12 4 l)) (le_val (slice 16 4 l)) (le_val (slice 20 8 l)) (le_val (slice 28 4 l)).

Record rdb_footer_t := mk_footer {
  eof_marker : list byte; crc64 : Z; footer_size : Z; f_padding : Z
}.

Definition footer_bytes (f : rdb_footer_t) : list byte :=
  eof_marker f ++ le_bytes 8 (crc64 f) ++ le_bytes 4 (footer_size f) ++ le_bytes 4 (f_padding f).

Definition footer_of (l : list byte) : rdb_footer_t :=
  mk_footer (slice 0 4 l) (le_val (slice 4 8 l)) (le_val (slice 12 4 l)) (le_val (slice 16 4 l)).

(** ** Saving *)

(** The five [fwrite] calls of a record; the lengths are [uint16_t]. *)
Definition write_record (type : Z) (k v : cstr) (fp : FILE) : io FILE :=
  let key_len := wrap 16 (strlen k) in
  let val_len := wrap 16 (strlen v) in
  fp ← fwrite (le_bytes 1 type) fp;
  fp ← fwrite (le_bytes 2 key_len) fp;
  fp ← fwrite (take (Z.to_nat key_len) k) fp;
  fp ← fwrite (le_bytes 2 val_len) fp;
  fwrite (take (Z.to_nat val_len) v) fp.

(** [n]: the items left; the number of records written goes with the stream. *)
Fixpoint save_array (n i : nat) (fp : FILE) (record_count : Z) : W (FILE * Z) :=
  match n with
  | O => mret (fp, record_count)
  | S n =>
      item ← on_array (Array.get_item i);
      match Array.key item with
      | Null => save_array n (S i) fp record_count
      | k =>
          k ← deref k;
          v ← deref (Array.value item);
          fp ← on_fs (write_record 0 k v fp);
          save_array n (S i) fp (record_count + 1)
      end
  end.

Definition rbtree_save_callback (node : nat) (fp : FILE) : W FILE :=
  if decide (node = 0) then mret fp else
  k ← on_rbtree (Rbtree.rd Rbtree.key node);
  match k with
  | Null => mret fp
  | _ =>
      k ← deref k;
      v ← on_rbtree (Rbtree.rd_str Rbtree.value node);
      on_fs (write_record 1 k v fp)
  end.

(** Only the root is visited. *)
Definition kvs_rbtree_traverse (callback : nat -> FILE -> W FILE) (fp : FILE) : W FILE :=
  w ← get;
  if decide (Rbtree.root (w_rbtree w) = 0) then mret fp else
  if decide (Rbtree.root (w_rbtree w) = Rbtree.nil (w_rbtree w)) then mret fp else
  callback (Rbtree.root (w_rbtree w)) fp.

Fixpoint hash_save_callback (chain : list Hash.hashnode_t) (fp : FILE) : W FILE :=
  match chain with
  | [] => mret fp
  | n :: chain =>
      k ← deref (Hash.key n);
      v ← deref (Hash.value n);
      fp ← on_fs (write_record 2 k v fp);
      hash_save_callback chain fp
  end.

(** The slots [i .. i+n). *)
Fixpoint kvs_hash_traverse (n i : nat) (callback : list Hash.hashnode_t -> FILE -> W FILE)
    (fp : FILE) : W FILE :=
  match n with
  | O => mret fp
  | S n =>
      w ← get;
      chain ← blk_read (Hash.nodes (w_hash w)) (Z.of_nat i);
      fp ← (match chain with [] => mret fp | _ => callback chain fp end);
      kvs_hash_traverse n (S i) callback fp
  end.

Definition save_flags (c : rdb_config_t) : Z :=
  Z.lor (if (rdb_compression c =? 0)%Z then 0 else 1) (if (rdb_crc64 c =? 0)%Z then 0 else 2).

Record tm := mk_tm { tm_year : Z; tm_mon : Z; tm_mday : Z; tm_hour : Z; tm_min : Z; tm_sec : Z }.

Section rdb.
(** The broken-down local time of a time stamp. *)
Context (localtime : Z -> tm).

(** ["%s/kvs_backup_%04d%02d%02d_%02d%02d%02d.rdb"] *)
Definition backup_name (dir : cstr) (t : tm) : cstr :=
  dir ++ bs "/kvs_backup_" ++ fmt_0d 4 (tm_year t + 1900) ++ fmt_0d 2 (tm_mon t + 1) ++
  fmt_0d 2 (tm_mday t) ++ bs "_" ++ fmt_0d 2 (tm_hour t) ++ fmt_0d 2 (tm_min t) ++
  fmt_0d 2 (tm_sec t) ++ bs ".rdb".

Definition rdb_create_backup (filename : cstr) : W Z :=
  c ← config;
  if (rdb_backup c =? 0)%Z then mret 0%Z else
  on_fs (ensure_dir (backup_dir c)) ;;
  t ← on_fs time;
  if decide (MAX_PATH_LEN - 50 <= length (backup_dir c)) then mret (-1)%Z else
  let backup_file := backup_name (backup_dir c) (localtime t) in
  if decide (MAX_PATH_LEN <= length backup_file) then mret (-1)%Z else
  src ← on_fs (fopen filename ModeR);
  match src with
  | None => mret (-1)%Z
  | Some src =>
      dst ← on_fs (fopen backup_file ModeW);
      match dst with
      | None => mret (-1)%Z
      | Some dst => on_fs (copy_file src dst) ;; mret 0%Z
      end
  end.

(** The footer: the stream is back at the start of the data, and is read.  [None]: the
    function gives up. *)
Definition save_footer (data_start data_size : Z) (fp : FILE) : W (option FILE) :=
  let fp := fseek_set (Z.to_nat data_start) fp in
  ok ← malloc_ok;
  if negb ok then mret None else
  r ← on_fs (fread (Z.to_nat data_size) fp);
  if decide (length r.1 <> Z.to_nat data_size) then mret None else
  let calculated := Crc.rdb_calculate_crc64 r.1 in
  let fp := r.2 in
  let padding := (RDB_ALIGN_SIZE (ftell fp) - ftell fp)%Z in
  fp ← (if (0 <? padding)%Z then on_fs (fwrite (replicate (Z.to_nat padding) x00) fp) else mret fp);
  fp ← on_fs (fwrite (footer_bytes (mk_footer RDB_EOF_MARKER calculated RDB_FOOTER_SIZE 0)) fp);
  mret (Some fp).

Definition kvs_rdb_save (filename : cstr) : W Z :=
  c ← config;
  if (rdb_enabled c =? 0)%Z then mret 0%Z else
  exists_ ← on_fs (access filename);
  (if negb (rdb_backup c =? 0)%Z && exists_
   then _ ← rdb_create_backup filename; mret tt else mret tt) ;;
  o ← on_fs (fopen filename ModeW);
  match o with
  | None => mret (-1)%Z
  | Some fp =>
      t ← on_fs time;
      let header := mk_header RDB_MAGIC RDB_VERSION (save_flags c) 0 0 t 0 in
      fp ← on_fs (fwrite (header_bytes header) fp);
      let data_start := ftell fp in
      w ← get;
      r ← save_array (Z.to_nat (Array.total (w_array w))) 0 fp 0;
      let record_count := r.2 in
      fp ← kvs_rbtree_traverse rbtree_save_callback r.1;
      w ← get;
      fp ← kvs_hash_traverse (Z.to_nat (Hash.max_slots (w_hash w))) 0 hash_save_callback fp;
      let data_size := wrap 32 (ftell fp - data_start) in
      let header := mk_header RDB_MAGIC RDB_VERSION (save_flags c) data_size
                      (wrap 32 record_count) t 0 in
      o ← (if (rdb_crc64 c =? 0)%Z then mret (Some fp) else save_footer data_start data_size fp);
      match o with
      | None => mret (-1)%Z
      | Some fp =>
          _ ← on_fs (fwrite (header_bytes header) (fseek_set 0 fp));
          t ← on_fs time;
          modify (set_last_save t) ;;
          mret 0%Z
      end
  end.

(** ** Verification *)

Definition rdb_verify_file_integrity (filename : cstr) : W Z :=
  o ← on_fs (fopen filename ModeR);
  match o with
  | None => mret (-1)%Z
  | Some fp =>
      r ← on_fs (fread RDB_HEADER_BYTES fp);
      if decide (length r.1 <> RDB_HEADER_BYTES) then mret (-1)%Z else
      let header := header_of r.1 in
      if negb (h_magic header =? RDB_MAGIC)%Z then mret (-1)%Z else
      if negb (h_version header =? RDB_VERSION)%Z then mret (-1)%Z else
      c ← config;
      if (rdb_crc64 c =? 0)%Z then mret 0%Z else
      fp ← on_fs (fseek_end r.2);
      let file_size := ftell fp in
      (** the sum is a [size_t]: 32, the data size and the footer size do not wrap it *)
      if (file_size <? 32 + h_data_size header + RDB_FOOTER_SIZE)%Z then mret (-1)%Z else
      r ← on_fs (fread (Z.to_nat RDB_FOOTER_SIZE)
                   (fseek_set (Z.to_nat (file_size - RDB_FOOTER_SIZE)) fp));
      if decide (length r.1 <> Z.to_nat RDB_FOOTER_SIZE) then mret (-1)%Z else
      let footer := footer_of r.1 in
      if decide (eof_marker footer <> RDB_EOF_MARKER) then mret (-1)%Z else
      if negb (footer_size footer =? RDB_FOOTER_SIZE)%Z then mret (-1)%Z else
      ok ← malloc_ok;
      if negb ok then mret (-1)%Z else
      r ← on_fs (fread (Z.to_nat (h_data_size header)) (fseek_set RDB_HEADER_BYTES r.2));
      if decide (length r.1 <> Z.to_nat (h_data_size header)) then mret (-1)%Z else
      if negb (Crc.rdb_calculate_crc64 r.1 =? crc64 footer)%Z then mret (-1)%Z else
      mret 0%Z
  end.

(** ** Loading *)

(** The [switch] on the type; the results of the engines are not looked at. *)
Definition load_record (type : Z) (k v : cstr) : W unit :=
  if (type =? 0)%Z then _ ← on_array (Array.kvs_array_set (Some k) (Some v)); mret tt
  else if (type =? 1)%Z then _ ← on_rbtree (Rbtree.kvs_rbtree_set (Some k) (Some v)); mret tt
  else if (type =? 2)%Z then _ ← on_hash (Hash.kvs_hash_set (Some k) (Some v)); mret tt
  else mret tt.

(** Every iteration reads a byte or ends; the strings end at their first NUL. *)
Fixpoint load_loop (fuel : nat) (data_end : Z) (fp : FILE) : W unit :=
  match fuel with
  | O => out_of_fuel
  | S n =>
      if negb (ftell fp <? data_end)%Z || f_eof fp then mret tt else
      r ← on_fs (fread 1 fp);
      if decide (length r.1 <> 1) then mret tt else
      let type := le_val r.1 in
      r ← on_fs (fread 2 r.2);
      if decide (length r.1 <> 2) then mret tt else
      let key_len := le_val r.1 in
      if (key_len =? 0)%Z || (1024 <? key_len)%Z then mret tt else
      ok ← malloc_ok;
      if negb ok then mret tt else
      r ← on_fs (fread (Z.to_nat key_len) r.2);
      if decide (length r.1 <> Z.to_nat key_len) then mret tt else
      let k := cut_nul r.1 in
      r ← on_fs (fread 2 r.2);
      if decide (length r.1 <> 2) then mret tt else
      let val_len := le_val r.1 in
      ok ← malloc_ok;
      if negb ok then mret tt else
      r ← on_fs (fread (Z.to_nat val_len) r.2);
      if decide (length r.1 <> Z.to_nat val_len) then mret tt else
      let v := cut_nul r.1 in
      load_record type k v ;;
      load_loop n data_end r.2
  end.

Definition kvs_rdb_load (filename : cstr) : W Z :=
  c ← config;
  if (rdb_enabled c =? 0)%Z then mret 0%Z else
  v ← rdb_verify_file_integrity filename;
  if negb (v =? 0)%Z then mret (-1)%Z else
  o ← on_fs (fopen filename ModeR);
  match o with
  | None => mret (-1)%Z
  | Some fp =>
      r ← on_fs (fread RDB_HEADER_BYTES fp);
      if decide (length r.1 <> RDB_HEADER_BYTES) then mret (-3)%Z else
      let data_end := (ftell r.2 + h_data_size (header_of r.1))%Z in
      w ← get;
      load_loop (S (length (contents (w_fs w) filename))) data_end r.2 ;;
      mret 0%Z
  end.

(** ** Restoring, initialisation, automatic saving *)

Definition rdb_restore_from_backup (backup_file : option cstr) : W Z :=
  match backup_file with
  | None => mret (-1)%Z
  | Some backup_file =>
      v ← rdb_verify_file_integrity backup_file;
      if negb (v =? 0)%Z then mret (-1)%Z else
      src ← on_fs (fopen backup_file ModeR);
      match src with
      | None => mret (-1)%Z
      | Some src =>
          c ← config;
          dst ← on_fs (fopen (rdb_file c) ModeW);
          match dst with
          | None => mret (-1)%Z
          | Some dst => on_fs (copy_file src dst) ;; mret 0%Z
          end
      end
  end.

Definition kvs_rdb_init : W Z :=
  r ← rdb_config_init;
  if negb (r =? 0)%Z then mret (-1)%Z else
  c ← config;
  if (rdb_enabled c =? 0)%Z then mret 0%Z else
  found ← on_fs (access (rdb_file c));
  (if (found : bool) then _ ← kvs_rdb_load (rdb_file c); mret tt else mret tt) ;;
  mret 0%Z.

(** One round of the thread that saves, after its sleep. *)
Definition check_auto_save_round (filename : cstr) : W unit :=
  c ← config;
  if (rdb_enabled c =? 0)%Z then mret tt else
  on_array Array.pthread_mutex_lock ;;
  _ ← kvs_rdb_save filename;
  on_array Array.pthread_mutex_unlock.

End rdb.
End Rdb.
