(* ===== verification/RdbSave.v ===== *)
(** * What [kvs_rdb_save] writes

    A snapshot is the header followed by the records of the array, the root of the
    red-black tree, and the chains of the hash table.  [wfile p d w] is the world [w]
    with the contents [d] in the file [p]. *)

From S2P Require Import Prelude Engine KvsArray KvsHash KvsRbtree RbtreeRep KvsSkiptable CNum Crc Stdio.
From S2P Require Import World RdbConfig Rdb.
Import Rdb.

(** ** Records *)

Record rec := mk_rec { r_type : Z; r_key : cstr; r_val : cstr }.

Definition len16 (s : cstr) : Z := wrap 16 (strlen s).

Definition rec_bytes (r : rec) : list byte :=
  le_bytes 1 (r_type r) ++ le_bytes 2 (len16 (r_key r)) ++
  take (Z.to_nat (len16 (r_key r))) (r_key r) ++
  le_bytes 2 (len16 (r_val r)) ++ take (Z.to_nat (len16 (r_val r))) (r_val r).

Definition recs_bytes (l : list rec) : list byte := concat (rec_bytes <$> l).

Lemma recs_bytes_app l1 l2 : recs_bytes (l1 ++ l2) = recs_bytes l1 ++ recs_bytes l2.
Proof. unfold recs_bytes. by rewrite fmap_app, concat_app. Qed.

Lemma recs_bytes_cons r l : recs_bytes (r :: l) = rec_bytes r ++ recs_bytes l.
Proof. done. Qed.

Definition of_pairs (t : Z) (l : list (cstr * cstr)) : list rec :=
  (fun kv => mk_rec t kv.1 kv.2) <$> l.

Definition troot (T : tree) : list (cstr * cstr) :=
  match T with Leaf => [] | Node _ _ k v _ _ => [(k, v)] end.

(** The records of a state of the engines. *)
Definition snapshot (l : Array.items) (T : tree) (slots : list (list (cstr * cstr))) : list rec :=
  of_pairs 0 (Array.pairs l) ++ of_pairs 1 (troot T) ++ of_pairs 2 (concat slots).

(** ** Streams at the end of a file *)

Definition wfile (p : cstr) (d : list byte) (w : world) : world :=
  set_fs (set_files (<[p := d]> (files (w_fs w))) (w_fs w)) w.

Definition at_end (p : cstr) (d : list byte) : FILE := mk_FILE p ModeW (length d) false.

Lemma wfile_wfile p d d' w : wfile p d (wfile p d' w) = wfile p d w.
Proof. unfold wfile. cbn. by rewrite insert_insert_eq. Qed.

Lemma fwrite_wfile p d b w al :
  on_fs (fwrite b (at_end p d)) (wfile p d w, al)
  = Ret (at_end p (d ++ b), (wfile p (d ++ b) w, al)).
Proof.
  unfold on_fs. erewrite zoom_run.
  2:{ apply fwrite_append. cbn. apply lookup_insert_eq. }
  unfold wfile. cbn. by rewrite insert_insert_eq.
Qed.

Lemma write_record_wfile p d t k v w al :
  on_fs (write_record t k v (at_end p d)) (wfile p d w, al)
  = Ret (at_end p (d ++ rec_bytes (mk_rec t k v)), (wfile p (d ++ rec_bytes (mk_rec t k v)) w, al)).
Proof.
  unfold on_fs. erewrite zoom_run.
  2:{ unfold write_record. do 4 (erewrite bind_ret;
        [|apply fwrite_append; cbn [files set_files w_fs wfile set_fs]; apply lookup_insert_eq];
        fold (at_end p)). apply fwrite_append. cbn. apply lookup_insert_eq. }
  unfold rec_bytes. cbn [r_type r_key r_val].
  unfold wfile, set_fs. cbn [w_fs files set_files]. rewrite !insert_insert_eq.
  unfold len16. unfold at_end. by rewrite <- !app_assoc.
Qed.

(** Operations that only read a part. *)
Lemma on_array_get_run {A} (m : M Array.kvs_array_t A) w al a :
  m (w_array w, al) = Ret (a, (w_array w, al)) -> on_array m (w, al) = Ret (a, (w, al)).
Proof. intros H. unfold on_array. rewrite (zoom_run w_array set_array _ _ _ _ _ _ H). by destruct w. Qed.

Lemma on_rbtree_get_run {A} (m : M Rbtree.rbtree A) w al a :
  m (w_rbtree w, al) = Ret (a, (w_rbtree w, al)) -> on_rbtree m (w, al) = Ret (a, (w, al)).
Proof. intros H. unfold on_rbtree. rewrite (zoom_run w_rbtree set_rbtree _ _ _ _ _ _ H). by destruct w. Qed.

Lemma of_pairs_cons t kv l : of_pairs t (kv :: l) = mk_rec t kv.1 kv.2 :: of_pairs t l.
Proof. done. Qed.

(** ** The three engines *)

Lemma save_array_run p w al m j junk post : forall pre d n,
  w_array w = Array.instm m j (pre ++ post) junk ->
  save_array (length post) (length pre) (at_end p d) n (wfile p d w, al)
  = Ret ((at_end p (d ++ recs_bytes (of_pairs 0 (Array.pairs post))),
          n + Z.of_nat (length (Array.pairs post)))%Z,
         (wfile p (d ++ recs_bytes (of_pairs 0 (Array.pairs post))) w, al)).
Proof.
  induction post as [|o post IH]; intros pre d n Hw; cbn [save_array length].
  - cbn. rewrite app_nil_r, Z.add_0_r. done.
  - assert (Hg : on_array (Array.get_item (length pre)) (wfile p d w, al)
               = Ret (Array.item_of o, (wfile p d w, al))).
    { apply on_array_get_run. cbn [w_array wfile set_fs]. rewrite Hw. apply Array.get_item_inst. }
    rewrite (bind_ret _ _ _ _ _ Hg).
    assert (Hw' : w_array w = Array.instm m j ((pre ++ [o]) ++ post) junk) by (by rewrite <- app_assoc).
    assert (Hl : S (length pre) = length (pre ++ [o])) by (rewrite length_app; cbn; lia).
    destruct o as [[k v]|]; cbn [Array.item_of Array.key Array.value].
    + cbn [deref]. mcbn. rewrite (bind_ret _ _ _ _ _ (write_record_wfile p d 0 k v w al)).
      rewrite Hl, (IH (pre ++ [Some (k, v)]) _ _ Hw').
      change (Array.pairs (Some (k, v) :: post)) with ((k, v) :: Array.pairs post).
      rewrite of_pairs_cons, recs_bytes_cons, app_assoc. cbn [fst snd length].
      by replace (n + 1 + Z.of_nat (length (Array.pairs post)))%Z
        with (n + Z.of_nat (S (length (Array.pairs post))))%Z by lia.
    + by rewrite Hl, (IH (pre ++ [None]) _ _ Hw').
Qed.

Lemma rbtree_traverse_run p w al nl T d :
  st nl (w_rbtree w) T [] ->
  kvs_rbtree_traverse rbtree_save_callback (at_end p d) (wfile p d w, al)
  = Ret (at_end p (d ++ recs_bytes (of_pairs 1 (troot T))),
         (wfile p (d ++ recs_bytes (of_pairs 1 (troot T))) w, al)).
Proof.
  intros H. unfold kvs_rbtree_traverse. mcbn. cbn [w_rbtree wfile set_fs].
  pose proof H as [Hr Hn Hrep _ Hnd H0 (n & Hs & _)]. rewrite Hr, Hn. cbn [rptr foldl].
  destruct T as [|c q k v l r]; cbn [tptr troot].
  - rewrite decide_False by congruence. rewrite decide_True by done. cbn. by rewrite app_nil_r.
  - destruct Hrep as (Hq & _). rewrite decide_False by congruence. rewrite decide_False.
    2:{ cbn in Hnd. apply list.NoDup_cons in Hnd as [Hnd _]. set_solver. }
    unfold rbtree_save_callback. rewrite decide_False by congruence.
    erewrite bind_ret; [|apply on_rbtree_get_run; cbn [w_rbtree wfile set_fs]; by eapply rd_run].
    cbn [deref]. mcbn. erewrite bind_ret.
    2:{ apply on_rbtree_get_run. cbn [w_rbtree wfile set_fs]. unfold Rbtree.rd_str.
        erewrite bind_ret; [|by eapply rd_run]. reflexivity. }
    rewrite write_record_wfile. cbn. by rewrite app_nil_r.
Qed.

Lemma hash_callback_run p w al c : forall d,
  hash_save_callback (Hash.node_of <$> c) (at_end p d) (wfile p d w, al)
  = Ret (at_end p (d ++ recs_bytes (of_pairs 2 c)), (wfile p (d ++ recs_bytes (of_pairs 2 c)) w, al)).
Proof.
  induction c as [|[k v] c IH]; intros d; [cbn; by rewrite app_nil_r|].
  rewrite fmap_cons. cbn [hash_save_callback Hash.node_of Hash.key Hash.value fst snd deref]. mcbn.
  rewrite (bind_ret _ _ _ _ _ (write_record_wfile p d 2 k v w al)), IH.
  by rewrite of_pairs_cons, recs_bytes_cons, app_assoc.
Qed.

Lemma hash_traverse_run p w al post : forall pre d,
  w_hash w = Hash.table (pre ++ post) ->
  kvs_hash_traverse (length post) (length pre) hash_save_callback (at_end p d) (wfile p d w, al)
  = Ret (at_end p (d ++ recs_bytes (of_pairs 2 (concat post))),
         (wfile p (d ++ recs_bytes (of_pairs 2 (concat post))) w, al)).
Proof.
  induction post as [|c post IH]; intros pre d Hw; cbn [kvs_hash_traverse length].
  - cbn. by rewrite app_nil_r.
  - mcbn. cbn [w_hash wfile set_fs]. rewrite Hw. cbn [Hash.nodes Hash.table].
    rewrite fmap_app, fmap_cons. rewrite <- (length_fmap Hash.cell_of pre).
    change (Hash.cell_of c) with (Some (Hash.node_of <$> c)).
    rewrite (bind_ret _ _ _ _ _ (blk_read_app _ _ _ _)).
    assert (Hcb : (match Hash.node_of <$> c with [] => mret (at_end p d)
                   | _ => hash_save_callback (Hash.node_of <$> c) (at_end p d) end) (wfile p d w, al)
      = hash_save_callback (Hash.node_of <$> c) (at_end p d) (wfile p d w, al)) by (by destruct c).
    erewrite bind_ret; [|rewrite Hcb; apply hash_callback_run].
    rewrite length_fmap. replace (S (length pre)) with (length (pre ++ [c])) by (rewrite length_app; cbn; lia).
    rewrite IH by (by rewrite <- app_assoc). cbn [concat].
    unfold of_pairs. rewrite fmap_app. fold (of_pairs 2). rewrite recs_bytes_app, app_assoc. done.
Qed.

(** ** The whole function *)

Lemma length_header_bytes h : length (header_bytes h) = RDB_HEADER_BYTES.
Proof. unfold header_bytes. rewrite !length_app, !length_le_bytes. done. Qed.

(** The engines hold the items [l], the tree [T] and the chains [slots]. *)
Definition engines_hold (w : world) (l : Array.items) (T : tree)
    (slots : list (list (cstr * cstr))) : Prop :=
  (exists m j junk, w_array w = Array.instm m j l junk) /\
  (exists nl, st nl (w_rbtree w) T []) /\
  w_hash w = Hash.table slots /\ Z.of_nat (length slots) = Hash.MAX_TABLE_SIZE.

(** The function gets as far as opening the file, and makes no backup. *)
Definition save_starts (w : world) (f : cstr) : Prop :=
  rdb_enabled (w_conf w) <> 0%Z /\
  (rdb_backup (w_conf w) = 0%Z \/ (files (w_fs w) !! f = None /\ f ∉ dirs (w_fs w))) /\
  may_write (w_fs w) (dirs (w_fs w)) f = true.

Definition save_header (w : world) (data_size count : Z) : rdb_header_t :=
  mk_header RDB_MAGIC RDB_VERSION (save_flags (w_conf w)) data_size count (now (w_fs w)) 0.

Definition first_part (w : world) (recs : list rec) : list byte :=
  header_bytes (save_header w 0 0) ++ recs_bytes recs.

Lemma length_first_part w recs :
  length (first_part w recs) = 32 + length (recs_bytes recs).
Proof. unfold first_part. by rewrite length_app, length_header_bytes. Qed.

Section save.
Context (localtime : Z -> tm).

(** What is left to do after the records are written. *)
Definition save_rest (c : rdb_config_t) (t data_size count : Z) (fp : FILE) : W Z :=
  let header := mk_header RDB_MAGIC RDB_VERSION (save_flags c) data_size (wrap 32 count) t 0 in
  o ← (if (rdb_crc64 c =? 0)%Z then mret (Some fp) else save_footer 32 data_size fp);
  match o with
  | None => mret (-1)%Z
  | Some fp =>
      _ ← on_fs (fwrite (header_bytes header) (fseek_set 0 fp));
      t ← on_fs time;
      modify (set_last_save t) ;;
      mret 0%Z
  end.

Lemma open_wfile w al f :
  may_write (w_fs w) (dirs (w_fs w)) f = true ->
  on_fs (fopen f ModeW) (w, al) = Ret (Some (at_end f []), (wfile f [] w, al)).
Proof.
  intros H. unfold on_fs, wfile. apply zoom_run. unfold fopen. mcbn. rewrite H. done.
Qed.

(** ** The backup *)

Definition on_disk (s : fs) (p : cstr) : Prop := is_Some (files s !! p) \/ p ∈ dirs s.

Definition with_dir (p : cstr) (s : fs) : fs :=
  if decide (on_disk s p) then s else mk_fs (files s) ({[p]} ∪ dirs s) (may_write s) (now s).

(** The files after [rdb_create_backup] of [f]. *)
Definition backed_up (c : rdb_config_t) (f : cstr) (s : fs) : fs :=
  let s := with_dir (backup_dir c) s in
  let b := backup_name (backup_dir c) (localtime (now s)) in
  if decide (MAX_PATH_LEN - 50 <= length (backup_dir c)) then s else
  if decide (MAX_PATH_LEN <= length b) then s else
  match files s !! f with
  | None => s
  | Some d =>
      if may_write s (dirs s) b then set_files (<[b := if decide (b = f) then [] else d]> (files s)) s else s
  end.

(** The files when [kvs_rdb_save] opens [f]: a backup is made of a file that is there. *)
Definition before_save (w : world) (f : cstr) : fs :=
  if decide (rdb_backup (w_conf w) <> 0%Z /\ on_disk (w_fs w) f) then backed_up (w_conf w) f (w_fs w) else w_fs w.

Lemma ensure_dir_run p w al : on_fs (ensure_dir p) (w, al) = Ret (tt, (set_fs (with_dir p (w_fs w)) w, al)).
Proof.
  unfold on_fs. apply zoom_run. unfold ensure_dir, with_dir. mcbn.
  by destruct (decide (_ \/ _)), (decide (on_disk _ _)).
Qed.

Lemma with_dir_now p s : now (with_dir p s) = now s.
Proof. unfold with_dir. by case_decide. Qed.

Lemma before_save_now w f : now (before_save w f) = now (w_fs w).
Proof.
  unfold before_save, backed_up. case_decide; [|done]. repeat (case_decide; [by rewrite with_dir_now|]).
  destruct (files _ !! f); [|by rewrite with_dir_now]. destruct (may_write _ _ _); cbn; by rewrite with_dir_now.
Qed.

(** The file is copied, or emptied when it is its own backup. *)
Lemma copy_backup f b d s al :
  files s !! f = Some d ->
  copy_file (mk_FILE f ModeR 0 false) (mk_FILE b ModeW 0 false) (set_files (<[b := []]> (files s)) s, al)
  = Ret (tt, (set_files (<[b := if decide (b = f) then [] else d]> (files s)) s, al)).
Proof.
  intros Hf. case_decide as E.
  - subst b. unfold copy_file. mcbn. unfold contents. cbn [f_path files set_files]. rewrite lookup_insert_eq.
    cbn [from_option id length copy_loop]. erewrite bind_ret; [|eapply fread_run, lookup_insert_eq]. done.
  - erewrite copy_file_run; [|done|cbn; by rewrite lookup_insert_ne|cbn; by rewrite lookup_insert_eq].
    cbn [files set_files]. by rewrite insert_insert_eq.
Qed.

Lemma create_backup_run f w al :
  rdb_backup (w_conf w) <> 0%Z ->
  exists r, rdb_create_backup localtime f (w, al) = Ret (r, (set_fs (backed_up (w_conf w) f (w_fs w)) w, al)).
Proof.
  intros Hb. unfold rdb_create_backup, config. mcbn. cbn [fst].
  destruct (Z.eqb_spec (rdb_backup (w_conf w)) 0); [done|].
  rewrite (bind_ret _ _ _ _ _ (ensure_dir_run _ _ _)). unfold backed_up. cbv zeta.
  set (s := with_dir _ _). erewrite bind_ret; [|apply on_fs_get_run; unfold time; mcbn; reflexivity].
  cbn [w_fs set_fs]. case_decide; [by eexists|]. case_decide; [by eexists|].
  erewrite bind_ret; [|apply on_fs_get_run; unfold fopen; mcbn; reflexivity]. cbn [w_fs set_fs].
  destruct (files s !! f) as [d|] eqn:E; [|by eexists].
  destruct (may_write s (dirs s) _) eqn:Ew.
  - erewrite bind_ret; [|unfold on_fs; apply zoom_run; unfold fopen; mcbn; cbn [w_fs set_fs fst]; rewrite Ew; mcbn; reflexivity].
    cbv iota. erewrite bind_ret; [|unfold on_fs; apply zoom_run; cbn [w_fs set_fs]; by apply copy_backup]. by eexists.
  - erewrite bind_ret; [|apply on_fs_get_run; unfold fopen; mcbn; cbn [w_fs set_fs fst]; rewrite Ew; reflexivity].
    by eexists.
Qed.

Lemma backup_run f w al :
  (if negb (rdb_backup (w_conf w) =? 0)%Z && bool_decide (on_disk (w_fs w) f)
   then _ ← rdb_create_backup localtime f; mret tt else mret tt) (w, al)
  = Ret (tt, (set_fs (before_save w f) w, al)).
Proof.
  unfold before_save. destruct (Z.eqb_spec (rdb_backup (w_conf w)) 0) as [Hb|Hb].
  - rewrite decide_False by naive_solver. cbn. by destruct w.
  - case_bool_decide as Hf.
    + rewrite decide_True by done. destruct (create_backup_run f w al Hb) as [r E]. cbn [negb andb].
      by rewrite (bind_ret _ _ _ _ _ E).
    + rewrite decide_False by naive_solver. cbn. by destruct w.
Qed.

(** ** The save up to the footer *)

Lemma save_prefix w al f l T slots :
  engines_hold w l T slots -> rdb_enabled (w_conf w) <> 0%Z ->
  may_write (before_save w f) (dirs (before_save w f)) f = true ->
  let w1 := set_fs (before_save w f) w in
  kvs_rdb_save localtime f (w, al)
  = save_rest (w_conf w) (now (w_fs w))
      (wrap 32 (Z.of_nat (length (recs_bytes (snapshot l T slots)))))
      (Z.of_nat (length (Array.pairs l)))
      (at_end f (first_part w (snapshot l T slots)))
      (wfile f (first_part w (snapshot l T slots)) w1, al).
Proof.
  intros ((m & j & junk & Ha) & (nl & Ht) & Hh & Hlen) Hen Hw w1. unfold kvs_rdb_save, config. mcbn.
  cbn [fst]. destruct (Z.eqb_spec (rdb_enabled (w_conf w)) 0); [done|].
  erewrite bind_ret; [|apply on_fs_get_run; unfold access; mcbn; reflexivity].
  cbn [fst]. fold (on_disk (w_fs w) f). rewrite (bind_ret _ _ _ _ _ (backup_run f w al)). fold w1.
  rewrite (bind_ret _ _ _ _ _ (open_wfile w1 al f Hw)).
  erewrite bind_ret; [|apply on_fs_get_run; unfold time; mcbn; reflexivity].
  assert (Hnow : now (w_fs (wfile f [] w1)) = now (w_fs w)) by apply before_save_now. rewrite Hnow.
  fold (save_header w 0 0). rewrite (bind_ret _ _ _ _ _ (fwrite_wfile f [] _ w1 al)). cbn [app].
  mcbn. cbn [fst]. change (w_array (wfile _ _ w1)) with (w_array w). rewrite Ha, Array.total_inst, Nat2Z.id.
  rewrite (bind_ret _ _ _ _ _ (save_array_run f w1 al m j junk l [] _ _ Ha)). cbn [fst snd].
  rewrite (bind_ret _ _ _ _ _ (rbtree_traverse_run f w1 al nl T _ Ht)).
  mcbn. cbn [fst]. change (w_hash (wfile _ _ w1)) with (w_hash w). rewrite Hh. cbn [Hash.max_slots Hash.table].
  rewrite <- Hlen, Nat2Z.id. erewrite bind_ret.
  2:{ apply (hash_traverse_run f w1 al slots [] _ Hh). }
  unfold save_rest, snapshot, first_part. rewrite !recs_bytes_app, <- !app_assoc.
  unfold ftell, at_end. cbn [f_pos]. rewrite !length_app, length_header_bytes.
  match goal with |- context [RDB_HEADER_BYTES + ?x] => generalize x end. intros x.
  by replace (Z.of_nat (RDB_HEADER_BYTES + x) - Z.of_nat RDB_HEADER_BYTES)%Z with (Z.of_nat x) by lia.
Qed.

Lemma starts_before w f : save_starts w f -> before_save w f = w_fs w.
Proof.
  intros (_ & Hb & _). unfold before_save. apply decide_False. intros [H1 H2].
  destruct Hb as [Hb|[Hf Hd]]; [done|]. destruct H2 as [[? ?]|?]; [congruence|done].
Qed.

Lemma set_fs_id w : set_fs (w_fs w) w = w.
Proof. by destruct w. Qed.

(** What the whole function does with checksums off. *)
Lemma rdb_save_run w al f l T slots :
  engines_hold w l T slots -> save_starts w f -> rdb_crc64 (w_conf w) = 0%Z ->
  let recs := snapshot l T slots in
  let header := save_header w (wrap 32 (Z.of_nat (length (recs_bytes recs))))
                  (wrap 32 (Z.of_nat (length (Array.pairs l)))) in
  kvs_rdb_save localtime f (w, al)
  = Ret (0%Z, (set_last_save (now (w_fs w)) (wfile f (header_bytes header ++ recs_bytes recs) w), al)).
Proof.
  intros He Hs Hc recs header. pose proof (starts_before _ _ Hs) as Hb. destruct Hs as (Hen & _ & Hw).
  rewrite (save_prefix w al f l T slots He Hen) by (by rewrite Hb). rewrite Hb, set_fs_id. fold recs.
  unfold save_rest. rewrite Hc. rewrite Z.eqb_refl, bind_mret.
  erewrite bind_ret.
  2:{ unfold on_fs. apply zoom_run. unfold fwrite. mcbn. unfold contents. cbn [at_end fseek_set f_path f_pos f_mode f_eof w_fs wfile set_fs files set_files].
      rewrite lookup_insert_eq. cbn [from_option id]. unfold first_part.
      rewrite overwrite_front by (by rewrite !length_header_bytes). reflexivity. }
  erewrite bind_ret; [|apply on_fs_get_run; unfold time; mcbn; reflexivity].
  mcbn. cbn. unfold wfile, set_fs. cbn. by rewrite insert_insert_eq.
Qed.

(** C29: with checksums off, [kvs_rdb_save], when it starts ([save_starts]: saving is enabled,
    there is no backup to make, and the file can be opened), writes the header and then one
    record for every item of the array, for the root of the red-black tree, and for every node
    of the hash table; the header has the size of the records and the number of array records.
    *)
Theorem rdb_save_contents w al f l T slots :
  engines_hold w l T slots -> save_starts w f -> rdb_crc64 (w_conf w) = 0%Z ->
  let recs := snapshot l T slots in
  let header := save_header w (wrap 32 (Z.of_nat (length (recs_bytes recs))))
                  (wrap 32 (Z.of_nat (length (Array.pairs l)))) in
  kvs_rdb_save localtime f (w, al)
  = Ret (0%Z, (set_last_save (now (w_fs w)) (wfile f (header_bytes header ++ recs_bytes recs) w), al)).
Proof. apply rdb_save_run. Qed.

(** C40: with checksums on (the default), a save of any data that gets as far as opening its
    file fails, with a backup or without, and whatever [malloc] answers: the stream is open for
    writing only and the records cannot be read back.  The snapshot that the file held is then
    gone from it; the file has a header that announces no data, and the records.  Besides this
    file nothing changes but what the backup does ([before_save]: with [rdb_backup] on, as it is
    by default, the directory is made and a file that is there is copied).  The conditions are
    that saving is enabled, that the file can be opened for writing, that the engines are as
    their operations leave them, and that the records are less than 2^32 bytes, the range of the
    header's field. *)
Theorem rdb_save_fails_with_crc w al f l T slots :
  engines_hold w l T slots -> rdb_enabled (w_conf w) <> 0%Z ->
  may_write (before_save w f) (dirs (before_save w f)) f = true -> rdb_crc64 (w_conf w) <> 0%Z ->
  snapshot l T slots <> [] ->
  (Z.of_nat (length (recs_bytes (snapshot l T slots))) < 2 ^ 32)%Z ->
  let failed := header_bytes (save_header w 0 0) ++ recs_bytes (snapshot l T slots) in
  kvs_rdb_save localtime f (w, al)
  = Ret ((-1)%Z, (wfile f failed (set_fs (before_save w f) w), tail al)).
Proof.
  intros He Hen Hw Hc Hne Hlt failed. rewrite (save_prefix w al f l T slots He Hen Hw). cbv zeta.
  unfold save_rest. destruct (Z.eqb_spec (rdb_crc64 (w_conf w)) 0); [done|].
  unfold wrap. rewrite Z.mod_small by lia. unfold save_footer.
  assert (Hread : length (@nil byte) <> Z.to_nat (Z.of_nat (length (recs_bytes (snapshot l T slots))))).
  { rewrite Nat2Z.id. destruct (snapshot l T slots) as [|r recs]; [done|]. rewrite recs_bytes_cons, length_app.
    unfold rec_bytes. rewrite !length_app, !length_le_bytes. cbn. lia. }
  destruct al as [|[] al]; mcbn; cbn [negb tail]; try done;
    (erewrite bind_ret; [|apply on_fs_get_run; unfold fread; mcbn; reflexivity]);
    cbn [fst snd]; by rewrite decide_True.
Qed.
End save.

(** A world whose array holds one pair. *)
Definition one_pair (crc : Z) : world :=
  mk_world (Array.instm Unlocked 0 [Some (bs "k", bs "v")] (replicate 1023 None))
    (Rbtree.mk_rbtree 1 1 {[1 := Rbtree.mk_node (Some Rbtree.BLACK) None None None None None]} 2 true)
    Hash.empty_table (Skip.global_skiptable0 [])
    (mk_conf 300 (bs "kvs.rdb") 1 0 crc 1 (bs "./backup")) fs0 0.

Lemma one_pair_holds crc : engines_hold (one_pair crc) [Some (bs "k", bs "v")] Leaf (replicate 1024 []).
Proof.
  split; [by exists Unlocked, 0%Z, (replicate 1023 None)|]. split; [|split; [done|by vm_compute]].
  exists 1. split; try done.
  - cbn. constructor; [set_solver|constructor].
  - by eexists.
Qed.

Example rdb_save_contents_witness :
  kvs_rdb_save (fun _ => mk_tm 0 0 0 0 0 0) (bs "kvs.rdb") (one_pair 0, [])
  = Ret (0%Z, (set_last_save 0 (wfile (bs "kvs.rdb")
      (header_bytes (save_header (one_pair 0) 7 1) ++ [x00; x01; x00; x6b; x01; x00; x76]) (one_pair 0)), [])).
Proof.
  apply (rdb_save_contents _ (one_pair 0) [] (bs "kvs.rdb") _ _ _ (one_pair_holds 0)); [|done].
  split; [done|]. split; [right; split; [done|set_solver]|done].
Defined.

(** The default configuration, with a snapshot that an earlier version left. *)
Definition with_snapshot : world :=
  set_conf g_rdb_config0 (set_fs (set_files {[bs "kvs.rdb" := bs "old"]} fs0) (one_pair 1)).

Example rdb_save_fails_with_crc_witness :
  exists w', kvs_rdb_save (fun _ => mk_tm 126 0 2 3 4 5) (bs "kvs.rdb") (with_snapshot, [])
    = Ret ((-1)%Z, (w', [])) /\
    files (w_fs w') !! bs "kvs.rdb"
      = Some (header_bytes (save_header with_snapshot 0 0) ++ [x00; x01; x00; x6b; x01; x00; x76]) /\
    files (w_fs w') !! bs "./backup/kvs_backup_20260102_030405.rdb" = Some (bs "old").
Proof.
  eexists. split.
  - apply (rdb_save_fails_with_crc _ with_snapshot [] (bs "kvs.rdb") _ _ _ (one_pair_holds 1));
      [done|by vm_compute..].
  - split; vm_compute; reflexivity.
Defined.
