(* ===== verification/RdbLoad.v ===== *)
(** * Loading what was saved

    [kvs_rdb_load] on a snapshot sets every record in its engine.  The engines are used
    through their interface.  Saving and loading into fresh engines gives the array and
    the hash table back, and of the red-black tree its root. *)

From S2P Require Import Prelude Engine KvsArray KvsHash KvsRbtree RbtreeRep RbtreeInsert RbtreeMap.
From S2P Require Import KvsSkiptable CNum Crc Stdio World RdbConfig Rdb RdbSave.
Import Rdb.

#[local] Existing Instances Array.array_engine Array.array_engine_laws
  Hash.hash_engine Hash.hash_engine_laws.

(** ** Reading structures back *)

Record header_ok (h : rdb_header_t) : Prop := {
  ho_magic : (0 <= h_magic h < 2 ^ 32)%Z;
  ho_version : (0 <= h_version h < 2 ^ 32)%Z;
  ho_flags : (0 <= h_flags h < 2 ^ 32)%Z;
  ho_size : (0 <= h_data_size h < 2 ^ 32)%Z;
  ho_count : (0 <= h_record_count h < 2 ^ 32)%Z;
  ho_time : (0 <= h_save_time h < 2 ^ 64)%Z;
  ho_padding : (0 <= h_padding h < 2 ^ 32)%Z
}.

Lemma header_roundtrip h rest : header_ok h -> header_of (header_bytes h ++ rest) = h.
Proof.
  intros [H1 H2 H3 H4 H5 H6 H7]. destruct h as [m v fl ds rc t pd]; cbn in *.
  trans (mk_header (le_val (le_bytes 4 m)) (le_val (le_bytes 4 v)) (le_val (le_bytes 4 fl))
    (le_val (le_bytes 4 ds)) (le_val (le_bytes 4 rc)) (le_val (le_bytes 8 t)) (le_val (le_bytes 4 pd)));
    [reflexivity|]. by rewrite !le_val_le_bytes_small.
Qed.

(** ** One record *)

(** Records the format can hold and the loader accepts. *)
Record rec_ok (r : rec) : Prop := {
  ro_type : (0 <= r_type r < 256)%Z;
  ro_key : cstr_ok (r_key r) /\ 0 < length (r_key r) <= 1024;
  ro_val : cstr_ok (r_val r) /\ (Z.of_nat (length (r_val r)) < 65536)%Z
}.

Lemma len16_small s : (Z.of_nat (length s) < 65536)%Z -> len16 s = Z.of_nat (length s).
Proof. intros H. unfold len16, wrap, strlen. apply Z.mod_small. lia. Qed.

Lemma on_fread w al f pos data n :
  files (w_fs w) !! f = Some data -> n <= length data - pos ->
  on_fs (fread n (mk_FILE f ModeR pos false)) (w, al)
  = Ret ((take n (drop pos data), mk_FILE f ModeR (pos + n) false), (w, al)).
Proof.
  intros Hf Hn. apply on_fs_get_run. rewrite (fread_run _ _ _ _ _ _ data Hf).
  assert (Hl : length (take n (drop pos data)) = n) by (rewrite length_take, length_drop; lia).
  rewrite Hl. rewrite bool_decide_eq_false_2 by lia. done.
Qed.

(** Reading a field that is the next part of the file. *)
Lemma on_fread_next w al f pos data b rest :
  files (w_fs w) !! f = Some data -> drop pos data = b ++ rest ->
  on_fs (fread (length b) (mk_FILE f ModeR pos false)) (w, al)
  = Ret ((b, mk_FILE f ModeR (pos + length b) false), (w, al)) /\
  drop (pos + length b) data = rest.
Proof.
  intros Hf Hd.
  assert (Hl : length b <= length data - pos) by (rewrite <- length_drop, Hd, length_app; lia).
  rewrite (on_fread w al f pos data _ Hf Hl). rewrite Hd, take_app_length.
  split; [done|]. by rewrite <- drop_drop, Hd, drop_app_length.
Qed.

Lemma load_loop_step w f pos data r rest n de :
  files (w_fs w) !! f = Some data -> drop pos data = rec_bytes r ++ rest -> rec_ok r ->
  (Z.of_nat pos < de)%Z ->
  load_loop (S n) de (mk_FILE f ModeR pos false) (w, [])
  = (load_record (r_type r) (r_key r) (r_val r) ;;
     load_loop n de (mk_FILE f ModeR (pos + length (rec_bytes r)) false)) (w, []) /\
  drop (pos + length (rec_bytes r)) data = rest.
Proof.
  intros Hf Hd [Ht [Hk Hkl] [Hv Hvl]] Hpos. cbn [load_loop].
  unfold ftell at 1. cbn [f_pos f_eof]. destruct (Z.ltb_spec (Z.of_nat pos) de); [|lia]. cbn [negb orb].
  unfold rec_bytes in Hd. rewrite (len16_small (r_key r)), (len16_small (r_val r)) in Hd by lia.
  rewrite !Nat2Z.id, !take_ge in Hd by lia. rewrite <- !app_assoc in Hd.
  assert (Hlen : length (rec_bytes r) = 1 + (2 + (length (r_key r) + (2 + length (r_val r))))).
  { unfold rec_bytes. rewrite (len16_small (r_key r)), (len16_small (r_val r)) by lia.
    rewrite !Nat2Z.id, !take_ge by lia. rewrite !length_app, !length_le_bytes. done. }
  destruct (on_fread_next w [] f _ data _ _ Hf Hd) as [E1 D1]. rewrite length_le_bytes in E1, D1.
  rewrite (bind_ret _ _ _ _ _ E1). cbn [fst snd].
  rewrite length_le_bytes, decide_False by lia.
  destruct (on_fread_next w [] f _ data _ _ Hf D1) as [E2 D2]. rewrite length_le_bytes in E2, D2.
  rewrite (bind_ret _ _ _ _ _ E2). cbn [fst snd].
  rewrite length_le_bytes, decide_False by lia.
  rewrite (le_val_le_bytes_small 2 (Z.of_nat (length (r_key r)))) by (cbn; lia).
  destruct (Z.eqb_spec (Z.of_nat (length (r_key r))) 0); [lia|].
  destruct (Z.ltb_spec 1024 (Z.of_nat (length (r_key r)))); [lia|]. cbn [orb]. mcbn.
  rewrite Nat2Z.id.
  destruct (on_fread_next w [] f _ data _ _ Hf D2) as [E3 D3].
  rewrite (bind_ret _ _ _ _ _ E3). cbn [fst snd]. rewrite decide_False by lia.
  destruct (on_fread_next w [] f _ data _ _ Hf D3) as [E4 D4]. rewrite length_le_bytes in E4, D4.
  rewrite (bind_ret _ _ _ _ _ E4). cbn [fst snd].
  rewrite length_le_bytes, decide_False by lia.
  rewrite (le_val_le_bytes_small 2 (Z.of_nat (length (r_val r)))) by (cbn; lia). mcbn.
  rewrite Nat2Z.id.
  destruct (on_fread_next w [] f _ data _ _ Hf D4) as [E5 D5].
  rewrite (bind_ret _ _ _ _ _ E5). cbn [fst snd]. rewrite decide_False by lia.
  rewrite !cut_nul_id by done.
  rewrite (le_val_le_bytes_small 1 (r_type r)) by (cbn; lia).
  replace (pos + length (rec_bytes r))
    with (pos + 1 + 2 + length (r_key r) + 2 + length (r_val r)) by lia.
  done.
Qed.

(** ** The engines *)

Record maps := mk_maps { m_array : gmap cstr cstr; m_tree : gmap cstr cstr; m_hash : gmap cstr cstr }.

(** The engines of [w] implement the maps. *)
Definition holds (w : world) (m : maps) : Prop :=
  eng_rep (w_array w) (m_array m) /\ eng_rep (w_rbtree w) (m_tree m) /\ eng_rep (w_hash w) (m_hash m).

(** The first value of a key stays. *)
Definition add (k v : cstr) (m : gmap cstr cstr) : gmap cstr cstr := m ∪ {[k := v]}.

Definition add_rec (m : maps) (r : rec) : maps :=
  if (r_type r =? 0)%Z then mk_maps (add (r_key r) (r_val r) (m_array m)) (m_tree m) (m_hash m)
  else if (r_type r =? 1)%Z then mk_maps (m_array m) (add (r_key r) (r_val r) (m_tree m)) (m_hash m)
  else if (r_type r =? 2)%Z then mk_maps (m_array m) (m_tree m) (add (r_key r) (r_val r) (m_hash m))
  else m.

(** The engine the record goes to can take its key. *)
Definition takes (m : maps) (r : rec) : Prop :=
  (r_type r = 0%Z -> eng_room (KvEngine := Array.array_engine) (m_array m)) /\
  (r_type r = 2%Z -> Hash.hash_key (r_key r)).

Lemma engine_set_run {E} `{KvEngineLaws E} (e : E) m k v :
  eng_rep e m -> eng_key k -> eng_room m ->
  exists e' z, eng_set (Some k) (Some v) (e, []) = Ret (z, (e', [])) /\ eng_rep e' (add k v m).
Proof.
  intros Hr Hk Hm. destruct (eng_set_spec e m k v Hr Hk Hm) as (e' & E1 & Hr'). eauto.
Qed.

Lemma load_record_spec w m r :
  holds w m -> takes m r ->
  exists w', load_record (r_type r) (r_key r) (r_val r) (w, []) = Ret (tt, (w', [])) /\
    holds w' (add_rec m r) /\ w_fs w' = w_fs w /\ w_conf w' = w_conf w /\ w_skip w' = w_skip w.
Proof.
  intros (Ha & Ht & Hh) [Hroom Hkey]. unfold load_record, add_rec.
  destruct (Z.eqb_spec (r_type r) 0) as [E0|].
  - destruct (engine_set_run (w_array w) (m_array m) (r_key r) (r_val r) Ha I (Hroom E0))
      as (a' & z & E & Hr). exists (set_array a' w).
    erewrite bind_ret; [|apply (zoom_run w_array set_array), E]. by repeat split.
  - destruct (Z.eqb_spec (r_type r) 1).
    + destruct (engine_set_run (w_rbtree w) (m_tree m) (r_key r) (r_val r) Ht I I)
        as (t' & z & E & Hr). exists (set_rbtree t' w).
      erewrite bind_ret; [|apply (zoom_run w_rbtree set_rbtree), E]. by repeat split.
    + destruct (Z.eqb_spec (r_type r) 2) as [E2|].
      * destruct (engine_set_run (w_hash w) (m_hash m) (r_key r) (r_val r) Hh (Hkey E2) I)
          as (h' & z & E & Hr). exists (set_hash h' w).
        erewrite bind_ret; [|apply (zoom_run w_hash set_hash), E]. by repeat split.
      * exists w. by repeat split.
Qed.

(** The records can be set one after the other. *)
Fixpoint takes_all (m : maps) (rs : list rec) : Prop :=
  match rs with
  | [] => True
  | r :: rs => rec_ok r /\ takes m r /\ takes_all (add_rec m r) rs
  end.

Lemma rec_bytes_pos r : 0 < length (rec_bytes r).
Proof. unfold rec_bytes. rewrite !length_app, length_le_bytes. lia. Qed.

(** The loop gets through the records [rs] at the front of what is left. *)
Lemma load_loop_prefix f data de rest rs : forall w m pos n,
  files (w_fs w) !! f = Some data -> drop pos data = recs_bytes rs ++ rest -> holds w m -> takes_all m rs ->
  (Z.of_nat (pos + length (recs_bytes rs)) <= de)%Z ->
  exists w', load_loop (length rs + n) de (mk_FILE f ModeR pos false) (w, [])
      = load_loop n de (mk_FILE f ModeR (pos + length (recs_bytes rs)) false) (w', []) /\
    drop (pos + length (recs_bytes rs)) data = rest /\
    holds w' (foldl add_rec m rs) /\ w_fs w' = w_fs w /\ w_conf w' = w_conf w /\ w_skip w' = w_skip w.
Proof.
  induction rs as [|r rs IH]; intros w m pos n Hf Hd Hh Ht Hl.
  - exists w. cbn [recs_bytes fmap list_fmap concat length app Nat.add] in *. rewrite Nat.add_0_r. done.
  - destruct Ht as (Hok & Htk & Ht). rewrite recs_bytes_cons in *. rewrite length_app in *.
    pose proof (rec_bytes_pos r). rewrite <- app_assoc in Hd.
    destruct (load_loop_step w f pos data r (recs_bytes rs ++ rest) (length rs + n) de Hf Hd Hok ltac:(lia))
      as [E Hd']. cbn [length Nat.add]. rewrite E.
    destruct (load_record_spec w m r Hh Htk) as (w1 & E1 & Hh1 & Hfs & Hc & Hsk).
    rewrite (bind_ret _ _ _ _ _ E1).
    destruct (IH w1 (add_rec m r) (pos + length (rec_bytes r)) n) as (w' & E' & Hd'' & Hh' & Hfs' & Hc' & Hsk');
      [by rewrite Hfs|done|done|done|lia|].
    exists w'. rewrite <- Nat.add_assoc in E', Hd''. split; [exact E'|]. split; [done|]. split; [done|].
    repeat split; congruence.
Qed.

Lemma recs_bytes_length rs : length rs <= length (recs_bytes rs).
Proof.
  induction rs as [|r rs IH]; [done|]. rewrite recs_bytes_cons, length_app. cbn [length].
  pose proof (rec_bytes_pos r). lia.
Qed.

Lemma load_loop_run f data rs w m pos n :
  files (w_fs w) !! f = Some data -> drop pos data = recs_bytes rs -> holds w m -> takes_all m rs ->
  length (recs_bytes rs) < n -> pos + length (recs_bytes rs) = length data ->
  exists w', load_loop n (Z.of_nat (length data)) (mk_FILE f ModeR pos false) (w, []) = Ret (tt, (w', [])) /\
    holds w' (foldl add_rec m rs) /\ w_fs w' = w_fs w /\ w_conf w' = w_conf w /\ w_skip w' = w_skip w.
Proof.
  intros Hf Hd Hh Ht Hn Hl. pose proof (recs_bytes_length rs).
  destruct (load_loop_prefix f data (Z.of_nat (length data)) [] rs w m pos (S (n - length rs - 1)) Hf)
    as (w' & E & _ & Hh' & Hfs & Hc); [by rewrite app_nil_r|done|done|lia|].
  replace (length rs + S (n - length rs - 1)) with n in E by lia.
  exists w'. rewrite E. split; [|done]. cbn [load_loop]. unfold ftell. cbn [f_pos]. rewrite Hl.
  by rewrite Z.ltb_irrefl.
Qed.

(** ** The whole load *)

Definition snapshot_file (h : rdb_header_t) (rs : list rec) : list byte :=
  header_bytes h ++ recs_bytes rs.

Lemma verify_run w al f h rs :
  files (w_fs w) !! f = Some (snapshot_file h rs) -> header_ok h ->
  h_magic h = RDB_MAGIC -> h_version h = RDB_VERSION -> rdb_crc64 (w_conf w) = 0%Z ->
  rdb_verify_file_integrity f (w, al) = Ret (0%Z, (w, al)).
Proof.
  intros Hf Hh Hm Hv Hc. unfold rdb_verify_file_integrity.
  erewrite bind_ret; [|apply on_fs_get_run; unfold fopen; mcbn; rewrite Hf; reflexivity].
  cbn beta iota.
  destruct (on_fread_next w al f 0 _ (header_bytes h) (recs_bytes rs) Hf) as [E _]; [by rewrite drop_0|].
  rewrite length_header_bytes in E. rewrite (bind_ret _ _ _ _ _ E). cbn [fst snd].
  rewrite length_header_bytes, decide_False by lia.
  rewrite <- (app_nil_r (header_bytes h)), header_roundtrip by done.
  rewrite Hm, Hv, !Z.eqb_refl. cbn [negb]. unfold config. mcbn. by rewrite Hc.
Qed.

(** Up to its loop, the function only reads the header. *)
Lemma kvs_rdb_load_enter w f h rs :
  files (w_fs w) !! f = Some (snapshot_file h rs) -> header_ok h ->
  h_magic h = RDB_MAGIC -> h_version h = RDB_VERSION ->
  h_data_size h = Z.of_nat (length (recs_bytes rs)) ->
  rdb_crc64 (w_conf w) = 0%Z -> rdb_enabled (w_conf w) <> 0%Z ->
  kvs_rdb_load f (w, [])
  = (load_loop (S (length (snapshot_file h rs))) (Z.of_nat (length (snapshot_file h rs)))
       (mk_FILE f ModeR RDB_HEADER_BYTES false) ;; mret 0%Z) (w, []) /\
  drop RDB_HEADER_BYTES (snapshot_file h rs) = recs_bytes rs /\
  length (snapshot_file h rs) = RDB_HEADER_BYTES + length (recs_bytes rs).
Proof.
  intros Hf Hh Hm Hv Hd Hc Hen.
  assert (Hlen : length (snapshot_file h rs) = RDB_HEADER_BYTES + length (recs_bytes rs))
    by (unfold snapshot_file; by rewrite length_app, length_header_bytes).
  split; [|split; [|done]].
  - unfold kvs_rdb_load, config. mcbn.
    destruct (Z.eqb_spec (rdb_enabled (w_conf w)) 0); [done|].
    rewrite (bind_ret _ _ _ _ _ (verify_run w [] f h rs Hf Hh Hm Hv Hc)). cbn [Z.eqb negb].
    erewrite bind_ret; [|apply on_fs_get_run; unfold fopen; mcbn; rewrite Hf; reflexivity].
    cbn beta iota.
    destruct (on_fread_next w [] f 0 _ (header_bytes h) (recs_bytes rs) Hf) as [E _]; [by rewrite drop_0|].
    rewrite length_header_bytes in E. rewrite (bind_ret _ _ _ _ _ E). cbn [fst snd].
    rewrite length_header_bytes, decide_False by lia.
    rewrite <- (app_nil_r (header_bytes h)), header_roundtrip by done. mcbn.
    unfold contents. rewrite Hf. cbn [from_option id]. unfold ftell. cbn [f_pos Nat.add].
    by replace (Z.of_nat RDB_HEADER_BYTES + h_data_size h)%Z with (Z.of_nat (length (snapshot_file h rs)))
      by (rewrite Hlen, Hd; lia).
  - unfold snapshot_file. rewrite <- (length_header_bytes h). by rewrite drop_app_length.
Qed.

Lemma kvs_rdb_load_spec w f h rs m :
  files (w_fs w) !! f = Some (snapshot_file h rs) -> header_ok h ->
  h_magic h = RDB_MAGIC -> h_version h = RDB_VERSION ->
  h_data_size h = Z.of_nat (length (recs_bytes rs)) ->
  rdb_crc64 (w_conf w) = 0%Z -> rdb_enabled (w_conf w) <> 0%Z ->
  holds w m -> takes_all m rs ->
  exists w', kvs_rdb_load f (w, []) = Ret (0%Z, (w', [])) /\ holds w' (foldl add_rec m rs) /\
    w_fs w' = w_fs w /\ w_conf w' = w_conf w /\ w_skip w' = w_skip w.
Proof.
  intros Hf Hh Hm Hv Hd Hc Hen Hw Ht.
  destruct (kvs_rdb_load_enter w f h rs Hf Hh Hm Hv Hd Hc Hen) as (-> & Hdrop & Hlen).
  destruct (load_loop_run f (snapshot_file h rs) rs w m RDB_HEADER_BYTES
    (S (length (snapshot_file h rs))) Hf Hdrop Hw Ht) as (w' & El & Hh' & Hfs & Hcf); [lia|lia|].
  exists w'. by rewrite (bind_ret _ _ _ _ _ El).
Qed.

(** A record with an empty key ends the loop. *)
Lemma load_loop_empty_key w f pos data v t rest n de :
  files (w_fs w) !! f = Some data -> drop pos data = rec_bytes (mk_rec t [] v) ++ rest ->
  load_loop (S n) de (mk_FILE f ModeR pos false) (w, []) = Ret (tt, (w, [])).
Proof.
  intros Hf Hd. cbn [load_loop]. unfold ftell. cbn [f_pos f_eof].
  destruct (negb (Z.of_nat pos <? de)%Z || false); [done|].
  unfold rec_bytes in Hd. cbn [r_type r_key r_val] in Hd. rewrite <- !app_assoc in Hd.
  destruct (on_fread_next w [] f _ data _ _ Hf Hd) as [E1 D1]. rewrite length_le_bytes in E1, D1.
  rewrite (bind_ret _ _ _ _ _ E1). cbn [fst snd]. rewrite length_le_bytes, decide_False by lia.
  destruct (on_fread_next w [] f _ data _ _ Hf D1) as [E2 D2]. rewrite length_le_bytes in E2, D2.
  rewrite (bind_ret _ _ _ _ _ E2). cbn [fst snd]. rewrite length_le_bytes, decide_False by lia.
  rewrite le_val_le_bytes. done.
Qed.

(** A pair with an empty key, which the engines accept, is written to the
    snapshot but ends the load: the records after it are lost although the function
    returns 0. *)
Theorem rdb_load_stops_at_empty_key w f h rs1 t v rs2 m :
  let rs := rs1 ++ mk_rec t [] v :: rs2 in
  files (w_fs w) !! f = Some (snapshot_file h rs) -> header_ok h ->
  h_magic h = RDB_MAGIC -> h_version h = RDB_VERSION ->
  h_data_size h = Z.of_nat (length (recs_bytes rs)) ->
  rdb_crc64 (w_conf w) = 0%Z -> rdb_enabled (w_conf w) <> 0%Z ->
  holds w m -> takes_all m rs1 ->
  exists w', kvs_rdb_load f (w, []) = Ret (0%Z, (w', [])) /\ holds w' (foldl add_rec m rs1).
Proof.
  intros rs Hf Hh Hm Hv Hd Hc Hen Hw Ht.
  destruct (kvs_rdb_load_enter w f h rs Hf Hh Hm Hv Hd Hc Hen) as (-> & Hdrop & Hlen).
  unfold rs in Hdrop, Hlen. rewrite recs_bytes_app, recs_bytes_cons in Hdrop, Hlen.
  rewrite !length_app in Hlen. pose proof (recs_bytes_length rs1). pose proof (rec_bytes_pos (mk_rec t [] v)).
  destruct (load_loop_prefix f _ (Z.of_nat (length (snapshot_file h rs))) _ rs1 w m RDB_HEADER_BYTES
    (S (length (snapshot_file h rs) - length rs1)) Hf Hdrop Hw Ht) as (w' & El & Hd' & Hh' & Hfs & _).
  { unfold rs. lia. }
  replace (length rs1 + S (length (snapshot_file h rs) - length rs1))
    with (S (length (snapshot_file h rs))) in El by (unfold rs in *; lia).
  exists w'. split; [|done]. erewrite bind_ret; [done|]. rewrite El.
  apply (load_loop_empty_key w' f _ (snapshot_file h rs) v t (recs_bytes rs2)); [by rewrite Hfs|done].
Qed.

(** ** Round trip *)

Lemma fold_add ps : forall m : gmap cstr cstr,
  foldl (fun a kv => add kv.1 kv.2 a) m ps = m ∪ list_to_map ps.
Proof.
  induction ps as [|[k v] ps IH]; intros m; cbn [foldl].
  - cbn. by rewrite map_union_empty.
  - rewrite IH. cbn [fst snd]. unfold add. rewrite <- map_union_assoc.
    by rewrite list_to_map_cons, insert_union_singleton_l.
Qed.

Lemma fold_array ps m :
  foldl add_rec m (of_pairs 0 ps) = mk_maps (m_array m ∪ list_to_map ps) (m_tree m) (m_hash m).
Proof.
  rewrite <- fold_add. revert m. induction ps as [|[k v] ps IH]; intros m; [by destruct m|].
  rewrite of_pairs_cons. cbn [foldl]. by rewrite IH.
Qed.

Lemma fold_tree ps m :
  foldl add_rec m (of_pairs 1 ps) = mk_maps (m_array m) (m_tree m ∪ list_to_map ps) (m_hash m).
Proof.
  rewrite <- fold_add. revert m. induction ps as [|[k v] ps IH]; intros m; [by destruct m|].
  rewrite of_pairs_cons. cbn [foldl]. by rewrite IH.
Qed.

Lemma fold_hash ps m :
  foldl add_rec m (of_pairs 2 ps) = mk_maps (m_array m) (m_tree m) (m_hash m ∪ list_to_map ps).
Proof.
  rewrite <- fold_add. revert m. induction ps as [|[k v] ps IH]; intros m; [by destruct m|].
  rewrite of_pairs_cons. cbn [foldl]. by rewrite IH.
Qed.

Lemma size_add k v m : size (add k v m) <= S (size m).
Proof.
  unfold add. rewrite <- !size_dom, dom_union_L, dom_singleton_L, size_union_alt.
  pose proof (subseteq_size ({[k]} ∖ dom m) {[k]} ltac:(set_solver)) as H.
  rewrite size_singleton in H. lia.
Qed.

Lemma takes_all_app rs1 rs2 : forall m,
  takes_all m rs1 -> takes_all (foldl add_rec m rs1) rs2 -> takes_all m (rs1 ++ rs2).
Proof.
  induction rs1 as [|r rs1 IH]; intros m H1 H2; [done|]. destruct H1 as (Ha & Hb & Hc).
  split; [done|]. split; [done|]. by apply IH.
Qed.

Lemma takes_array ps : forall m,
  Forall rec_ok (of_pairs 0 ps) -> (Z.of_nat (size (m_array m) + length ps) <= Array.KVS_ARRAY_SIZE)%Z ->
  takes_all m (of_pairs 0 ps).
Proof.
  induction ps as [|[k v] ps IH]; intros m Hok Hs; [done|]. rewrite of_pairs_cons in *.
  apply list.Forall_cons in Hok as [Hr Hok]. cbn [length] in Hs. split; [done|]. split.
  - split; [|done]. intros _. cbn. lia.
  - apply IH; [done|]. cbn [add_rec r_type m_array Z.eqb]. pose proof (size_add k v (m_array m)). cbn in *. lia.
Qed.

Lemma takes_tree ps : forall m, Forall rec_ok (of_pairs 1 ps) -> takes_all m (of_pairs 1 ps).
Proof.
  induction ps as [|[k v] ps IH]; intros m Hok; [done|]. rewrite of_pairs_cons in *.
  apply list.Forall_cons in Hok as [Hr Hok]. split; [done|]. split; [by split|by apply IH].
Qed.

Lemma takes_hash ps : forall m,
  Forall rec_ok (of_pairs 2 ps) -> Forall (fun kv => Hash.hash_key kv.1) ps ->
  takes_all m (of_pairs 2 ps).
Proof.
  induction ps as [|[k v] ps IH]; intros m Hok Hk; [done|]. rewrite of_pairs_cons in *.
  apply list.Forall_cons in Hok as [Hr Hok]. apply list.Forall_cons in Hk as [Hk Hks].
  split; [done|]. split; [by split|by apply IH].
Qed.

(** Keys in the table have an index. *)
Lemma slots_hash_keys slots :
  Hash.slots_ok slots -> Forall (fun kv => Hash.hash_key kv.1) (concat slots).
Proof.
  intros (_ & Hp & _). apply list.Forall_forall. intros kv Hin.
  apply list_elem_of_In, in_concat in Hin as (c & Hc & Hin).
  apply list_elem_of_In in Hc. apply list_elem_of_lookup in Hc as (i & Hi).
  unfold Hash.hash_key. rewrite (Hp i c kv.1 Hi); [lia|].
  apply list_elem_of_fmap. exists kv. split; [done|]. by apply list_elem_of_In.
Qed.

Definition fresh_maps : maps := mk_maps ∅ ∅ ∅.

Lemma fold_snapshot l T slots :
  foldl add_rec fresh_maps (snapshot l T slots)
  = mk_maps (Array.view l) (list_to_map (troot T)) (Hash.view slots).
Proof.
  unfold snapshot. rewrite !foldl_app, fold_array, fold_tree, fold_hash.
  cbn [fresh_maps m_array m_tree m_hash]. by rewrite !map_empty_union.
Qed.

Lemma pairs_length l : length (Array.pairs l) <= length l.
Proof.
  induction l as [|o l IH]; [done|].
  change (Array.pairs (o :: l)) with (match o with Some kv => kv :: Array.pairs l | None => Array.pairs l end).
  destruct o; cbn [length]; lia.
Qed.

Lemma takes_snapshot l T slots :
  Forall rec_ok (snapshot l T slots) -> (Z.of_nat (length l) <= Array.KVS_ARRAY_SIZE)%Z ->
  Hash.slots_ok slots -> takes_all fresh_maps (snapshot l T slots).
Proof.
  intros Hok Hl Hs. unfold snapshot in *. rewrite !Forall_app in Hok. destruct Hok as (H1 & H2 & H3).
  apply takes_all_app; [|apply takes_all_app].
  - apply takes_array; [done|]. cbn [fresh_maps m_array]. rewrite map_size_empty.
    pose proof (pairs_length l). lia.
  - by apply takes_tree.
  - apply takes_hash; [done|by apply slots_hash_keys].
Qed.

Lemma save_flags_range c : (0 <= save_flags c < 2 ^ 32)%Z.
Proof. unfold save_flags. destruct (rdb_compression c =? 0)%Z, (rdb_crc64 c =? 0)%Z; by vm_compute. Qed.

(** What a save leaves for a load. *)
Lemma snapshot_saved localtime w f l T slots nl :
  Array.rep (w_array w) l -> st nl (w_rbtree w) T [] ->
  w_hash w = Hash.table slots -> Hash.slots_ok slots ->
  save_starts w f -> rdb_crc64 (w_conf w) = 0%Z -> (0 <= now (w_fs w) < 2 ^ 64)%Z ->
  (Z.of_nat (length (recs_bytes (snapshot l T slots))) < 2 ^ 32)%Z ->
  exists w1 h, kvs_rdb_save localtime f (w, []) = Ret (0%Z, (w1, [])) /\
    files (w_fs w1) = <[f := snapshot_file h (snapshot l T slots)]> (files (w_fs w)) /\
    w_conf w1 = w_conf w /\ header_ok h /\ h_magic h = RDB_MAGIC /\ h_version h = RDB_VERSION /\
    h_data_size h = Z.of_nat (length (recs_bytes (snapshot l T slots))).
Proof.
  intros (j & junk & Ha & Hsz & Hnd) Ht Hh Hso Hs Hc Hnow Hlt.
  assert (He : engines_hold w l T slots).
  { split; [by exists Unlocked, j, junk|]. split; [by exists nl|]. split; [done|apply Hso]. }
  set (rs := snapshot l T slots) in *.
  pose proof (rdb_save_run localtime w [] f l T slots He Hs Hc) as Hsave. cbv zeta in Hsave. fold rs in Hsave.
  unfold wrap in Hsave. rewrite (Z.mod_small (Z.of_nat (length (recs_bytes rs)))) in Hsave by lia.
  set (h := save_header w _ _) in Hsave. eexists _, h. split; [exact Hsave|].
  split; [done|]. split; [done|]. split; [|done].
  split; cbn [h save_header h_magic h_version h_flags h_data_size h_record_count h_save_time h_padding].
  - done.
  - done.
  - apply save_flags_range.
  - lia.
  - apply Z.mod_pos_bound. lia.
  - done.
  - done.
Qed.

(** With checksums off, saving the engines and loading the file into fresh
    engines gives back the map of the array and the map of the hash table; of the red-black
    tree only the pair at its root comes back.  Keys have 1 to 1024 bytes and values less
    than 65536. *)
Theorem rdb_save_load_roundtrip localtime w f l T slots nl a0 t0 h0 :
  Array.rep (w_array w) l -> st nl (w_rbtree w) T [] ->
  w_hash w = Hash.table slots -> Hash.slots_ok slots ->
  save_starts w f -> rdb_crc64 (w_conf w) = 0%Z -> (0 <= now (w_fs w) < 2 ^ 64)%Z ->
  Forall rec_ok (snapshot l T slots) ->
  (Z.of_nat (length (recs_bytes (snapshot l T slots))) < 2 ^ 32)%Z ->
  eng_rep a0 ∅ -> eng_rep t0 ∅ -> eng_rep h0 ∅ ->
  exists w1 w3, kvs_rdb_save localtime f (w, []) = Ret (0%Z, (w1, [])) /\
    kvs_rdb_load f (set_array a0 (set_rbtree t0 (set_hash h0 w1)), []) = Ret (0%Z, (w3, [])) /\
    eng_rep (w_array w3) (Array.view l) /\
    eng_rep (w_rbtree w3) (list_to_map (troot T)) /\
    eng_rep (w_hash w3) (Hash.view slots).
Proof.
  intros Ha Ht Hh Hso Hs Hc Hnow Hok Hlt Ea Et Eh. pose proof Ha as (j & junk & _ & Hsz & _).
  destruct (snapshot_saved localtime w f l T slots nl Ha Ht Hh Hso Hs Hc Hnow Hlt)
    as (w1 & h & Hsave & Hf & Hcf & Hh1 & Hm & Hv & Hd).
  set (rs := snapshot l T slots) in *.
  set (w2 := set_array a0 (set_rbtree t0 (set_hash h0 w1))).
  destruct (kvs_rdb_load_spec w2 f h rs fresh_maps) as (w3 & El & (H1 & H2 & H3) & _); try done.
  - cbn. rewrite Hf. apply lookup_insert_eq.
  - cbn. by rewrite Hcf.
  - cbn. rewrite Hcf. apply Hs.
  - apply takes_snapshot; [done|lia|done].
  - exists w1, w3. fold w2. unfold rs in H1, H2, H3. rewrite fold_snapshot in H1, H2, H3. done.
Qed.

Definition fresh_array : Array.kvs_array_t := Array.instm Unlocked 0 [] (replicate 1024 None).

Lemma fresh_array_rep : eng_rep fresh_array ∅.
Proof.
  exists []. split; [|split; [apply not_elem_of_nil|done]]. exists 0%Z, (replicate 1024 None).
  split; [done|]. split; [by vm_compute|constructor].
Qed.

Lemma one_pair_rep crc : Array.rep (w_array (one_pair crc)) [Some (bs "k", bs "v")].
Proof.
  exists 0%Z, (replicate 1023 None). split; [done|]. split; [by vm_compute|].
  cbn. constructor; [set_solver|constructor].
Qed.

Lemma one_pair_starts crc : save_starts (one_pair crc) (bs "kvs.rdb").
Proof. split; [done|]. split; [right; split; [done|set_solver]|done]. Qed.

Lemma one_pair_recs :
  Forall rec_ok (snapshot [Some (bs "k", bs "v")] Leaf (replicate 1024 [])).
Proof.
  unfold snapshot. rewrite Hash.empty_concat. cbn. constructor; [|constructor].
  split; cbn; [lia|split; [by vm_compute; set_solver|lia]|split; [by vm_compute; set_solver|lia]].
Qed.

Example rdb_save_load_roundtrip_witness :
  exists w1 w3, kvs_rdb_save (fun _ => mk_tm 0 0 0 0 0 0) (bs "kvs.rdb") (one_pair 0, [])
      = Ret (0%Z, (w1, [])) /\
    kvs_rdb_load (bs "kvs.rdb")
      (set_array fresh_array (set_rbtree (empty_tree true) (set_hash Hash.empty_table w1)), [])
      = Ret (0%Z, (w3, [])) /\
    eng_rep (w_array w3) (Array.view [Some (bs "k", bs "v")]).
Proof.
  pose proof (one_pair_holds 0) as (_ & (nl & Hst) & Hh & _).
  destruct (rdb_save_load_roundtrip (fun _ => mk_tm 0 0 0 0 0 0) (one_pair 0) (bs "kvs.rdb")
    [Some (bs "k", bs "v")] Leaf (replicate 1024 []) nl fresh_array (empty_tree true) Hash.empty_table
    (one_pair_rep 0) Hst Hh Hash.empty_slots_ok (one_pair_starts 0) eq_refl ltac:(cbn; lia) one_pair_recs
    ltac:(vm_compute; reflexivity) fresh_array_rep (rrep_empty true) Hash.hrep_empty)
    as (w1 & w3 & E1 & E2 & H & _).
  exists w1, w3. auto.
Defined.

(** A file with a pair with an empty key before another pair. *)
Definition empty_key_recs : list rec := [mk_rec 0 [] (bs "x"); mk_rec 0 (bs "k") (bs "v")].
Definition empty_key_header : rdb_header_t :=
  mk_header RDB_MAGIC RDB_VERSION 0 (Z.of_nat (length (recs_bytes empty_key_recs))) 2 0 0.
Definition empty_key_world : world :=
  wfile (bs "kvs.rdb") (snapshot_file empty_key_header empty_key_recs)
    (set_array fresh_array (one_pair 0)).

Example rdb_load_stops_at_empty_key_witness :
  exists w', kvs_rdb_load (bs "kvs.rdb") (empty_key_world, []) = Ret (0%Z, (w', [])) /\
    holds w' fresh_maps.
Proof.
  apply (rdb_load_stops_at_empty_key empty_key_world (bs "kvs.rdb") empty_key_header [] 0 (bs "x")
    [mk_rec 0 (bs "k") (bs "v")] fresh_maps).
  - exact (lookup_insert_eq (M := gmap cstr) _ _ _).
  - by split.
  - reflexivity.
  - reflexivity.
  - reflexivity.
  - reflexivity.
  - discriminate.
  - split; [apply fresh_array_rep|]. split; [exact (rrep_empty true)|apply Hash.hrep_empty].
  - exact I.
Defined.
