(* ===== verification/Durable.v ===== *)
(** * Snapshots that survive the server

    What is on disk after a save is described by three maps; a server that starts on these
    files has the maps of the array and of the hash table, and the root of the tree.  When
    checksums and backups are off, a save can always be followed by another one. *)

From S2P Require Import Prelude Engine KvsArray KvsHash KvsRbtree RbtreeRep RbtreeInsert RbtreeMap.
From S2P Require Import KvsSkiptable CNum Stdio World RdbConfig Rdb RdbSave RdbLoad.
Import Rdb.

#[local] Existing Instances Array.array_engine Array.array_engine_laws
  Hash.hash_engine Hash.hash_engine_laws.

(** ** The files of a stopped server *)

(** Its configuration, and a snapshot with the records [rs]. *)
Record stopped (s : fs) (c : rdb_config_t) (h : rdb_header_t) (rs : list rec) : Prop := {
  sd_conf : files s !! RDB_CONFIG_FILE = Some (concat (config_prints c));
  sd_conf_ok : conf_ok c;
  sd_enabled : rdb_enabled c <> 0%Z;
  sd_crc : rdb_crc64 c = 0%Z;
  sd_file : files s !! rdb_file c = Some (snapshot_file h rs);
  sd_header : header_ok h /\ h_magic h = RDB_MAGIC /\ h_version h = RDB_VERSION /\
              h_data_size h = Z.of_nat (length (recs_bytes rs));
  sd_takes : takes_all fresh_maps rs
}.

Lemma rdb_init_run w c h rs :
  stopped (w_fs w) c h rs -> holds w fresh_maps ->
  exists w', kvs_rdb_init (w, []) = Ret (0%Z, (w', [])) /\ holds w' (foldl add_rec fresh_maps rs) /\
    w_skip w' = w_skip w /\ w_fs w' = w_fs w /\ w_conf w' = c.
Proof.
  intros [Hf Hok Hen Hcrc Hs (Hh & Hm & Hv & Hd) Ht] Hw. unfold kvs_rdb_init.
  rewrite (bind_ret _ _ _ _ _ (config_init_run w [] c Hok Hf)). cbn [Z.eqb negb]. unfold config. mcbn.
  cbn [w_conf set_conf]. destruct (Z.eqb_spec (rdb_enabled c) 0); [done|].
  erewrite bind_ret; [|apply on_fs_get_run; unfold access; mcbn; reflexivity]. cbn beta.
  cbn [w_fs set_conf]. rewrite bool_decide_true by (left; by eexists).
  destruct (kvs_rdb_load_spec (set_conf c w) (rdb_file c) h rs fresh_maps)
    as (w' & E & Hh' & Hfs & Hcf & Hsk); try done.
  exists w'. split; [|done]. rewrite bind_bind, (bind_ret _ _ _ _ _ E). done.
Qed.

(** ** Sizes *)

(** Pairs that a snapshot can hold. *)
Definition pair_ok (k v : cstr) : Prop :=
  (cstr_ok k /\ 0 < length k <= 1024) /\ cstr_ok v /\ (Z.of_nat (length v) < 65536)%Z.

(** The bytes of the records of pairs. *)
Definition pairs_bytes (ps : list (cstr * cstr)) : nat := sum_list_with (fun kv => 5 + length kv.1 + length kv.2) ps.
Definition map_bytes (m : gmap cstr cstr) : nat := pairs_bytes (map_to_list m).

Record saveable (ms : maps) : Prop := {
  sb_array : map_Forall pair_ok (m_array ms);
  sb_tree : map_Forall pair_ok (m_tree ms);
  sb_hash : map_Forall pair_ok (m_hash ms);
  sb_size : (Z.of_nat (map_bytes (m_array ms) + map_bytes (m_tree ms) + map_bytes (m_hash ms)) < 2 ^ 32)%Z
}.

Lemma recs_ok t ps :
  (0 <= t < 256)%Z -> Forall (fun kv => pair_ok kv.1 kv.2) ps -> Forall rec_ok (of_pairs t ps).
Proof.
  intros Ht H. unfold of_pairs. apply Forall_fmap. eapply list.Forall_impl; [exact H|].
  intros kv [Hk Hv]. by split.
Qed.

Lemma recs_bytes_pairs t ps :
  Forall (fun kv => pair_ok kv.1 kv.2) ps -> length (recs_bytes (of_pairs t ps)) = pairs_bytes ps.
Proof.
  induction 1 as [|[k v] ps [[_ Hk] [_ Hv]] _ IH]; [done|]. rewrite of_pairs_cons, recs_bytes_cons, length_app, IH.
  unfold rec_bytes. cbn [r_type r_key r_val fst snd] in *. rewrite (len16_small k), (len16_small v) by lia.
  rewrite !Nat2Z.id, !take_ge by lia. rewrite !length_app, !length_le_bytes. unfold pairs_bytes. cbn [sum_list_with fst snd]. lia.
Qed.

(** Pairs with different keys, as a map. *)
Lemma pairs_forall (P : cstr -> cstr -> Prop) ps :
  NoDup ps.*1 -> map_Forall P (list_to_map ps : gmap cstr cstr) -> Forall (fun kv => P kv.1 kv.2) ps.
Proof.
  intros Hnd H. apply list.Forall_forall. intros [k v] Hin. apply H. by apply elem_of_list_to_map_1.
Qed.

Lemma map_bytes_pairs ps : NoDup ps.*1 -> map_bytes (list_to_map ps) = pairs_bytes ps.
Proof. intros Hnd. unfold map_bytes, pairs_bytes. by rewrite (map_to_list_to_map ps Hnd). Qed.

(** The root of a tree. *)
Lemma troot_in T : troot T ⊆ elems T.
Proof. destruct T; cbn; set_solver. Qed.

(** ** Saving *)

(** Snapshots can be taken again and again, and found by a later start: they are enabled,
    without checksums and backups, the file can be written, and the configuration is in
    [kvs.conf]. *)
Record can_save (w : world) : Prop := {
  cs_enabled : rdb_enabled (w_conf w) <> 0%Z;
  cs_crc : rdb_crc64 (w_conf w) = 0%Z;
  cs_backup : rdb_backup (w_conf w) = 0%Z;
  cs_writable : may_write (w_fs w) (dirs (w_fs w)) (rdb_file (w_conf w)) = true;
  cs_conf_ok : conf_ok (w_conf w);
  cs_file : rdb_file (w_conf w) <> RDB_CONFIG_FILE;
  cs_conf : files (w_fs w) !! RDB_CONFIG_FILE = Some (concat (config_prints (w_conf w)));
  cs_now : (0 <= now (w_fs w) < 2 ^ 64)%Z
}.

Lemma can_save_same w w' : w_fs w' = w_fs w -> w_conf w' = w_conf w -> can_save w -> can_save w'.
Proof. intros Hf Hc [H1 H2 H3 H4 H5 H6 H7 H8]. by split; rewrite ?Hf, ?Hc. Qed.

(** What a later start gets back of the maps [ms]: of the tree, one pair. *)
Record recovered (ms ms' : maps) : Prop := {
  rc_array : m_array ms' = m_array ms;
  rc_hash : m_hash ms' = m_hash ms;
  rc_tree : m_tree ms' ⊆ m_tree ms;
  rc_root : m_tree ms <> ∅ -> size (m_tree ms') = 1
}.

Lemma recovered_snapshot l T slots :
  sorted T ->
  recovered (mk_maps (Array.view l) (tmap T) (Hash.view slots)) (foldl add_rec fresh_maps (snapshot l T slots)).
Proof.
  intros Hs. rewrite fold_snapshot. split; cbn [m_array m_tree m_hash]; [done|done|..].
  - destruct T as [|c p k v t1 t2]; cbn [troot list_to_map foldr]; [apply map_empty_subseteq|].
    apply insert_subseteq_l; [|apply map_empty_subseteq].
    apply elem_of_list_to_map_1; [by apply sorted_NoDup|]. cbn [elems]. set_solver.
  - destruct T as [|c p k v t1 t2]; [done|]. intros _. cbn [troot list_to_map foldr]. by rewrite map_size_insert_None.
Qed.

(** The records of engines that hold [ms]. *)
Lemma saveable_snapshot l T slots :
  NoDup (Array.pairs l).*1 -> sorted T -> NoDup (concat slots).*1 ->
  saveable (mk_maps (Array.view l) (tmap T) (Hash.view slots)) ->
  Forall rec_ok (snapshot l T slots) /\ (Z.of_nat (length (recs_bytes (snapshot l T slots))) < 2 ^ 32)%Z.
Proof.
  intros Hl HT Hh [Ha Ht Hc Hsz]. cbn [m_array m_tree m_hash] in *. pose proof (sorted_NoDup _ HT) as Hnd.
  unfold Array.view, tmap, Hash.view in *. rewrite !map_bytes_pairs in Hsz by done.
  pose proof (pairs_forall _ _ Hl Ha) as Fa. pose proof (pairs_forall _ _ Hnd Ht) as Ft. pose proof (pairs_forall _ _ Hh Hc) as Fc.
  assert (Fr : Forall (fun kv => pair_ok kv.1 kv.2) (troot T)).
  { apply list.Forall_forall. intros kv Hin%troot_in. rewrite list.Forall_forall in Ft. by apply Ft. }
  unfold snapshot. split.
  - rewrite !Forall_app. split; [|split]; by apply recs_ok.
  - rewrite !recs_bytes_app, !length_app, !recs_bytes_pairs by done.
    assert (pairs_bytes (troot T) <= pairs_bytes (elems T)); [|lia].
    unfold pairs_bytes. destruct T as [|c p k v t1 t2]; [done|]. cbn [troot elems].
    rewrite sum_list_with_app. cbn [sum_list_with]. lia.
Qed.

(** A save writes only its file, and what a later start finds are the maps of the engines. *)
Lemma save_durable localtime w ms :
  can_save w -> holds w ms -> saveable ms ->
  exists w1 h rs, kvs_rdb_save localtime (rdb_file (w_conf w)) (w, []) = Ret (0%Z, (w1, [])) /\
    w1 = set_last_save (now (w_fs w)) (set_fs (w_fs w1) w) /\ can_save w1 /\
    stopped (w_fs w1) (w_conf w1) h rs /\ recovered ms (foldl add_rec fresh_maps rs).
Proof.
  intros Hcs Hh Hsb. pose proof Hcs as [H1 H2 H3 H4 H5 H6 H7 H8].
  destruct ms as [ma mt mh]. destruct Hh as (Ra & Rt & Rh). cbn [m_array m_tree m_hash] in Ra, Rt, Rh.
  destruct Ra as (l & Ha & _ & <-). destruct Rt as (nl & T & (Ht & _ & Hs & _) & <-). destruct Rh as (slots & Eh & Hso & <-).
  pose proof Ha as (j & junk & Ea & Hsz & Hnd). pose proof Hso as (Hsl & _ & Hndh).
  destruct (saveable_snapshot l T slots Hnd Hs Hndh Hsb) as [Hok Hlt].
  assert (He : engines_hold w l T slots).
  { split; [by exists Unlocked, j, junk|]. split; [by exists nl|]. split; [done|apply Hso]. }
  assert (Hst : save_starts w (rdb_file (w_conf w))) by (split; [done|]; split; [by left|done]).
  pose proof (rdb_save_run localtime w [] _ l T slots He Hst H2) as Hsave. cbv zeta in Hsave.
  set (rs := snapshot l T slots) in *. unfold wrap in Hsave.
  rewrite (Z.mod_small (Z.of_nat (length (recs_bytes rs)))) in Hsave by lia.
  set (h := save_header w _ _) in Hsave. fold (snapshot_file h rs) in Hsave.
  eexists _, h, rs. split; [exact Hsave|]. split; [done|]. split; [|split].
  - split; try done. cbn. by rewrite lookup_insert_ne.
  - split; try done.
    + cbn. by rewrite lookup_insert_ne.
    + cbn. apply lookup_insert_eq.
    + split; [|done]. split; cbn [h save_header h_magic h_version h_flags h_data_size h_record_count h_save_time h_padding];
        try done; [apply save_flags_range|lia|apply Z.mod_pos_bound; lia].
    + apply takes_snapshot; [done|lia|done].
  - by apply recovered_snapshot.
Qed.
