(* ===== verification/Protocol.v ===== *)
(** * The request protocol (the live half of [src/kvstore.c])

    A packet is a 24-byte header in network byte order and up to 1024 bytes of data.
    [kvs_tcp_protocol] works in the receive buffer, which it changes: it ends the data with
    a NUL and splits it at spaces.  The model returns the buffer with the response. *)

From S2P Require Import Prelude Engine KvsArray KvsHash KvsRbtree KvsSkiptable CNum Stdio World.
From S2P Require Import RdbConfig Rdb.
Import CNum.

Module Protocol.

(** ** Headers *)

Record tcp_header_t := mk_tcp {
  magic : Z; version : Z; cmd_type : Z; data_len : Z; seq_id : Z; flags : Z
}.

Definition TCP_MAGIC : Z := 0x5453564B.
Definition TCP_VERSION : Z := 1.
Definition TCP_HEADER_SIZE : nat := 24.

(** [memcpy(&val, buffer + i, 4); ntohl(val)] *)
Definition field (buf : list byte) (i : nat) : Z := be_val (take 4 (drop i buf)).

(** [None]: one of the pointers is NULL. *)
Definition parse_tcp_header (buffer : option (list byte)) : Z * option tcp_header_t :=
  match buffer with
  | None => ((-1)%Z, None)
  | Some b =>
      let h := mk_tcp (field b 0) (field b 4) (field b 8) (field b 12) (field b 16) (field b 20) in
      (if negb (magic h =? TCP_MAGIC)%Z then -2
       else if negb (version h =? TCP_VERSION)%Z then -3
       else if (1024 <? data_len h)%Z then -4 else 0, Some h)%Z
  end.

Definition be32 (z : Z) : list byte := be_bytes 4 z.

(** The bytes written to the response; the return value is their number. *)
Definition build_tcp_response (cmd seq : Z) (data : list byte) : list byte :=
  be32 TCP_MAGIC ++ be32 TCP_VERSION ++ be32 cmd ++ be32 (Z.of_nat (length data)) ++ be32 seq ++
  be32 0 ++ data.

(** ** Commands *)

Definition CMD_SET : Z := 1.
Definition CMD_GET : Z := 2.
Definition CMD_DEL : Z := 3.
Definition CMD_MOD : Z := 4.
Definition CMD_EXIST : Z := 5.
Definition CMD_SAVE : Z := 6.
Definition CMD_RSET : Z := 11.
Definition CMD_RGET : Z := 12.
Definition CMD_RDEL : Z := 13.
Definition CMD_RMOD : Z := 14.
Definition CMD_REXIST : Z := 15.
Definition CMD_HSET : Z := 21.
Definition CMD_HGET : Z := 22.
Definition CMD_HDEL : Z := 23.
Definition CMD_HMOD : Z := 24.
Definition CMD_HEXIST : Z := 25.
Definition CMD_ZADD : Z := 31.
Definition CMD_ZREM : Z := 32.
Definition CMD_ZRANGE : Z := 33.

(** [char result[1024]] *)
Definition RESULT_SIZE : nat := 1024.

(** [strcpy(result, s)] *)
Definition to_result (s : cstr) : W cstr :=
  if decide (length s < RESULT_SIZE) then mret s else raise BufferOverflow.

Definition text (s : string) : W cstr := to_result (bs s).

(** The answers to a return code. *)
Definition set_answer (ret : Z) : W cstr :=
  if (ret <? 0)%Z then text "ERROR" else if (ret =? 0)%Z then text "OK" else text "EXIST".
Definition found_answer (ret : Z) : W cstr :=
  if (ret <? 0)%Z then text "ERROR" else if (ret =? 0)%Z then text "OK" else text "NO EXIST".
Definition get_answer (p : cptr) : W cstr :=
  match p with
  | Null => text "NO EXIST"
  | _ => s ← deref p; to_result s
  end.

(** The loop that prints the entries: [result] holds [acc]; an entry that does not fit is
    cut off and ends the loop. *)
Fixpoint print_entries (es : list Skip.ZRangeEntry) (acc : cstr) : cstr :=
  match es with
  | [] => acc
  | e :: es =>
      let line := Skip.e_key e ++ [x20] ++ Skip.e_value e ++ [x20] ++ fmt_f2 (Skip.e_score e) ++ [x0a] in
      if decide (RESULT_SIZE - length acc <= length line)
      then acc ++ take (RESULT_SIZE - length acc - 1) line
      else print_entries es (acc ++ line)
  end.

(** ** The request *)

(** The buffer with a NUL at [i]. *)
Definition put_nul (i : nat) (b : list byte) : W (list byte) :=
  if decide (i < length b) then mret (<[i := x00]> b) else raise BufferOverflow.

(** The string at offset [i]. *)
Definition string_at (b : list byte) (i : nat) : cstr := cut_nul (drop i b).

(** Splitting the data: the key, the value with its offset, and the buffer. *)
Definition split_data (b : list byte) (len : nat) : W (option cstr * option (nat * cstr) * list byte) :=
  if decide (len = 0) then mret (None, None, b) else
  b ← put_nul (TCP_HEADER_SIZE + len) b;
  let data := string_at b TCP_HEADER_SIZE in
  match strchr data x20 with
  | Some i =>
      b ← put_nul (TCP_HEADER_SIZE + i) b;
      let off := TCP_HEADER_SIZE + i + 1 in
      mret (Some (take i data), Some (off, string_at b off), b)
  | None => mret (Some data, None, b)
  end.

Section requests.
Context (localtime : Z -> Rdb.tm).

Definition cmd_zadd (key : option cstr) (value : option (nat * cstr)) (b : list byte)
    : W (cstr * list byte) :=
  match key, value with
  | Some k, Some (off, v) =>
      match strchr v x20 with
      | None => r ← text "ERROR"; mret (r, b)
      | Some j =>
          b ← put_nul (off + j) b;
          let score := atof (string_at b (off + j + 1)) in
          ret ← on_skip (Skip.kvs_skiptable_zadd k (take j v) score);
          r ← set_answer ret;
          mret (r, b)
      end
  | _, _ => r ← text "ERROR"; mret (r, b)
  end.

Definition cmd_zrem (key : option cstr) : W cstr :=
  match key with
  | None => text "ERROR"
  | Some k =>
      ret ← on_skip (Skip.kvs_skiptable_zrem k);
      if (ret =? 0)%Z then text "OK" else text "NO EXIST"
  end.

Definition cmd_zrange (key value : option cstr) : W cstr :=
  match key, value with
  | Some _, Some v =>
      match sscanf_lf_lf v with
      | None => text "ERROR"
      | Some (mn, mx) =>
          es ← on_skip (Skip.kvs_skiptable_zrange_entries mn mx 100);
          mret (print_entries es [])
      end
  | _, _ => text "ERROR"
  end.

(** The [switch]. *)
Definition dispatch (cmd : Z) (key : option cstr) (value : option (nat * cstr)) (b : list byte)
    : W (cstr * list byte) :=
  let val := snd <$> value in
  let same (m : W cstr) : W (cstr * list byte) := r ← m; mret (r, b) in
  if (cmd =? CMD_SET)%Z then same (ret ← on_array (Array.kvs_array_set key val); set_answer ret)
  else if (cmd =? CMD_GET)%Z then same (p ← on_array (Array.kvs_array_get key); get_answer p)
  else if (cmd =? CMD_DEL)%Z then same (ret ← on_array (Array.kvs_array_del key); found_answer ret)
  else if (cmd =? CMD_MOD)%Z then same (ret ← on_array (Array.kvs_array_mod key val); found_answer ret)
  else if (cmd =? CMD_EXIST)%Z then
    same (ret ← on_array (Array.kvs_array_exist key); if (ret =? 0)%Z then text "EXIST" else text "NO EXIST")
  else if (cmd =? CMD_RSET)%Z then same (ret ← on_rbtree (Rbtree.kvs_rbtree_set key val); set_answer ret)
  else if (cmd =? CMD_RGET)%Z then same (p ← on_rbtree (Rbtree.kvs_rbtree_get key); get_answer p)
  else if (cmd =? CMD_HSET)%Z then same (ret ← on_hash (Hash.kvs_hash_set key val); set_answer ret)
  else if (cmd =? CMD_HGET)%Z then same (p ← on_hash (Hash.kvs_hash_get key); get_answer p)
  else if (cmd =? CMD_ZADD)%Z then cmd_zadd key value b
  else if (cmd =? CMD_ZREM)%Z then same (cmd_zrem key)
  else if (cmd =? CMD_ZRANGE)%Z then same (cmd_zrange key val)
  else if (cmd =? CMD_SAVE)%Z then
    same (c ← config; ret ← Rdb.kvs_rdb_save localtime (rdb_file c);
          if (ret <? 0)%Z then text "SAVE ERROR" else text "SAVED")
  else same (text "UNKNOWN COMMAND").

(** The return value, the buffer and the bytes of the response. *)
Definition kvs_tcp_protocol (b : list byte) (buffer_len : Z) : W (Z * list byte * list byte) :=
  if (buffer_len <? Z.of_nat TCP_HEADER_SIZE)%Z then mret ((-1)%Z, b, []) else
  match parse_tcp_header (Some b) with
  | (ret, Some h) =>
      if (ret <? 0)%Z then mret (ret, b, []) else
      if (buffer_len <? Z.of_nat TCP_HEADER_SIZE + data_len h)%Z then mret ((-5)%Z, b, []) else
      kvb ← split_data b (Z.to_nat (data_len h));
      rb ← dispatch (cmd_type h) kvb.1.1 kvb.1.2 kvb.2;
      let response := build_tcp_response (cmd_type h) (seq_id h) rb.1 in
      mret (Z.of_nat (length response), rb.2, response)
  | (ret, None) => mret (ret, b, [])
  end.

(** ** Start and end of the server *)

(** [fresh_a], [fresh_h]: what the blocks of the array and of the hash table hold when the
    allocator returns them; [rs]: the values of [rand].  The pool itself is modelled on its
    own. *)
Definition init_kvengine (fresh_a : list (option Array.kvs_array_item_t))
    (fresh_h : list (option (list Hash.hashnode_t))) (rs : list Z) (pooled : bool) : W Z :=
  modify (set_array Array.global_array0) ;;
  _ ← on_array (Array.kvs_array_create fresh_a);
  modify (set_rbtree (Rbtree.global_rbtree0 pooled)) ;;
  _ ← on_rbtree Rbtree.kvs_rbtree_create;
  modify (set_hash Hash.global_hash0) ;;
  _ ← on_hash (Hash.kvs_hash_create fresh_h);
  modify (set_skip (Skip.global_skiptable0 rs)) ;;
  _ ← on_skip Skip.kvs_skiptable_create;
  r ← Rdb.kvs_rdb_init;
  if negb (r =? 0)%Z then mret (-1)%Z else mret 0%Z.

Definition dest_kvengine : W unit :=
  on_array Array.kvs_array_destory ;;
  on_rbtree Rbtree.kvs_rbtree_destory ;;
  on_hash Hash.kvs_hash_destory ;;
  on_skip Skip.kvs_skiptable_destory.

End requests.
End Protocol.
