(* ===== verification/ProtocolSpec.v ===== *)
(** * What the protocol guarantees

    Headers survive a round trip, answers fit their buffers, malformed packets change
    nothing, and the set and get commands of the three engines are the map operations of
    the engine interface. *)

From S2P Require Import Prelude Engine KvsArray KvsHash KvsRbtree RbtreeRep RbtreeInsert RbtreeMap.
From S2P Require Import KvsSkiptable CNum Stdio World RdbConfig Rdb Protocol.
Import CNum Protocol.

#[local] Existing Instances Array.array_engine Array.array_engine_laws
  Hash.hash_engine Hash.hash_engine_laws.

(** ** Packets *)

Definition u32 (z : Z) : Prop := (0 <= z < 2 ^ 32)%Z.

(** A request with the flags [fl]. *)
Definition packet (cmd seq fl : Z) (d : list byte) : list byte :=
  be32 TCP_MAGIC ++ be32 TCP_VERSION ++ be32 cmd ++ be32 (Z.of_nat (length d)) ++ be32 seq ++
  be32 fl ++ d.

Lemma length_packet cmd seq fl d : length (packet cmd seq fl d) = TCP_HEADER_SIZE + length d.
Proof. unfold packet, be32. rewrite !length_app, !length_be_bytes. done. Qed.

Lemma be_val_be32 z : u32 z -> be_val (be32 z) = z.
Proof. intros H. unfold be32. rewrite be_val_be_bytes. by apply Z.mod_small. Qed.

Lemma parse_fields m v c n s fl rest :
  u32 m -> u32 v -> u32 c -> u32 n -> u32 s -> u32 fl ->
  let b := be32 m ++ be32 v ++ be32 c ++ be32 n ++ be32 s ++ be32 fl ++ rest in
  mk_tcp (field b 0) (field b 4) (field b 8) (field b 12) (field b 16) (field b 20) = mk_tcp m v c n s fl.
Proof.
  intros Hm Hv Hc Hn Hs Hf b.
  trans (mk_tcp (be_val (be32 m)) (be_val (be32 v)) (be_val (be32 c)) (be_val (be32 n))
           (be_val (be32 s)) (be_val (be32 fl))); [reflexivity|].
  by rewrite !be_val_be32.
Qed.

Lemma parse_packet cmd seq fl d rest :
  u32 cmd -> u32 seq -> u32 fl -> length d <= 1024 ->
  parse_tcp_header (Some (packet cmd seq fl d ++ rest))
  = (0%Z, Some (mk_tcp TCP_MAGIC TCP_VERSION cmd (Z.of_nat (length d)) seq fl)).
Proof.
  intros Hc Hs Hf Hd. unfold parse_tcp_header, packet. rewrite <- !app_assoc.
  rewrite parse_fields by (done || unfold u32; lia). cbn [magic version data_len].
  rewrite !Z.eqb_refl. cbn [negb]. destruct (Z.ltb_spec 1024 (Z.of_nat (length d))); [lia|done].
Qed.

(** Parsing what [build_tcp_response] wrote gives the command, the sequence number
    and the length back. *)
Theorem tcp_response_roundtrip cmd seq data rest :
  u32 cmd -> u32 seq -> length data <= 1024 ->
  parse_tcp_header (Some (build_tcp_response cmd seq data ++ rest))
  = (0%Z, Some (mk_tcp TCP_MAGIC TCP_VERSION cmd (Z.of_nat (length data)) seq 0)) /\
  drop TCP_HEADER_SIZE (build_tcp_response cmd seq data) = data.
Proof.
  intros Hc Hs Hd. split; [by apply (parse_packet cmd seq 0 data rest)|]. reflexivity.
Qed.

Example tcp_response_roundtrip_witness :
  parse_tcp_header (Some (build_tcp_response 2 7 (bs "King") ++ []))
  = (0%Z, Some (mk_tcp TCP_MAGIC TCP_VERSION 2 4 7 0)).
Proof. apply (tcp_response_roundtrip 2 7 (bs "King") []); (by split) || (cbn; lia). Defined.

(** ** Answers fit *)

(** Every result of [m] fits the result buffer. *)
Definition short (m : W cstr) : Prop :=
  forall s r s', m s = Ret (r, s') -> length r < RESULT_SIZE.

Lemma short_bind {A} (m : W A) (f : A -> W cstr) : (forall a, short (f a)) -> short (m ≫= f).
Proof.
  intros Hf s r s' H. unfold mbind, M_bind in H. destruct (m s) as [[a s1]|x|]; [|done|done].
  by eapply Hf.
Qed.

Lemma short_to_result t : short (to_result t).
Proof.
  intros s r s' H. unfold to_result in H. case_decide; [|done]. by injection H as <- <-.
Qed.

Lemma short_text t : short (text t).
Proof. apply short_to_result. Qed.

Lemma short_set_answer z : short (set_answer z).
Proof. unfold set_answer. repeat case_match; apply short_text. Qed.

Lemma short_found_answer z : short (found_answer z).
Proof. unfold found_answer. repeat case_match; apply short_text. Qed.

Lemma short_get_answer p : short (get_answer p).
Proof.
  unfold get_answer. destruct p; [apply short_text|..]; apply short_bind; intros; apply short_to_result.
Qed.

Lemma print_entries_short es : forall acc,
  length acc < RESULT_SIZE -> length (print_entries es acc) < RESULT_SIZE.
Proof.
  induction es as [|e es IH]; intros acc Ha; cbn [print_entries]; [done|].
  case_decide as Hd.
  - rewrite length_app, length_take. lia.
  - apply IH. rewrite length_app. lia.
Qed.

Lemma short_ret t : length t < RESULT_SIZE -> short (mret t).
Proof. intros H s r s' E. by injection E as <- <-. Qed.

Create HintDb short.
#[export] Hint Resolve short_text short_set_answer short_found_answer short_get_answer
  short_to_result short_ret : short.

Lemma short_cmd_zrem k : short (cmd_zrem k).
Proof. unfold cmd_zrem. destruct k; [|auto with short]. apply short_bind. intros a. case_match; auto with short. Qed.

Lemma short_cmd_zrange k v : short (cmd_zrange k v).
Proof.
  unfold cmd_zrange. destruct k, v; auto with short. destruct (sscanf_lf_lf _) as [[mn mx]|]; auto with short.
  apply short_bind. intros es. apply short_ret, print_entries_short. unfold RESULT_SIZE. cbn. lia.
Qed.

(** The same for the pairs of [dispatch]. *)
Definition short2 (m : W (cstr * list byte)) : Prop :=
  forall s r s', m s = Ret (r, s') -> length r.1 < RESULT_SIZE.

Lemma short2_same (m : W cstr) b : short m -> short2 (r ← m; mret (r, b)).
Proof.
  intros Hm s r s' H. unfold mbind, M_bind in H. destruct (m s) as [[a s1]|x|] eqn:E; [|done|done].
  injection H as <- <-. by eapply Hm.
Qed.

Lemma short2_bind {A} (m : W A) (f : A -> W (cstr * list byte)) :
  (forall a, short2 (f a)) -> short2 (m ≫= f).
Proof.
  intros Hf s r s' H. unfold mbind, M_bind in H. destruct (m s) as [[a s1]|x|]; [|done|done].
  by eapply Hf.
Qed.

Lemma short2_cmd_zadd k v b : short2 (cmd_zadd k v b).
Proof.
  unfold cmd_zadd. destruct k as [k|], v as [[off v]|]; try (apply short2_same; auto with short).
  destruct (strchr v x20); [|apply short2_same; auto with short].
  do 2 (apply short2_bind; intros ?). apply short2_same. auto with short.
Qed.

Lemma short2_dispatch localtime cmd k v b : short2 (dispatch localtime cmd k v b).
Proof.
  unfold dispatch.
  repeat match goal with |- short2 (if ?c then _ else _) => destruct c end;
    try apply short2_cmd_zadd; apply short2_same; auto using short_cmd_zrem, short_cmd_zrange with short;
    repeat (apply short_bind; intros ?); try case_match; auto with short.
Qed.

Lemma length_response cmd seq d : length (build_tcp_response cmd seq d) = TCP_HEADER_SIZE + length d.
Proof. apply (length_packet cmd seq 0 d). Qed.

(** A header and the 1023 characters [result] can hold. *)
Definition MAX_RESPONSE : nat := TCP_HEADER_SIZE + (RESULT_SIZE - 1).

(** The two shapes of a result. *)
Lemma response_fits localtime b n s r b' resp s' :
  kvs_tcp_protocol localtime b n s = Ret ((r, b', resp), s') ->
  ((-5 <= r < 0)%Z /\ resp = [] /\ b' = b /\ s' = s) \/
  (r = Z.of_nat (length resp) /\ TCP_HEADER_SIZE <= length resp <= MAX_RESPONSE).
Proof.
  unfold kvs_tcp_protocol. intros H.
  destruct (n <? Z.of_nat TCP_HEADER_SIZE)%Z; [left; injection H as <- <- <- <-; by split|].
  unfold parse_tcp_header in H.
  match type of H with context [(?x <? 0)%Z] => set (code := x) in H;
    assert (Hcode : (code = 0 \/ -4 <= code < 0)%Z) by
      (unfold code; repeat case_match; lia); clearbody code end.
  destruct (Z.ltb_spec code 0); [left; injection H as <- <- <- <-; split; [lia|done]|].
  case_match; [left; injection H as <- <- <- <-; split; [lia|done]|].
  right. unfold mbind at 1, M_bind at 1 in H.
  destruct (split_data _ _ _) as [[kvb s1]|x|]; [|done|done].
  unfold mbind at 1, M_bind at 1 in H.
  destruct (dispatch _ _ _ _ _ _) as [[rb s2]|x|] eqn:E; [|done|done].
  apply short2_dispatch in E. unfold RESULT_SIZE in E.
  injection H as <- <- <- <-. split; [done|]. rewrite length_response. unfold MAX_RESPONSE, RESULT_SIZE, TCP_HEADER_SIZE. lia.
Qed.

(** C22: whatever the buffer and the state, a call that returns gives a negative code
    and no response, or a response of its return value's length, which is a 24-byte header
    and at most 1023 bytes: it fits the 2048-byte buffer of the caller. *)
Theorem tcp_response_fits localtime b n s r b' resp s' :
  kvs_tcp_protocol localtime b n s = Ret ((r, b', resp), s') ->
  ((-5 <= r < 0)%Z /\ resp = [] /\ b' = b /\ s' = s) \/
  (r = Z.of_nat (length resp) /\ TCP_HEADER_SIZE <= length resp <= MAX_RESPONSE).
Proof. apply response_fits. Qed.

Definition some_tm : Z -> Rdb.tm := fun _ => Rdb.mk_tm 124 0 1 0 0 0.

(** A world with empty engines. *)
Definition empty_world : world :=
  mk_world (Array.instm Unlocked 0 [] (replicate 1024 None)) (empty_tree true) Hash.empty_table
    (Skip.global_skiptable0 []) g_rdb_config0 fs0 0.

Example tcp_response_fits_witness :
  exists b' resp, kvs_tcp_protocol some_tm (packet 99 7 0 (bs "k") ++ [x00]) 25 (empty_world, [])
      = Ret ((39%Z, b', resp), (empty_world, [])) /\ TCP_HEADER_SIZE <= length resp <= MAX_RESPONSE.
Proof.
  eexists _, _. split; [vm_compute; reflexivity|].
  destruct (tcp_response_fits some_tm (packet 99 7 0 (bs "k") ++ [x00]) 25 (empty_world, [])
    39 _ _ (empty_world, []) ltac:(vm_compute; reflexivity)) as [(H & _)|(_ & H)]; [lia|exact H].
Defined.

(** ** Splitting the data *)

Definition plain (s : cstr) : Prop := x00 ∉ s /\ x20 ∉ s.

Lemma put_nul_app a c rest s :
  put_nul (length a) (a ++ c :: rest) s = Ret (a ++ x00 :: rest, s).
Proof.
  unfold put_nul. rewrite decide_True by (rewrite length_app; cbn; lia).
  rewrite insert_app_r_alt by lia. by rewrite Nat.sub_diag.
Qed.

Lemma string_at_app a t rest : cstr_ok t -> string_at (a ++ t ++ x00 :: rest) (length a) = t.
Proof. intros H. unfold string_at. rewrite drop_app_length. by apply cut_nul_app_nul. Qed.

Definition head24 (cmd seq fl : Z) (len : nat) : list byte :=
  be32 TCP_MAGIC ++ be32 TCP_VERSION ++ be32 cmd ++ be32 (Z.of_nat len) ++ be32 seq ++ be32 fl.

Lemma packet_head cmd seq fl d : packet cmd seq fl d = head24 cmd seq fl (length d) ++ d.
Proof. unfold packet, head24. by rewrite <- !app_assoc. Qed.

Lemma length_head24 cmd seq fl n : length (head24 cmd seq fl n) = TCP_HEADER_SIZE.
Proof. unfold head24, be32. rewrite !length_app, !length_be_bytes. done. Qed.

(** A key and a value. *)
Lemma split_pair hd k v c rest s :
  length hd = TCP_HEADER_SIZE -> plain k -> cstr_ok v ->
  split_data (hd ++ (k ++ x20 :: v) ++ c :: rest) (length (k ++ x20 :: v)) s
  = Ret ((Some k, Some (TCP_HEADER_SIZE + length k + 1, v), hd ++ (k ++ x00 :: v) ++ x00 :: rest), s).
Proof.
  intros Hh [Hk0 Hks] Hv. unfold split_data.
  rewrite decide_False by (rewrite length_app; cbn; lia).
  assert (E1 : put_nul (TCP_HEADER_SIZE + length (k ++ x20 :: v)) (hd ++ (k ++ x20 :: v) ++ c :: rest) s
    = Ret ((hd ++ (k ++ x20 :: v)) ++ x00 :: rest, s)).
  { rewrite <- Hh, <- length_app, (app_assoc hd (k ++ x20 :: v) (c :: rest)). apply put_nul_app. }
  rewrite (bind_ret _ _ _ _ _ E1). rewrite <- (app_assoc hd).
  assert (Hd : string_at (hd ++ (k ++ x20 :: v) ++ x00 :: rest) TCP_HEADER_SIZE = k ++ x20 :: v).
  { rewrite <- Hh. apply string_at_app. unfold cstr_ok in *. rewrite elem_of_app, elem_of_cons. naive_solver. }
  rewrite Hd, strchr_app by done.
  assert (E2 : put_nul (TCP_HEADER_SIZE + length k) (hd ++ (k ++ x20 :: v) ++ x00 :: rest) s
    = Ret ((hd ++ k) ++ x00 :: v ++ x00 :: rest, s)).
  { rewrite <- Hh, <- length_app.
    replace (hd ++ (k ++ x20 :: v) ++ x00 :: rest) with ((hd ++ k) ++ x20 :: v ++ x00 :: rest)
      by (by rewrite <- !app_assoc). apply put_nul_app. }
  rewrite (bind_ret _ _ _ _ _ E2). rewrite take_app_length.
  assert (E3 : string_at ((hd ++ k) ++ x00 :: v ++ x00 :: rest) (TCP_HEADER_SIZE + length k + 1) = v).
  { replace ((hd ++ k) ++ x00 :: v ++ x00 :: rest) with (((hd ++ k) ++ [x00]) ++ v ++ x00 :: rest)
      by (by rewrite <- !app_assoc).
    replace (TCP_HEADER_SIZE + length k + 1) with (length ((hd ++ k) ++ [x00]))
      by (rewrite !length_app, Hh; done). by apply string_at_app. }
  rewrite E3. by rewrite <- !app_assoc.
Qed.

(** A key alone. *)
Lemma split_key hd k c rest s :
  length hd = TCP_HEADER_SIZE -> plain k -> k <> [] ->
  split_data (hd ++ k ++ c :: rest) (length k) s = Ret ((Some k, None, hd ++ k ++ x00 :: rest), s).
Proof.
  intros Hh [Hk0 Hks] Hk. unfold split_data. rewrite decide_False by (by destruct k).
  assert (E1 : put_nul (TCP_HEADER_SIZE + length k) (hd ++ k ++ c :: rest) s
    = Ret ((hd ++ k) ++ x00 :: rest, s)).
  { rewrite <- Hh, <- length_app, (app_assoc hd k). apply put_nul_app. }
  rewrite (bind_ret _ _ _ _ _ E1). rewrite <- app_assoc, <- Hh, string_at_app by done.
  by rewrite strchr_none.
Qed.

(** ** Set and get of the three engines *)

Inductive store := SArray | SRbtree | SHash.

#[export] Instance store_eq_dec : EqDecision store.
Proof. solve_decision. Defined.

Definition set_cmd (st : store) : Z := match st with SArray => CMD_SET | SRbtree => CMD_RSET | SHash => CMD_HSET end.
Definition get_cmd (st : store) : Z := match st with SArray => CMD_GET | SRbtree => CMD_RGET | SHash => CMD_HGET end.

(** The engine of the store implements the map [m]. *)
Definition store_rep (st : store) (w : world) (m : gmap cstr cstr) : Prop :=
  match st with
  | SArray => eng_rep (w_array w) m
  | SRbtree => eng_rep (w_rbtree w) m
  | SHash => eng_rep (w_hash w) m
  end.

(** Only the engine of the store may have changed. *)
Definition frame (st : store) (w w' : world) : Prop :=
  match st with
  | SArray => w' = set_array (w_array w') w
  | SRbtree => w' = set_rbtree (w_rbtree w') w
  | SHash => w' = set_hash (w_hash w') w
  end.

Lemma frame_refl st w : frame st w w.
Proof. by destruct st, w. Qed.

Definition store_takes (st : store) (m : gmap cstr cstr) (k : cstr) : Prop :=
  match st with
  | SArray => eng_room (KvEngine := Array.array_engine) m
  | SRbtree => True
  | SHash => Hash.hash_key k
  end.

(** What a set of a present key answers: the red-black tree says [OK]. *)
Definition set_text (st : store) (present : bool) : cstr :=
  match st, present with
  | _, false => bs "OK"
  | SRbtree, true => bs "OK"
  | _, true => bs "EXIST"
  end.

Definition get_text (o : option cstr) : cstr := default (bs "NO EXIST") o.

Lemma engine_set_cases {E} `{KvEngineLaws E} (e : E) m k v :
  eng_rep e m -> eng_key k -> eng_room m ->
  exists e', eng_set (Some k) (Some v) (e, [])
      = Ret ((if m !! k then eng_dup else 0)%Z, (e', [])) /\
    eng_rep e' (if m !! k then m else <[k := v]> m).
Proof.
  intros Hr Hk Hm. destruct (m !! k) as [w|] eqn:E0; [by apply (eng_set_old e m k v w)|by apply eng_set_new].
Qed.

Ltac run_dispatch :=
  unfold dispatch;
  cbn [Z.eqb Pos.eqb CMD_SET CMD_GET CMD_DEL CMD_MOD CMD_EXIST CMD_RSET CMD_RGET CMD_HSET CMD_HGET];
  rewrite bind_bind.

Lemma dispatch_set localtime st w m k v :
  store_rep st w m -> store_takes st m k ->
  exists w', store_rep st w' (if m !! k then m else <[k := v]> m) /\ frame st w w' /\
    forall off b, dispatch localtime (set_cmd st) (Some k) (Some (off, v)) b (w, [])
      = Ret ((set_text st (if m !! k then true else false), b), (w', [])).
Proof.
  intros Hr Ht. destruct st; cbn [store_rep store_takes set_cmd] in *.
  - destruct (engine_set_cases (w_array w) m k v Hr I Ht) as (e' & E & Hr'). exists (set_array e' w).
    split; [done|]. split; [done|]. intros off b. run_dispatch.
    erewrite bind_ret; [|apply (zoom_run w_array set_array), E]. by destruct (m !! k).
  - destruct (engine_set_cases (w_rbtree w) m k v Hr I I) as (e' & E & Hr'). exists (set_rbtree e' w).
    split; [done|]. split; [done|]. intros off b. run_dispatch.
    erewrite bind_ret; [|apply (zoom_run w_rbtree set_rbtree), E]. by destruct (m !! k).
  - destruct (engine_set_cases (w_hash w) m k v Hr Ht I) as (e' & E & Hr'). exists (set_hash e' w).
    split; [done|]. split; [done|]. intros off b. run_dispatch.
    erewrite bind_ret; [|apply (zoom_run w_hash set_hash), E]. by destruct (m !! k).
Qed.

Lemma get_answer_run o s :
  (forall v, o = Some v -> length v < RESULT_SIZE) ->
  get_answer (from_option Str Null o) s = Ret (get_text o, s).
Proof.
  intros H. destruct o as [v|]; cbn [from_option get_answer]; [|done].
  cbn [deref]. mcbn. unfold to_result. rewrite decide_True by (by apply H). done.
Qed.

Lemma dispatch_get localtime st w m k b :
  store_rep st w m -> store_takes st m k -> map_Forall (fun _ v => length v < RESULT_SIZE) m ->
  dispatch localtime (get_cmd st) (Some k) None b (w, []) = Ret ((get_text (m !! k), b), (w, [])).
Proof.
  intros Hr Ht Hm. assert (Hv : forall v, m !! k = Some v -> length v < RESULT_SIZE) by (intros v; apply Hm).
  destruct st; cbn [store_rep store_takes get_cmd] in *.
  - pose proof (eng_get_spec (w_array w) m k [] Hr I) as E.
    run_dispatch.
    erewrite bind_ret; [|apply (zoom_run w_array set_array), E].
    rewrite (bind_ret _ _ _ _ _ (get_answer_run _ _ Hv)). by destruct w.
  - pose proof (eng_get_spec (w_rbtree w) m k [] Hr I) as E.
    run_dispatch.
    erewrite bind_ret; [|apply (zoom_run w_rbtree set_rbtree), E].
    rewrite (bind_ret _ _ _ _ _ (get_answer_run _ _ Hv)). by destruct w.
  - pose proof (eng_get_spec (w_hash w) m k [] Hr Ht) as E.
    run_dispatch.
    erewrite bind_ret; [|apply (zoom_run w_hash set_hash), E].
    rewrite (bind_ret _ _ _ _ _ (get_answer_run _ _ Hv)). by destruct w.
Qed.

(** A complete packet reaches the [switch]. *)
Lemma protocol_enter localtime cmd seq fl d rest w al :
  u32 cmd -> u32 seq -> u32 fl -> length d <= 1024 ->
  kvs_tcp_protocol localtime (packet cmd seq fl d ++ rest) (Z.of_nat (length (packet cmd seq fl d))) (w, al)
  = (kvb ← split_data (packet cmd seq fl d ++ rest) (length d);
     rb ← dispatch localtime cmd kvb.1.1 kvb.1.2 kvb.2;
     mret (Z.of_nat (length (build_tcp_response cmd seq rb.1)), rb.2, build_tcp_response cmd seq rb.1)) (w, al).
Proof.
  intros Hc Hs Hf Hd. unfold kvs_tcp_protocol. rewrite length_packet.
  destruct (Z.ltb_spec (Z.of_nat (TCP_HEADER_SIZE + length d)) (Z.of_nat TCP_HEADER_SIZE)); [lia|].
  rewrite parse_packet by done. cbn [Z.ltb Z.compare data_len cmd_type seq_id].
  destruct (Z.ltb_spec (Z.of_nat (TCP_HEADER_SIZE + length d)) (Z.of_nat TCP_HEADER_SIZE + Z.of_nat (length d)));
    [lia|]. by rewrite Nat2Z.id.
Qed.

Lemma u32_set_cmd st : u32 (set_cmd st).
Proof. by destruct st. Qed.
Lemma u32_get_cmd st : u32 (get_cmd st).
Proof. by destruct st. Qed.

(** A set and a get request, for any bytes after the packet. *)
Lemma set_request_run localtime st w m k v seq fl :
  store_rep st w m -> store_takes st m k -> plain k -> cstr_ok v -> length k + length v < 1024 ->
  u32 seq -> u32 fl ->
  let req := packet (set_cmd st) seq fl (k ++ x20 :: v) in
  let resp := build_tcp_response (set_cmd st) seq (set_text st (if m !! k then true else false)) in
  exists w', store_rep st w' (if m !! k then m else <[k := v]> m) /\
    forall c rest, exists b', kvs_tcp_protocol localtime (req ++ c :: rest) (Z.of_nat (length req)) (w, [])
      = Ret ((Z.of_nat (length resp), b', resp), (w', [])).
Proof.
  intros Hr Ht Hk Hv Hl Hs Hf req resp. unfold req, resp.
  destruct (dispatch_set localtime st w m k v Hr Ht) as (w' & Hr' & _ & E).
  exists w'. split; [done|]. intros c rest.
  rewrite protocol_enter; [|apply u32_set_cmd|done|done|rewrite length_app; cbn; lia].
  rewrite packet_head, <- app_assoc.
  rewrite (bind_ret _ _ _ _ _ (split_pair _ k v c rest _ (length_head24 _ _ _ _) Hk Hv)). cbn [fst snd].
  rewrite (bind_ret _ _ _ _ _ (E _ _)). by eexists.
Qed.

Lemma get_request_run localtime st w m k seq fl c rest :
  store_rep st w m -> store_takes st m k -> map_Forall (fun _ v => length v < RESULT_SIZE) m ->
  plain k -> k <> [] -> length k <= 1024 -> u32 seq -> u32 fl ->
  let req := packet (get_cmd st) seq fl k in
  let resp := build_tcp_response (get_cmd st) seq (get_text (m !! k)) in
  exists b', kvs_tcp_protocol localtime (req ++ c :: rest) (Z.of_nat (length req)) (w, [])
    = Ret ((Z.of_nat (length resp), b', resp), (w, [])).
Proof.
  intros Hr Ht Hm Hk Hne Hl Hs Hf req resp. unfold req, resp.
  rewrite protocol_enter; [|apply u32_get_cmd|done|done|done].
  rewrite packet_head, <- app_assoc.
  rewrite (bind_ret _ _ _ _ _ (split_key _ k c rest _ (length_head24 _ _ _ _) Hk Hne)). cbn [fst snd].
  rewrite (bind_ret _ _ _ _ _ (dispatch_get localtime st w m k _ Hr Ht Hm)). by eexists.
Qed.

(** ** Requests as operations of a map *)

Inductive request :=
  | RSet (k v : cstr)
  | RGet (k : cstr)
  | RDel (k : cstr)
  | RMod (k v : cstr)
  | RExist (k : cstr).

Definition del_cmd (st : store) : Z := match st with SArray => CMD_DEL | SRbtree => CMD_RDEL | SHash => CMD_HDEL end.
Definition mod_cmd (st : store) : Z := match st with SArray => CMD_MOD | SRbtree => CMD_RMOD | SHash => CMD_HMOD end.
Definition exist_cmd (st : store) : Z :=
  match st with SArray => CMD_EXIST | SRbtree => CMD_REXIST | SHash => CMD_HEXIST end.

Definition request_cmd (st : store) (q : request) : Z :=
  match q with
  | RSet _ _ => set_cmd st
  | RGet _ => get_cmd st
  | RDel _ => del_cmd st
  | RMod _ _ => mod_cmd st
  | RExist _ => exist_cmd st
  end.
Definition request_data (q : request) : list byte :=
  match q with RSet k v | RMod k v => k ++ x20 :: v | RGet k | RDel k | RExist k => k end.

(** Only the array's delete, modify and exist commands are handled. *)
Definition handled (st : store) (q : request) : bool :=
  match q, st with
  | RSet _ _, _ | RGet _, _ | _, SArray => true
  | _, _ => false
  end.

(** What a map answers, and what becomes of it.  A delete on the empty array says [OK]. *)
Definition map_answer (st : store) (m : gmap cstr cstr) (q : request) : cstr :=
  if negb (handled st q) then bs "UNKNOWN COMMAND" else
  match q with
  | RSet k _ => set_text st (if m !! k then true else false)
  | RGet k => get_text (m !! k)
  | RDel k => if m !! k then bs "OK" else if decide (m = ∅) then bs "OK" else bs "NO EXIST"
  | RMod k _ => if m !! k then bs "OK" else bs "NO EXIST"
  | RExist k => if m !! k then bs "EXIST" else bs "NO EXIST"
  end.
Definition map_after (st : store) (m : gmap cstr cstr) (q : request) : gmap cstr cstr :=
  if negb (handled st q) then m else
  match q with
  | RSet k v => if m !! k then m else <[k := v]> m
  | RDel k => delete k m
  | RMod k v => if m !! k then <[k := v]> m else m
  | RGet _ | RExist _ => m
  end.

(** The bytes of a request, and of its answer. *)
Definition request_packet (st : store) (q : request) (seq fl : Z) : list byte :=
  packet (request_cmd st q) seq fl (request_data q).
Definition answer (st : store) (m : gmap cstr cstr) (q : request) (seq : Z) : list byte :=
  build_tcp_response (request_cmd st q) seq (map_answer st m q).

(** A key that is deleted from the array is absent or alone: any other delete leaves a hole,
    which the engine does not survive (see [KvsArray]). *)
Definition request_ok (st : store) (m : gmap cstr cstr) (q : request) : Prop :=
  length (request_data q) <= 1024 /\
  match q with
  | RSet k v => store_takes st m k /\ plain k /\ cstr_ok v
  | RGet k => store_takes st m k /\ plain k /\ k <> []
  | RDel k => (st = SArray -> m !! k = None \/ size m = 1) /\ plain k /\ k <> []
  | RMod k v => plain k /\ cstr_ok v
  | RExist k => plain k /\ k <> []
  end.

Definition short_values (m : gmap cstr cstr) : Prop := map_Forall (fun _ v => length v < RESULT_SIZE) m.

Lemma short_values_after m q st : short_values m -> request_ok st m q -> short_values (map_after st m q).
Proof.
  intros Hm [Hl Hq]. unfold map_after. destruct (handled st q); cbn [negb]; [|done].
  assert (Hins : forall k v, length (k ++ x20 :: v) <= 1024 -> short_values (<[k := v]> m)).
  { intros k v H. apply map_Forall_insert_2; [|done]. rewrite length_app in H. cbn [length] in H.
    unfold RESULT_SIZE. lia. }
  destruct q as [k v|k|k|k v|k]; cbn [request_data] in Hl; try done.
  - destruct (m !! k); [done|by apply Hins].
  - by apply map_Forall_delete.
  - destruct (m !! k); [by apply Hins|done].
Qed.

Lemma u32_request_cmd st q : u32 (request_cmd st q).
Proof. by destruct q, st. Qed.

(** The commands on a key, and those on a key and a value. *)
Lemma dispatch_key localtime st w m q k :
  store_rep st w m -> short_values m -> request_ok st m q ->
  q = RGet k \/ q = RDel k \/ q = RExist k ->
  exists w', store_rep st w' (map_after st m q) /\ frame st w w' /\
    forall b, dispatch localtime (request_cmd st q) (Some k) None b (w, []) = Ret ((map_answer st m q, b), (w', [])).
Proof.
  intros Hr Hm [_ Hq] Hk. destruct Hk as [->|[->| ->]]; cbn [request_cmd].
  - exists w. split; [by destruct st|]. split; [apply frame_refl|]. intros b. rewrite (dispatch_get localtime st w m k b Hr) by apply Hq || done.
    by destruct st.
  - destruct st; [|by exists w; destruct w..]. destruct Hq as [Hc _].
    destruct (Array.arr_rep_del (w_array w) m k Hr (Hc eq_refl)) as (a' & E & Hr'). exists (set_array a' w).
    split; [done|]. split; [done|]. intros b. cbn [del_cmd]. run_dispatch.
    erewrite bind_ret; [|apply (zoom_run w_array set_array), E]. unfold map_answer. cbn [handled negb].
    destruct (m !! k) eqn:Ek; [done|]. unfold found_answer.
    destruct (Z.ltb_spec (Z.of_nat (size m)) 0); [lia|]. destruct (Z.eqb_spec (Z.of_nat (size m)) 0) as [E0|E0].
    + rewrite decide_True by (apply map_size_empty_inv; lia). done.
    + rewrite decide_False; [done|]. intros ->. by rewrite map_size_empty in E0.
  - destruct st; [|by exists w; destruct w..]. exists w. split; [done|]. split; [apply (frame_refl SArray)|]. intros b. cbn [exist_cmd]. run_dispatch.
    erewrite bind_ret; [|apply (zoom_run w_array set_array), (Array.arr_rep_exist _ m k [] Hr)].
    unfold map_answer. cbn [handled negb]. destruct w. by destruct (m !! k).
Qed.

Lemma dispatch_pair localtime st w m q k v :
  store_rep st w m -> request_ok st m q -> q = RSet k v \/ q = RMod k v ->
  exists w', store_rep st w' (map_after st m q) /\ frame st w w' /\
    forall off b, dispatch localtime (request_cmd st q) (Some k) (Some (off, v)) b (w, [])
      = Ret ((map_answer st m q, b), (w', [])).
Proof.
  intros Hr [_ Hq] Hk. destruct Hk as [->| ->]; cbn [request_cmd].
  - destruct (dispatch_set localtime st w m k v Hr (proj1 Hq)) as (w' & Hr' & Hfr & E). exists w'.
    split; [by destruct st|]. split; [done|]. intros off b. rewrite E. by destruct st.
  - destruct st; [|by exists w; destruct w..].
    destruct (Array.arr_rep_mod (w_array w) m k v Hr) as (r & a' & E & Hret & Hr'). exists (set_array a' w).
    split; [done|]. split; [done|]. intros off b. cbn [mod_cmd]. run_dispatch.
    erewrite bind_ret; [|apply (zoom_run w_array set_array), E]. unfold map_answer. cbn [handled negb].
    unfold found_answer. destruct (m !! k).
    + by rewrite Hret.
    + destruct (Z.ltb_spec r 0); [lia|]. by destruct (Z.eqb_spec r 0); [lia|].
Qed.

(** Every request is a key, or a key and a value. *)
Lemma request_shape q :
  (exists k, request_data q = k /\ (q = RGet k \/ q = RDel k \/ q = RExist k)) \/
  (exists k v, request_data q = k ++ x20 :: v /\ (q = RSet k v \/ q = RMod k v)).
Proof. destruct q; naive_solver. Qed.

(** A request runs as its operation, whatever follows it in the buffer. *)
Lemma request_run localtime st w m q seq fl :
  store_rep st w m -> short_values m -> request_ok st m q -> u32 seq -> u32 fl ->
  let req := packet (request_cmd st q) seq fl (request_data q) in
  let resp := build_tcp_response (request_cmd st q) seq (map_answer st m q) in
  exists w', store_rep st w' (map_after st m q) /\ frame st w w' /\
    forall c rest, exists b', kvs_tcp_protocol localtime (req ++ c :: rest) (Z.of_nat (length req)) (w, [])
      = Ret ((Z.of_nat (length resp), b', resp), (w', [])).
Proof.
  intros Hr Hm Hq Hs Hf req resp. pose proof (proj1 Hq) as Hl. pose proof (u32_request_cmd st q) as Hu.
  destruct (request_shape q) as [(k & Hd & Hk)|(k & v & Hd & Hk)].
  - assert (Hp : plain k /\ k <> []) by (destruct Hq as [_ Hq]; destruct Hk as [->|[->| ->]]; apply Hq).
    destruct (dispatch_key localtime st w m q k Hr Hm Hq Hk) as (w' & Hr' & Hfr & E). exists w'. split; [done|]. split; [done|].
    intros c rest. unfold req, resp. rewrite protocol_enter by done. rewrite packet_head, <- app_assoc, Hd.
    rewrite (bind_ret _ _ _ _ _ (split_key _ k c rest _ (length_head24 _ _ _ _) (proj1 Hp) (proj2 Hp))). cbn [fst snd].
    rewrite (bind_ret _ _ _ _ _ (E _)). by eexists.
  - assert (Hp : plain k /\ cstr_ok v) by (destruct Hq as [_ Hq]; destruct Hk as [->| ->]; apply Hq).
    destruct (dispatch_pair localtime st w m q k v Hr Hq Hk) as (w' & Hr' & Hfr & E). exists w'. split; [done|]. split; [done|].
    intros c rest. unfold req, resp. rewrite protocol_enter by done. rewrite packet_head, <- app_assoc, Hd.
    rewrite (bind_ret _ _ _ _ _ (split_pair _ k v c rest _ (length_head24 _ _ _ _) (proj1 Hp) (proj2 Hp))). cbn [fst snd].
    rewrite (bind_ret _ _ _ _ _ (E _ _)). by eexists.
Qed.

(** A set request for a key and a value (no NUL, no space in the key) on any of
    the three engines answers [OK] and adds the pair when the key is new, and keeps the old
    value otherwise. *)
Theorem tcp_set_request localtime st w m k v seq fl c rest :
  store_rep st w m -> store_takes st m k -> plain k -> cstr_ok v -> length k + length v < 1024 ->
  u32 seq -> u32 fl ->
  let req := packet (set_cmd st) seq fl (k ++ x20 :: v) in
  exists b' w', kvs_tcp_protocol localtime (req ++ c :: rest) (Z.of_nat (length req)) (w, [])
      = Ret ((Z.of_nat (24 + length (set_text st (if m !! k then true else false))), b',
              build_tcp_response (set_cmd st) seq (set_text st (if m !! k then true else false))), (w', [])) /\
    store_rep st w' (if m !! k then m else <[k := v]> m).
Proof.
  intros Hr Ht Hk Hv Hl Hs Hf req.
  destruct (set_request_run localtime st w m k v seq fl Hr Ht Hk Hv Hl Hs Hf) as (w' & Hr' & E).
  destruct (E c rest) as [b' Eb]. rewrite length_response in Eb. by exists b', w'.
Qed.

(** A get request answers the value of the key in the map, or [NO EXIST], and
    changes nothing, when the stored values have fewer than 1024 bytes. *)
Theorem tcp_get_request localtime st w m k seq fl c rest :
  store_rep st w m -> store_takes st m k -> map_Forall (fun _ v => length v < RESULT_SIZE) m ->
  plain k -> k <> [] -> length k <= 1024 -> u32 seq -> u32 fl ->
  let req := packet (get_cmd st) seq fl k in
  exists b', kvs_tcp_protocol localtime (req ++ c :: rest) (Z.of_nat (length req)) (w, [])
    = Ret ((Z.of_nat (24 + length (get_text (m !! k))), b',
            build_tcp_response (get_cmd st) seq (get_text (m !! k))), (w, [])).
Proof.
  intros Hr Ht Hm Hk Hne Hl Hs Hf req.
  destruct (get_request_run localtime st w m k seq fl c rest Hr Ht Hm Hk Hne Hl Hs Hf) as [b' Eb].
  rewrite length_response in Eb. by exists b'.
Qed.

(** Every key/value request (set, get, delete, modify, exist) on any of the three engines
    is answered as the map says and makes the engine hold the map after it: a set keeps a
    present value, and what only the array has a command for is refused by the other engines
    without a change.  The exceptions are in [request_ok]: the sizes, a full array, and
    deletes that leave a hole in the array. *)
Theorem tcp_request_refines_map localtime st w m q seq fl c rest :
  store_rep st w m -> short_values m -> request_ok st m q -> u32 seq -> u32 fl ->
  let req := request_packet st q seq fl in
  let resp := answer st m q seq in
  exists b' w', kvs_tcp_protocol localtime (req ++ c :: rest) (Z.of_nat (length req)) (w, [])
      = Ret ((Z.of_nat (length resp), b', resp), (w', [])) /\
    store_rep st w' (map_after st m q) /\ short_values (map_after st m q).
Proof.
  intros Hr Hm Hq Hs Hf. destruct (request_run localtime st w m q seq fl Hr Hm Hq Hs Hf) as (w' & Hr' & _ & E).
  destruct (E c rest) as [b' Eb]. exists b', w'. split; [exact Eb|]. split; [done|by apply short_values_after].
Qed.

Lemma empty_world_rep st : store_rep st empty_world ∅.
Proof.
  destruct st; cbn [store_rep].
  - exists []. split; [|split; [apply not_elem_of_nil|done]]. exists 0%Z, (replicate 1024 None).
    split; [done|]. split; [by vm_compute|constructor].
  - apply rrep_empty.
  - apply Hash.hrep_empty.
Qed.

Example tcp_set_request_witness :
  exists b' w', kvs_tcp_protocol some_tm
      (packet CMD_SET 7 0 (bs "Teacher" ++ x20 :: bs "King") ++ [x00]) 36 (empty_world, [])
    = Ret ((26%Z, b', build_tcp_response CMD_SET 7 (bs "OK")), (w', [])) /\
    store_rep SArray w' (<[bs "Teacher" := bs "King"]> ∅).
Proof.
  pose proof (tcp_set_request some_tm SArray empty_world ∅ (bs "Teacher") (bs "King") 7 0 x00 []
    (empty_world_rep SArray) ltac:(by vm_compute) ltac:(split; vm_compute; set_solver)
    ltac:(vm_compute; set_solver) ltac:(cbn; lia) ltac:(by split) ltac:(by split)) as H.
  rewrite !lookup_empty in H. exact H.
Defined.

Example tcp_get_request_witness :
  exists b', kvs_tcp_protocol some_tm (packet CMD_HGET 7 0 (bs "Teacher") ++ [x00]) 31 (empty_world, [])
    = Ret ((32%Z, b', build_tcp_response CMD_HGET 7 (bs "NO EXIST")), (empty_world, [])).
Proof.
  pose proof (tcp_get_request some_tm SHash empty_world ∅ (bs "Teacher") 7 0 x00 []
    (empty_world_rep SHash) ltac:(vm_compute; discriminate) (map_Forall_empty _)
    ltac:(split; vm_compute; set_solver) ltac:(discriminate) ltac:(cbn; lia) ltac:(by split)
    ltac:(by split)) as H.
  rewrite lookup_empty in H. exact H.
Defined.

(** Deleting from the empty array answers [OK]. *)
Example tcp_request_refines_map_witness :
  exists b' w', kvs_tcp_protocol some_tm (packet CMD_DEL 7 0 (bs "Teacher") ++ [x00]) 31 (empty_world, [])
    = Ret ((26%Z, b', build_tcp_response CMD_DEL 7 (bs "OK")), (w', [])) /\ store_rep SArray w' ∅.
Proof.
  destruct (tcp_request_refines_map some_tm SArray empty_world ∅ (RDel (bs "Teacher")) 7 0 x00 []
    (empty_world_rep SArray) (map_Forall_empty _)) as (b' & w' & E & Hr & _).
  - split; [cbn; lia|]. split; [by left|]. split; [split; vm_compute; set_solver|discriminate].
  - by split.
  - by split.
  - exists b', w'. split; [exact E|exact Hr].
Defined.

(** ** Commands nobody handles *)

Lemma put_nul_run i b s : i < length b -> put_nul i b s = Ret (<[i := x00]> b, s).
Proof. intros H. unfold put_nul. by rewrite decide_True. Qed.

Lemma strchr_lt s c i : strchr s c = Some i -> i < length s.
Proof.
  revert i. induction s as [|b s IH]; intros i; cbn; [done|]. case_decide; [intros [= <-]; lia|].
  destruct (strchr s c) as [j|]; [|done]. intros [= <-]. specialize (IH j eq_refl). lia.
Qed.

Lemma cut_nul_length l : length (cut_nul l) <= length l.
Proof. induction l as [|b l IH]; cbn; [done|]. case_decide; cbn; lia. Qed.

(** With a byte after the packet the data can always be split. *)
Lemma split_total hd d c rest s :
  length hd = TCP_HEADER_SIZE ->
  exists k v b', split_data (hd ++ d ++ c :: rest) (length d) s = Ret ((k, v, b'), s).
Proof.
  intros Hh. unfold split_data. case_decide; [by eexists _, _, _|].
  assert (Hlt : TCP_HEADER_SIZE + length d < length (hd ++ d ++ c :: rest))
    by (rewrite !length_app, Hh; cbn [length]; lia).
  rewrite (bind_ret _ _ _ _ _ (put_nul_run _ _ s Hlt)).
  set (b := <[_ := x00]> _). destruct (strchr (string_at b TCP_HEADER_SIZE) x20) as [i|] eqn:E.
  - assert (Hi : TCP_HEADER_SIZE + i < length b).
    { apply strchr_lt in E. unfold string_at in E.
      pose proof (cut_nul_length (drop TCP_HEADER_SIZE b)) as Hc. rewrite length_drop in Hc. lia. }
    rewrite (bind_ret _ _ _ _ _ (put_nul_run _ _ s Hi)). by eexists _, _, _.
  - by eexists _, _, _.
Qed.

(** The delete, modify and exist commands of the red-black tree and of the hash
    table are declared, and the engines have the operations, but the protocol answers
    [UNKNOWN COMMAND] to them and changes nothing. *)
Theorem tcp_unhandled_commands localtime cmd seq fl d c rest w al :
  cmd ∈ [CMD_RDEL; CMD_RMOD; CMD_REXIST; CMD_HDEL; CMD_HMOD; CMD_HEXIST] ->
  u32 seq -> u32 fl -> length d <= 1024 ->
  let req := packet cmd seq fl d in
  exists b', kvs_tcp_protocol localtime (req ++ c :: rest) (Z.of_nat (length req)) (w, al)
    = Ret ((39%Z, b', build_tcp_response cmd seq (bs "UNKNOWN COMMAND")), (w, al)).
Proof.
  intros Hc Hs Hf Hd req. unfold req.
  assert (Hu : u32 cmd) by (repeat (apply elem_of_cons in Hc as [->|Hc]; [done|]); by apply not_elem_of_nil in Hc).
  rewrite protocol_enter by done. rewrite packet_head, <- app_assoc.
  destruct (split_total (head24 cmd seq fl (length d)) d c rest (w, al) (length_head24 _ _ _ _))
    as (k & v & b' & E).
  rewrite (bind_ret _ _ _ _ _ E). cbn [fst snd].
  assert (Ed : dispatch localtime cmd k v b' (w, al) = Ret ((bs "UNKNOWN COMMAND", b'), (w, al))).
  { repeat (apply elem_of_cons in Hc as [->|Hc]; [reflexivity|]). by apply not_elem_of_nil in Hc. }
  rewrite (bind_ret _ _ _ _ _ Ed). cbn [fst snd]. rewrite length_response. by eexists.
Qed.

Example tcp_unhandled_commands_witness :
  exists b', kvs_tcp_protocol some_tm (packet CMD_RDEL 7 0 (bs "k") ++ [x00]) 25 (empty_world, [])
    = Ret ((39%Z, b', build_tcp_response CMD_RDEL 7 (bs "UNKNOWN COMMAND")), (empty_world, [])).
Proof.
  apply (tcp_unhandled_commands some_tm CMD_RDEL 7 0 (bs "k") x00 [] empty_world []).
  - set_solver.
  - by split.
  - by split.
  - cbn. lia.
Defined.
