(* ===== verification/DbSpec.v ===== *)
(** * The store as one abstract database

    Three maps, one for each key/value engine, a sorted set, and the maps that the last save
    found (of the tree's, one pair comes back).  Every command of the protocol is an operation
    of it, and leaves the parts it does not name as they are. *)

From S2P Require Import Prelude Engine KvsArray KvsHash KvsRbtree RbtreeRep RbtreeInsert RbtreeMap.
From S2P Require Import KvsSkiptable SkipRep SkipSpec CNum Stdio World RdbConfig Rdb RdbLoad Durable.
From S2P Require Import Protocol ProtocolSpec.
Import CNum Protocol.

#[local] Existing Instances Array.array_engine Array.array_engine_laws
  Hash.hash_engine Hash.hash_engine_laws.

(** [NoSaves]: nothing is known about saving; [Saves last]: saving works ([can_save]), and
    [last] are the maps that the last save found. Of these a later start gets back the array's,
    the hash table's and one pair of the tree's ([recovered]). *)
Inductive disk := NoSaves | Saves (last : option maps).

Record db := mk_db {
  d_array : gmap cstr cstr;
  d_rbtree : gmap cstr cstr;
  d_hash : gmap cstr cstr;
  d_zset : list Skip.ZRangeEntry;
  d_disk : disk
}.

Definition db0 (dk : disk) : db := mk_db ∅ ∅ ∅ [] dk.

Definition map_of (st : store) (d : db) : gmap cstr cstr :=
  match st with SArray => d_array d | SRbtree => d_rbtree d | SHash => d_hash d end.
Definition set_map (st : store) (m : gmap cstr cstr) (d : db) : db :=
  match st with
  | SArray => mk_db m (d_rbtree d) (d_hash d) (d_zset d) (d_disk d)
  | SRbtree => mk_db (d_array d) m (d_hash d) (d_zset d) (d_disk d)
  | SHash => mk_db (d_array d) (d_rbtree d) m (d_zset d) (d_disk d)
  end.
Definition set_zset (es : list Skip.ZRangeEntry) (d : db) : db := mk_db (d_array d) (d_rbtree d) (d_hash d) es (d_disk d).
Definition set_disk (dk : disk) (d : db) : db := mk_db (d_array d) (d_rbtree d) (d_hash d) (d_zset d) dk.

Definition db_maps (d : db) : maps := mk_maps (d_array d) (d_rbtree d) (d_hash d).
Definition short_maps (ms : maps) : Prop :=
  short_values (m_array ms) /\ short_values (m_tree ms) /\ short_values (m_hash ms).

(** The files are as the abstract disk says. *)
Definition disk_rep (w : world) (dk : disk) : Prop :=
  match dk with
  | NoSaves => True
  | Saves last => can_save w /\
      match last with
      | None => True
      | Some ms => short_maps ms /\
          exists h rs, stopped (w_fs w) (w_conf w) h rs /\ recovered ms (foldl add_rec fresh_maps rs)
      end
  end.

(** The engines hold the database. *)
Record db_rep (w : world) (d : db) : Prop := {
  db_stores : forall st, store_rep st w (map_of st d);
  db_short : forall st, short_values (map_of st d);
  db_zset : zrep (w_skip w) (d_zset d);
  db_disk : disk_rep w (d_disk d)
}.

(** The commands, with the texts of their arguments.  [COther]: a number the [switch] does
    not have. *)
Inductive command :=
  | Kv (st : store) (q : request)
  | ZAdd (k v score : cstr)
  | ZRem (k : cstr)
  | ZRange (name bounds : cstr)
  | Save (data : list byte)
  | COther (cmd : Z) (data : list byte).

Definition command_cmd (c : command) : Z :=
  match c with
  | Kv st q => request_cmd st q
  | ZAdd _ _ _ => CMD_ZADD
  | ZRem _ => CMD_ZREM
  | ZRange _ _ => CMD_ZRANGE
  | Save _ => CMD_SAVE
  | COther cmd _ => cmd
  end.

Definition command_data (c : command) : list byte :=
  match c with
  | Kv _ q => request_data q
  | ZAdd k v score => k ++ x20 :: v ++ x20 :: score
  | ZRem k => k
  | ZRange name bounds => name ++ x20 :: bounds
  | Save data | COther _ data => data
  end.

(** What the database answers, and what becomes of it. *)
Definition db_text (d : db) (c : command) : cstr :=
  match c with
  | Kv st q => map_answer st (map_of st d) q
  | ZAdd k v score => if ((zset_add k v (atof score) (d_zset d)).2 =? 0)%Z then bs "OK" else bs "EXIST"
  | ZRem k => if decide (k ∈ Skip.e_key <$> d_zset d) then bs "OK" else bs "NO EXIST"
  | ZRange _ bounds =>
      match sscanf_lf_lf bounds with
      | None => bs "ERROR"
      | Some (mn, mx) => print_entries (zset_range mn mx 100 (d_zset d)) []
      end
  | Save _ => bs "SAVED"
  | COther _ _ => bs "UNKNOWN COMMAND"
  end.

Definition db_after (d : db) (c : command) : db :=
  match c with
  | Kv st q => set_map st (map_after st (map_of st d) q) d
  | ZAdd k v score => set_zset (zset_add k v (atof score) (d_zset d)).1 d
  | ZRem k => set_zset (zset_rem k (d_zset d)) d
  | Save _ => set_disk (Saves (Some (db_maps d))) d
  | _ => d
  end.

(** The numbers of the [switch]. *)
Definition switch_commands : list Z :=
  [CMD_SET; CMD_GET; CMD_DEL; CMD_MOD; CMD_EXIST; CMD_RSET; CMD_RGET; CMD_HSET; CMD_HGET;
   CMD_ZADD; CMD_ZREM; CMD_ZRANGE; CMD_SAVE].

(** Scores are numbers; a member is removed only while the order by score is also the order
    by key, which is what removal relies on (see [SkipSpec]). *)
Definition command_ok (d : db) (c : command) : Prop :=
  length (command_data c) <= 1024 /\
  match c with
  | Kv st q => request_ok st (map_of st d) q
  | ZAdd k v score => plain k /\ plain v /\ cstr_ok score /\ real (atof score)
  | ZRem k => plain k /\ k <> [] /\ by_key (d_zset d)
  | ZRange name bounds =>
      plain name /\ cstr_ok bounds /\
      forall mn mx, sscanf_lf_lf bounds = Some (mn, mx) -> real mn /\ real mx
  | Save _ => (exists last, d_disk d = Saves last) /\ saveable (db_maps d)
  | COther cmd _ => u32 cmd /\ cmd ∉ switch_commands
  end.

Definition command_packet (c : command) (seq fl : Z) : list byte :=
  packet (command_cmd c) seq fl (command_data c).
Definition db_answer (d : db) (c : command) (seq : Z) : list byte :=
  build_tcp_response (command_cmd c) seq (db_text d c).

Lemma u32_command_cmd d c : command_ok d c -> u32 (command_cmd c).
Proof. intros [_ H]. destruct c as [st q|k v sc|k|n b|data|cmd data]; try done; [apply u32_request_cmd|apply H]. Qed.

(** ** The commands of the sorted set *)

Lemma map_of_set st st' m d : map_of st (set_map st' m d) = if decide (st = st') then m else map_of st d.
Proof. by destruct st, st'. Qed.

Lemma frame_store st st' w w' : frame st w w' -> st' <> st -> forall m, store_rep st' w m -> store_rep st' w' m.
Proof. intros Hf Hne m. by destruct st; cbn [frame] in Hf; rewrite Hf; destruct st'. Qed.

Lemma frame_skip st w w' : frame st w w' -> w_skip w' = w_skip w.
Proof. intros Hf. by destruct st; cbn [frame] in Hf; rewrite Hf. Qed.

Lemma frame_files st w w' : frame st w w' -> w_fs w' = w_fs w /\ w_conf w' = w_conf w.
Proof. intros Hf. by destruct st; cbn [frame] in Hf; rewrite Hf. Qed.

Lemma disk_rep_same w w' dk : w_fs w' = w_fs w -> w_conf w' = w_conf w -> disk_rep w dk -> disk_rep w' dk.
Proof.
  intros Hf Hc. destruct dk as [|last]; [done|]. intros [Hs Hl]. split; [by eapply can_save_same|].
  destruct last; [by rewrite Hf, Hc|done].
Qed.

Lemma db_rep_map st w w' d q :
  db_rep w d -> request_ok st (map_of st d) q -> frame st w w' -> store_rep st w' (map_after st (map_of st d) q) ->
  db_rep w' (set_map st (map_after st (map_of st d) q) d).
Proof.
  intros [H1 H2 H3 H4] Hq Hf Hr. split.
  - intros st'. rewrite map_of_set. case_decide as E; [by subst|]. by eapply frame_store.
  - intros st'. rewrite map_of_set. case_decide; [by apply short_values_after|done].
  - rewrite (frame_skip _ _ _ Hf). by destruct st.
  - destruct (frame_files _ _ _ Hf) as [Ef Ec].
    apply (disk_rep_same w); [done|done|]. by destruct st.
Qed.

Lemma db_rep_zset w d l es : db_rep w d -> zrep l es -> db_rep (set_skip l w) (set_zset es d).
Proof.
  intros [H1 H2 H3 H4] Hz.
  split; [intros st; specialize (H1 st); by destruct st|intros st; specialize (H2 st); by destruct st|done|].
  by apply (disk_rep_same w).
Qed.

(** The member's text is split at its space, in the buffer. *)
Lemma cmd_zadd_run hd k v sc rest w al ret l' :
  length hd = TCP_HEADER_SIZE -> plain v -> cstr_ok sc ->
  on_skip (Skip.kvs_skiptable_zadd k v (atof sc)) (w, al) = Ret (ret, (set_skip l' w, al)) ->
  exists b', cmd_zadd (Some k) (Some (TCP_HEADER_SIZE + length k + 1, v ++ x20 :: sc))
      (hd ++ (k ++ x00 :: v ++ x20 :: sc) ++ x00 :: rest) (w, al)
    = (r ← set_answer ret; mret (r, b')) (set_skip l' w, al).
Proof.
  intros Hh [Hv0 Hvs] Hsc E. unfold cmd_zadd. rewrite strchr_app by done.
  assert (E1 : put_nul (TCP_HEADER_SIZE + length k + 1 + length v)
      (hd ++ (k ++ x00 :: v ++ x20 :: sc) ++ x00 :: rest) (w, al)
    = Ret ((hd ++ k ++ [x00] ++ v) ++ x00 :: sc ++ x00 :: rest, (w, al))).
  { replace (TCP_HEADER_SIZE + length k + 1 + length v) with (length (hd ++ k ++ [x00] ++ v))
      by (rewrite !length_app, Hh; cbn [length]; lia).
    replace (hd ++ (k ++ x00 :: v ++ x20 :: sc) ++ x00 :: rest)
      with ((hd ++ k ++ [x00] ++ v) ++ x20 :: sc ++ x00 :: rest)
      by (rewrite <- !app_assoc; cbn [app]; by rewrite <- !app_assoc).
    apply put_nul_app. }
  rewrite (bind_ret _ _ _ _ _ E1).
  assert (E2 : string_at ((hd ++ k ++ [x00] ++ v) ++ x00 :: sc ++ x00 :: rest)
    (TCP_HEADER_SIZE + length k + 1 + length v + 1) = sc).
  { replace (TCP_HEADER_SIZE + length k + 1 + length v + 1) with (length ((hd ++ k ++ [x00] ++ v) ++ [x00]))
      by (rewrite !length_app, Hh; cbn [length]; lia).
    replace ((hd ++ k ++ [x00] ++ v) ++ x00 :: sc ++ x00 :: rest)
      with (((hd ++ k ++ [x00] ++ v) ++ [x00]) ++ sc ++ x00 :: rest) by (by rewrite <- (app_assoc _ [x00])).
    by apply string_at_app. }
  rewrite E2, take_app_length, (bind_ret _ _ _ _ _ E). by eexists.
Qed.

Lemma zset_add_ret k v x es : (0 <= (zset_add k v x es).2)%Z.
Proof.
  induction es as [|e es IH]; cbn [zset_add]; [done|]. destruct (before _ _ _); [done|]. by destruct (same _ _ _).
Qed.

Lemma set_answer_run ret (s : world * alloc) :
  (0 <= ret)%Z -> set_answer ret s = Ret (if (ret =? 0)%Z then bs "OK" else bs "EXIST", s).
Proof. intros H. unfold set_answer. destruct (Z.ltb_spec ret 0); [lia|]. by destruct (ret =? 0)%Z. Qed.

(** The commands of the sorted set, split and dispatched, and any other number. *)
Section zset.
Context (localtime : Z -> Rdb.tm) (w : world) (d : db) (Hr : db_rep w d) (hd : list byte).
Context (Hh : length hd = TCP_HEADER_SIZE).

Lemma dispatch_zrem k v b :
  dispatch localtime CMD_ZREM k v b = (r ← cmd_zrem k; mret (r, b)).
Proof. done. Qed.

Lemma dispatch_zrange k v b :
  dispatch localtime CMD_ZRANGE k v b = (r ← cmd_zrange k (snd <$> v); mret (r, b)).
Proof. done. Qed.

Lemma dispatch_save k v b :
  dispatch localtime CMD_SAVE k v b
  = (r ← (c ← config; ret ← Rdb.kvs_rdb_save localtime (rdb_file c);
          if (ret <? 0)%Z then text "SAVE ERROR" else text "SAVED"); mret (r, b)).
Proof. done. Qed.

(** Splitting and dispatching [c], whatever follows it. *)
Definition runs_as_command (c : command) : Prop :=
  exists w', db_rep w' (db_after d c) /\
    forall x rest, exists b',
      (kvb ← split_data (hd ++ command_data c ++ x :: rest) (length (command_data c));
       dispatch localtime (command_cmd c) kvb.1.1 kvb.1.2 kvb.2) (w, [])
      = Ret ((db_text d c, b'), (w', [])).

Lemma zadd_runs k v score : command_ok d (ZAdd k v score) -> runs_as_command (ZAdd k v score).
Proof.
  intros [_ (Hk & Hv & Hsc & Hreal)]. unfold runs_as_command. cbn [command_cmd command_data db_after db_text].
  destruct (zadd_rep k v (atof score) _ _ (db_zset _ _ Hr) Hreal) as (l' & E & Hz).
  assert (Ew : on_skip (Skip.kvs_skiptable_zadd k v (atof score)) (w, [])
    = Ret ((zset_add k v (atof score) (d_zset d)).2, (set_skip l' w, []))) by by apply (zoom_run w_skip set_skip).
  exists (set_skip l' w). split; [by apply db_rep_zset|]. intros x rest.
  assert (Hvs : cstr_ok (v ++ x20 :: score)).
  { unfold cstr_ok in *. destruct Hv as [Hv0 _]. rewrite elem_of_app, elem_of_cons. naive_solver. }
  rewrite (bind_ret _ _ _ _ _ (split_pair hd k _ x rest _ Hh Hk Hvs)). cbn [fst snd].
  destruct (cmd_zadd_run hd k v score rest w [] _ l' Hh Hv Hsc Ew) as (b' & Eb). exists b'.
  etransitivity; [exact Eb|]. by rewrite (bind_ret _ _ _ _ _ (set_answer_run _ _ (zset_add_ret _ _ _ _))).
Qed.

Lemma zrem_runs k : command_ok d (ZRem k) -> runs_as_command (ZRem k).
Proof.
  intros [_ (Hk & Hne & Hkeys)]. unfold runs_as_command. cbn [command_cmd command_data db_after db_text].
  destruct (zrem_rep k _ _ (db_zset _ _ Hr) Hkeys) as (l' & E & Hz). exists (set_skip l' w).
  split; [by apply db_rep_zset|]. intros x rest.
  rewrite (bind_ret _ _ _ _ _ (split_key hd k x rest _ Hh Hk Hne)). cbn [fst snd]. eexists.
  rewrite dispatch_zrem. unfold cmd_zrem. rewrite bind_bind. erewrite bind_ret; [|apply (zoom_run w_skip set_skip), E].
  by destruct (decide (k ∈ _)).
Qed.

Lemma zrange_runs name bounds : command_ok d (ZRange name bounds) -> runs_as_command (ZRange name bounds).
Proof.
  intros [_ (Hn & Hb & Hreal)]. unfold runs_as_command. cbn [command_cmd command_data db_after db_text].
  exists w. split; [done|]. intros x rest.
  rewrite (bind_ret _ _ _ _ _ (split_pair hd name bounds x rest _ Hh Hn Hb)). cbn [fst snd]. eexists.
  rewrite dispatch_zrange. unfold cmd_zrange. cbn [fmap option_fmap option_map snd]. destruct (sscanf_lf_lf bounds) as [[mn mx]|]; [|done].
  destruct (Hreal mn mx eq_refl) as [Hmn Hmx]. rewrite bind_bind.
  erewrite bind_ret; [|apply (zoom_run w_skip set_skip), (zrange_rep mn mx 100 _ _ [] (db_zset _ _ Hr) Hmn Hmx)].
  by destruct w.
Qed.

Lemma save_runs data : command_ok d (Save data) -> runs_as_command (Save data).
Proof.
  intros [_ ((last & Hd) & Hsb)]. unfold runs_as_command. cbn [command_cmd command_data db_after db_text].
  pose proof Hr as [H1 H2 H3 H4]. rewrite Hd in H4. destruct H4 as [Hcs _].
  destruct (save_durable localtime w (db_maps d) Hcs) as (w1 & h & rs & E & Ew & Hcs1 & Hst & Hrec).
  { split; [apply (H1 SArray)|]. split; [apply (H1 SRbtree)|apply (H1 SHash)]. }
  { exact Hsb. }
  exists w1. split.
  - split; cbn [set_disk d_zset d_disk].
    + intros st. specialize (H1 st). rewrite Ew. by destruct st.
    + intros st. specialize (H2 st). by destruct st.
    + by rewrite Ew.
    + split; [done|]. split; [split; [apply (H2 SArray)|split; [apply (H2 SRbtree)|apply (H2 SHash)]]|].
      by exists h, rs.
  - intros x rest.
    destruct (split_total hd data x rest (w, []) Hh) as (k & v & b' & Es). rewrite (bind_ret _ _ _ _ _ Es). cbn [fst snd].
    exists b'. rewrite dispatch_save. unfold config. mcbn. by rewrite (bind_ret _ _ _ _ _ E).
Qed.

Lemma other_runs cmd data : command_ok d (COther cmd data) -> runs_as_command (COther cmd data).
Proof.
  intros [_ (_ & Hn)]. unfold runs_as_command. cbn [command_cmd command_data db_after db_text].
  exists w. split; [done|]. intros x rest.
  destruct (split_total hd data x rest (w, []) Hh) as (k & v & b' & E). rewrite (bind_ret _ _ _ _ _ E). cbn [fst snd].
  exists b'. unfold dispatch. unfold switch_commands in Hn. rewrite !not_elem_of_cons in Hn.
  destruct Hn as (H1 & H2 & H3 & H4 & H5 & H6 & H7 & H8 & H9 & H10 & H11 & H12 & H13 & _).
  by rewrite !(proj2 (Z.eqb_neq cmd _)).
Qed.
End zset.

(** ** Packets *)

(** What is split and dispatched is answered. *)
Lemma packet_runs localtime w d c seq fl :
  command_ok d c -> u32 seq -> u32 fl ->
  runs_as_command localtime w d (head24 (command_cmd c) seq fl (length (command_data c))) c ->
  let req := command_packet c seq fl in
  let resp := db_answer d c seq in
  exists w', db_rep w' (db_after d c) /\
    forall x rest, exists b', kvs_tcp_protocol localtime (req ++ x :: rest) (Z.of_nat (length req)) (w, [])
      = Ret ((Z.of_nat (length resp), b', resp), (w', [])).
Proof.
  intros Hc Hs Hf (w' & Hr' & E) req resp. exists w'. split; [done|]. intros x rest. destruct (E x rest) as (b' & Eb).
  exists b'. unfold req, resp, command_packet, db_answer.
  rewrite protocol_enter; [|by eapply u32_command_cmd|done|done|apply Hc].
  rewrite packet_head, <- app_assoc.
  etransitivity; [symmetry; apply (bind_bind (split_data _ _)
    (fun kvb => dispatch localtime (command_cmd c) kvb.1.1 kvb.1.2 kvb.2))|].
  by rewrite (bind_ret _ _ _ _ _ Eb).
Qed.

(** A command runs as the operation of the database, whatever follows it in the buffer. *)
Lemma command_run localtime w d c seq fl :
  db_rep w d -> command_ok d c -> u32 seq -> u32 fl ->
  let req := command_packet c seq fl in
  let resp := db_answer d c seq in
  exists w', db_rep w' (db_after d c) /\
    forall x rest, exists b', kvs_tcp_protocol localtime (req ++ x :: rest) (Z.of_nat (length req)) (w, [])
      = Ret ((Z.of_nat (length resp), b', resp), (w', [])).
Proof.
  intros Hr Hc Hs Hf. pose proof (length_head24 (command_cmd c) seq fl (length (command_data c))) as Hh.
  destruct c as [st q|k v score|k|name bounds|data|cmd data].
  - destruct Hc as [_ Hq]. destruct (request_run localtime st w _ q seq fl (db_stores _ _ Hr st) (db_short _ _ Hr st) Hq Hs Hf)
      as (w' & Hr' & Hfr & E). exists w'. split; [by apply (db_rep_map st w)|exact E].
  - apply packet_runs; try done. by apply zadd_runs.
  - apply packet_runs; try done. by apply zrem_runs.
  - apply packet_runs; try done. by apply zrange_runs.
  - apply packet_runs; try done. by apply save_runs.
  - apply packet_runs; try done. by apply other_runs.
Qed.

(** ** The engines at the start *)

Definition db_world (rs : list Z) : world := set_skip (fresh_list rs) empty_world.

Lemma db_world_rep rs : db_rep (db_world rs) (db0 NoSaves).
Proof.
  split; [|intros []; apply map_Forall_empty|apply fresh_list_zrep|done].
  intros st. by destruct st; [apply (empty_world_rep SArray)|apply (empty_world_rep SRbtree)|apply (empty_world_rep SHash)].
Qed.

(** C21: the protocol refines the database: a command that [command_ok] admits is answered with
    the text the database gives and makes the engines hold the database after it: the engine it
    names changes as the map or the sorted set does, and every other engine keeps what it had.
    After a SAVE the files are such that a later start gets back the maps of the array and of
    the hash table and, of the tree, one pair if it has any ([recovered]): the rest of the tree
    and the sorted set are not saved.  [command_ok] wants: at most 1024 bytes of data; keys
    without space and NUL, not empty where they are read; values without NUL; for SET and GET an
    array that is not full; for DEL a key that is absent or the only one; for HSET and HGET a
    key whose character sum is not negative; scores and bounds that are numbers; for ZREM a
    sorted set whose order by score is also the order by key; for a SAVE that saving works
    ([can_save]: among others checksums and backups off) and pairs that a snapshot can hold
    ([saveable]); and any number that the [switch] does not have is answered as unknown.  The
    calls of [malloc] succeed. *)
Theorem tcp_command_refines_db localtime w d c seq fl x rest :
  db_rep w d -> command_ok d c -> u32 seq -> u32 fl ->
  let req := command_packet c seq fl in
  let resp := db_answer d c seq in
  exists b' w', kvs_tcp_protocol localtime (req ++ x :: rest) (Z.of_nat (length req)) (w, [])
      = Ret ((Z.of_nat (length resp), b', resp), (w', [])) /\
    db_rep w' (db_after d c).
Proof.
  intros Hr Hc Hs Hf. destruct (command_run localtime w d c seq fl Hr Hc Hs Hf) as (w' & Hr' & E).
  destruct (E x rest) as [b' Eb]. by exists b', w'.
Qed.

(** A member is added, read back between two bounds, and removed. *)
Example tcp_command_refines_db_witness :
  let w := db_world [1; 70000]%Z in
  let c := ZAdd (bs "alice") (bs "red") (bs "1.5") in
  exists b' w', kvs_tcp_protocol some_tm (packet CMD_ZADD 7 0 (bs "alice red 1.5") ++ [x00]) 37 (w, [])
      = Ret ((26%Z, b', build_tcp_response CMD_ZADD 7 (bs "OK")), (w', [])) /\
    db_rep w' (db_after (db0 NoSaves) c) /\
    db_text (db_after (db0 NoSaves) c) (ZRange (bs "z") (bs "1 2")) = bs "alice red 1.50" ++ [x0a].
Proof.
  intros w c. destruct (tcp_command_refines_db some_tm w (db0 NoSaves) c 7 0 x00 [] (db_world_rep _)) as (b' & w' & E & Hr).
  - split; [cbn; lia|]. split; [split; vm_compute; set_solver|]. split; [split; vm_compute; set_solver|].
    split; [vm_compute; set_solver|by vm_compute].
  - by split.
  - by split.
  - exists b', w'. split; [exact E|]. split; [exact Hr|]. vm_compute. reflexivity.
Defined.
