(* ===== verification/Ntyco.v ===== *)
(** * The connection loop ([server_reader] of [src/ntyco.c])

    A connection keeps a 4096-byte buffer.  Every [recv] appends to it; every complete
    packet at its front is handled, answered and moved out.  The bytes [recv] delivers are
    an input of the model, the messages [send] gets are its output. *)

From S2P Require Import Prelude Engine KvsArray KvsHash KvsRbtree KvsSkiptable Stdio World RdbConfig.
From S2P Require Import Rdb Protocol.
Import Protocol.

Module Ntyco.

Definition BUFFER_SIZE : nat := 4096.
Definition SEND_SIZE : nat := 4096.

(** The message around a response: the request's header with the response's length. *)
Definition send_message (h : tcp_header_t) (response : list byte) : list byte :=
  be32 (magic h) ++ be32 (version h) ++ be32 (cmd_type h) ++ be32 (Z.of_nat (length response)) ++
  be32 (seq_id h) ++ be32 (flags h) ++ response.

(** [memmove(buffer, buffer + n, len - n)] *)
Definition move_down (n len : nat) (b : list byte) : list byte :=
  take (len - n) (drop n b) ++ drop (len - n) b.

(** The state of a connection: the buffer and how much of it is filled. *)
Record conn := mk_conn { buffer : list byte; buffer_len : nat }.

Section reader.
Context (localtime : Z -> Rdb.tm).

(** The inner loop.  [None]: the connection was closed. *)
Fixpoint handle_packets (fuel : nat) (c : conn) (sent : list (list byte))
    : W (option conn * list (list byte)) :=
  match fuel with
  | O => out_of_fuel
  | S n =>
      if decide (buffer_len c < TCP_HEADER_SIZE) then mret (Some c, sent) else
      match parse_tcp_header (Some (buffer c)) with
      | (ret, Some h) =>
          if (ret <? 0)%Z then mret (None, sent) else
          let total_len := TCP_HEADER_SIZE + Z.to_nat (data_len h) in
          if decide (buffer_len c < total_len) then mret (Some c, sent) else
          r ← kvs_tcp_protocol localtime (buffer c) (Z.of_nat total_len);
          let b := r.1.2 in
          sent ← (if (0 <? r.1.1)%Z then
                    if decide (SEND_SIZE < TCP_HEADER_SIZE + length r.2) then raise BufferOverflow
                    else mret (sent ++ [send_message h r.2])
                  else mret sent);
          handle_packets n (mk_conn (move_down total_len (buffer_len c) b) (buffer_len c - total_len)) sent
      | (_, None) => mret (None, sent)
      end
  end.

(** One [recv] that delivers [chunk], and the packets it completes; an empty chunk is the
    end of the connection. *)
Definition on_recv (chunk : list byte) (c : conn) : W (option conn * list (list byte)) :=
  let got := take (BUFFER_SIZE - buffer_len c) chunk in
  if decide (got = []) then mret (None, []) else
  let b := take (buffer_len c) (buffer c) ++ got ++ drop (buffer_len c + length got) (buffer c) in
  let len := buffer_len c + length got in
  handle_packets (S len) (mk_conn b len) [].

Fixpoint reader_loop (chunks : list (list byte)) (c : conn) (sent : list (list byte))
    : W (option conn * list (list byte)) :=
  match chunks with
  | [] => mret (Some c, sent)
  | chunk :: chunks =>
      r ← on_recv chunk c;
      match r.1 with
      | None => mret (None, sent ++ r.2)
      | Some c => reader_loop chunks c (sent ++ r.2)
      end
  end.

Definition server_reader (chunks : list (list byte)) : W (option conn * list (list byte)) :=
  reader_loop chunks (mk_conn (replicate BUFFER_SIZE x00) 0) [].

End reader.

(** ** The buffer never fills *)

Definition conn_ok (c : conn) : Prop := length (buffer c) = BUFFER_SIZE /\ buffer_len c <= BUFFER_SIZE.

(** What the outer loop leaves: less than one packet of the largest size. *)
Definition conn_idle (c : conn) : Prop := conn_ok c /\ buffer_len c < 24 + 1024.

Lemma length_move_down n len b : n <= len <= length b -> length (move_down n len b) = length b.
Proof. intros H. unfold move_down. rewrite length_app, length_take, !length_drop. lia. Qed.

Lemma put_nul_length i b s b' s' : put_nul i b s = Ret (b', s') -> length b' = length b.
Proof. unfold put_nul. case_decide; [|done]. intros [= <- <-]. apply length_insert. Qed.

(** A property of buffers that writing NULs keeps. *)
Section buffers.
Context (P : list byte -> Prop).
Context (HP : forall i b s b' s', P b -> put_nul i b s = Ret (b', s') -> P b').

Lemma split_keeps b n s kvb s' : P b -> split_data b n s = Ret (kvb, s') -> P kvb.2.
Proof.
  intros Hb H. unfold split_data in H. case_decide; [by apply mret_inv in H as [<- _]|].
  apply bind_inv in H as (b1 & s1 & E1 & H). apply (HP _ _ _ _ _ Hb) in E1.
  destruct (strchr _ _).
  - apply bind_inv in H as (b2 & s2 & E2 & H). apply (HP _ _ _ _ _ E1) in E2.
    by apply mret_inv in H as [<- _].
  - by apply mret_inv in H as [<- _].
Qed.

Lemma same_keeps (m : W cstr) b s rb s' :
  P b -> (r ← m; mret (r, b)) s = Ret (rb, s') -> P rb.2.
Proof.
  intros Hb H. apply bind_inv in H as (r & s1 & _ & H). by apply mret_inv in H as [<- _].
Qed.

Lemma zadd_keeps k v b s rb s' : P b -> cmd_zadd k v b s = Ret (rb, s') -> P rb.2.
Proof.
  intros Hb H. unfold cmd_zadd in H.
  destruct k as [k|], v as [[off v]|]; try (by eapply same_keeps in H).
  destruct (strchr v x20); [|by eapply same_keeps in H].
  apply bind_inv in H as (b1 & s1 & E1 & H). apply (HP _ _ _ _ _ Hb) in E1.
  apply bind_inv in H as (r & s2 & _ & H). by eapply same_keeps in H.
Qed.

Lemma dispatch_keeps localtime cmd k v b s rb s' :
  P b -> dispatch localtime cmd k v b s = Ret (rb, s') -> P rb.2.
Proof.
  intros Hb H. unfold dispatch in H.
  repeat match type of H with (if ?c then _ else _) _ = _ => destruct c end;
    first [by eapply zadd_keeps in H|by eapply same_keeps in H].
Qed.
End buffers.

(** A call that answers has split the data. *)
Lemma protocol_inv localtime b n s r b' resp s' :
  kvs_tcp_protocol localtime b n s = Ret ((r, b', resp), s') ->
  (r < 0)%Z \/
  exists h kvb s1 rb, parse_tcp_header (Some b) = (0%Z, Some h) /\
    split_data b (Z.to_nat (data_len h)) s = Ret (kvb, s1) /\
    dispatch localtime (cmd_type h) kvb.1.1 kvb.1.2 kvb.2 s1 = Ret (rb, s') /\
    b' = rb.2 /\ resp = build_tcp_response (cmd_type h) (seq_id h) rb.1.
Proof.
  unfold kvs_tcp_protocol. intros H.
  destruct (n <? Z.of_nat TCP_HEADER_SIZE)%Z; [left; by injection H as <-|].
  destruct (parse_tcp_header (Some b)) as [ret [h|]] eqn:Ep; [|done].
  destruct (Z.ltb_spec ret 0); [left; by injection H as <-|].
  assert (ret = 0%Z) as ->.
  { unfold parse_tcp_header in Ep. injection Ep as Er _. revert Er. repeat case_match; lia. }
  case_match; [left; by injection H as <-|]. right.
  apply bind_inv in H as (kvb & s1 & E1 & H). apply bind_inv in H as (rb & s2 & E2 & H).
  apply mret_inv in H as [[= <- <- <-] <-]. exists h, kvb, s1, rb. done.
Qed.
End Ntyco.
