(* ===== verification/NtycoSpec.v ===== *)
(** * What the connection loop guarantees

    The receive buffer always has room for the next packet, the inner loop needs no more
    fuel than it has bytes, a request may arrive in any pieces, and a session of requests
    that waits for its answers sees one database.  Requests sent without waiting are lost. *)

From S2P Require Import Prelude Engine KvsArray KvsHash KvsRbtree RbtreeRep RbtreeInsert RbtreeMap.
From S2P Require Import KvsSkiptable CNum Stdio World RdbConfig Rdb Protocol ProtocolSpec DbSpec Ntyco.
Import CNum Protocol Ntyco.

#[local] Existing Instances Array.array_engine Array.array_engine_laws
  Hash.hash_engine Hash.hash_engine_laws.

(** ** One round of the inner loop *)

Lemma field_nonneg b i : (0 <= field b i)%Z.
Proof. apply be_val_range. Qed.

Lemma parse_code b r h :
  parse_tcp_header (Some b) = (r, Some h) -> (r < 0)%Z \/ (r = 0 /\ 0 <= data_len h <= 1024)%Z.
Proof.
  unfold parse_tcp_header. intros [= <- <-]. cbn [magic version data_len].
  pose proof (field_nonneg b 12). repeat case_match; lia.
Qed.

(** The length of the packet at the front of the buffer. *)
Lemma packet_len b r h :
  parse_tcp_header (Some b) = (r, Some h) -> ~ (r < 0)%Z ->
  TCP_HEADER_SIZE <= TCP_HEADER_SIZE + Z.to_nat (data_len h) <= 24 + 1024.
Proof. intros Hp Hr. apply parse_code in Hp as [?|[_ ?]]; [done|]. unfold TCP_HEADER_SIZE. lia. Qed.

(** A call keeps the length of the buffer. *)
Lemma protocol_length localtime b n s r b' resp s' :
  kvs_tcp_protocol localtime b n s = Ret ((r, b', resp), s') -> length b' = length b.
Proof.
  intros H. pose proof H as Hfit. apply response_fits in Hfit as [(_ & _ & -> & _)|[Hr Hl]]; [done|].
  apply protocol_inv in H as [?|(h & kvb & s1 & rb & _ & Es & Ed & -> & _)]; [lia|].
  apply (split_keeps (fun x => length x = length b)) in Es; [|by intros ????? <- ?%put_nul_length|done].
  apply (dispatch_keeps (fun x => length x = length b)) in Ed; [done| |done].
  by intros ????? <- ?%put_nul_length.
Qed.

(** The fuel that is enough: a round for every header the buffered bytes could hold, and
    the last one. *)
Definition rounds (c : conn) : nat := S (buffer_len c / TCP_HEADER_SIZE).

Lemma handle_packets_fuel localtime k : forall n c sent s,
  buffer_len c < TCP_HEADER_SIZE * n ->
  handle_packets localtime (n + k) c sent s = handle_packets localtime n c sent s.
Proof.
  induction n as [|n IH]; intros c sent s Hn; [lia|]. cbn [Nat.add handle_packets].
  case_decide as Hlen; [done|].
  destruct (parse_tcp_header (Some (buffer c))) as [r [h|]] eqn:Ep; [|done].
  destruct (Z.ltb_spec r 0); [done|]. case_decide as Htot; [done|].
  unfold mbind, M_bind. destruct (kvs_tcp_protocol _ _ _ _) as [[a s1]|f|]; [|done|done].
  match goal with |- match ?m s1 with _ => _ end = _ => destruct (m s1) as [[sent' s2]|f|]; [|done|done] end.
  apply IH. cbn [buffer_len]. unfold TCP_HEADER_SIZE in *. lia.
Qed.

Definition message_fits (m : list byte) : Prop := length m <= 24 + 24 + 1023.

Lemma length_send_message h d : length (send_message h d) = TCP_HEADER_SIZE + length d.
Proof. unfold send_message, be32. rewrite !length_app, !length_be_bytes. done. Qed.

Lemma buffer_size_Z : Z.of_nat BUFFER_SIZE = 4096%Z.
Proof. reflexivity. Qed.
Lemma send_size_Z : Z.of_nat SEND_SIZE = 4096%Z.
Proof. reflexivity. Qed.
#[local] Opaque BUFFER_SIZE SEND_SIZE.

(** What the inner loop leaves. *)
Lemma handle_packets_idle localtime : forall n c sent s c' sent' s',
  handle_packets localtime n c sent s = Ret ((c', sent'), s') ->
  conn_ok c -> Forall message_fits sent ->
  (forall c1, c' = Some c1 -> conn_idle c1) /\ Forall message_fits sent'.
Proof.
  induction n as [|n IH]; intros c sent s c' sent' s' H Hc Hsent; [done|]. cbn [handle_packets] in H.
  case_decide as Hlen.
  { apply mret_inv in H as [[= <- <-] _]. split; [|done]. intros ? [= <-]. split; [done|].
    unfold TCP_HEADER_SIZE in Hlen. lia. }
  destruct (parse_tcp_header (Some (buffer c))) as [r [h|]] eqn:Ep; [|by apply mret_inv in H as [[= <- <-] _]].
  destruct (Z.ltb_spec r 0); [by apply mret_inv in H as [[= <- <-] _]|].
  apply packet_len in Ep; [|lia]. case_decide as Htot.
  { apply mret_inv in H as [[= <- <-] _]. split; [|done]. intros ? [= <-]. split; [done|lia]. }
  apply bind_inv in H as ([[z b'] resp] & s1 & E1 & H). cbn [fst snd] in H.
  pose proof (protocol_length _ _ _ _ _ _ _ _ E1) as Hb. destruct Hc as [Hc1 Hc2].
  apply bind_inv in H as (sent1 & s2 & E2 & H). apply IH in H; [done|split; cbn [buffer buffer_len]|].
  - rewrite length_move_down; lia.
  - lia.
  - destruct (0 <? z)%Z eqn:Hz; [|by apply mret_inv in E2 as [<- _]]. case_decide; [done|].
    apply mret_inv in E2 as [<- _]. apply Forall_app. split; [done|]. apply Forall_singleton.
    unfold message_fits. rewrite length_send_message. apply response_fits in E1.
    unfold MAX_RESPONSE, RESULT_SIZE, TCP_HEADER_SIZE in *. lia.
Qed.

Lemma on_recv_conn got c :
  conn_ok c -> length got <= BUFFER_SIZE - buffer_len c ->
  conn_ok (mk_conn (take (buffer_len c) (buffer c) ++ got ++ drop (buffer_len c + length got) (buffer c))
    (buffer_len c + length got)).
Proof.
  intros [H1 H2] Hg. unfold conn_ok. cbn [buffer buffer_len].
  rewrite !length_app, length_take, length_drop. lia.
Qed.

(** C25: whatever arrives, a [recv] that leaves the connection open leaves fewer than
    1048 bytes in its 4096-byte buffer, so the next [recv] asks for more than 3000 bytes and
    never for none; and every message sent has at most 1071 bytes. *)
Theorem reader_keeps_room localtime chunk c s c' sent s' :
  conn_idle c -> on_recv localtime chunk c s = Ret ((c', sent), s') ->
  (forall c1, c' = Some c1 -> conn_idle c1 /\ (3000 < Z.of_nat (BUFFER_SIZE - buffer_len c1))%Z) /\
  Forall message_fits sent.
Proof.
  intros [Hc _] H. unfold on_recv in H. case_decide as Hd; [by apply mret_inv in H as [[= <- <-] _]|].
  apply handle_packets_idle in H as [H1 H2]; [|apply on_recv_conn; [done|rewrite length_take; apply Nat.le_min_l]|constructor]. split; [|done].
  intros c1 Hc1. apply H1 in Hc1. split; [done|]. destruct Hc1 as [_ Hc1]. pose proof buffer_size_Z. lia.
Qed.

(** C32: the inner loop ends: it never does more rounds than one for every 24 buffered
    bytes and a last one (at most 171 for a full buffer), so any larger fuel gives the same
    run, and the fuel [on_recv] takes, one more than the bytes, is enough. *)
Theorem reader_fuel_enough localtime n c sent s :
  rounds c <= n ->
  handle_packets localtime n c sent s = handle_packets localtime (rounds c) c sent s /\
  rounds c <= S (buffer_len c).
Proof.
  intros Hn. split.
  - replace n with (rounds c + (n - rounds c)) by lia. apply handle_packets_fuel.
    unfold rounds. pose proof (Nat.mul_succ_div_gt (buffer_len c) TCP_HEADER_SIZE). unfold TCP_HEADER_SIZE in *. lia.
  - unfold rounds. pose proof (Nat.Div0.div_le_upper_bound (buffer_len c) TCP_HEADER_SIZE (buffer_len c)).
    unfold TCP_HEADER_SIZE in *. lia.
Qed.

(** ** Requests that arrive in pieces *)

(** The bytes of the connection that are not handled yet. *)
Definition pending (c : conn) (p : list byte) : Prop :=
  exists rest, buffer c = p ++ rest /\ buffer_len c = length p /\ length (p ++ rest) = BUFFER_SIZE.

Lemma pending_ok c p : pending c p -> conn_ok c.
Proof. intros (rest & E1 & E2 & E3). split; rewrite ?E1, ?E2; [done|]. rewrite length_app in E3. lia. Qed.

Lemma recv_appends localtime c p chunk s :
  pending c p -> chunk <> [] -> length p + length chunk <= BUFFER_SIZE ->
  exists c1, pending c1 (p ++ chunk) /\
    on_recv localtime chunk c s = handle_packets localtime (S (length (p ++ chunk))) c1 [] s.
Proof.
  intros (rest & E1 & E2 & E3) Hne Hl. unfold on_recv. rewrite E1, E2, take_ge by lia.
  rewrite decide_False, take_app_length, <- length_app by done.
  eexists. split; [|reflexivity].
  exists (drop (length chunk) rest). cbn [buffer buffer_len]. rewrite length_app in E3.
  rewrite length_app, drop_app_ge, app_assoc by lia. split; [do 2 f_equal; lia|].
  rewrite !length_app, length_drop. split; [done|lia].
Qed.

Lemma parse_head cmd seq fl n rest :
  u32 cmd -> u32 seq -> u32 fl -> n <= 1024 ->
  parse_tcp_header (Some (head24 cmd seq fl n ++ rest))
  = (0%Z, Some (mk_tcp TCP_MAGIC TCP_VERSION cmd (Z.of_nat n) seq fl)).
Proof.
  intros Hc Hs Hf Hn. pose proof (parse_packet cmd seq fl (replicate n x00) rest Hc Hs Hf) as H.
  rewrite packet_head, length_replicate, <- app_assoc in H. rewrite <- H by done. reflexivity.
Qed.

(** A packet that is not complete is left in the buffer. *)
Lemma handle_waits localtime n c p more cmd seq fl d sent s :
  pending c p -> p ++ more = packet cmd seq fl d -> more <> [] ->
  u32 cmd -> u32 seq -> u32 fl -> length d <= 1024 ->
  handle_packets localtime (S n) c sent s = Ret ((Some c, sent), s).
Proof.
  intros (rest & E1 & E2 & E3) Hp Hne Hc Hs Hf Hd. cbn [handle_packets]. rewrite E1, E2.
  case_decide as Hlen; [done|].
  assert (exists d1, p = head24 cmd seq fl (length d) ++ d1) as [d1 ->].
  { exists (drop 24 p). rewrite packet_head in Hp. apply (f_equal (take 24)) in Hp.
    rewrite take_app_le in Hp by (unfold TCP_HEADER_SIZE in Hlen; lia).
    rewrite <- (length_head24 cmd seq fl (length d)) in Hp at 2. rewrite take_app_length in Hp.
    by rewrite <- Hp, take_drop. }
  rewrite <- app_assoc, parse_head by done. cbn [Z.ltb Z.compare data_len]. rewrite Nat2Z.id.
  rewrite decide_True; [done|]. apply (f_equal length) in Hp.
  rewrite length_packet, !length_app, length_head24 in *. destruct more; [done|]. cbn [length] in Hp. lia.
Qed.

(** A complete packet is answered and removed. *)
Lemma handle_answers localtime n c cmd seq fl d s b' resp s' rest :
  buffer c = packet cmd seq fl d ++ rest -> buffer_len c = length (packet cmd seq fl d) ->
  length (packet cmd seq fl d ++ rest) = BUFFER_SIZE ->
  u32 cmd -> u32 seq -> u32 fl -> length d <= 1024 ->
  kvs_tcp_protocol localtime (packet cmd seq fl d ++ rest) (Z.of_nat (length (packet cmd seq fl d))) s
    = Ret ((Z.of_nat (length resp), b', resp), s') ->
  exists c', pending c' [] /\
    handle_packets localtime (S (S n)) c [] s
    = Ret ((Some c', [send_message (mk_tcp TCP_MAGIC TCP_VERSION cmd (Z.of_nat (length d)) seq fl) resp]), s').
Proof.
  intros E1 E2 E3 Hc Hs Hf Hd Hrun. remember (S n) as n1 eqn:En.
  cbn [handle_packets]. rewrite E1, E2.
  rewrite decide_False by (rewrite length_packet; lia).
  rewrite parse_packet by done. cbn [Z.ltb Z.compare data_len]. rewrite Nat2Z.id.
  rewrite <- length_packet with (cmd := cmd) (seq := seq) (fl := fl), decide_False by lia.
  rewrite (bind_ret _ _ _ _ _ Hrun). cbn [fst snd].
  pose proof (protocol_length _ _ _ _ _ _ _ _ Hrun) as Hb. apply response_fits in Hrun.
  unfold MAX_RESPONSE, RESULT_SIZE, TCP_HEADER_SIZE in Hrun.
  destruct (Z.ltb_spec 0 (Z.of_nat (length resp))); [|lia].
  rewrite decide_False by (pose proof send_size_Z; unfold TCP_HEADER_SIZE; lia). rewrite bind_mret, Nat.sub_diag, En.
  eexists. split; [|reflexivity].
  exists (move_down (length (packet cmd seq fl d)) (length (packet cmd seq fl d)) b').
  split; [done|]. split; [done|]. cbn [app]. rewrite length_move_down; [by rewrite Hb|].
  rewrite Hb, length_app. lia.
Qed.

Lemma reader_loop_app localtime l2 : forall l1 c sent s c' sent' s',
  reader_loop localtime l1 c sent s = Ret ((Some c', sent'), s') ->
  reader_loop localtime (l1 ++ l2) c sent s = reader_loop localtime l2 c' sent' s'.
Proof.
  induction l1 as [|ch l1 IH]; intros c sent s c' sent' s' H; cbn [reader_loop app] in *.
  - by apply mret_inv in H as [[= <- <-] <-].
  - apply bind_inv in H as (r & s1 & E & H). rewrite (bind_ret _ _ _ _ _ E).
    destruct (r.1); [by apply IH|by apply mret_inv in H as [[=] _]].
Qed.

(** The header of a request. *)
Definition request_header (cmd seq fl : Z) (d : list byte) : tcp_header_t :=
  mk_tcp TCP_MAGIC TCP_VERSION cmd (Z.of_nat (length d)) seq fl.

(** A piece that does not complete the packet is kept. *)
Lemma recv_waits localtime cmd seq fl d c p ch more s :
  u32 cmd -> u32 seq -> u32 fl -> length d <= 1024 ->
  pending c p -> ch <> [] -> more <> [] -> p ++ ch ++ more = packet cmd seq fl d ->
  exists c', pending c' (p ++ ch) /\ on_recv localtime ch c s = Ret ((Some c', []), s).
Proof.
  intros Hc Hs Hf Hd Hpend Hch Hmore Hp.
  assert (Hlen : length p + length ch <= 24 + 1024).
  { apply (f_equal length) in Hp. rewrite length_packet, !length_app in Hp. unfold TCP_HEADER_SIZE in Hp. lia. }
  destruct (recv_appends localtime c p ch s Hpend Hch) as (c1 & Hpend1 & E); [pose proof buffer_size_Z; lia|].
  exists c1. split; [done|]. rewrite app_assoc in Hp. rewrite E. by apply (handle_waits localtime _ c1 (p ++ ch) more cmd seq fl d).
Qed.

(** The piece that completes it is answered. *)
Lemma recv_completes localtime cmd seq fl d c p ch s resp s' :
  u32 cmd -> u32 seq -> u32 fl -> length d <= 1024 ->
  (forall x rest, exists b', kvs_tcp_protocol localtime (packet cmd seq fl d ++ x :: rest)
     (Z.of_nat (length (packet cmd seq fl d))) s = Ret ((Z.of_nat (length resp), b', resp), s')) ->
  pending c p -> ch <> [] -> p ++ ch = packet cmd seq fl d ->
  exists c', pending c' [] /\
    on_recv localtime ch c s = Ret ((Some c', [send_message (request_header cmd seq fl d) resp]), s').
Proof.
  intros Hc Hs Hf Hd Hrun Hpend Hch Hp.
  assert (Hlen : length p + length ch <= 24 + 1024).
  { apply (f_equal length) in Hp. rewrite length_packet, !length_app in Hp. unfold TCP_HEADER_SIZE in Hp. lia. }
  destruct (recv_appends localtime c p ch s Hpend Hch) as (c1 & Hpend1 & E); [pose proof buffer_size_Z; lia|].
  rewrite Hp in Hpend1, E. destruct Hpend1 as (rest & E1 & E2 & E3). destruct rest as [|x rest].
  { rewrite app_nil_r, <- Hp, length_app in E3. pose proof buffer_size_Z. lia. }
  destruct (Hrun x rest) as [b' Hb]. rewrite length_packet in E. cbn [TCP_HEADER_SIZE Nat.add] in E.
  destruct (handle_answers localtime (23 + length d) c1 cmd seq fl d s b' resp s' (x :: rest) E1 E2 E3 Hc Hs Hf Hd Hb)
    as (c' & Hpend' & Eh).
  exists c'. split; [done|]. cbn [Nat.add] in Eh. by rewrite Eh in E.
Qed.

(** However its bytes are cut into pieces, a request is handled once, when it is complete. *)
Lemma reader_pieces localtime cmd seq fl d s resp s' :
  u32 cmd -> u32 seq -> u32 fl -> length d <= 1024 ->
  (forall x rest, exists b', kvs_tcp_protocol localtime (packet cmd seq fl d ++ x :: rest)
     (Z.of_nat (length (packet cmd seq fl d))) s = Ret ((Z.of_nat (length resp), b', resp), s')) ->
  forall chunks c p sent,
  pending c p -> p ++ concat chunks = packet cmd seq fl d -> Forall (fun ch => ch <> []) chunks ->
  chunks <> [] ->
  exists c', pending c' [] /\
    reader_loop localtime chunks c sent s
    = Ret ((Some c', sent ++ [send_message (request_header cmd seq fl d) resp]), s').
Proof.
  intros Hc Hs Hf Hd Hrun. induction chunks as [|ch chunks IH]; intros c p sent Hpend Hp Hne Hnil; [done|].
  apply list.Forall_cons in Hne as [Hch Hne]. cbn [reader_loop concat] in *.
  destruct chunks as [|ch2 chunks].
  - cbn [concat] in Hp. rewrite app_nil_r in Hp.
    destruct (recv_completes localtime cmd seq fl d c p ch s resp s') as (c' & Hpend' & E); try done.
    exists c'. split; [done|]. by rewrite (bind_ret _ _ _ _ _ E).
  - pose proof Hne as [Hch2 _]%list.Forall_cons.
    destruct (recv_waits localtime cmd seq fl d c p ch (concat (ch2 :: chunks)) s) as (c1 & Hpend1 & E); try done.
    { cbn [concat]. by destruct ch2. }
    rewrite (bind_ret _ _ _ _ _ E). cbn [fst snd]. rewrite app_nil_r.
    rewrite app_assoc in Hp. by apply (IH c1 (p ++ ch)).
Qed.

(** ** A session *)

(** A command on the wire: sequence number, flags, and the pieces it arrives in. *)
Record wire := mk_wire { w_req : command; w_seq : Z; w_flags : Z; w_chunks : list (list byte) }.

Definition wire_ok (x : wire) : Prop :=
  u32 (w_seq x) /\ u32 (w_flags x) /\ Forall (fun ch => ch <> []) (w_chunks x) /\
  concat (w_chunks x) = command_packet (w_req x) (w_seq x) (w_flags x).

Fixpoint session_ok (d : db) (l : list wire) : Prop :=
  match l with
  | [] => True
  | x :: l => wire_ok x /\ command_ok d (w_req x) /\ session_ok (db_after d (w_req x)) l
  end.

(** The message the database would send. *)
Definition db_message (d : db) (c : command) (seq fl : Z) : list byte :=
  send_message (request_header (command_cmd c) seq fl (command_data c)) (db_answer d c seq).

Fixpoint db_session (d : db) (l : list wire) : list (list byte) :=
  match l with
  | [] => []
  | x :: l => db_message d (w_req x) (w_seq x) (w_flags x) :: db_session (db_after d (w_req x)) l
  end.

Definition db_end (d : db) (l : list wire) : db := fold_left (fun d x => db_after d (w_req x)) l d.

(** One request of a session. *)
Lemma reader_one localtime w d x c sent :
  db_rep w d -> wire_ok x -> command_ok d (w_req x) -> pending c [] ->
  exists c' w', pending c' [] /\ db_rep w' (db_after d (w_req x)) /\
    reader_loop localtime (w_chunks x) c sent (w, [])
    = Ret ((Some c', sent ++ [db_message d (w_req x) (w_seq x) (w_flags x)]), (w', [])).
Proof.
  intros Hr (Hs & Hf & Hne & Hcat) Hq Hc.
  assert (Hch : w_chunks x <> []).
  { intros E. rewrite E in Hcat. apply (f_equal length) in Hcat. unfold command_packet in Hcat.
    rewrite length_packet in Hcat. done. }
  destruct (command_run localtime w d (w_req x) (w_seq x) (w_flags x) Hr Hq Hs Hf) as (w' & Hr' & E).
  destruct (reader_pieces localtime _ _ _ _ (w, []) _ (w', []) (u32_command_cmd d (w_req x) Hq) Hs Hf (proj1 Hq) E
    (w_chunks x) c [] sent Hc Hcat Hne Hch) as (c' & Hc' & Eloop).
  by exists c', w'.
Qed.

Lemma reader_many localtime : forall l w d c sent,
  db_rep w d -> session_ok d l -> pending c [] ->
  exists c' w', pending c' [] /\ db_rep w' (db_end d l) /\
    reader_loop localtime (concat (w_chunks <$> l)) c sent (w, [])
    = Ret ((Some c', sent ++ db_session d l), (w', [])).
Proof.
  induction l as [|x l IH]; intros w d c sent Hr Hok Hc; cbn [fmap list_fmap concat db_session session_ok] in *.
  - exists c, w. by rewrite app_nil_r.
  - destruct Hok as (Hx & Hq & Hok).
    destruct (reader_one localtime w d x c sent Hr Hx Hq Hc) as (c1 & w1 & Hc1 & Hr1 & E1).
    destruct (IH w1 _ c1 (sent ++ [db_message d (w_req x) (w_seq x) (w_flags x)]) Hr1 Hok Hc1)
      as (c' & w' & Hc' & Hr' & E2).
    exists c', w'. split; [done|]. split; [done|].
    rewrite (reader_loop_app localtime _ _ _ _ _ _ _ _ E1), E2, <- app_assoc. done.
Qed.

(** A whole connection refines the database: a session of commands, each cut into pieces in
    any way but sent after the answer to the one before, is answered message by message with
    what the database answers, the connection stays open with an empty buffer, and the
    engines end as the database does. *)
Theorem session_refines_db localtime l w d :
  db_rep w d -> session_ok d l ->
  exists c' w', buffer_len c' = 0 /\ db_rep w' (db_end d l) /\
    server_reader localtime (concat (w_chunks <$> l)) (w, [])
    = Ret ((Some c', db_session d l), (w', [])).
Proof.
  intros Hr Hok. unfold server_reader.
  destruct (reader_many localtime l w d (mk_conn (replicate BUFFER_SIZE x00) 0) [] Hr Hok)
    as (c' & w' & (rest & _ & Hlen & _) & Hr' & E).
  { exists (replicate BUFFER_SIZE x00). split; [done|]. split; [done|]. apply length_replicate. }
  by exists c', w'.
Qed.

(** A pair for the red-black tree in three pieces, and a command nobody has. *)
Definition session_example : list wire :=
  [mk_wire (Kv SRbtree (RSet (bs "Teacher") (bs "King"))) 1 0
     [take 10 (packet CMD_RSET 1 0 (bs "Teacher" ++ x20 :: bs "King"));
      take 17 (drop 10 (packet CMD_RSET 1 0 (bs "Teacher" ++ x20 :: bs "King")));
      drop 27 (packet CMD_RSET 1 0 (bs "Teacher" ++ x20 :: bs "King"))];
   mk_wire (Kv SRbtree (RGet (bs "Teacher"))) 2 0 [packet CMD_RGET 2 0 (bs "Teacher")];
   mk_wire (COther 99 (bs "?")) 3 0 [packet 99 3 0 (bs "?")]].

Example session_refines_db_witness :
  exists c' w', buffer_len c' = 0 /\
    db_rep w' (db_end (db0 NoSaves) session_example) /\
    server_reader some_tm (concat (w_chunks <$> session_example)) (db_world [], [])
    = Ret ((Some c', db_session (db0 NoSaves) session_example), (w', [])).
Proof.
  apply (session_refines_db some_tm session_example (db_world []) (db0 NoSaves) (db_world_rep [])).
  cbn [session_ok session_example w_req]. unfold wire_ok, command_ok, request_ok.
  cbn [w_seq w_flags w_chunks w_req command_data request_data store_takes].
  repeat match goal with
  | |- _ /\ _ => split
  | |- True => exact I
  | |- u32 _ => by split
  | |- Forall _ _ => repeat constructor; vm_compute; discriminate
  | |- plain _ => split; vm_compute; set_solver
  | |- cstr_ok _ => vm_compute; set_solver
  | |- concat _ = _ => by vm_compute
  | |- _ <= _ => cbn; lia
  | |- _ <> _ => discriminate
  | |- _ ∉ _ => vm_compute; set_solver
  end.
Defined.

Definition fresh_conn : conn := mk_conn (replicate BUFFER_SIZE x00) 0.

Lemma fresh_conn_idle : conn_idle fresh_conn.
Proof.
  split; [split; cbn [buffer buffer_len fresh_conn]|cbn [buffer_len fresh_conn]; lia];
    [apply length_replicate|pose proof buffer_size_Z; lia].
Qed.

Example reader_fuel_enough_witness :
  handle_packets some_tm 100 (mk_conn (packet CMD_GET 1 0 (bs "k") ++ replicate 4071 x00) 25) [] (empty_world, [])
  = handle_packets some_tm 2 (mk_conn (packet CMD_GET 1 0 (bs "k") ++ replicate 4071 x00) 25) [] (empty_world, []).
Proof.
  apply (reader_fuel_enough some_tm 100 (mk_conn (packet CMD_GET 1 0 (bs "k") ++ replicate 4071 x00) 25)).
  unfold rounds. change (buffer_len _) with 25. change (25 / TCP_HEADER_SIZE) with 1. lia.
Defined.

Example reader_keeps_room_witness :
  exists c s', on_recv some_tm (take 10 (packet CMD_GET 1 0 (bs "k"))) fresh_conn (empty_world, [])
      = Ret ((Some c, []), s') /\ (3000 < Z.of_nat (BUFFER_SIZE - buffer_len c))%Z.
Proof.
  assert (H : on_recv some_tm (take 10 (packet CMD_GET 1 0 (bs "k"))) fresh_conn (empty_world, [])
    = Ret ((Some (mk_conn (take 10 (packet CMD_GET 1 0 (bs "k")) ++ replicate 4086 x00) 10), []),
        (empty_world, []))) by (vm_compute; reflexivity).
  eexists _, _. split; [exact H|].
  by apply (reader_keeps_room some_tm _ _ _ _ _ _ fresh_conn_idle H).
Defined.

(** ** Requests sent without waiting *)

Lemma put_nul_keeps_nul j i (b : list byte) (s : world * alloc) b' s' :
  b !! j = Some x00 -> put_nul i b s = Ret (b', s') -> b' !! j = Some x00.
Proof.
  unfold put_nul. intros Hj H. case_decide; [|done]. injection H as <- <-.
  destruct (decide (i = j)) as [->|]; [by apply list_lookup_insert_eq|by rewrite list_lookup_insert_ne].
Qed.

Lemma put_nul_at i (b : list byte) (s : world * alloc) b' s' : put_nul i b s = Ret (b', s') -> b' !! i = Some x00.
Proof.
  unfold put_nul. intros H. case_decide; [|done]. injection H as <- <-. by apply list_lookup_insert_eq.
Qed.

(** Splitting leaves a NUL behind the data. *)
Lemma split_ends_data b n s kvb s' :
  n <> 0 -> split_data b n s = Ret (kvb, s') -> kvb.2 !! (TCP_HEADER_SIZE + n) = Some x00.
Proof.
  intros Hn H. unfold split_data in H. case_decide; [done|].
  apply bind_inv in H as (b1 & s1 & E1 & H). apply put_nul_at in E1.
  destruct (strchr _ _).
  - apply bind_inv in H as (b2 & s2 & E2 & H). apply (put_nul_keeps_nul _ _ _ _ _ _ E1) in E2.
    by apply mret_inv in H as [<- _].
  - by apply mret_inv in H as [<- _].
Qed.

(** A call on a packet with data writes a NUL on the byte after the packet. *)
Lemma protocol_ends_data localtime b n s r b' resp s' h :
  kvs_tcp_protocol localtime b n s = Ret ((r, b', resp), s') -> (0 < r)%Z ->
  parse_tcp_header (Some b) = (0%Z, Some h) -> data_len h <> 0%Z ->
  b' !! (TCP_HEADER_SIZE + Z.to_nat (data_len h)) = Some x00.
Proof.
  intros H Hr Hp Hd. apply protocol_inv in H as [?|(h1 & kvb & s1 & rb & Hp1 & Es & Ed & -> & _)]; [lia|].
  rewrite Hp in Hp1. injection Hp1 as <-.
  assert (Hd' : Z.to_nat (data_len h) <> 0).
  { pose proof (parse_code _ _ _ Hp). lia. }
  apply (split_ends_data _ _ _ _ _ Hd') in Es.
  eapply (dispatch_keeps (fun x => x !! (TCP_HEADER_SIZE + Z.to_nat (data_len h)) = Some x00)); [|exact Es|exact Ed].
  intros i x y z t. apply put_nul_keeps_nul.
Qed.

(** A header that begins with a NUL is refused. *)
Lemma parse_nul b : exists r h, parse_tcp_header (Some (x00 :: b)) = (r, Some h) /\ (r < 0)%Z.
Proof.
  unfold parse_tcp_header. eexists _, _. split; [reflexivity|]. cbn [magic version data_len].
  assert (Hm : field (x00 :: b) 0 <> TCP_MAGIC).
  { unfold field. rewrite drop_0. cbn [take]. unfold be_val. rewrite reverse_cons, le_val_app. cbn [le_val].
    pose proof (le_val_range (reverse (take 3 b))) as Hl. rewrite length_reverse in Hl.
    assert (2 ^ (8 * Z.of_nat (length (take 3 b))) <= 2 ^ 24)%Z
      by (apply Z.pow_le_mono_r; rewrite ?length_take; lia).
    change (b2z x00) with 0%Z. unfold TCP_MAGIC. lia. }
  apply Z.eqb_neq in Hm. rewrite Hm. done.
Qed.

(** C37: when a request with data is followed by more bytes in the buffer, the NUL that
    ends its data falls on the first byte of the next packet: the first request is answered,
    the next one is taken for garbage and the connection is closed. *)
Theorem pipelined_request_lost localtime n c sent cmd seq fl d more rest s r b' resp s' :
  let req := packet cmd seq fl d in
  pending c (req ++ more) -> buffer c = (req ++ more) ++ rest -> TCP_HEADER_SIZE <= length more ->
  u32 cmd -> u32 seq -> u32 fl -> 0 < length d <= 1024 ->
  kvs_tcp_protocol localtime (buffer c) (Z.of_nat (length req)) s = Ret ((r, b', resp), s') -> (0 < r)%Z ->
  handle_packets localtime (S (S n)) c sent s
  = Ret ((None, sent ++ [send_message (request_header cmd seq fl d) resp]), s').
Proof.
  intros req (rest' & E1 & E2 & E3) E1' Hm Hc Hs Hf Hd Hrun Hr.
  rewrite E1' in E1. apply app_inv_head in E1. subst rest'.
  remember (S n) as n1 eqn:En. cbn [handle_packets].
  assert (Hp : parse_tcp_header (Some (buffer c)) = (0%Z, Some (request_header cmd seq fl d))).
  { rewrite E1', <- app_assoc. apply parse_packet; [done..|lia]. }
  rewrite Hp, E2. unfold req in *. rewrite length_app, length_packet in *.
  rewrite decide_False by lia. cbn [Z.ltb Z.compare request_header data_len]. rewrite Nat2Z.id, decide_False by lia.
  rewrite (bind_ret _ _ _ _ _ Hrun). cbn [fst snd].
  pose proof (protocol_length _ _ _ _ _ _ _ _ Hrun) as Hb.
  pose proof (protocol_ends_data _ _ _ _ _ _ _ _ _ Hrun Hr Hp) as Hnul.
  cbn [request_header data_len] in Hnul. rewrite Nat2Z.id in Hnul. specialize (Hnul ltac:(lia)).
  apply response_fits in Hrun.
  unfold MAX_RESPONSE, RESULT_SIZE, TCP_HEADER_SIZE in Hrun. destruct (Z.ltb_spec 0 r); [|lia].
  rewrite decide_False by (pose proof send_size_Z; unfold TCP_HEADER_SIZE; lia). rewrite bind_mret, En.
  cbn [handle_packets buffer buffer_len]. rewrite decide_False by lia.
  assert (exists b2, move_down (TCP_HEADER_SIZE + length d) (TCP_HEADER_SIZE + length d + length more) b' = x00 :: b2)
    as [b2 ->].
  { clear Hrun. unfold move_down. rewrite (drop_S _ _ _ Hnul).
    destruct (_ - _) as [|k] eqn:Ek; [unfold TCP_HEADER_SIZE in *; lia|]. cbn [take app]. by eexists. }
  destruct (parse_nul b2) as (r2 & h2 & -> & Hr2). destruct (Z.ltb_spec r2 0); [done|lia].
Qed.

Definition two_sets : list byte :=
  packet CMD_SET 1 0 (bs "a" ++ x20 :: bs "1") ++ packet CMD_SET 2 0 (bs "b" ++ x20 :: bs "2").

Definition two_sets_conn : conn := mk_conn (two_sets ++ replicate 4042 x00) 54.

(** The first pair is stored and answered [OK]; the second is not. *)
Example pipelined_request_lost_witness :
  exists s', handle_packets some_tm 55 two_sets_conn [] (empty_world, [])
    = Ret ((None, [send_message (request_header CMD_SET 1 0 (bs "a" ++ x20 :: bs "1"))
        (build_tcp_response CMD_SET 1 (bs "OK"))]), s') /\
    (exists s2, Array.kvs_array_get (Some (bs "a")) (w_array s'.1, []) = Ret (Str (bs "1"), s2)) /\
    (exists s2, Array.kvs_array_get (Some (bs "b")) (w_array s'.1, []) = Ret (Null, s2)).
Proof.
  assert (Hrun : exists b' s', kvs_tcp_protocol some_tm (buffer two_sets_conn) 27 (empty_world, [])
      = Ret ((26%Z, b', build_tcp_response CMD_SET 1 (bs "OK")), s') /\
    (exists s2, Array.kvs_array_get (Some (bs "a")) (w_array s'.1, []) = Ret (Str (bs "1"), s2)) /\
    (exists s2, Array.kvs_array_get (Some (bs "b")) (w_array s'.1, []) = Ret (Null, s2))).
  { eexists _, _. split; [vm_compute; reflexivity|]. split; eexists; vm_compute; reflexivity. }
  destruct Hrun as (b' & s' & Hrun & Hget). exists s'. split; [|exact Hget].
  apply (pipelined_request_lost some_tm 53 two_sets_conn [] CMD_SET 1 0 (bs "a" ++ x20 :: bs "1")
    (packet CMD_SET 2 0 (bs "b" ++ x20 :: bs "2")) (replicate 4042 x00) (empty_world, []) 26 b' _ s').
  - exists (replicate 4042 x00). split; [reflexivity|]. split; [reflexivity|].
    rewrite length_app, length_replicate. vm_compute. reflexivity.
  - reflexivity.
  - rewrite length_packet. lia.
  - by split.
  - by split.
  - by split.
  - cbn. lia.
  - exact Hrun.
  - lia.
Defined.
