(* ===== verification/TestClient.v ===== *)
(** * The load test ([src/testcase.c])

    Every thread of the test opens a connection, sends one text command after another and
    compares each answer with a fixed text.  A thread is a tree of what it does with its
    connection; what it receives, and how many milliseconds pass, come from the other side. *)

From S2P Require Import Prelude Engine KvsArray KvsHash KvsRbtree KvsSkiptable CNum.
Import CNum.

Module TestClient.

Definition MAX_MSG_LENGTH : nat := 1024.

(** [Exit]: [pthread_exit].  [Recv n k]: [recv] of at most [n] bytes; no bytes are the end of
    the connection or an error.  [Elapsed]: the milliseconds between the two calls of
    [gettimeofday]. *)
Inductive prog (A : Type) :=
  | Done (a : A)
  | Exit (v : Z)
  | Crash (f : fault)
  | Send (msg : list byte) (k : prog A)
  | Recv (n : nat) (k : list byte -> prog A)
  | Elapsed (k : Z -> prog A).
Arguments Done {A} _.
Arguments Exit {A} _.
Arguments Crash {A} _.
Arguments Send {A} _ _.
Arguments Recv {A} _ _.
Arguments Elapsed {A} _.

Fixpoint prog_bind {A B} (f : A -> prog B) (p : prog A) : prog B :=
  match p with
  | Done a => f a
  | Exit v => Exit v
  | Crash x => Crash x
  | Send msg k => Send msg (prog_bind f k)
  | Recv n k => Recv n (fun got => prog_bind f (k got))
  | Elapsed k => Elapsed (fun ms => prog_bind f (k ms))
  end.

#[export] Instance prog_ret : MRet prog := @Done.
#[export] Instance prog_mbind : MBind prog := @prog_bind.

Definition crlf : list byte := [x0d; x0a].
Definition line (s : string) : cstr := bs s ++ crlf.

(** [strstr(s, "\r\n") != NULL] for a terminated string. *)
Fixpoint has_crlf (s : list byte) : bool :=
  match s with
  | c :: (d :: _) as s' => bool_decide (c = x0d /\ d = x0a) || has_crlf s'
  | _ => false
  end.

(** The result of [send] is ignored by the caller. *)
Definition send_msg (msg : list byte) : prog unit := Send msg (Done tt).

(** The loop of [recv_msg]: [msg] is what has come, in a zeroed buffer of [n] bytes.  Every
    round takes a byte at least, so the fuel, the room at the start, is 0 only when the
    buffer is full. *)
Fixpoint recv_loop (fuel n : nat) (msg : list byte) : prog (option (list byte)) :=
  match fuel with
  | O => Done (Some msg)
  | S fuel =>
      if decide (n <= length msg) then Done (Some msg) else
      Recv (n - length msg) (fun bytes =>
        let got := take (n - length msg) bytes in
        if decide (got = []) then Done None else
        let msg := msg ++ got in
        if has_crlf (cut_nul msg) then Done (Some msg)
        else if decide (length msg = n /\ x00 ∉ msg) then Crash OutOfBounds
        else recv_loop fuel n msg)
  end.

(** [None]: -1. *)
Definition recv_msg (n : nat) : prog (option (list byte)) := recv_loop n n [].

Definition testcase (msg : list byte) (pattern : cstr) : prog unit :=
  send_msg msg ;;
  r ← recv_msg MAX_MSG_LENGTH;
  match r with
  | None => Exit 1
  | Some result => if decide (cut_nul result = pattern) then mret tt else Exit 1
  end.

(** [for (i = ..; i < count; i++)]: [n] rounds from [i]. *)
Fixpoint for_loop (n i : nat) (body : nat -> prog unit) : prog unit :=
  match n with
  | O => mret tt
  | S n => body i ;; for_loop n (S i) body
  end.

(** The end of every test: the time, and the requests per second. *)
Definition report : prog unit :=
  Elapsed (fun time_used => if (time_used =? 0)%Z then Crash DivByZero else mret tt).

Definition array_testcase_1w : prog unit :=
  for_loop (Z.to_nat 10000) 0 (fun _ =>
    testcase (bs "SET Teacher King") (line "OK") ;;
    testcase (bs "GET Teacher") (line "King") ;;
    testcase (bs "MOD Teacher Darren") (line "OK") ;;
    testcase (bs "GET Teacher") (line "Darren") ;;
    testcase (bs "EXIST Teacher") (line "EXIST")) ;;
  report.

Definition rbtree_testcase_1w : prog unit :=
  for_loop (Z.to_nat 10000) 0 (fun _ =>
    testcase (bs "RSET Teacher King") (line "OK") ;;
    testcase (bs "RGET Teacher") (line "King") ;;
    testcase (bs "RMOD Teacher Darren") (line "OK") ;;
    testcase (bs "RGET Teacher") (line "Darren") ;;
    testcase (bs "REXIST Teacher") (line "EXIST") ;;
    testcase (bs "RDEL Teacher") (line "OK") ;;
    testcase (bs "RGET Teacher") (line "NO EXIST") ;;
    testcase (bs "RMOD Teacher KING") (line "NO EXIST") ;;
    testcase (bs "REXIST Teacher") (line "NO EXIST")) ;;
  report.

(** The numbered commands fit their buffers of 128 bytes. *)
Definition rbtree_testcase_3w : prog unit :=
  for_loop (Z.to_nat 50000) 0 (fun i =>
    let d := fmt_d (Z.of_nat i) in
    testcase (bs "RSET Teacher" ++ d ++ bs " King" ++ d) (line "OK")) ;;
  for_loop (Z.to_nat 50000) 0 (fun i =>
    let d := fmt_d (Z.of_nat i) in
    testcase (bs "RGET Teacher" ++ d) (bs "King" ++ d ++ crlf)) ;;
  report.

Definition hash_testcase_1w : prog unit :=
  for_loop (Z.to_nat 10000) 0 (fun _ =>
    testcase (bs "HSET Teacher King") (line "OK") ;;
    testcase (bs "HGET Teacher") (line "King") ;;
    testcase (bs "HMOD Teacher Darren") (line "OK") ;;
    testcase (bs "HGET Teacher") (line "Darren") ;;
    testcase (bs "HEXIST Teacher") (line "EXIST") ;;
    testcase (bs "HDEL Teacher") (line "OK") ;;
    testcase (bs "HGET Teacher") (line "NO EXIST") ;;
    testcase (bs "HMOD Teacher KING") (line "NO EXIST") ;;
    testcase (bs "HEXIST Teacher") (line "NO EXIST")) ;;
  report.

Definition hash_testcase_3w : prog unit :=
  for_loop (Z.to_nat 50000) 0 (fun i =>
    let d := fmt_d (Z.of_nat i) in
    testcase (bs "HSET Teacher" ++ d ++ bs " King" ++ d) (line "OK")) ;;
  for_loop (Z.to_nat 50000) 0 (fun i =>
    let d := fmt_d (Z.of_nat i) in
    testcase (bs "HGET Teacher" ++ d) (bs "King" ++ d ++ crlf)) ;;
  report.

(** [connected]: whether [connect] succeeds. *)
Definition thread_worker (mode : Z) (connected : bool) : prog unit :=
  if negb connected then Exit 1 else
  (if (mode =? 0)%Z then rbtree_testcase_1w
   else if (mode =? 1)%Z then rbtree_testcase_3w
   else if (mode =? 2)%Z then array_testcase_1w
   else if (mode =? 3)%Z then hash_testcase_1w
   else if (mode =? 4)%Z then hash_testcase_3w
   else mret tt) ;;
  Exit 0.

(** The loop over the joined threads, [retval] being what thread [i] passed to
    [pthread_exit], and the value [main] returns. *)
Fixpoint join_all (n i : nat) (retval : nat -> Z) (all_passed : bool) : bool :=
  match n with
  | O => all_passed
  | S n => join_all n (S i) retval (if negb (retval i =? 0)%Z then false else all_passed)
  end.

Definition main (argv : list cstr) (retval : nat -> Z) : Z :=
  match argv with
  | [_; ip; port; mode; thread_num] =>
      if join_all (Z.to_nat (atoi thread_num)) 0 retval true then 0 else 1
  | _ => -1
  end%Z.

End TestClient.
