(* ===== verification/TestClientSpec.v ===== *)
(** * What the load test checks

    A thread of the test passes exactly when the server gives the expected answer to every
    message of a fixed script.  Against the server of this repository no thread gets that
    far: its first text command is shorter than a packet header, the server waits for the
    rest, and the test waits for the answer. *)

From S2P Require Import Prelude Engine KvsArray KvsHash KvsRbtree KvsSkiptable CNum Stdio World RdbConfig.
From S2P Require Import Rdb Protocol ProtocolSpec Ntyco NtycoSpec TestClient.
Import CNum Protocol Ntyco TestClient.

(** ** A client and its server *)

(** The other end of a connection: it gets bytes, and gives some to a [recv]; [None]: it
    never will. *)
Class Peer (S : Type) := {
  peer_take : S -> list byte -> S;
  peer_give : S -> nat -> option (list byte * S)
}.

Inductive ran (A S : Type) :=
  | Finished (a : A) (s : S)
  | Exited (v : Z) (s : S)
  | Crashed (f : fault)
  | Blocked (s : S).
Arguments Finished {A S} _ _.
Arguments Exited {A S} _ _.
Arguments Crashed {A S} _.
Arguments Blocked {A S} _.

Section running.
Context {S : Type} `{Peer S} (ms : Z).

Fixpoint run {A} (p : prog A) (s : S) : ran A S :=
  match p with
  | Done a => Finished a s
  | Exit v => Exited v s
  | Crash f => Crashed f
  | Send msg k => run k (peer_take s msg)
  | Recv n k => match peer_give s n with None => Blocked s | Some (got, s) => run (k got) s end
  | Elapsed k => run (k ms) s
  end.

Definition after {A B} (r : ran A S) (f : A -> S -> ran B S) : ran B S :=
  match r with
  | Finished a s => f a s
  | Exited v s => Exited v s
  | Crashed x => Crashed x
  | Blocked s => Blocked s
  end.

Lemma run_bind {A B} (p : prog A) (f : A -> prog B) : forall s,
  run (p ≫= f) s = after (run p s) (fun a s => run (f a) s).
Proof.
  unfold mbind, prog_mbind.
  induction p as [a|v|x|msg p IH|n k IH|k IH]; intros s; cbn [prog_bind run after]; try done.
  destruct (peer_give s n) as [[got s']|]; [apply IH|done].
Qed.
End running.

(** ** The script of a test *)

(** A server that answers every message at once. *)
Section answering.
Context {M : Type} (ans : M -> list byte -> cstr * M) (ms : Z).

#[local] Instance answering : Peer (M * list byte) := {|
  peer_take s msg := ((ans s.1 msg).2, s.2 ++ (ans s.1 msg).1);
  peer_give s n := if decide (s.2 = []) then None else Some (take n s.2, (s.1, drop n s.2))
|}.

(** An answer is a line that fits the buffer. *)
Definition full_line (a : cstr) : Prop := length a <= MAX_MSG_LENGTH /\ x00 ∉ a /\ has_crlf a = true.

Context (Hans : forall m msg, full_line (ans m msg).1).

Definition script := list (list byte * cstr).

(** Whether the answers are the expected ones, and the server after the first that is not. *)
Fixpoint play (l : script) (m : M) : bool * M :=
  match l with
  | [] => (true, m)
  | (msg, expected) :: l =>
      if decide ((ans m msg).1 = expected) then play l (ans m msg).2 else (false, (ans m msg).2)
  end.

Definition checks (p : prog unit) (l : script) : Prop :=
  forall m, run ms p (m, []) =
    if (play l m).1 then Finished tt ((play l m).2, []) else Exited 1 ((play l m).2, []).

Lemma play_app l1 l2 m :
  play (l1 ++ l2) m = if (play l1 m).1 then play l2 (play l1 m).2 else play l1 m.
Proof.
  revert m. induction l1 as [|[msg e] l1 IH]; intros m; [done|]. cbn [app play]. by case_decide.
Qed.

(** A line that comes at once. *)
Lemma recv_loop_line fuel n a m :
  length a <= n -> x00 ∉ a -> has_crlf a = true ->
  run ms (recv_loop (S fuel) n []) (m, a) = Finished (Some a) (m, []).
Proof.
  intros Hl H0 Hc. assert (Ha : a <> []) by (by intros ->). cbn [recv_loop].
  assert (0 < length a) by (destruct a; cbn; [done|lia]).
  rewrite decide_False by (cbn; lia). cbn [run peer_give answering fst snd].
  rewrite decide_False by done. cbn [length app]. rewrite Nat.sub_0_r.
  rewrite (take_ge a n), drop_ge by done. rewrite take_ge by done.
  rewrite decide_False by done. by rewrite cut_nul_id, Hc.
Qed.

Lemma recv_line a m :
  full_line a -> run ms (recv_msg MAX_MSG_LENGTH) (m, a) = Finished (Some a) (m, []).
Proof. intros (Hl & H0 & Hc). by apply recv_loop_line. Qed.

Lemma checks_testcase msg pattern : checks (testcase msg pattern) [(msg, pattern)].
Proof.
  intros m. unfold testcase, send_msg. rewrite run_bind. cbn [run after peer_take answering fst snd app].
  rewrite run_bind, (recv_line _ _ (Hans m msg)). cbn [after play]. destruct (Hans m msg) as (_ & H0 & _).
  rewrite cut_nul_id by done. by case_decide.
Qed.

Lemma checks_seq p q l1 l2 : checks p l1 -> checks q l2 -> checks (p ;; q) (l1 ++ l2).
Proof.
  intros Hp Hq m. rewrite run_bind, Hp, play_app. destruct (play l1 m).1 eqn:E; cbn [after]; [apply Hq|by rewrite E].
Qed.

Lemma checks_nil : checks (mret tt) [].
Proof. by intros m. Qed.

Lemma checks_loop body round n : forall i,
  (forall j, checks (body j) (round j)) -> checks (for_loop n i body) (concat (round <$> seq i n)).
Proof.
  induction n as [|n IH]; intros i Hb; cbn [for_loop seq]; [apply checks_nil|].
  rewrite fmap_cons. cbn [concat]. apply checks_seq; [done|by apply IH].
Qed.

(** A test that plays [l] and then reports the rate, which divides by the milliseconds. *)
Definition reports (p : prog unit) (l : script) : Prop :=
  forall m, run ms p (m, []) =
    if (play l m).1
    then (if (ms =? 0)%Z then Crashed DivByZero else Finished tt ((play l m).2, []))
    else Exited 1 ((play l m).2, []).

Lemma reports_end p l : checks p l -> reports (p ;; report) l.
Proof.
  intros Hp m. rewrite run_bind, Hp. destruct (play l m).1; cbn [after]; [|done]. unfold report. cbn [run].
  by destruct (ms =? 0)%Z.
Qed.

Lemma reports_seq p q l1 l2 : checks p l1 -> reports q l2 -> reports (p ;; q) (l1 ++ l2).
Proof.
  intros Hp Hq m. rewrite run_bind, Hp, play_app. destruct (play l1 m).1 eqn:E; cbn [after]; [apply Hq|by rewrite E].
Qed.

(** What every mode sends, and what it wants to hear. *)
Definition round_of (c : string) : script :=
  [(bs c ++ bs "SET Teacher King", line "OK"); (bs c ++ bs "GET Teacher", line "King");
   (bs c ++ bs "MOD Teacher Darren", line "OK"); (bs c ++ bs "GET Teacher", line "Darren");
   (bs c ++ bs "EXIST Teacher", line "EXIST")].
Definition gone_of (c : string) : script :=
  [(bs c ++ bs "DEL Teacher", line "OK"); (bs c ++ bs "GET Teacher", line "NO EXIST");
   (bs c ++ bs "MOD Teacher KING", line "NO EXIST"); (bs c ++ bs "EXIST Teacher", line "NO EXIST")].

Definition numbered_set (c : string) (i : nat) : script :=
  [(bs c ++ bs "SET Teacher" ++ fmt_d (Z.of_nat i) ++ bs " King" ++ fmt_d (Z.of_nat i), line "OK")].
Definition numbered_get (c : string) (i : nat) : script :=
  [(bs c ++ bs "GET Teacher" ++ fmt_d (Z.of_nat i), bs "King" ++ fmt_d (Z.of_nat i) ++ crlf)].

Definition rounds (n : Z) (round : nat -> script) : script := concat (round <$> seq 0 (Z.to_nat n)).

Definition test_script (mode : Z) : script :=
  if (mode =? 0)%Z then rounds 10000 (fun _ => round_of "R" ++ gone_of "R")
  else if (mode =? 1)%Z then rounds 50000 (numbered_set "R") ++ rounds 50000 (numbered_get "R")
  else if (mode =? 2)%Z then rounds 10000 (fun _ => round_of "")
  else if (mode =? 3)%Z then rounds 10000 (fun _ => round_of "H" ++ gone_of "H")
  else if (mode =? 4)%Z then rounds 50000 (numbered_set "H") ++ rounds 50000 (numbered_get "H")
  else [].

(** A sequence of tests, one by one. *)
Lemma checks_cons msg pattern p l :
  checks p l -> checks (testcase msg pattern ;; p) ((msg, pattern) :: l).
Proof. intros Hp. apply (checks_seq _ _ [(msg, pattern)]); [apply checks_testcase|done]. Qed.

Lemma checks_rounds n body round :
  (forall j, checks (body j) (round j)) -> checks (for_loop (Z.to_nat n) 0 body) (rounds n round).
Proof. apply checks_loop. Qed.

#[local] Ltac by_tests := intros j; repeat apply checks_cons; apply checks_testcase.

Lemma array_reports : reports array_testcase_1w (test_script 2).
Proof. apply reports_end, checks_rounds. by_tests. Qed.

Lemma rbtree_reports : reports rbtree_testcase_1w (test_script 0).
Proof. apply reports_end, checks_rounds. by_tests. Qed.

Lemma hash_reports : reports hash_testcase_1w (test_script 3).
Proof. apply reports_end, checks_rounds. by_tests. Qed.

Lemma rbtree_reports_3w : reports rbtree_testcase_3w (test_script 1).
Proof. apply reports_seq; [apply checks_rounds; by_tests|]. apply reports_end, checks_rounds. by_tests. Qed.

Lemma hash_reports_3w : reports hash_testcase_3w (test_script 4).
Proof. apply reports_seq; [apply checks_rounds; by_tests|]. apply reports_end, checks_rounds. by_tests. Qed.

(** C23: a thread of the load test is its script: on a connection to any server that answers
    every message at once with one line (at most 1024 bytes, ending in CR LF, without NUL), it
    exits with 1 at the first answer that is not the one its mode wants to that message, without
    sending anything more, and with 0 when all are, except that it divides by zero when no
    millisecond has passed.  Without a connection it exits with 1. *)
Theorem load_test_follows_script mode m :
  (0 <= mode <= 4)%Z ->
  run ms (thread_worker mode true) (m, [])
  = (let end_ := play (test_script mode) m in
     if end_.1 then (if (ms =? 0)%Z then Crashed DivByZero else Exited 0 (end_.2, []))
     else Exited 1 (end_.2, [])) /\
  run ms (thread_worker mode false) (m, []) = Exited 1 (m, []).
Proof.
  intros Hmode. split; [|done]. unfold thread_worker. cbn [negb]. rewrite run_bind.
  assert (Hc : reports (if (mode =? 0)%Z then rbtree_testcase_1w
     else if (mode =? 1)%Z then rbtree_testcase_3w
     else if (mode =? 2)%Z then array_testcase_1w
     else if (mode =? 3)%Z then hash_testcase_1w
     else if (mode =? 4)%Z then hash_testcase_3w
     else mret tt) (test_script mode)).
  { destruct (Z.eqb_spec mode 0) as [->|]; [apply rbtree_reports|].
    destruct (Z.eqb_spec mode 1) as [->|]; [apply rbtree_reports_3w|].
    destruct (Z.eqb_spec mode 2) as [->|]; [apply array_reports|].
    destruct (Z.eqb_spec mode 3) as [->|]; [apply hash_reports|].
    destruct (Z.eqb_spec mode 4) as [->|]; [apply hash_reports_3w|lia]. }
  rewrite Hc. destruct (play (test_script mode) m).1; [|done]. by destruct (ms =? 0)%Z.
Qed.
End answering.

(** ** Against the server of this repository *)

Section live.
Context (localtime : Z -> Rdb.tm) (ms : Z).

(** The connection ([None]: closed), the store behind it, and the bytes on their way back. *)
Record live := mk_live { l_conn : option conn; l_kv : world; l_out : list byte }.

(** The bytes reach [server_reader] in one [recv]; a fault of the server is left to the
    theorems about it. *)
#[local] Instance live_peer : Peer live := {|
  peer_take s msg :=
    match l_conn s with
    | None => s
    | Some c =>
        match on_recv localtime msg c (l_kv s, []) with
        | Ret ((c', sent), (w', _)) => mk_live c' w' (l_out s ++ concat sent)
        | _ => s
        end
    end;
  peer_give s n :=
    if decide (l_out s = []) then
      match l_conn s with None => Some ([], s) | Some _ => None end
    else Some (take n (l_out s), mk_live (l_conn s) (l_kv s) (drop n (l_out s)))
|}.

(** Less than a header is kept, and nothing is answered. *)
Lemma recv_short c msg s :
  pending c [] -> msg <> [] -> length msg < TCP_HEADER_SIZE ->
  exists c', on_recv localtime msg c s = Ret ((Some c', []), s) /\ pending c' msg.
Proof.
  intros (rest & Hb & Hl & Hlen) Hne Hshort. cbn [length app] in Hl, Hb, Hlen. unfold on_recv.
  rewrite Hl, Nat.sub_0_r.
  rewrite take_ge by (unfold TCP_HEADER_SIZE, BUFFER_SIZE in *; lia). rewrite decide_False by done.
  cbn [take app Nat.add handle_packets buffer_len]. rewrite decide_True by done. eexists. split; [reflexivity|].
  exists (drop (length msg) rest). cbn [buffer buffer_len]. rewrite Hb. split; [done|]. split; [done|].
  rewrite length_app, length_drop, Hlen. pose proof buffer_size_Z. unfold TCP_HEADER_SIZE in Hshort. lia.
Qed.

Lemma blocked_bind {A B} (p : prog A) (f : A -> prog B) s s' :
  run ms p s = Blocked s' -> run ms (p ≫= f) s = Blocked s'.
Proof. intros E. by rewrite run_bind, E. Qed.

Lemma recv_blocks fuel n c w :
  0 < n -> run ms (recv_loop (S fuel) n []) (mk_live (Some c) w []) = Blocked (mk_live (Some c) w []).
Proof. intros Hn. cbn [recv_loop]. by rewrite decide_False by (cbn; lia). Qed.

(** The connection waits for the rest of a packet that starts with [msg]. *)
Definition waits (msg : list byte) (w : world) (s : live) : Prop :=
  exists c, s = mk_live (Some c) w [] /\ pending c msg.

Lemma testcase_blocks msg pattern c w :
  pending c [] -> msg <> [] -> length msg < TCP_HEADER_SIZE ->
  exists s, run ms (testcase msg pattern) (mk_live (Some c) w []) = Blocked s /\ waits msg w s.
Proof.
  intros Hc Hne Hl. destruct (recv_short c msg (w, []) Hc Hne Hl) as (c' & E & Hc').
  exists (mk_live (Some c') w []). split; [|by exists c'].
  unfold testcase, send_msg. rewrite run_bind. cbn [run after peer_take live_peer l_conn l_kv l_out]. rewrite E.
  apply blocked_bind. unfold recv_msg. apply recv_blocks. unfold MAX_MSG_LENGTH. lia.
Qed.

Lemma loop_blocks n body (rest : prog unit) s s' :
  (0 < n)%Z -> run ms (body 0) s = Blocked s' -> run ms (for_loop (Z.to_nat n) 0 body ;; rest) s = Blocked s'.
Proof.
  intros Hn E. apply blocked_bind. replace (Z.to_nat n) with (S (Z.to_nat (n - 1))) by lia.
  cbn [for_loop]. by apply blocked_bind.
Qed.

(** The first command of every mode. *)
Definition first_command (mode : Z) : list byte :=
  if (mode =? 0)%Z then bs "RSET Teacher King" else if (mode =? 1)%Z then bs "RSET Teacher0 King0"
  else if (mode =? 2)%Z then bs "SET Teacher King" else if (mode =? 3)%Z then bs "HSET Teacher King"
  else bs "HSET Teacher0 King0".

(** C24: on a connection to the live server every mode of the load test blocks in its first
    [recv]: its first text command is shorter than a packet header, so the server keeps it
    and waits for more, and the store does not change. *)
Theorem load_test_blocks mode c w :
  (0 <= mode <= 4)%Z -> pending c [] ->
  exists s, run ms (thread_worker mode true) (mk_live (Some c) w []) = Blocked s /\ waits (first_command mode) w s.
Proof.
  intros Hmode Hc.
  assert (Hfirst : forall pattern, exists s,
    run ms (testcase (first_command mode) pattern) (mk_live (Some c) w []) = Blocked s /\ waits (first_command mode) w s).
  { intros pattern. apply testcase_blocks; [done| |]; unfold first_command; repeat case_match; try done; vm_compute; lia. }
  destruct (Hfirst (line "OK")) as (s & E & Hs). exists s. split; [|done].
  unfold thread_worker. cbn [negb]. apply blocked_bind. revert E. unfold first_command.
  destruct (Z.eqb_spec mode 0); [intros E; by apply loop_blocks, blocked_bind|].
  destruct (Z.eqb_spec mode 1); [intros E; by apply loop_blocks|].
  destruct (Z.eqb_spec mode 2); [intros E; by apply loop_blocks, blocked_bind|].
  destruct (Z.eqb_spec mode 3); [intros E; by apply loop_blocks, blocked_bind|].
  destruct (Z.eqb_spec mode 4); [intros E; by apply loop_blocks|lia].
Qed.
End live.

(** [main] returns 0 exactly when every thread passed. *)
Lemma join_all_spec n retval : forall i b, join_all n i retval b = b && forallb (fun j => (retval j =? 0)%Z) (seq i n).
Proof.
  induction n as [|n IH]; intros i b; cbn [join_all seq forallb]; [by rewrite andb_true_r|].
  rewrite IH. by destruct (retval i =? 0)%Z, b.
Qed.

Lemma main_reports_failures a ip port mode n retval :
  main [a; ip; port; mode; n] retval = 0%Z <-> forall i, i < Z.to_nat (atoi n) -> retval i = 0%Z.
Proof.
  unfold main. rewrite join_all_spec. cbn [andb]. transitivity (forallb (fun j => (retval j =? 0)%Z) (seq 0 (Z.to_nat (atoi n))) = true).
  - by destruct (forallb _ _).
  - rewrite forallb_forall. split.
    + intros H i Hi. apply Z.eqb_eq, H, in_seq. lia.
    + intros H i Hi%in_seq. apply Z.eqb_eq, H. lia.
Qed.

(** ** Witnesses *)

(** Servers that give the answers of mode 0 in turn, and one that always says OK. *)
Definition answers_in_turn (n : nat) (_ : list byte) : cstr * nat := (default (line "OK") (snd <$> test_script 0 !! n), S n).
Definition says_ok (n : nat) (_ : list byte) : cstr * nat := (line "OK", S n).

Lemma script_lines : Forall (fun x => full_line x.2) (test_script 0).
Proof.
  change (test_script 0) with (rounds 10000 (fun _ => round_of "R" ++ gone_of "R")). unfold rounds.
  apply Forall_concat, Forall_fmap, list.Forall_forall. intros i _. cbv beta.
  apply (bool_decide_unpack (Forall (fun x => length x.2 <= MAX_MSG_LENGTH /\ x00 ∉ x.2 /\ has_crlf x.2 = true) _)).
  vm_compute. exact I.
Qed.

Lemma in_turn_lines n msg : full_line (answers_in_turn n msg).1.
Proof.
  unfold answers_in_turn. cbn [fst]. destruct (test_script 0 !! n) as [x|] eqn:E.
  - exact (proj1 (list.Forall_forall _ _) script_lines x (list_elem_of_lookup_2 _ _ _ E)).
  - cbn [fmap option_fmap option_map default from_option id].
    apply (bool_decide_unpack (length (line "OK") <= MAX_MSG_LENGTH /\ x00 ∉ line "OK" /\ has_crlf (line "OK") = true)).
    vm_compute. exact I.
Qed.

Lemma in_turn_plays l2 : forall l1, test_script 0 = l1 ++ l2 -> (play answers_in_turn l2 (length l1)).1 = true.
Proof.
  induction l2 as [|[msg e] l2 IH]; intros l1 E; [done|]. cbn [play].
  assert (Ha : (answers_in_turn (length l1) msg).1 = e).
  { unfold answers_in_turn. rewrite E. by erewrite (list_lookup_middle l1 l2 (msg, e)) by done. }
  rewrite decide_True by exact Ha. change (answers_in_turn (length l1) msg).2 with (S (length l1)).
  replace (S (length l1)) with (length (l1 ++ [(msg, e)])) by (rewrite length_app; cbn; lia).
  apply IH. by rewrite E, <- app_assoc.
Qed.

Lemma says_ok_lines n msg : full_line (says_ok n msg).1.
Proof.
  apply (bool_decide_unpack (length (line "OK") <= MAX_MSG_LENGTH /\ x00 ∉ line "OK" /\ has_crlf (line "OK") = true)).
  vm_compute. exact I.
Qed.

Example load_test_follows_script_witness :
  (exists s, run (H := answering answers_in_turn) 7 (thread_worker 0 true) (0, []) = Exited 0%Z s) /\
  run (H := answering answers_in_turn) 0 (thread_worker 0 true) (0, []) = Crashed DivByZero /\
  run (H := answering says_ok) 7 (thread_worker 2 true) (0, []) = Exited 1%Z (2, []).
Proof.
  pose proof (in_turn_plays (test_script 0) [] eq_refl) as Hp.
  change (length []) with 0 in Hp. split; [|split].
  - eexists. rewrite (proj1 (load_test_follows_script answers_in_turn 7 in_turn_lines 0 0 ltac:(lia))). cbv zeta.
    rewrite Hp. reflexivity.
  - rewrite (proj1 (load_test_follows_script answers_in_turn 0 in_turn_lines 0 0 ltac:(lia))). cbv zeta.
    rewrite Hp. reflexivity.
  - rewrite (proj1 (load_test_follows_script says_ok 7 says_ok_lines 2 0 ltac:(lia))). cbv zeta.
    change (test_script 2) with (rounds 10000 (fun _ => round_of "")). unfold rounds.
    replace (Z.to_nat 10000) with (S (Z.to_nat 9999)) by lia. cbn [seq]. rewrite fmap_cons. cbn [concat].
    reflexivity.
Defined.

Example load_test_blocks_witness :
  exists s, run (H := live_peer some_tm) 1 (thread_worker 0 true)
      (mk_live (Some (mk_conn (replicate BUFFER_SIZE x00) 0)) empty_world []) = Blocked s /\
    waits (bs "RSET Teacher King") empty_world s.
Proof.
  apply (load_test_blocks some_tm 1 0 (mk_conn (replicate BUFFER_SIZE x00) 0) empty_world); [lia|].
  exists (replicate BUFFER_SIZE x00). split; [reflexivity|]. split; [reflexivity|]. apply length_replicate.
Defined.
