(* ===== verification/Server.v ===== *)
(** * The server: its coroutines ([src/ntyco.c]) and [main] ([src/kvstore.c])

    One coroutine accepts connections and creates a coroutine for each; the coroutines are
    scheduled one at a time.  The order in which the coroutine library resumes them, and what
    [accept] and [recv] return when it does, are the input of the model; what [send] and [close]
    get is its output.  [main] here leaves out the thread of [check_auto_save] that it starts
    ([src/kvstore.c], 733-736) before the coroutines: that thread, next to whole requests, is
    modelled in [AutoSave], and nothing here says what the two do together. *)

From S2P Require Import Prelude Engine KvsArray KvsHash KvsRbtree KvsSkiptable CNum Stdio World RdbConfig.
From S2P Require Import Rdb Protocol Ntyco.
Import CNum Protocol Ntyco.

Module Server.

(** [cli_fd] is the local variable of the coroutine [server], [None] before it is written.
    Every coroutine is created with its address. *)
Record process := mk_process {
  port : Z;
  cli_fd : option Z;
  created : list nat;              (** coroutines that were created and have not run *)
  next_co : nat;
  readers : gmap nat (Z * conn);   (** coroutines in [server_reader], waiting in [recv] *)
  sent : list (Z * list byte);     (** what [send] got, the last message at the end *)
  closed : list Z;                 (** what [close] got *)
  kv : world
}.

Definition process0 (w : world) : process := mk_process 0 None [] 0 ∅ [] [] w.

Abbreviation P A := (M process A).

Definition set_port x p :=
  mk_process x (cli_fd p) (created p) (next_co p) (readers p) (sent p) (closed p) (kv p).
Definition set_created l p :=
  mk_process (port p) (cli_fd p) l (next_co p) (readers p) (sent p) (closed p) (kv p).
Definition set_readers r p :=
  mk_process (port p) (cli_fd p) (created p) (next_co p) r (sent p) (closed p) (kv p).
Definition set_sent s p :=
  mk_process (port p) (cli_fd p) (created p) (next_co p) (readers p) s (closed p) (kv p).
Definition set_closed s p :=
  mk_process (port p) (cli_fd p) (created p) (next_co p) (readers p) (sent p) s (kv p).
Definition set_kv w p :=
  mk_process (port p) (cli_fd p) (created p) (next_co p) (readers p) (sent p) (closed p) w.

Definition on_kv {A} (m : W A) : P A := zoom kv set_kv m.

(** What the scheduler does next: the listening coroutine returns from [accept]; a created
    coroutine runs up to its first [recv]; a coroutine returns from [recv] with some bytes
    (none: the end, or an error). *)
Inductive happening :=
  | Accepted (fd : Z)
  | Started (co : nat)
  | Received (co : nat) (chunk : list byte).

(** A round of the loop of [server]: the descriptor, and a new coroutine that gets its
    address. *)
Definition server_accepts (fd : Z) : P unit :=
  modify (fun p => mk_process (port p) (Some fd) (created p ++ [next_co p]) (S (next_co p))
                     (readers p) (sent p) (closed p) (kv p)).

(** The start of [server_reader]: it reads the variable through its argument, and has an
    empty buffer. *)
Definition reader_starts (co : nat) : P unit :=
  p ← get;
  match cli_fd p with
  | None => raise Indeterminate
  | Some fd =>
      modify (set_created (filter (fun i => i <> co) (created p))) ;;
      modify (set_readers (<[co := (fd, mk_conn (replicate BUFFER_SIZE x00) 0)]> (readers p)))
  end.

Section server.
Context (localtime : Z -> Rdb.tm).

(** From one [recv] of a reader to the next. *)
Definition reader_receives (co : nat) (fd : Z) (c : conn) (chunk : list byte) : P unit :=
  r ← on_kv (on_recv localtime chunk c);
  modify (fun p => set_sent (sent p ++ ((fun m => (fd, m)) <$> r.2)) p) ;;
  match r.1 with
  | Some c => modify (fun p => set_readers (<[co := (fd, c)]> (readers p)) p)
  | None =>
      modify (fun p => set_closed (closed p ++ [fd]) p) ;;
      modify (fun p => set_readers (delete co (readers p)) p)
  end.

(** Only coroutines that wait are resumed; the model ignores anything else. *)
Definition resume (h : happening) : P unit :=
  match h with
  | Accepted fd => server_accepts fd
  | Started co =>
      p ← get;
      if decide (co ∈ created p) then reader_starts co else mret tt
  | Received co chunk =>
      p ← get;
      match readers p !! co with
      | None => mret tt
      | Some (fd, c) => reader_receives co fd c chunk
      end
  end.

Fixpoint schedule (hs : list happening) : P unit :=
  match hs with
  | [] => mret tt
  | h :: hs => resume h ;; schedule hs
  end.

(** [listen_fd]: what [socket] returned.  Without a socket [server] ends, no coroutine is
    left, and the scheduler returns ([true]); with one it never does: [false] and the state
    after the happenings. *)
Definition ntyco_start (p : Z) (listen_fd : Z) (hs : list happening) : P bool :=
  modify (set_port p) ;;
  if (listen_fd <? 0)%Z then mret true else
  schedule hs ;;
  mret false.

(** [None]: still running.  [fresh_a], [fresh_h], [rs], [pooled]: see [init_kvengine]. *)
Definition main (argv : list cstr) (fresh_a : list (option Array.kvs_array_item_t))
    (fresh_h : list (option (list Hash.hashnode_t))) (rs : list Z) (pooled : bool)
    (listen_fd : Z) (hs : list happening) : P (option Z) :=
  match argv with
  | _ :: port :: rest =>
      (match rest with
       | path :: _ => _ ← on_kv (kvs_rdb_set_path (Some path)); mret tt
       | [] => mret tt
       end) ;;
      r ← on_kv (init_kvengine fresh_a fresh_h rs pooled);
      if negb (r =? 0)%Z then mret (Some (-1)%Z) else
      returned ← ntyco_start (wrap 16 (atoi port)) listen_fd hs;
      if negb returned then mret None else
      c ← on_kv config;
      _ ← on_kv (Rdb.kvs_rdb_save localtime (rdb_file c));
      on_kv dest_kvengine ;;
      mret (Some 0%Z)
  | _ => mret (Some (-1)%Z)
  end.

End server.
End Server.
