(* ===== verification/ServerSpec.v ===== *)
(** * What the whole server guarantees

    The coroutines of [Server] serve any number of clients as one database does, in any order of
    the events in which a new coroutine runs before the next connection is accepted (otherwise
    two coroutines read one connection) and no [recv] returns bytes of two requests (otherwise
    the second is lost).  Started again on the files of a server that saved without checksums
    and backups, [main] serves the pairs of the array and of the hash table, and one of the
    tree. *)

From S2P Require Import Prelude Engine KvsArray KvsHash KvsRbtree RbtreeRep RbtreeInsert RbtreeMap.
From S2P Require Import KvsSkiptable SkipRep SkipSpec CNum Stdio World RdbConfig Rdb RdbSave RdbLoad Durable.
From S2P Require Import Protocol ProtocolSpec DbSpec Ntyco NtycoSpec Server.
Import CNum Rdb Protocol Ntyco Server.

#[local] Existing Instances Array.array_engine Array.array_engine_laws
  Hash.hash_engine Hash.hash_engine_laws.

(** ** The abstract server *)

(** A database, the connections with the part of a request that each has sent, and the messages.
    [a_new]: a connection whose coroutine has not run. *)
Record served := mk_served {
  a_db : db;
  a_new : option Z;
  a_next : nat;
  a_conns : gmap nat (Z * list byte);
  a_sent : list (Z * list byte);
  a_closed : list Z
}.

Definition served0 (d : db) : served := mk_served d None 0 ∅ [] [].

Inductive serves : served -> happening -> served -> Prop :=
  | serve_accept s fd :
      a_new s = None ->
      serves s (Accepted fd) (mk_served (a_db s) (Some fd) (a_next s) (a_conns s) (a_sent s) (a_closed s))
  | serve_start s fd :
      a_new s = Some fd ->
      serves s (Started (a_next s))
        (mk_served (a_db s) None (S (a_next s)) (<[a_next s := (fd, [])]> (a_conns s)) (a_sent s) (a_closed s))
  | serve_piece s co fd p ch more c seq fl :
      a_conns s !! co = Some (fd, p) -> ch <> [] -> more <> [] ->
      p ++ ch ++ more = command_packet c seq fl ->
      u32 seq -> u32 fl -> length (command_data c) <= 1024 -> u32 (command_cmd c) ->
      serves s (Received co ch)
        (mk_served (a_db s) (a_new s) (a_next s) (<[co := (fd, p ++ ch)]> (a_conns s)) (a_sent s) (a_closed s))
  | serve_request s co fd p ch c seq fl :
      a_conns s !! co = Some (fd, p) -> ch <> [] ->
      p ++ ch = command_packet c seq fl ->
      u32 seq -> u32 fl -> command_ok (a_db s) c ->
      serves s (Received co ch)
        (mk_served (db_after (a_db s) c) (a_new s) (a_next s) (<[co := (fd, [])]> (a_conns s))
           (a_sent s ++ [(fd, db_message (a_db s) c seq fl)]) (a_closed s))
  | serve_end s co fd p :
      a_conns s !! co = Some (fd, p) ->
      serves s (Received co [])
        (mk_served (a_db s) (a_new s) (a_next s) (delete co (a_conns s)) (a_sent s) (a_closed s ++ [fd])).

Inductive serves_all : served -> list happening -> served -> Prop :=
  | serves_nil s : serves_all s [] s
  | serves_cons s h s' hs s'' : serves s h s' -> serves_all s' hs s'' -> serves_all s (h :: hs) s''.

(** ** The coroutines implement it *)

Section runs.

Definition reader_in (p : process) (co : nat) (x : Z * list byte) : Prop :=
  exists c, readers p !! co = Some (x.1, c) /\ pending c x.2.

Record runs_as (p : process) (s : served) : Prop := {
  ra_new : match a_new s with
           | None => created p = [] /\ next_co p = a_next s
           | Some fd => cli_fd p = Some fd /\ created p = [a_next s] /\ next_co p = S (a_next s)
           end;
  ra_conns : forall co x, a_conns s !! co = Some x -> reader_in p co x;
  ra_sent : sent p = a_sent s;
  ra_closed : closed p = a_closed s;
  ra_db : db_rep (kv p) (a_db s)
}.

(** A change of one reader leaves the others. *)
Lemma readers_update p p' s co x c :
  (forall i y, a_conns s !! i = Some y -> reader_in p i y) ->
  readers p' = <[co := (x.1, c)]> (readers p) -> pending c x.2 ->
  forall i y, <[co := x]> (a_conns s) !! i = Some y -> reader_in p' i y.
Proof.
  intros H Hr Hc i y Hi. unfold reader_in. rewrite Hr. destruct (decide (co = i)) as [->|Hne].
  - rewrite lookup_insert_eq in Hi. injection Hi as <-. exists c. by rewrite lookup_insert_eq.
  - rewrite lookup_insert_ne in Hi by done. rewrite lookup_insert_ne by done. by apply H.
Qed.

Context (localtime : Z -> tm).

Lemma zoom_kv_run {A} (m : W A) p a w' :
  m (kv p, []) = Ret (a, (w', [])) -> on_kv m (p, []) = Ret (a, (set_kv w' p, [])).
Proof. apply (zoom_run kv set_kv). Qed.

Lemma fresh_pending : pending (mk_conn (replicate BUFFER_SIZE x00) 0) [].
Proof. exists (replicate BUFFER_SIZE x00). split; [done|]. split; [done|]. apply length_replicate. Qed.

Definition accepted (fd : Z) (p : process) : process :=
  mk_process (port p) (Some fd) (created p ++ [next_co p]) (S (next_co p))
    (readers p) (sent p) (closed p) (kv p).

Definition started (co : nat) (fd : Z) (p : process) : process :=
  mk_process (port p) (cli_fd p) (filter (fun i => i <> co) (created p)) (next_co p)
    (<[co := (fd, mk_conn (replicate BUFFER_SIZE x00) 0)]> (readers p)) (sent p) (closed p) (kv p).

Lemma resume_accepted p fd : resume localtime (Accepted fd) (p, []) = Ret (tt, (accepted fd p, [])).
Proof. done. Qed.

Lemma resume_started p co fd :
  cli_fd p = Some fd -> co ∈ created p ->
  resume localtime (Started co) (p, []) = Ret (tt, (started co fd p, [])).
Proof.
  intros Hfd Hco. cbn [resume]. rewrite bind_get. cbn [fst]. rewrite decide_True by done.
  unfold reader_starts. rewrite bind_get. cbn [fst]. by rewrite Hfd.
Qed.

Lemma resume_received p co fd c ch sent' c' w' :
  readers p !! co = Some (fd, c) ->
  on_recv localtime ch c (kv p, []) = Ret ((Some c', sent'), (w', [])) ->
  resume localtime (Received co ch) (p, [])
  = Ret (tt, (set_readers (<[co := (fd, c')]> (readers p))
                (set_sent (sent p ++ ((fun m => (fd, m)) <$> sent')) (set_kv w' p)), [])).
Proof.
  intros Hr E. cbn [resume]. rewrite bind_get. cbn [fst]. rewrite Hr.
  unfold reader_receives. rewrite (bind_ret _ _ _ _ _ (zoom_kv_run _ _ _ _ E)). cbn [fst snd].
  by rewrite bind_modify.
Qed.

Lemma serves_runs p s h s' :
  runs_as p s -> serves s h s' ->
  exists p', resume localtime h (p, []) = Ret (tt, (p', [])) /\ runs_as p' s'.
Proof.
  intros [H1 H2 H3 H4 H5] Hs. destruct Hs as [s fd Hn|s fd Hn|s co fd bts ch more cm seq fl Hc Hch Hmore Hp Hsq Hfl Hl Hu
    |s co fd bts ch cm seq fl Hc Hch Hp Hsq Hfl Hq|s co fd bts Hc].
  - rewrite Hn in H1. destruct H1 as [Hcr Hnx]. exists (accepted fd p). split; [done|].
    split; cbn [accepted a_db a_new a_next a_conns a_sent a_closed]; try done.
    cbn. by rewrite Hcr, Hnx.
  - rewrite Hn in H1. destruct H1 as (Hfd & Hcr & Hnx). exists (started (a_next s) fd p). split.
    + apply resume_started; [done|]. rewrite Hcr. by apply list_elem_of_singleton.
    + split; cbn [started a_db a_new a_next a_conns a_sent a_closed]; try done.
      * cbn. rewrite Hcr. split; [|done]. by rewrite filter_cons_False by (by intros E).
      * eapply (readers_update p _ s (a_next s) (fd, [])); [done|reflexivity|apply fresh_pending].
  - destruct (H2 co _ Hc) as (c & Hrd & Hpend). cbn [fst snd] in Hrd, Hpend.
    destruct (recv_waits localtime _ seq fl _ c bts ch more (kv p, []) Hu Hsq Hfl Hl Hpend Hch Hmore Hp)
      as (c' & Hpend' & E).
    eexists. split; [apply (resume_received p co fd c ch _ _ _ Hrd E)|].
    split; cbn [a_db a_new a_next a_conns a_sent a_closed fmap list_fmap set_readers set_sent set_kv sent];
      rewrite ?app_nil_r; try done.
    by eapply (readers_update p _ s co (fd, bts ++ ch)).
  - destruct (H2 co _ Hc) as (c & Hrd & Hpend). cbn [fst snd] in Hrd, Hpend.
    destruct (command_run localtime (kv p) (a_db s) cm seq fl H5 Hq Hsq Hfl) as (w' & Hr' & Hrun).
    destruct (recv_completes localtime _ seq fl _ c bts ch (kv p, []) _ (w', []) (u32_command_cmd _ _ Hq) Hsq Hfl
      (proj1 Hq) Hrun Hpend Hch Hp) as (c' & Hpend' & E).
    eexists. split; [apply (resume_received p co fd c ch _ _ _ Hrd E)|].
    split; cbn [a_db a_new a_next a_conns a_sent a_closed]; try done.
    + by eapply (readers_update p _ s co (fd, [])).
    + cbn [set_readers set_sent sent set_kv fmap list_fmap]. by rewrite H3.
  - destruct (H2 co _ Hc) as (c & Hrd & Hpend). cbn [fst snd] in Hrd, Hpend. eexists. split.
    + cbn [resume]. rewrite bind_get. cbn [fst]. rewrite Hrd. unfold reader_receives, on_recv.
      rewrite take_nil, decide_True by done.
      rewrite (bind_ret _ _ _ _ _ (zoom_kv_run (mret (None, [])) p _ _ eq_refl)). cbn [fst snd].
      rewrite !bind_modify. reflexivity.
    + split; cbn [a_db a_new a_next a_conns a_sent a_closed set_readers set_closed set_sent set_kv sent closed fmap list_fmap];
        rewrite ?app_nil_r; try done.
      * intros i y Hi. destruct (decide (co = i)) as [->|Hne]; [by rewrite lookup_delete_eq in Hi|].
        rewrite lookup_delete_ne in Hi by done. destruct (H2 i y Hi) as (ci & Hci & Hpi).
        exists ci. cbn. by rewrite lookup_delete_ne.
      * cbn. by rewrite H4.
Qed.

Lemma schedule_runs p s hs s' :
  runs_as p s -> serves_all s hs s' ->
  exists p', schedule localtime hs (p, []) = Ret (tt, (p', [])) /\ runs_as p' s'.
Proof.
  intros Hi Hs. revert p Hi. induction Hs as [s|s h s1 hs s2 Hh _ IH]; intros p Hi.
  - by exists p.
  - destruct (serves_runs p s h s1 Hi Hh) as (p1 & E & Hi1). destruct (IH p1 Hi1) as (p2 & E2 & H2).
    exists p2. split; [|exact H2]. cbn [schedule]. by rewrite (bind_ret _ _ _ _ _ E).
Qed.

(** C1: the coroutine server refines the abstract server [serves]: any number of clients
    connect, send commands of all four engines, one after the other, and leave, and their events
    are interleaved in any order that keeps two conditions.  The coroutine of a connection runs
    before the next connection is accepted (otherwise see [late_coroutine_loses_connection]);
    and what one [recv] returns ends at the latest where a request ends, though a request may
    come in many pieces (otherwise see [pipelined_request_lost]).  Every request that is
    completed is a packet of at most 1024 data bytes with a command that [command_ok] admits
    (the conditions are listed at [tcp_command_refines_db]), and the calls of [malloc] succeed.
    Then nothing faults, the engines stay equal to the database, each connection gets the answer
    of the database when its request is complete, and the closed connections are those whose
    clients left. *)
Theorem ntyco_refines_server p s hs s' :
  runs_as p s -> serves_all s hs s' ->
  exists p', schedule localtime hs (p, []) = Ret (tt, (p', [])) /\ runs_as p' s' /\
    sent p' = a_sent s' /\ closed p' = a_closed s'.
Proof.
  intros Hi Hs. destruct (schedule_runs p s hs s' Hi Hs) as (p' & E & H).
  exists p'. split; [done|]. split; [done|]. split; apply H.
Qed.

End runs.

(** ** Starting on a saved snapshot *)

Lemma create_array_run w fresh :
  (Z.of_nat (length fresh) = Array.KVS_ARRAY_SIZE)%Z ->
  exists a, on_array (Array.kvs_array_create fresh) (set_array Array.global_array0 w, [])
      = Ret (0%Z, (set_array a w, [])) /\ eng_rep a ∅.
Proof.
  intros Hl. exists (Array.instm Unlocked 0 [] fresh). split; [reflexivity|].
  exists []. split; [|split; [apply not_elem_of_nil|done]]. exists 0%Z, fresh. split; [done|].
  split; [done|constructor].
Qed.

Lemma init_run w c h rs fresh_a rnd pooled :
  stopped (w_fs w) c h rs -> (Z.of_nat (length fresh_a) = Array.KVS_ARRAY_SIZE)%Z ->
  exists w', init_kvengine fresh_a (replicate 1024 (Some [])) rnd pooled (w, []) = Ret (0%Z, (w', [])) /\
    holds w' (foldl add_rec fresh_maps rs) /\ zrep (w_skip w') [] /\ w_fs w' = w_fs w /\ w_conf w' = c.
Proof.
  intros Hst Hl. unfold init_kvengine. rewrite bind_modify. cbn [fst snd].
  destruct (create_array_run w fresh_a Hl) as (a & Ea & Ha). rewrite (bind_ret _ _ _ _ _ Ea).
  rewrite bind_modify. cbn [fst snd].
  erewrite bind_ret; [|apply (zoom_run w_rbtree set_rbtree), create_run]. cbn beta.
  rewrite bind_modify. cbn [fst snd].
  erewrite bind_ret; [|unfold on_hash; apply (zoom_run w_hash set_hash); reflexivity]. cbn beta.
  rewrite bind_modify. cbn [fst snd].
  erewrite bind_ret; [|apply (zoom_run w_skip set_skip), skip_create_run]. cbn beta.
  match goal with |- context [(kvs_rdb_init ≫= _) (?x, [])] =>
    destruct (rdb_init_run x c h rs Hst) as (w' & E & Hh & Hsk & Hfs & Hcf) end.
  - split; [exact Ha|]. split; [exact (rrep_empty pooled)|apply Hash.hrep_empty].
  - exists w'. split; [by rewrite (bind_ret _ _ _ _ _ E)|]. split; [exact Hh|]. split; [|by split].
    rewrite Hsk. apply fresh_list_zrep.
Qed.

(** The database in the saved engines: the sorted set is not saved. *)
Definition saved_db (l : Array.items) (T : tree) (slots : list (list (cstr * cstr))) : db :=
  mk_db (Array.view l) (list_to_map (troot T)) (Hash.view slots) [] NoSaves.

Definition short_db (d : db) : Prop := forall st, short_values (map_of st d).

Lemma holds_db w l T slots :
  holds w (foldl add_rec fresh_maps (snapshot l T slots)) -> zrep (w_skip w) [] ->
  short_db (saved_db l T slots) -> db_rep w (saved_db l T slots).
Proof. rewrite fold_snapshot. intros (H1 & H2 & H3) Hz Hs. split; [|exact Hs|exact Hz|done]. by intros []. Qed.

(** A server whose engines hold [l], [T] and [slots], with checksums off, that can save
    them, and whose configuration is in [kvs.conf]. *)
Record savable (w : world) (l : Array.items) (T : tree) (slots : list (list (cstr * cstr))) (nl : nat) : Prop := {
  sv_array : Array.rep (w_array w) l;
  sv_rbtree : RbtreeRep.st nl (w_rbtree w) T [];
  sv_hash : w_hash w = Hash.table slots /\ Hash.slots_ok slots;
  sv_starts : save_starts w (rdb_file (w_conf w));
  sv_conf_ok : conf_ok (w_conf w);
  sv_crc : rdb_crc64 (w_conf w) = 0%Z;
  sv_file : rdb_file (w_conf w) <> RDB_CONFIG_FILE;
  sv_conf : files (w_fs w) !! RDB_CONFIG_FILE = Some (concat (config_prints (w_conf w)));
  sv_now : (0 <= now (w_fs w) < 2 ^ 64)%Z;
  sv_recs : Forall rec_ok (snapshot l T slots);
  sv_size : (Z.of_nat (length (recs_bytes (snapshot l T slots))) < 2 ^ 32)%Z
}.

(** What a save leaves is what a later start finds. *)
Lemma save_stops localtime w l T slots nl :
  savable w l T slots nl ->
  exists w1 h, kvs_rdb_save localtime (rdb_file (w_conf w)) (w, []) = Ret (0%Z, (w1, [])) /\
    stopped (w_fs w1) (w_conf w) h (snapshot l T slots).
Proof.
  intros [Ha Ht [Hh Hso] Hs Hok Hc Hne Hf Hnow Hrec Hlt]. pose proof Ha as (j & junk & _ & Hsz & _).
  destruct (snapshot_saved localtime w (rdb_file (w_conf w)) l T slots nl Ha Ht Hh Hso Hs Hc Hnow Hlt)
    as (w1 & h & Hsave & Hfs & _ & Hh1 & Hm & Hv & Hd).
  exists w1, h. split; [exact Hsave|]. split; try done.
  - by rewrite Hfs, lookup_insert_ne.
  - apply Hs.
  - rewrite Hfs. apply lookup_insert_eq.
  - apply takes_snapshot; [done|lia|done].
Qed.

Lemma process0_runs w d : db_rep w d -> forall p, runs_as (set_port p (process0 w)) (served0 d).
Proof. intros Hr p. split; cbn; try done. Qed.

(** [main] on the files of a stopped server, whose engines then hold [d]. *)
Lemma main_runs localtime wp c h rs d a0 po rest fresh_a rnd pooled fd hs s' :
  stopped (w_fs wp) c h rs ->
  (forall w', holds w' (foldl add_rec fresh_maps rs) -> zrep (w_skip w') [] ->
     w_fs w' = w_fs wp -> w_conf w' = c -> db_rep w' d) ->
  (Z.of_nat (length fresh_a) = Array.KVS_ARRAY_SIZE)%Z -> (0 <= fd)%Z ->
  serves_all (served0 d) hs s' ->
  exists p', main localtime (a0 :: po :: rest) fresh_a (replicate 1024 (Some [])) rnd pooled fd hs
      (process0 wp, []) = Ret (None, (p', [])) /\ runs_as p' s'.
Proof.
  intros Hst Hd Hl Hfd Hs. cbn [main].
  assert (Hpath : exists w1, w_fs w1 = w_fs wp /\
    (match rest with
     | path :: _ => _ ← on_kv (kvs_rdb_set_path (Some path)); mret tt
     | [] => mret tt
     end) (process0 wp, []) = Ret (tt, (process0 w1, []))).
  { destruct rest as [|path rest]; [by exists wp|].
    exists (set_conf (set_rdb_file (path_copy path) (w_conf wp)) wp). split; [done|].
    unfold on_kv. by erewrite bind_ret; [|apply (zoom_run kv set_kv); reflexivity]. }
  destruct Hpath as (w1 & Hfs & E1). rewrite (bind_ret _ _ _ _ _ E1). rewrite <- Hfs in Hst.
  destruct (init_run w1 c h rs fresh_a rnd pooled Hst Hl) as (w2 & E2 & Hh & Hz & Hfs2 & Hcf2).
  rewrite (bind_ret _ _ _ _ _ (zoom_kv_run _ (process0 w1) _ _ E2)). cbn [Z.eqb negb].
  unfold ntyco_start. rewrite bind_bind, bind_modify. cbn [fst snd].
  destruct (Z.ltb_spec fd 0); [lia|]. rewrite bind_bind.
  destruct (schedule_runs localtime (set_port (wrap 16 (atoi po)) (process0 w2)) (served0 d) hs s')
    as (p' & E3 & H3); [apply process0_runs, Hd; congruence|done|].
  exists p'. split; [|done]. change (set_kv w2 (process0 w1)) with (process0 w2).
  by rewrite (bind_ret _ _ _ _ _ E3).
Qed.

(** A restart keeps the data: when a server with checksums off saves its engines and
    [main] starts again on the same files, whatever its arguments beyond the port, it finds
    the configuration and the snapshot and serves any number of clients as the database with
    the saved maps of the array, of the hash table, and of the root of the red-black tree
    does, whose sorted set is empty. *)
Theorem restart_serves_snapshot localtime w l T slots nl a0 po rest fresh_a rnd pooled fd hs s' :
  savable w l T slots nl -> short_db (saved_db l T slots) ->
  (Z.of_nat (length fresh_a) = Array.KVS_ARRAY_SIZE)%Z -> (0 <= fd)%Z ->
  serves_all (served0 (saved_db l T slots)) hs s' ->
  exists w1, kvs_rdb_save localtime (rdb_file (w_conf w)) (w, []) = Ret (0%Z, (w1, [])) /\
    forall wp, w_fs wp = w_fs w1 ->
    exists p', main localtime (a0 :: po :: rest) fresh_a (replicate 1024 (Some [])) rnd pooled fd hs
        (process0 wp, []) = Ret (None, (p', [])) /\
      sent p' = a_sent s' /\ db_rep (kv p') (a_db s').
Proof.
  intros Hw Hm Hl Hfd Hs. destruct (save_stops localtime w l T slots nl Hw) as (w1 & h & Hsave & Hst).
  exists w1. split; [done|]. intros wp Hwp. rewrite <- Hwp in Hst.
  destruct (main_runs localtime wp _ h _ (saved_db l T slots) a0 po rest fresh_a rnd pooled fd hs s' Hst) with (4 := Hs)
    as (p' & E & H); [|done|done|].
  { intros w' Hh Hz _ _. by apply holds_db. } exists p'. split; [done|]. split; apply H.
Qed.

(** ** Crashes *)

(** The database a server starts with after a crash, when [ms] are the maps of the last save. *)
Definition restarted (ms : maps) (d : db) : Prop :=
  recovered ms (db_maps d) /\ d_zset d = [] /\ d_disk d = Saves (Some ms).

Lemma short_values_subseteq m m' : m' ⊆ m -> short_values m -> short_values m'.
Proof. intros Hs Hm k v Hk. apply (Hm k). by eapply lookup_weaken. Qed.

Lemma restarted_rep w d ms h rs w' :
  db_rep w d -> d_disk d = Saves (Some ms) -> stopped (w_fs w) (w_conf w) h rs ->
  recovered ms (foldl add_rec fresh_maps rs) ->
  holds w' (foldl add_rec fresh_maps rs) -> zrep (w_skip w') [] -> w_fs w' = w_fs w -> w_conf w' = w_conf w ->
  let ms' := foldl add_rec fresh_maps rs in
  db_rep w' (mk_db (m_array ms') (m_tree ms') (m_hash ms') [] (Saves (Some ms))).
Proof.
  intros [_ _ _ H4] Hd Hst Hrec (Ra & Rt & Rh) Hz Hfs Hcf ms'. rewrite Hd in H4.
  pose proof H4 as (_ & (Sa & St & Sh) & _). pose proof Hrec as [E1 E2 E3 _].
  split; [by intros []| |exact Hz|by apply (disk_rep_same w)].
  intros []; cbn [map_of d_array d_rbtree d_hash]; unfold ms'.
  - by rewrite E1.
  - by apply (short_values_subseteq (m_tree ms)).
  - by rewrite E2.
Qed.

(** C2: what clients saved survives a crash, where saving works.  Saving works ([can_save]) when
    it is enabled, checksums and backups are off (both are on by default; with checksums no save
    succeeds, see [rdb_save_fails_with_crc]), the snapshot is another file than [kvs.conf] and
    can be written, and [kvs.conf] holds the configuration; a SAVE is then allowed ([saveable])
    when every saved key has 1 to 1024 characters, every value less than 65536, and all pairs
    together less than 2^32 bytes.  Clients are served within the conditions of
    [ntyco_refines_server], and nothing but their SAVE commands writes the snapshot: the thread
    of [check_auto_save], which [main] also starts, is not part of this model, and it truncates
    the file while it runs.  If then the last SAVE found the maps [ms], the server may be killed
    between any two events and whatever was done since; a process that [main] starts on the same
    files serves its clients, within the same conditions, as a database that has the maps of the
    array and of the hash table of that SAVE, of the tree at most one pair (one, if it had any),
    and no sorted set; and in it saving works again. *)
Theorem saved_data_survives_crash localtime p s hs s1 ms :
  runs_as p s -> serves_all s hs s1 -> d_disk (a_db s1) = Saves (Some ms) ->
  exists p1, schedule localtime hs (p, []) = Ret (tt, (p1, [])) /\ sent p1 = a_sent s1 /\
    exists d, restarted ms d /\
      forall wp a0 po rest fresh_a rnd pooled fd hs2 s2,
        w_fs wp = w_fs (kv p1) -> (Z.of_nat (length fresh_a) = Array.KVS_ARRAY_SIZE)%Z -> (0 <= fd)%Z ->
        serves_all (served0 d) hs2 s2 ->
        exists p2, main localtime (a0 :: po :: rest) fresh_a (replicate 1024 (Some [])) rnd pooled fd hs2
            (process0 wp, []) = Ret (None, (p2, [])) /\ runs_as p2 s2 /\ sent p2 = a_sent s2.
Proof.
  intros Hi Hs Hd. destruct (schedule_runs localtime p s hs s1 Hi Hs) as (p1 & E & H1).
  pose proof (ra_db _ _ H1) as Hrep. pose proof (db_disk _ _ Hrep) as Hdisk. rewrite Hd in Hdisk.
  destruct Hdisk as (_ & _ & h & rs & Hst & Hrec).
  exists p1. split; [done|]. split; [apply (ra_sent _ _ H1)|].
  set (ms' := foldl add_rec fresh_maps rs) in *. set (d := mk_db (m_array ms') (m_tree ms') (m_hash ms') [] (Saves (Some ms))). exists d.
  split; [split; [unfold db_maps, d; by destruct ms'|done]|]. intros wp a0 po rest fresh_a rnd pooled fd hs2 s2 Hwp Hl Hfd Hs2.
  rewrite <- Hwp in Hst.
  destruct (main_runs localtime wp (w_conf (kv p1)) h rs d a0 po rest fresh_a rnd pooled fd hs2 s2 Hst) with (4 := Hs2)
    as (p2 & E2 & H2); [|done|done|].
  - intros w' Hh Hz Hfs Hcf. rewrite Hwp in Hst, Hfs. by apply (restarted_rep (kv p1) (a_db s1) ms h).
  - exists p2. split; [done|]. split; [done|apply (ra_sent _ _ H2)].
Qed.

(** Two connections are accepted before the coroutine [n] of the first runs. *)
Definition late_start (n : nat) (fd1 fd2 : Z) : list happening :=
  [Accepted fd1; Accepted fd2; Started n; Started (S n)].

(** C38: every coroutine gets the address of one variable: when the listening coroutine
    accepts two connections before the first coroutine runs, both coroutines serve the second
    connection and nobody serves the first. *)
Theorem late_coroutine_loses_connection localtime p fd1 fd2 :
  created p = [] ->
  exists p', schedule localtime (late_start (next_co p) fd1 fd2) (p, []) = Ret (tt, (p', [])) /\
    fst <$> readers p' !! next_co p = Some fd2 /\ fst <$> readers p' !! S (next_co p) = Some fd2 /\
    forall co c, readers p' !! co = Some (fd1, c) -> fd1 = fd2 \/ readers p !! co = Some (fd1, c).
Proof.
  intros Hcr. set (n := next_co p). unfold late_start. cbn [schedule].
  rewrite (bind_ret _ _ _ _ _ (resume_accepted localtime p fd1)).
  rewrite (bind_ret _ _ _ _ _ (resume_accepted localtime _ fd2)).
  assert (Hc : created (accepted fd2 (accepted fd1 p)) = [n; S n]) by (cbn; by rewrite Hcr).
  set (p2 := accepted fd2 (accepted fd1 p)) in *.
  assert (Hc' : created (started n fd2 p2) = [S n]).
  { cbn [started created]. rewrite Hc. rewrite filter_cons_False, filter_cons_True, filter_nil; [done|lia|by intros E]. }
  erewrite bind_ret; [|apply (resume_started localtime p2 n fd2); [done|rewrite Hc; apply elem_of_cons; by left]].
  erewrite bind_ret; [|apply (resume_started localtime _ (S n) fd2); [done|rewrite Hc'; apply elem_of_cons; by left]].
  eexists. split; [reflexivity|]. cbn [started readers p2 accepted]. split; [|split].
  - rewrite lookup_insert_ne by lia. by rewrite lookup_insert_eq.
  - by rewrite lookup_insert_eq.
  - intros co c Hco. destruct (decide (co = S n)) as [->|H1].
    + rewrite lookup_insert_eq in Hco. injection Hco as <- _. by left.
    + rewrite lookup_insert_ne in Hco by done. destruct (decide (co = n)) as [->|H2].
      * rewrite lookup_insert_eq in Hco. injection Hco as <- _. by left.
      * rewrite lookup_insert_ne in Hco by done. by right.
Qed.

(** ** Witnesses *)

Definition set_teacher : command := Kv SArray (RSet (bs "Teacher") (bs "King")).
Definition get_teacher : command := Kv SArray (RGet (bs "Teacher")).
Definition mod_teacher : command := Kv SArray (RMod (bs "Teacher") (bs "Darren")).
Definition del_teacher : command := Kv SArray (RDel (bs "Teacher")).
Definition add_alice : command := ZAdd (bs "alice") (bs "red") (bs "1.5").
Definition one_to_two : command := ZRange (bs "z") (bs "1 2").

Definition teacher : list byte := command_packet set_teacher 1 0.

(** Two clients; the request of the first comes in two pieces around one of the second, and
    a member that the second adds is read by the first. *)
Definition two_clients : list happening :=
  [Accepted 7; Started 0; Accepted 8; Received 0 (take 30 teacher); Started 1;
   Received 1 (command_packet get_teacher 5 0); Received 0 (drop 30 teacher);
   Received 1 (command_packet add_alice 6 0); Received 0 (command_packet one_to_two 2 0); Received 0 [];
   Received 1 (command_packet mod_teacher 7 0); Received 1 (command_packet del_teacher 8 0)].

(** What [send] gets: the answers to requests with the flags 0. *)
Definition sent_answer (fd cmd seq : Z) (text : cstr) : Z * list byte :=
  (fd, send_message (request_header cmd seq 0 []) (build_tcp_response cmd seq text)).

Definition two_clients_sent : list (Z * list byte) :=
  [sent_answer 8 CMD_GET 5 (bs "NO EXIST"); sent_answer 7 CMD_SET 1 (bs "OK"); sent_answer 8 CMD_ZADD 6 (bs "OK");
   sent_answer 7 CMD_ZRANGE 2 (bs "alice red 1.50" ++ [x0a]); sent_answer 8 CMD_MOD 7 (bs "OK");
   sent_answer 8 CMD_DEL 8 (bs "OK")].

Lemma teacher_plain : plain (bs "Teacher") /\ bs "Teacher" <> [].
Proof. split; [split; vm_compute; set_solver|discriminate]. Qed.

Lemma set_teacher_ok : command_ok (db0 NoSaves) set_teacher.
Proof.
  split; [cbn; lia|]. split; [cbn; lia|]. split; [by vm_compute|]. split; [apply teacher_plain|vm_compute; set_solver].
Qed.

Lemma get_teacher_ok : command_ok (db0 NoSaves) get_teacher.
Proof. split; [cbn; lia|]. split; [cbn; lia|]. split; [by vm_compute|apply teacher_plain]. Qed.

Lemma mod_teacher_ok d : command_ok d mod_teacher.
Proof. split; [cbn; lia|]. split; [cbn; lia|]. split; [apply teacher_plain|vm_compute; set_solver]. Qed.

Lemma del_teacher_ok d : d_array d = {[bs "Teacher" := bs "Darren"]} -> command_ok d del_teacher.
Proof.
  intros Hd. split; [cbn; lia|]. split; [cbn; lia|]. split; [|apply teacher_plain].
  intros _. right. cbn [map_of]. rewrite Hd. apply map_size_singleton.
Qed.

Lemma add_alice_ok d : command_ok d add_alice.
Proof.
  split; [cbn; lia|]. split; [split; vm_compute; set_solver|]. split; [split; vm_compute; set_solver|].
  split; [vm_compute; set_solver|by vm_compute].
Qed.

Lemma one_to_two_ok d : command_ok d one_to_two.
Proof.
  split; [cbn; lia|]. split; [split; vm_compute; set_solver|]. split; [vm_compute; set_solver|].
  intros mn mx E. vm_compute in E. injection E as <- <-. by split; vm_compute.
Qed.

Ltac find_conn := cbn [a_conns];
  repeat first [rewrite lookup_insert_ne by done | rewrite lookup_delete_ne by done]; apply lookup_insert_eq.

Ltac next_step := cbn [a_db a_new a_next a_conns a_sent a_closed served0];
  eapply serves_cons; [first [by apply serve_accept|by eapply serve_start|eapply serve_end; find_conn]|].

Ltac next_request c seq fd co p ok := cbn [a_db a_new a_next a_conns a_sent a_closed served0];
  eapply serves_cons; [eapply (serve_request _ co fd p _ c seq 0);
    [find_conn|discriminate|reflexivity|by split|by split|apply ok]|].

Lemma two_clients_serves :
  exists s', serves_all (served0 (db0 NoSaves)) two_clients s' /\ a_sent s' = two_clients_sent /\ a_closed s' = [7%Z].
Proof.
  eexists. split.
  - do 3 next_step.
    eapply serves_cons.
    { eapply (serve_piece _ 0 7 [] (take 30 teacher) (drop 30 teacher) set_teacher 1 0);
        [find_conn|discriminate|discriminate|reflexivity|by split|by split|cbn; lia|by split]. }
    next_step.
    next_request get_teacher 5%Z 8%Z 1 (@nil byte) get_teacher_ok.
    next_request set_teacher 1%Z 7%Z 0 (take 30 teacher) set_teacher_ok.
    next_request add_alice 6%Z 8%Z 1 (@nil byte) add_alice_ok.
    next_request one_to_two 2%Z 7%Z 0 (@nil byte) one_to_two_ok.
    next_step.
    next_request mod_teacher 7%Z 8%Z 1 (@nil byte) mod_teacher_ok.
    next_request del_teacher 8%Z 8%Z 1 (@nil byte) del_teacher_ok.
    { reflexivity. }
    apply serves_nil.
  - cbn [a_sent a_closed]. unfold two_clients_sent. split; vm_compute; reflexivity.
Qed.

Example ntyco_refines_server_witness :
  exists p', schedule some_tm two_clients (process0 (db_world [1; 70000]%Z), []) = Ret (tt, (p', [])) /\
    sent p' = two_clients_sent /\ closed p' = [7%Z].
Proof.
  destruct two_clients_serves as (s' & Hs & Hsent & Hcl).
  destruct (ntyco_refines_server some_tm (process0 (db_world [1; 70000]%Z)) (served0 (db0 NoSaves)) two_clients s'
    (process0_runs _ (db0 NoSaves) (db_world_rep _) 0) Hs) as (p' & E & _ & H1 & H2).
  exists p'. split; [exact E|]. rewrite H1, H2. by split.
Defined.

Example late_coroutine_loses_connection_witness :
  exists p', schedule some_tm (late_start 0 7 8) (process0 empty_world, [])
      = Ret (tt, (p', [])) /\ fst <$> readers p' !! 0 = Some 8%Z /\ fst <$> readers p' !! 1 = Some 8%Z.
Proof.
  destruct (late_coroutine_loses_connection some_tm (process0 empty_world) 7 8 eq_refl) as (p' & E & H1 & H2 & _).
  by exists p'.
Defined.

(** The world with one pair, with its configuration on disk. *)
Definition one_pair_conf : world :=
  set_fs (set_files {[RDB_CONFIG_FILE := concat (config_prints (w_conf (one_pair 0)))]} (w_fs (one_pair 0))) (one_pair 0).

Lemma one_pair_savable : exists nl, savable one_pair_conf [Some (bs "k", bs "v")] Leaf (replicate 1024 []) nl.
Proof.
  pose proof (one_pair_holds 0) as (_ & (nl & Hst) & Hh & _). exists nl. split.
  - apply one_pair_rep.
  - exact Hst.
  - split; [exact Hh|apply Hash.empty_slots_ok].
  - split; [done|]. split; [|done]. right. split; [by apply lookup_singleton_ne|apply not_elem_of_empty].
  - destruct default_conf_ok as [H1 H2 H3 _ H5 H6 H7]. by split.
  - done.
  - done.
  - apply (lookup_singleton_eq (M := gmap cstr)).
  - cbn. lia.
  - apply one_pair_recs.
  - vm_compute. reflexivity.
Qed.

Definition get_k : command := Kv SArray (RGet (bs "k")).
Definition one_pair_db : db := saved_db [Some (bs "k", bs "v")] Leaf (replicate 1024 []).
Definition ask_k : list happening := [Accepted 7; Started 0; Received 0 (command_packet get_k 1 0)].

Lemma get_k_ok : command_ok one_pair_db get_k.
Proof.
  split; [cbn; lia|]. split; [cbn; lia|]. split; [by vm_compute|]. split; [split; vm_compute; set_solver|discriminate].
Qed.

Lemma one_pair_short : short_db one_pair_db.
Proof.
  intros st. change (map_of st one_pair_db) with (match st with SArray => {[bs "k" := bs "v"]} | _ => ∅ end : gmap cstr cstr).
  destruct st; [|apply map_Forall_empty..]. apply map_Forall_singleton. apply Nat.ltb_lt. reflexivity.
Qed.

Lemma ask_k_serves : exists s', serves_all (served0 one_pair_db) ask_k s' /\
  a_sent s' = [sent_answer 7 CMD_GET 1 (bs "v")].
Proof.
  eexists. split.
  - do 2 next_step. next_request get_k 1%Z 7%Z 0 (@nil byte) get_k_ok. apply serves_nil.
  - vm_compute. reflexivity.
Qed.

Example restart_serves_snapshot_witness :
  exists w1, kvs_rdb_save some_tm (bs "kvs.rdb") (one_pair_conf, []) = Ret (0%Z, (w1, [])) /\
    exists p', main some_tm [bs "kvstore"; bs "8080"] (replicate 1024 None) (replicate 1024 (Some [])) [] true 3
        ask_k (process0 (set_fs (w_fs w1) world0), []) = Ret (None, (p', [])) /\
      sent p' = [sent_answer 7 CMD_GET 1 (bs "v")].
Proof.
  destruct one_pair_savable as (nl & Hsv). destruct ask_k_serves as (s' & Hs & Hsent).
  destruct (restart_serves_snapshot some_tm one_pair_conf [Some (bs "k", bs "v")] Leaf (replicate 1024 []) nl
    (bs "kvstore") (bs "8080") [] (replicate 1024 None) [] true 3 ask_k s' Hsv one_pair_short eq_refl ltac:(lia) Hs)
    as (w1 & E & H).
  exists w1. split; [exact E|]. destruct (H (set_fs (w_fs w1) world0) eq_refl) as (p' & E' & Hp & _).
  exists p'. split; [exact E'|]. by rewrite Hp, Hsent.
Defined.

(** A server that can save: the configuration without checksums and backups is on disk. *)
Definition plain_conf : rdb_config_t := mk_conf 300 (bs "kvs.rdb") 1 0 0 0 (bs "./backup").
Definition saving_world : world :=
  set_conf plain_conf (set_fs (set_files {[RDB_CONFIG_FILE := concat (config_prints plain_conf)]} fs0) (db_world [])).

Lemma saving_world_rep : db_rep saving_world (db0 (Saves None)).
Proof.
  destruct (db_world_rep []) as [H1 H2 H3 _].
  split; [intros st; specialize (H1 st); by destruct st|intros st; specialize (H2 st); by destruct st|exact H3|].
  split; [|done]. split; try done.
  destruct default_conf_ok as [C1 C2 C3 _ _ C6 C7]. by split.
Qed.

Definition set_pair (k v : string) : command := Kv SArray (RSet (bs k) (bs v)).
Definition one_saved : maps := mk_maps {[bs "k" := bs "v"]} ∅ ∅.

Lemma one_saved_saveable : saveable one_saved.
Proof.
  split; cbn [one_saved m_array m_tree m_hash]; [|apply map_Forall_empty..|by vm_compute].
  apply map_Forall_singleton. split; [split; [by vm_compute; set_solver|cbn; lia]|].
  split; [by vm_compute; set_solver|by vm_compute].
Qed.

Lemma set_pair_ok d k v :
  length (bs k ++ x20 :: bs v) <= 1024 -> eng_room (KvEngine := Array.array_engine) (d_array d) -> plain (bs k) ->
  cstr_ok (bs v) -> command_ok d (set_pair k v).
Proof. intros Hl Hr Hk Hv. by split. Qed.

(** A pair is set and saved, another one is set, and the server is killed. *)
Definition before_crash : list happening :=
  [Accepted 7; Started 0; Received 0 (command_packet (set_pair "k" "v") 1 0); Received 0 (command_packet (Save []) 2 0);
   Received 0 (command_packet (set_pair "x" "y") 3 0)].

Lemma before_crash_serves : exists s1, serves_all (served0 (db0 (Saves None))) before_crash s1 /\
  d_disk (a_db s1) = Saves (Some one_saved) /\ a_sent s1 = [sent_answer 7 CMD_SET 1 (bs "OK");
    sent_answer 7 CMD_SAVE 2 (bs "SAVED"); sent_answer 7 CMD_SET 3 (bs "OK")].
Proof.
  eexists. split.
  - do 2 next_step. next_request (set_pair "k" "v") 1%Z 7%Z 0 (@nil byte) set_pair_ok.
    1-4: first [cbn; lia|by vm_compute|split; vm_compute; set_solver|vm_compute; set_solver].
    cbn [a_db a_new a_next a_conns a_sent a_closed served0].
    eapply serves_cons.
    { eapply (serve_request _ 0 7 [] _ (Save []) 2 0); [find_conn|discriminate|reflexivity|by split|by split|].
      split; [cbn; lia|]. split; [by eexists|]. exact one_saved_saveable. }
    next_request (set_pair "x" "y") 3%Z 7%Z 0 (@nil byte) set_pair_ok.
    1-4: first [cbn; lia|by vm_compute|split; vm_compute; set_solver|vm_compute; set_solver].
    apply serves_nil.
  - split; vm_compute; reflexivity.
Qed.

(** After the crash the saved pair is there, and the other one is not. *)
Definition after_crash : list happening :=
  [Accepted 9; Started 0; Received 0 (command_packet (Kv SArray (RGet (bs "k"))) 1 0);
   Received 0 (command_packet (Kv SArray (RGet (bs "x"))) 2 0)].
Definition after_crash_sent : list (Z * list byte) :=
  [sent_answer 9 CMD_GET 1 (bs "v"); sent_answer 9 CMD_GET 2 (bs "NO EXIST")].

Lemma get_pair_ok d k : d_array d = {[bs "k" := bs "v"]} -> plain (bs k) -> bs k <> [] -> length (bs k) <= 1024 ->
  command_ok d (Kv SArray (RGet (bs k))).
Proof.
  intros Hd Hk Hne Hl. split; [done|]. split; [done|]. split; [|by split]. cbn [store_takes map_of]. rewrite Hd. by vm_compute.
Qed.

Lemma after_crash_serves d : restarted one_saved d ->
  exists s2, serves_all (served0 d) after_crash s2 /\ a_sent s2 = after_crash_sent.
Proof.
  intros ([Ha _ _ _] & _). destruct d as [a t h z dk]. cbn in Ha. subst a. eexists. split.
  - do 2 next_step. next_request (Kv SArray (RGet (bs "k"))) 1%Z 9%Z 0 (@nil byte) get_pair_ok.
    1-4: first [reflexivity|split; vm_compute; set_solver|discriminate|cbn; lia].
    next_request (Kv SArray (RGet (bs "x"))) 2%Z 9%Z 0 (@nil byte) get_pair_ok.
    1-4: first [reflexivity|split; vm_compute; set_solver|discriminate|cbn; lia].
    apply serves_nil.
  - reflexivity.
Qed.

Example saved_data_survives_crash_witness :
  exists p1, schedule some_tm before_crash (process0 saving_world, []) = Ret (tt, (p1, [])) /\
    exists p2, main some_tm [bs "kvstore"; bs "8080"] (replicate 1024 None) (replicate 1024 (Some [])) [] true 3
        after_crash (process0 (set_fs (w_fs (kv p1)) world0), []) = Ret (None, (p2, [])) /\
      sent p2 = after_crash_sent.
Proof.
  destruct before_crash_serves as (s1 & Hs1 & Hd & _).
  destruct (saved_data_survives_crash some_tm (process0 saving_world) (served0 (db0 (Saves None))) before_crash s1 one_saved
    (process0_runs _ _ saving_world_rep 0) Hs1 Hd) as (p1 & E1 & _ & d & Hd1 & H).
  exists p1. split; [exact E1|]. destruct (after_crash_serves d Hd1) as (s2 & Hs2 & Hsent).
  destruct (H (set_fs (w_fs (kv p1)) world0) (bs "kvstore") (bs "8080") [] (replicate 1024 None) [] true 3%Z after_crash s2
    eq_refl eq_refl ltac:(lia) Hs2) as (p2 & E2 & _ & Hp2).
  exists p2. split; [exact E2|]. by rewrite Hp2.
Defined.
