(* ===== verification/Reactor.v ===== *)
(** * The event loop ([src/reactor.c])

    One thread, an epoll set, and a table of connections indexed by file descriptor.  A
    descriptor waits for input or for output; [recv_cb] reads a request, runs the handler
    and turns to output, [send_cb] sends the answer and turns back to input.  What epoll,
    [accept] and [recv] deliver is an input of the model, what [send] gets its output.
    The time measurement of [accept_cb] is left out. *)

From S2P Require Import Prelude Engine KvsArray KvsHash KvsRbtree KvsSkiptable Stdio World RdbConfig.
From S2P Require Import Rdb Protocol.
Import Protocol.

Module Reactor.

Definition BUFFER_LENGTH : nat := 1024.
Definition CONNECTION_SIZE : nat := 1024.

(** The callback of the union [r_action]. *)
Inductive callback := NoCallback | accept_callback | recv_callback.

#[export] Instance callback_eq_dec : EqDecision callback.
Proof. solve_decision. Defined.

(** The fields of [struct conn] that the key-value server uses; [send_ready]: the field
    [send_callback] is set. *)
Record conn := mk_conn {
  fd : Z;
  rbuffer : list byte;
  rlength : Z;
  wbuffer : list byte;
  wlength : Z;
  send_ready : bool;
  r_action : callback
}.

Definition conn0 : conn :=
  mk_conn 0 (replicate BUFFER_LENGTH x00) 0 (replicate BUFFER_LENGTH x00) 0 false NoCallback.

(** What a descriptor in the epoll set waits for. *)
Inductive events := EPOLLIN | EPOLLOUT.

#[export] Instance events_eq_dec : EqDecision events.
Proof. solve_decision. Defined.

Record reactor := mk_reactor {
  conn_list : list conn;
  epoll : gmap nat events;
  sent : list (nat * list byte);   (** what [send] got, the last message at the end *)
  closed : list nat;               (** what [close] got *)
  kv : world
}.

Abbreviation R A := (M reactor A).

Definition set_conns c r := mk_reactor c (epoll r) (sent r) (closed r) (kv r).
Definition set_epoll e r := mk_reactor (conn_list r) e (sent r) (closed r) (kv r).
Definition set_sent s r := mk_reactor (conn_list r) (epoll r) s (closed r) (kv r).
Definition set_closed s r := mk_reactor (conn_list r) (epoll r) (sent r) s (kv r).
Definition set_kv w r := mk_reactor (conn_list r) (epoll r) (sent r) (closed r) w.

Definition on_kv {A} (m : W A) : R A := zoom kv set_kv m.

(** [conn_list[fd]] *)
Definition get_conn (i : nat) : R conn :=
  r ← get;
  match conn_list r !! i with
  | None => raise OutOfBounds
  | Some c => mret c
  end.

Definition put_conn (i : nat) (c : conn) : R unit :=
  r ← get;
  if decide (i < length (conn_list r)) then modify (set_conns (<[i := c]> (conn_list r)))
  else raise OutOfBounds.

(** [epoll_ctl]: adding a member and changing an absent descriptor fail, and the result is
    not looked at. *)
Definition set_event (i : nat) (event : events) (flag : bool) : R unit :=
  r ← get;
  match flag, epoll r !! i with
  | true, None | false, Some _ => modify (set_epoll (<[i := event]> (epoll r)))
  | _, _ => mret tt
  end.

Definition close_fd (i : nat) : R unit :=
  modify (fun r => set_closed (closed r ++ [i]) r) ;;
  modify (fun r => set_epoll (delete i (epoll r)) r).

Definition event_register (i : Z) (event : events) : R Z :=
  if (i <? 0)%Z then mret (-1)%Z else
  let n := Z.to_nat i in
  _ ← get_conn n;
  put_conn n (mk_conn i (replicate BUFFER_LENGTH x00) 0 (replicate BUFFER_LENGTH x00) 0 true recv_callback) ;;
  set_event n event true ;;
  mret 0%Z.

(** [clientfd]: what [accept] returned. *)
Definition accept_cb (clientfd : Z) : R Z :=
  if (clientfd <? 0)%Z then mret (-1)%Z else
  _ ← event_register clientfd EPOLLIN;
  mret 0%Z.

Section reactor.
Context (localtime : Z -> Rdb.tm).

(** The handler writes its response to the front of [wbuffer]. *)
Definition write_front (response b : list byte) : R (list byte) :=
  if decide (length response <= length b) then mret (response ++ drop (length response) b)
  else raise BufferOverflow.

(** [kvs_handler] is [kvs_tcp_protocol]. *)
Definition kvs_request (i : nat) : R unit :=
  c ← get_conn i;
  r ← on_kv (kvs_tcp_protocol localtime (rbuffer c) (rlength c));
  wb ← write_front r.2 (wbuffer c);
  put_conn i (mk_conn (fd c) r.1.2 (rlength c) wb r.1.1 (send_ready c) (r_action c)).

(** [received]: what [recv] delivers; [None]: it fails. *)
Definition recv_cb (i : nat) (received : option (list byte)) : R Z :=
  c ← get_conn i;
  let blank := replicate BUFFER_LENGTH x00 in
  match take BUFFER_LENGTH <$> received with
  | None | Some [] =>
      put_conn i (mk_conn (fd c) blank (rlength c) (wbuffer c) (wlength c) (send_ready c) (r_action c)) ;;
      close_fd i ;;
      mret 0%Z
  | Some got =>
      put_conn i (mk_conn (fd c) (got ++ drop (length got) blank) (Z.of_nat (length got))
                    (wbuffer c) (wlength c) (send_ready c) (r_action c)) ;;
      kvs_request i ;;
      set_event i EPOLLOUT false ;;
      mret (Z.of_nat (length got))
  end.

(** A negative length is converted to a [size_t] far larger than the buffer. *)
Definition send_cb (i : nat) : R Z :=
  c ← get_conn i;
  count ← (if (wlength c =? 0)%Z then mret 0%Z else
             if (wlength c <? 0)%Z || (Z.of_nat (length (wbuffer c)) <? wlength c)%Z then raise BufferOverflow else
             modify (fun r => set_sent (sent r ++ [(i, take (Z.to_nat (wlength c)) (wbuffer c))]) r) ;;
             mret (wlength c));
  set_event i EPOLLIN false ;;
  mret count.

(** What epoll reports for a descriptor, with what [accept] or [recv] will deliver. *)
Record ready := mk_ready {
  r_fd : nat; r_in : bool; r_out : bool; r_accept : Z; r_received : option (list byte)
}.

Definition handle_event (e : ready) : R unit :=
  (if r_in e then
     c ← get_conn (r_fd e);
     match r_action c with
     | NoCallback => raise NullDeref
     | accept_callback => _ ← accept_cb (r_accept e); mret tt
     | recv_callback => _ ← recv_cb (r_fd e) (r_received e); mret tt
     end
   else mret tt) ;;
  if r_out e then
    c ← get_conn (r_fd e);
    if send_ready c then _ ← send_cb (r_fd e); mret tt else raise NullDeref
  else mret tt.

(** The loops over the events of one [epoll_wait], and over the calls of [epoll_wait]. *)
Fixpoint handle_events (es : list ready) : R unit :=
  match es with
  | [] => mret tt
  | e :: es => handle_event e ;; handle_events es
  end.

(** The state when the loop starts: [fds] are the listening sockets. *)
Fixpoint listen_on (fds : list nat) : R unit :=
  match fds with
  | [] => mret tt
  | i :: fds =>
      c ← get_conn i;
      put_conn i (mk_conn (Z.of_nat i) (rbuffer c) (rlength c) (wbuffer c) (wlength c) (send_ready c) accept_callback) ;;
      set_event i EPOLLIN true ;;
      listen_on fds
  end.

Definition reactor_start (fds : list nat) (es : list ready) : R unit :=
  listen_on fds ;; handle_events es.

End reactor.

Definition reactor0 (w : world) : reactor := mk_reactor (replicate CONNECTION_SIZE conn0) ∅ [] [] w.

End Reactor.
