(* ===== verification/ReactorSpec.v ===== *)
(** * What the event loop guarantees

    Any interleaving of connections, requests, answers and disconnections runs as an abstract
    server over one database does, provided every request arrives whole, is shorter than the
    receive buffer and is a command that [command_ok] admits, and its answer fits the send
    buffer.  A request that comes in pieces makes the loop read outside its buffers, one that
    fills the buffer makes it write outside. *)

From S2P Require Import Prelude Engine KvsArray KvsHash KvsRbtree RbtreeRep RbtreeInsert RbtreeMap.
From S2P Require Import KvsSkiptable CNum Stdio World RdbConfig Rdb Protocol ProtocolSpec DbSpec Ntyco NtycoSpec Reactor.
Import CNum Protocol Reactor.

#[local] Opaque BUFFER_LENGTH CONNECTION_SIZE.

(** ** The abstract server *)

(** A connection waits for a request, or has an answer to send. *)
Inductive phase := Waiting | Answering (a : list byte).

Record server := mk_server {
  a_db : db;
  a_conns : gmap nat phase;
  a_sent : list (nat * list byte)
}.

(** What can happen: a client connects through the listening socket [l] and gets the
    descriptor [i]; a request arrives; an answer can be sent; a client goes. *)
Inductive happening :=
  | Connect (l i : nat)
  | Request (i : nat) (cm : command) (seq fl : Z)
  | Answer (i : nat)
  | Hangup (i : nat).

(** [got] arrives at the descriptor [i]; [i] can be written. *)
Definition input_event (i : nat) (got : list byte) : ready := mk_ready i true false 0 (Some got).
Definition output_event (i : nat) : ready := mk_ready i false true 0 None.

Section server.
Context (listening : gset nat).

Inductive step : server -> happening -> server -> Prop :=
  | step_connect s l i :
      l ∈ listening -> i ∉ listening -> i < CONNECTION_SIZE -> a_conns s !! i = None ->
      step s (Connect l i) (mk_server (a_db s) (<[i := Waiting]> (a_conns s)) (a_sent s))
  | step_request s i cm seq fl :
      a_conns s !! i = Some Waiting -> command_ok (a_db s) cm -> u32 seq -> u32 fl ->
      length (command_packet cm seq fl) < BUFFER_LENGTH ->
      length (db_answer (a_db s) cm seq) <= BUFFER_LENGTH ->
      step s (Request i cm seq fl)
        (mk_server (db_after (a_db s) cm) (<[i := Answering (db_answer (a_db s) cm seq)]> (a_conns s)) (a_sent s))
  | step_answer s i a :
      a_conns s !! i = Some (Answering a) ->
      step s (Answer i) (mk_server (a_db s) (<[i := Waiting]> (a_conns s)) (a_sent s ++ [(i, a)]))
  | step_hangup s i :
      a_conns s !! i = Some Waiting ->
      step s (Hangup i) (mk_server (a_db s) (delete i (a_conns s)) (a_sent s)).

Inductive steps : server -> list happening -> server -> Prop :=
  | steps_nil s : steps s [] s
  | steps_cons s h s' hs s'' : step s h s' -> steps s' hs s'' -> steps s (h :: hs) s''.

(** What epoll reports when [h] happens. *)
Definition ready_of (h : happening) : ready :=
  match h with
  | Connect l i => mk_ready l true false (Z.of_nat i) None
  | Request i cm seq fl => input_event i (command_packet cm seq fl)
  | Answer i => output_event i
  | Hangup i => input_event i []
  end.

(** ** The event loop implements it *)

Definition conn_in (r : reactor) (i : nat) (p : phase) : Prop :=
  exists c, conn_list r !! i = Some c /\ r_action c = recv_callback /\ send_ready c = true /\
    length (wbuffer c) = BUFFER_LENGTH /\
    match p with
    | Waiting => epoll r !! i = Some EPOLLIN
    | Answering a => epoll r !! i = Some EPOLLOUT /\ wlength c = Z.of_nat (length a) /\
        length a <= BUFFER_LENGTH /\ a <> [] /\ take (length a) (wbuffer c) = a
    end.

Definition listens (r : reactor) (l : nat) : Prop :=
  exists c, conn_list r !! l = Some c /\ r_action c = accept_callback.

Record implements (r : reactor) (s : server) : Prop := {
  i_table : length (conn_list r) = CONNECTION_SIZE;
  i_conns : forall i p, a_conns s !! i = Some p -> i ∉ listening /\ conn_in r i p;
  i_listen : forall l, l ∈ listening -> listens r l;
  i_free : forall i, i ∉ listening -> a_conns s !! i = None -> epoll r !! i = None;
  i_db : db_rep (kv r) (a_db s);
  i_sent : sent r = a_sent s
}.

Lemma get_conn_run r al i c : conn_list r !! i = Some c -> get_conn i (r, al) = Ret (c, (r, al)).
Proof. intros H. unfold get_conn. rewrite bind_get. cbn [fst]. by rewrite H. Qed.

Lemma put_conn_run r al i c : i < length (conn_list r) ->
  put_conn i c (r, al) = Ret (tt, (set_conns (<[i := c]> (conn_list r)) r, al)).
Proof. intros H. unfold put_conn. rewrite bind_get. cbn [fst]. by rewrite decide_True. Qed.

(** A change of one connection and its events leaves the others. *)
Lemma conn_in_frame r r' i j p :
  i <> j -> conn_list r' !! j = conn_list r !! j -> epoll r' !! j = epoll r !! j ->
  conn_in r j p -> conn_in r' j p.
Proof. intros Hij Hc He (c & H1 & H2). exists c. rewrite Hc, He. by split. Qed.

Lemma implements_update r s i c e p m w out :
  implements r s -> i ∉ listening -> i < CONNECTION_SIZE ->
  let r' := mk_reactor (<[i := c]> (conn_list r)) (<[i := e]> (epoll r)) out (closed r) w in
  conn_in r' i p -> db_rep w m ->
  implements r' (mk_server m (<[i := p]> (a_conns s)) out).
Proof.
  intros [H1 H2 H3 H4 H5 H6] Hi Hlt r' Hin Hst. split; cbn [a_db a_conns a_sent].
  - cbn. by rewrite length_insert.
  - intros j q Hj. destruct (decide (i = j)) as [->|Hne].
    + rewrite lookup_insert_eq in Hj. injection Hj as <-. by split.
    + rewrite lookup_insert_ne in Hj by done. destruct (H2 j q Hj) as [Hjl Hjc]. split; [done|].
      apply (conn_in_frame r r' i j); try done; cbn; [by rewrite list_lookup_insert_ne|by rewrite lookup_insert_ne].
  - intros l Hl. destruct (H3 l Hl) as (c' & Hc' & Ha). exists c'. split; [|done]. cbn.
    rewrite list_lookup_insert_ne; [done|]. by intros ->.
  - intros j Hj Hn. cbn. destruct (decide (i = j)) as [->|Hne]; [by rewrite lookup_insert_eq in Hn|].
    rewrite lookup_insert_ne in Hn by done. rewrite lookup_insert_ne by done. by apply H4.
  - done.
  - done.
Qed.

Context (localtime : Z -> Rdb.tm).

Lemma run_add r al i e : epoll r !! i = None ->
  set_event i e true (r, al) = Ret (tt, (set_epoll (<[i := e]> (epoll r)) r, al)).
Proof. intros H. unfold set_event. rewrite bind_get. cbn [fst]. by rewrite H. Qed.

Lemma run_mod r al i e e' : epoll r !! i = Some e' ->
  set_event i e false (r, al) = Ret (tt, (set_epoll (<[i := e]> (epoll r)) r, al)).
Proof. intros H. unfold set_event. rewrite bind_get. cbn [fst]. by rewrite H. Qed.

Lemma conn_lt r i c : length (conn_list r) = CONNECTION_SIZE -> conn_list r !! i = Some c -> i < CONNECTION_SIZE.
Proof. intros <- H. by apply lookup_lt_Some in H. Qed.

Lemma connect_runs r s l i :
  implements r s -> l ∈ listening -> i ∉ listening -> i < CONNECTION_SIZE -> a_conns s !! i = None ->
  exists r', handle_event localtime (ready_of (Connect l i)) (r, []) = Ret (tt, (r', [])) /\
    implements r' (mk_server (a_db s) (<[i := Waiting]> (a_conns s)) (a_sent s)).
Proof.
  intros Hi Hl Hil Hlt Hn. pose proof Hi as [H1 H2 H3 H4 H5 H6].
  destruct (H3 l Hl) as (cl & Hcl & Ha). pose proof (H4 i Hil Hn) as He.
  destruct (lookup_lt_is_Some_2 (conn_list r) i) as [ci Hci]; [lia|].
  eexists. split.
  - unfold handle_event, ready_of. cbn [input_event output_event r_in r_out r_fd r_accept].
    rewrite bind_bind, (bind_ret _ _ _ _ _ (get_conn_run r [] l cl Hcl)), Ha.
    unfold accept_cb, event_register. destruct (Z.ltb_spec (Z.of_nat i) 0); [lia|]. rewrite Nat2Z.id.
    rewrite !bind_bind, (bind_ret _ _ _ _ _ (get_conn_run r [] i ci Hci)).
    rewrite bind_bind. erewrite bind_ret; [|apply put_conn_run; lia]. cbn beta.
    rewrite bind_bind. erewrite bind_ret; [|by apply run_add]. cbn beta. mcbn. reflexivity.
  - cbn [set_epoll set_conns set_kv conn_list epoll sent closed kv]. rewrite <- H6.
    apply (implements_update r s i _ EPOLLIN Waiting (a_db s) (kv r) (sent r) Hi Hil Hlt); [|done].
    eexists. cbn [conn_list epoll]. rewrite list_lookup_insert_eq, lookup_insert_eq by lia. split; [done|].
    cbn [r_action send_ready wbuffer]. rewrite length_replicate. done.
Qed.

Lemma request_runs r s i cm seq fl :
  implements r s -> a_conns s !! i = Some Waiting -> command_ok (a_db s) cm -> u32 seq -> u32 fl ->
  length (command_packet cm seq fl) < BUFFER_LENGTH -> length (db_answer (a_db s) cm seq) <= BUFFER_LENGTH ->
  exists r', handle_event localtime (ready_of (Request i cm seq fl)) (r, []) = Ret (tt, (r', [])) /\
    implements r' (mk_server (db_after (a_db s) cm) (<[i := Answering (db_answer (a_db s) cm seq)]> (a_conns s)) (a_sent s)).
Proof.
  intros Hi Hp Hq Hs Hf Hlen Hans. pose proof Hi as [H1 H2 H3 H4 H5 H6].
  destruct (H2 i Waiting Hp) as (Hil & c & Hc & Hact & Hsr & Hwb & He).
  pose proof (conn_lt r i c H1 Hc) as Hlt.
  destruct (command_run localtime (kv r) (a_db s) cm seq fl H5 Hq Hs Hf) as (w' & Hst' & Hrun).
  set (bytes := command_packet cm seq fl) in *.
  assert (Hb0 : TCP_HEADER_SIZE <= length bytes) by (unfold bytes, command_packet; rewrite length_packet; lia).
  assert (Hblank : exists rest, bytes ++ drop (length bytes) (replicate BUFFER_LENGTH x00) = bytes ++ x00 :: rest).
  { rewrite drop_replicate. destruct (BUFFER_LENGTH - length bytes) as [|k] eqn:E; [lia|]. by eexists. }
  destruct Hblank as [rest Hblank]. destruct (Hrun x00 rest) as [b' Hb0'].
  assert (Hb' : kvs_tcp_protocol localtime (bytes ++ drop (length bytes) (replicate BUFFER_LENGTH x00))
    (Z.of_nat (length bytes)) (kv r, [])
    = Ret ((Z.of_nat (length (db_answer (a_db s) cm seq)), b', db_answer (a_db s) cm seq), (w', [])))
    by (rewrite Hblank; exact Hb0').
  assert (Hwrite : forall st0 : reactor * alloc, write_front (db_answer (a_db s) cm seq) (wbuffer c) st0
    = Ret (db_answer (a_db s) cm seq ++ drop (length (db_answer (a_db s) cm seq)) (wbuffer c), st0)).
  { intros st0. unfold write_front. rewrite decide_True by (rewrite Hwb; exact Hans). done. }
  assert (Ha0 : db_answer (a_db s) cm seq <> []).
  { intros E. apply (f_equal length) in E. unfold db_answer in E. rewrite length_response in E. done. }
  eexists. split.
  - unfold handle_event, ready_of. cbn [input_event output_event r_in r_out r_fd r_received]. fold bytes.
    rewrite bind_bind, (bind_ret _ _ _ _ _ (get_conn_run r [] i c Hc)), Hact. rewrite bind_bind.
    unfold recv_cb. rewrite bind_bind, (bind_ret _ _ _ _ _ (get_conn_run r [] i c Hc)). cbn [fmap option_fmap option_map].
    rewrite take_ge by lia.
    destruct bytes as [|y ys] eqn:Eb; [unfold TCP_HEADER_SIZE in Hb0; cbn in Hb0; lia|]. rewrite <- Eb in *. clear Eb y ys.
    rewrite bind_bind. erewrite bind_ret; [|apply put_conn_run; lia]. cbn beta.
    unfold kvs_request. rewrite !bind_bind.
    erewrite bind_ret; [|apply get_conn_run; cbn [conn_list set_conns]; apply list_lookup_insert_eq; lia]. cbn beta.
    cbn [rbuffer rlength wbuffer fd send_ready r_action].
    rewrite bind_bind. unfold on_kv.
    erewrite bind_ret; [|apply (zoom_run kv set_kv); exact Hb']. cbn beta. cbn [fst snd].
    rewrite bind_bind, (bind_ret _ _ _ _ _ (Hwrite _)).
    erewrite bind_ret; [|apply put_conn_run; cbn [conn_list set_conns set_kv]; rewrite length_insert; lia]. cbn beta.
    rewrite bind_bind. erewrite bind_ret; [|eapply run_mod; exact He]. cbn beta. mcbn. reflexivity.
  - cbn [set_epoll set_conns set_kv conn_list epoll sent closed kv]. rewrite list_insert_insert_eq, <- H6.
    eapply (implements_update r s i _ EPOLLOUT (Answering _) (db_after (a_db s) cm) w' (sent r) Hi Hil Hlt).
    + eexists. cbn [conn_list epoll]. rewrite list_lookup_insert_eq, lookup_insert_eq by lia. split; [done|].
      cbn [r_action send_ready wbuffer wlength]. split; [exact Hact|]. split; [exact Hsr|].
      split; [rewrite length_app, length_drop, Hwb; lia|]. split; [done|]. split; [done|]. split; [done|].
      split; [done|]. by rewrite take_app_length.
    + exact Hst'.
Qed.

Lemma answer_runs r s i a :
  implements r s -> a_conns s !! i = Some (Answering a) ->
  exists r', handle_event localtime (ready_of (Answer i)) (r, []) = Ret (tt, (r', [])) /\
    implements r' (mk_server (a_db s) (<[i := Waiting]> (a_conns s)) (a_sent s ++ [(i, a)])).
Proof.
  intros Hi Hp. pose proof Hi as [H1 H2 H3 H4 H5 H6].
  destruct (H2 i _ Hp) as (Hil & c & Hc & Hact & Hsr & Hwb & He & Hwl & Hal & Hane & Htake).
  pose proof (conn_lt r i c H1 Hc) as Hlt. eexists. split.
  - unfold handle_event, ready_of. cbn [input_event output_event r_in r_out r_fd]. rewrite bind_mret.
    rewrite (bind_ret _ _ _ _ _ (get_conn_run r [] i c Hc)), Hsr.
    unfold send_cb. rewrite bind_bind, (bind_ret _ _ _ _ _ (get_conn_run r [] i c Hc)).
    assert (Hlen : 0 < length a) by (destruct a; [done|cbn; lia]).
    rewrite Hwl, Hwb. destruct (Z.eqb_spec (Z.of_nat (length a)) 0); [lia|].
    destruct (Z.ltb_spec (Z.of_nat (length a)) 0); [lia|].
    destruct (Z.ltb_spec (Z.of_nat BUFFER_LENGTH) (Z.of_nat (length a))); [lia|]. cbn [orb].
    rewrite Nat2Z.id, Htake. rewrite !bind_bind, bind_modify. cbn [fst snd]. rewrite bind_mret.
    rewrite bind_bind. erewrite bind_ret; [|eapply run_mod; exact He]. cbn beta. mcbn. reflexivity.
  - cbn [set_epoll set_sent conn_list epoll sent closed kv].
    pose proof (implements_update r s i c EPOLLIN Waiting (a_db s) (kv r) (sent r ++ [(i, a)]) Hi Hil Hlt) as Hup.
    rewrite list_insert_id in Hup by exact Hc. rewrite <- H6. apply Hup; [|done].
    exists c. cbn [conn_list epoll]. rewrite lookup_insert_eq. done.
Qed.

Lemma hangup_runs r s i :
  implements r s -> a_conns s !! i = Some Waiting ->
  exists r', handle_event localtime (ready_of (Hangup i)) (r, []) = Ret (tt, (r', [])) /\
    implements r' (mk_server (a_db s) (delete i (a_conns s)) (a_sent s)).
Proof.
  intros Hi Hp. pose proof Hi as [H1 H2 H3 H4 H5 H6].
  destruct (H2 i _ Hp) as (Hil & c & Hc & Hact & Hsr & Hwb & He).
  pose proof (conn_lt r i c H1 Hc) as Hlt. eexists. split.
  - unfold handle_event, ready_of. cbn [input_event output_event r_in r_out r_fd r_received].
    rewrite bind_bind, (bind_ret _ _ _ _ _ (get_conn_run r [] i c Hc)), Hact. rewrite bind_bind.
    unfold recv_cb. rewrite bind_bind, (bind_ret _ _ _ _ _ (get_conn_run r [] i c Hc)). cbn [fmap option_fmap option_map].
    rewrite take_nil. rewrite bind_bind. erewrite bind_ret; [|apply put_conn_run; lia]. cbn beta.
    unfold close_fd. rewrite !bind_bind, bind_modify. cbn [fst snd]. rewrite bind_modify. cbn [fst snd]. mcbn. reflexivity.
  - set (r1 := mk_reactor
      (<[i := mk_conn (fd c) (replicate BUFFER_LENGTH x00) (rlength c) (wbuffer c) (wlength c) (send_ready c) (r_action c)]> (conn_list r))
      (delete i (epoll r)) (sent r) (closed r ++ [i]) (kv r)).
    change (implements r1 (mk_server (a_db s) (delete i (a_conns s)) (a_sent s))).
    split; cbn [a_db a_conns a_sent]; try done.
    + cbn [conn_list r1]. by rewrite length_insert.
    + intros j p Hj. destruct (decide (i = j)) as [->|Hne]; [by rewrite lookup_delete_eq in Hj|].
      rewrite lookup_delete_ne in Hj by done. destruct (H2 j p Hj) as [? Hjc]. split; [done|].
      apply (conn_in_frame r r1 i); cbn [conn_list epoll r1]; [done|by rewrite list_lookup_insert_ne|by rewrite lookup_delete_ne|done].
    + intros l Hl. destruct (H3 l Hl) as (c' & Hc' & Ha). exists c'. split; [|done]. cbn [conn_list r1].
      rewrite list_lookup_insert_ne; [done|]. by intros ->.
    + intros j Hj Hn. cbn [epoll r1]. destruct (decide (i = j)) as [->|Hne]; [apply lookup_delete_eq|].
      rewrite lookup_delete_ne by done. rewrite lookup_delete_ne in Hn by done. by apply H4.
Qed.

Lemma step_runs r s h s' :
  implements r s -> step s h s' ->
  exists r', handle_event localtime (ready_of h) (r, []) = Ret (tt, (r', [])) /\ implements r' s'.
Proof.
  intros Hi Hs. destruct Hs.
  - by apply connect_runs.
  - by apply request_runs.
  - by apply answer_runs.
  - by apply hangup_runs.
Qed.

(** C3: the event loop refines the server [steps] describes: clients connect, send a whole
    request that one [recv] gets, take the whole answer, and send the next request or leave;
    their events are interleaved in any order.  A descriptor of a connection is one of the
    table's, not in use and not a listening one; a request, with its header, has less than 1024
    bytes and its answer at most 1024 (a request of 1024 overflows, see
    [reactor_full_request_overflows]); the command is one that [command_ok] admits (listed at
    [tcp_command_refines_db]), and the calls of [malloc] succeed.  Such a sequence of events
    runs without a fault, keeps the four engines equal to the database, and sends the answers of
    the database in the order of the requests. *)
Theorem reactor_refines_server r s hs s' :
  implements r s -> steps s hs s' ->
  exists r', handle_events localtime (ready_of <$> hs) (r, []) = Ret (tt, (r', [])) /\
    implements r' s' /\ sent r' = a_sent s'.
Proof.
  intros Hi Hs. revert r Hi. induction Hs as [s|s h s1 hs s2 Hh _ IH]; intros r Hi.
  - exists r. split; [done|]. split; [done|apply (i_sent _ _ Hi)].
  - destruct (step_runs r s h s1 Hi Hh) as (r1 & E & Hi1). destruct (IH r1 Hi1) as (r2 & E2 & H2).
    exists r2. split; [|exact H2]. cbn [fmap list_fmap handle_events].
    by rewrite (bind_ret _ _ _ _ _ E).
Qed.

End server.

(** ** Requests that do not arrive whole *)

(** A client that sends fewer than 24 bytes (or whose request arrives in such a
    piece) makes the loop read outside its buffer: the handler returns -1, the connection
    turns to output with the length -1, and [send] is called with it as an unsigned size. *)
Theorem reactor_short_request_overreads localtime r i c got :
  conn_list r !! i = Some c -> r_action c = recv_callback -> send_ready c = true ->
  epoll r !! i = Some EPOLLIN -> 0 < length got < TCP_HEADER_SIZE ->
  exists r', handle_event localtime (input_event i got) (r, []) = Ret (tt, (r', [])) /\
    epoll r' !! i = Some EPOLLOUT /\
    handle_event localtime (output_event i) (r', []) = Fault BufferOverflow.
Proof.
  intros Hc Hact Hsr He Hlen. pose proof (lookup_lt_Some _ _ _ Hc) as Hlt.
  assert (Hb : Z.of_nat BUFFER_LENGTH = 1024%Z) by reflexivity.
  eexists. split; [|split].
  - unfold handle_event. cbn [input_event output_event r_in r_out r_fd r_received].
    rewrite bind_bind, (bind_ret _ _ _ _ _ (get_conn_run r [] i c Hc)), Hact. rewrite bind_bind.
    unfold recv_cb. rewrite bind_bind, (bind_ret _ _ _ _ _ (get_conn_run r [] i c Hc)). cbn [fmap option_fmap option_map].
    rewrite take_ge by (unfold TCP_HEADER_SIZE in Hlen; lia).
    destruct got as [|y ys] eqn:Eg; [cbn in Hlen; lia|]. rewrite <- Eg in *. clear Eg y ys.
    rewrite bind_bind. erewrite bind_ret; [|by apply put_conn_run]. cbn beta.
    unfold kvs_request. rewrite !bind_bind.
    erewrite bind_ret; [|apply get_conn_run; cbn [conn_list set_conns]; by apply list_lookup_insert_eq]. cbn beta.
    cbn [rbuffer rlength wbuffer fd send_ready r_action].
    rewrite bind_bind. unfold on_kv.
    assert (Hp : forall b s0, kvs_tcp_protocol localtime b (Z.of_nat (length got)) s0 = Ret (((-1)%Z, b, []), s0)).
    { intros b s0. unfold kvs_tcp_protocol. destruct (Z.ltb_spec (Z.of_nat (length got)) (Z.of_nat TCP_HEADER_SIZE)); [done|lia]. }
    erewrite bind_ret; [|apply (zoom_run kv set_kv); apply Hp]. cbn beta. cbn [fst snd].
    rewrite bind_bind. unfold write_front. rewrite decide_True by (cbn [length]; lia). rewrite bind_mret.
    cbn [length app]. rewrite drop_0.
    erewrite bind_ret; [|apply put_conn_run; cbn [conn_list set_conns set_kv]; by rewrite length_insert]. cbn beta.
    rewrite bind_bind. erewrite bind_ret; [|eapply run_mod; exact He]. cbn beta. mcbn. reflexivity.
  - cbn [epoll set_epoll]. apply lookup_insert_eq.
  - unfold handle_event. cbn [input_event output_event r_in r_out r_fd]. rewrite bind_mret.
    erewrite bind_ret; [|apply get_conn_run; cbn [conn_list set_conns set_kv set_epoll];
      apply list_lookup_insert_eq; by rewrite length_insert]. cbn beta.
    cbn [send_ready]. rewrite Hsr. unfold send_cb. rewrite bind_bind.
    erewrite bind_ret; [|apply get_conn_run; cbn [conn_list set_conns set_kv set_epoll];
      apply list_lookup_insert_eq; by rewrite length_insert]. cbn beta.
    cbn [wlength Z.eqb Z.ltb Z.compare orb]. done.
Qed.

(** A request of exactly 1024 bytes, which the protocol allows, makes the handler
    write the NUL that ends the data one byte behind the receive buffer. *)
Theorem reactor_full_request_overflows localtime r i c cmd seq fl d :
  conn_list r !! i = Some c -> r_action c = recv_callback -> u32 cmd -> u32 seq -> u32 fl ->
  length (packet cmd seq fl d) = BUFFER_LENGTH ->
  handle_event localtime (input_event i (packet cmd seq fl d)) (r, []) = Fault BufferOverflow.
Proof.
  intros Hc Hact Hcmd Hs Hf Hlen. pose proof (lookup_lt_Some _ _ _ Hc) as Hlt.
  assert (Hb : Z.of_nat BUFFER_LENGTH = 1024%Z) by reflexivity.
  pose proof (length_packet cmd seq fl d) as Hpl. set (got := packet cmd seq fl d) in *.
  assert (Hd : 0 < length d <= 1024) by (unfold TCP_HEADER_SIZE in Hpl; lia).
  unfold handle_event. cbn [input_event output_event r_in r_out r_fd r_received].
  rewrite bind_bind, (bind_ret _ _ _ _ _ (get_conn_run r [] i c Hc)), Hact. rewrite bind_bind.
  unfold recv_cb. rewrite bind_bind, (bind_ret _ _ _ _ _ (get_conn_run r [] i c Hc)). cbn [fmap option_fmap option_map].
  rewrite take_ge by lia.
  destruct got as [|y ys] eqn:Eg; [unfold TCP_HEADER_SIZE in Hpl; cbn in Hpl; lia|]. rewrite <- Eg in *. clear Eg y ys.
  rewrite bind_bind. erewrite bind_ret; [|by apply put_conn_run]. cbn beta.
  unfold kvs_request. rewrite !bind_bind.
  erewrite bind_ret; [|apply get_conn_run; cbn [conn_list set_conns]; by apply list_lookup_insert_eq]. cbn beta.
  cbn [rbuffer rlength wbuffer fd send_ready r_action].
  rewrite bind_bind. unfold on_kv. apply bind_fault, zoom_fault.
  rewrite drop_ge by (rewrite length_replicate; lia). unfold got in *. clear got.
  rewrite protocol_enter by (done || lia). apply bind_fault.
  unfold split_data. rewrite decide_False by lia. apply bind_fault. unfold put_nul.
  rewrite decide_False; [done|]. rewrite app_nil_r. lia.
Qed.

(** ** The loop starts *)

Lemma listen_runs fds : forall r (L : gset nat),
  length (conn_list r) = CONNECTION_SIZE -> (forall l, l ∈ L -> listens r l) ->
  (forall i, i ∉ L -> epoll r !! i = None) ->
  Forall (fun i => i < CONNECTION_SIZE) fds -> NoDup fds -> (forall i, i ∈ fds -> i ∉ L) ->
  exists r', listen_on fds (r, []) = Ret (tt, (r', [])) /\ length (conn_list r') = CONNECTION_SIZE /\
    (forall l, l ∈ L ∪ list_to_set fds -> listens r' l) /\
    (forall i, i ∉ L ∪ list_to_set fds -> epoll r' !! i = None) /\ kv r' = kv r /\ sent r' = sent r.
Proof.
  induction fds as [|i fds IH]; intros r L Hlen HL He Hlt Hnd Hfresh; cbn [listen_on list_to_set].
  - exists r. split; [done|]. split; [done|]. split; [set_solver|]. split; [|done]. intros j Hj. apply He. set_solver.
  - apply list.Forall_cons in Hlt as [Hi Hlt]. apply list.NoDup_cons in Hnd as [Hni Hnd].
    destruct (lookup_lt_is_Some_2 (conn_list r) i) as [c Hc]; [lia|].
    rewrite (bind_ret _ _ _ _ _ (get_conn_run r [] i c Hc)).
    erewrite bind_ret; [|apply put_conn_run; lia]. cbn beta.
    erewrite bind_ret; [|apply run_add; apply He, Hfresh, elem_of_cons; by left]. cbn beta.
    match goal with |- context [listen_on fds (?x, [])] => set (r1 := x) end.
    destruct (IH r1 ({[i]} ∪ L)) as (r' & E & H1 & H2 & H3 & H4 & H5).
    + unfold r1. cbn. by rewrite length_insert.
    + intros l Hl. destruct (decide (l = i)) as [->|Hne].
      * eexists. unfold r1. cbn [conn_list set_epoll set_conns]. rewrite list_lookup_insert_eq by lia. by split.
      * destruct (HL l) as (c' & Hc' & Ha); [set_solver|]. exists c'. unfold r1. cbn [conn_list set_epoll set_conns].
        by rewrite list_lookup_insert_ne.
    + intros j Hj. unfold r1. cbn [epoll set_epoll set_conns]. rewrite lookup_insert_ne by set_solver. apply He. set_solver.
    + done.
    + done.
    + intros j Hj Hin. apply elem_of_union in Hin as [->%elem_of_singleton|Hin]; [done|].
      apply (Hfresh j); [apply elem_of_cons; by right|done].
    + exists r'. split; [exact E|]. split; [done|]. split; [|split; [|done]].
      * intros l Hl. apply H2. set_solver.
      * intros j Hj. apply H3. set_solver.
Qed.

(** The state the loop starts in implements the server without connections. *)
Lemma start_implements w d fds :
  db_rep w d -> Forall (fun i => i < CONNECTION_SIZE) fds -> NoDup fds ->
  exists r, listen_on fds (reactor0 w, []) = Ret (tt, (r, [])) /\
    implements (list_to_set fds) r (mk_server d ∅ []).
Proof.
  intros Hst Hlt Hnd. destruct (listen_runs fds (reactor0 w) ∅ (length_replicate _ _)) as (r & E & H1 & H2 & H3 & H4 & H5); try done.
  - exists r. split; [done|]. split; cbn [a_db a_conns a_sent]; try done.
    + intros l Hl. apply H2. set_solver.
    + intros i Hi _. apply H3. set_solver.
    + by rewrite H4.
Qed.

Definition set_k : command := Kv SHash (RSet (bs "k") (bs "v")).
Definition get_k : command := Kv SHash (RGet (bs "k")).

(** Two clients whose requests and answers cross. *)
Definition crossing : list happening :=
  [Connect 3 5; Connect 3 6; Request 5 set_k 1 0; Request 6 get_k 9 0; Answer 6; Answer 5; Hangup 6].

Definition crossing_sent : list (nat * list byte) :=
  [(6, build_tcp_response CMD_HGET 9 (bs "v")); (5, build_tcp_response CMD_HSET 1 (bs "OK"))].

Lemma crossing_ok d c : c = set_k \/ c = get_k -> command_ok d c.
Proof.
  intros [-> | ->]; (split; [cbn; lia|]); (split; [cbn; lia|]); (split; [vm_compute; discriminate|]);
    (split; [split; vm_compute; set_solver|]); [vm_compute; set_solver|discriminate].
Qed.

Lemma crossing_steps : exists s', steps {[3]} (mk_server (db0 NoSaves) ∅ []) crossing s' /\ a_sent s' = crossing_sent.
Proof.
  assert (Hlt : forall n, n <= 100 -> n < CONNECTION_SIZE) by (intros n Hn; assert (Z.of_nat CONNECTION_SIZE = 1024%Z) by reflexivity; lia).
  assert (Hltb : forall n, n <= 100 -> n < BUFFER_LENGTH) by (intros n Hn; assert (Z.of_nat BUFFER_LENGTH = 1024%Z) by reflexivity; lia).
  eexists. split.
  - do 2 (eapply steps_cons; [apply step_connect; [set_solver|set_solver|apply Hlt; lia|done]|]).
    do 2 (eapply steps_cons; [apply step_request; [done|apply crossing_ok; auto|by split|by split
      |apply Hltb; vm_compute; lia|apply Nat.lt_le_incl, Hltb; vm_compute; lia]|]).
    do 2 (eapply steps_cons; [eapply step_answer; reflexivity|]).
    eapply steps_cons; [eapply step_hangup; reflexivity|]. apply steps_nil.
  - by vm_compute.
Qed.

Example reactor_refines_server_witness :
  exists r r', listen_on [3] (reactor0 (db_world []), []) = Ret (tt, (r, [])) /\
    handle_events some_tm (ready_of <$> crossing) (r, []) = Ret (tt, (r', [])) /\
    sent r' = crossing_sent.
Proof.
  destruct (start_implements (db_world []) (db0 NoSaves) [3] (db_world_rep [])) as (r & E & Hi).
  - apply Forall_singleton. assert (Z.of_nat CONNECTION_SIZE = 1024%Z) by reflexivity. lia.
  - apply NoDup_singleton.
  - destruct crossing_steps as (s' & Hs & Hsent). rewrite <- (right_id_L ∅ union {[3]}) in Hs.
    destruct (reactor_refines_server (list_to_set [3]) some_tm r _ crossing s' Hi Hs) as (r' & E' & _ & Hs').
    exists r, r'. split; [exact E|]. split; [exact E'|]. by rewrite Hs', Hsent.
Defined.

Definition one_conn : reactor :=
  mk_reactor [mk_conn 0 (replicate 1024 x00) 0 (replicate 1024 x00) 0 true recv_callback] {[0 := EPOLLIN]} [] [] empty_world.

Example reactor_short_request_overreads_witness :
  exists r', handle_event some_tm (input_event 0 (bs "SET k v")) (one_conn, []) = Ret (tt, (r', [])) /\
    epoll r' !! 0 = Some EPOLLOUT /\
    handle_event some_tm (output_event 0) (r', []) = Fault BufferOverflow.
Proof.
  eapply (reactor_short_request_overreads some_tm one_conn 0); [reflexivity|done|done|apply lookup_singleton_eq|split; vm_compute; lia].
Defined.

Example reactor_full_request_overflows_witness :
  handle_event some_tm (input_event 0 (packet CMD_SET 1 0 (replicate 1000 x61))) (one_conn, [])
  = Fault BufferOverflow.
Proof.
  eapply (reactor_full_request_overflows some_tm one_conn 0 _ CMD_SET 1 0 (replicate 1000 x61));
    [reflexivity|done|by split|by split|by split|].
  rewrite length_packet, length_replicate. reflexivity.
Defined.
