(* ===== verification/Proactor.v ===== *)
(** * The completion loop ([src/proactor.c])

    One thread over an io_uring: operations are queued, submitted together, carried out by
    the kernel in any order, and their completions handled.  All connections share one
    receive buffer and one response buffer, which the kernel writes and reads when it
    carries the operations out.  What the kernel carries out between a submission and the
    look at the completion queue is the input of the model (it could do so later too, while
    completions are handled); what it sends is the output. *)

From S2P Require Import Prelude Engine KvsArray KvsHash KvsRbtree KvsSkiptable Stdio World RdbConfig.
From S2P Require Import Rdb Protocol.
Import Protocol.

Module Proactor.

Definition ENTRIES_LENGTH : nat := 1024.
Definition BUFFER_LENGTH : nat := 1024.

Inductive event := EVENT_ACCEPT | EVENT_READ | EVENT_WRITE.

#[export] Instance event_eq_dec : EqDecision event.
Proof. solve_decision. Defined.

(** What a completion carries back. *)
Record conn_info := mk_info { fd : Z; c_event : event }.

(** A submission: the information and, for a send, the length (an [int] that
    [io_uring_prep_send] gets as a [size_t]). *)
Record sqe := mk_sqe { user_data : conn_info; s_len : Z }.
Record cqe := mk_cqe { c_data : conn_info; res : Z }.

Record proactor := mk_proactor {
  queued : list sqe;               (** prepared, not submitted *)
  inflight : list sqe;             (** submitted, not carried out *)
  completions : list cqe;          (** carried out, not handled *)
  buffer : list byte;
  response : list byte;
  sent : list (Z * list byte);
  closed : list Z;
  kv : world
}.

Abbreviation P A := (M proactor A).

Definition set_queued q p :=
  mk_proactor q (inflight p) (completions p) (buffer p) (response p) (sent p) (closed p) (kv p).
Definition set_inflight q p :=
  mk_proactor (queued p) q (completions p) (buffer p) (response p) (sent p) (closed p) (kv p).
Definition set_completions q p :=
  mk_proactor (queued p) (inflight p) q (buffer p) (response p) (sent p) (closed p) (kv p).
Definition set_buffer b p :=
  mk_proactor (queued p) (inflight p) (completions p) b (response p) (sent p) (closed p) (kv p).
Definition set_response b p :=
  mk_proactor (queued p) (inflight p) (completions p) (buffer p) b (sent p) (closed p) (kv p).
Definition set_sent s p :=
  mk_proactor (queued p) (inflight p) (completions p) (buffer p) (response p) s (closed p) (kv p).
Definition set_closed s p :=
  mk_proactor (queued p) (inflight p) (completions p) (buffer p) (response p) (sent p) s (kv p).
Definition set_kv w p :=
  mk_proactor (queued p) (inflight p) (completions p) (buffer p) (response p) (sent p) (closed p) w.

Definition on_kv {A} (m : W A) : P A := zoom kv set_kv m.

(** [io_uring_get_sqe] returns NULL when the queue is full. *)
Definition queue (x : sqe) : P unit :=
  p ← get;
  if decide (length (queued p) < ENTRIES_LENGTH) then modify (set_queued (queued p ++ [x]))
  else raise NullDeref.

Definition set_event_accept (sockfd : Z) : P unit := queue (mk_sqe (mk_info sockfd EVENT_ACCEPT) 0).
Definition set_event_recv (sockfd : Z) : P unit :=
  queue (mk_sqe (mk_info sockfd EVENT_READ) (Z.of_nat BUFFER_LENGTH)).
Definition set_event_send (sockfd len : Z) : P unit := queue (mk_sqe (mk_info sockfd EVENT_WRITE) len).

Definition io_uring_submit : P unit :=
  p ← get;
  modify (set_inflight (inflight p ++ queued p)) ;;
  modify (set_queued []).

(** ** The kernel *)

(** What it carries out: an accept with its result, a receive with the bytes or a result
    that is not positive, the send for a descriptor, which may fail. *)
Inductive kernel :=
  | KAccept (res : Z)
  | KRecv (fd : Z) (got : list byte) (error : Z)
  | KSend (fd : Z) (ok : bool).

Definition is_op (f : Z) (e : event) (x : sqe) : Prop := fd (user_data x) = f /\ c_event (user_data x) = e.
#[export] Instance is_op_dec f e x : Decision (is_op f e x).
Proof. unfold is_op. apply _. Defined.

Definition is_accept (x : sqe) : Prop := c_event (user_data x) = EVENT_ACCEPT.
#[export] Instance is_accept_dec x : Decision (is_accept x).
Proof. unfold is_accept. apply _. Defined.

(** Takes the first operation with a property out of those in flight. *)
Definition take_op (Q : sqe -> Prop) `{forall x, Decision (Q x)} : P (option sqe) :=
  p ← get;
  match list_find Q (inflight p) with
  | None => mret None
  | Some (i, x) => modify (set_inflight (delete i (inflight p))) ;; mret (Some x)
  end.

Definition complete (info : conn_info) (r : Z) : P unit :=
  p ← get; modify (set_completions (completions p ++ [mk_cqe info r])).

(** The kernel carries out only what is in flight.  A send reads the response buffer. *)
Definition kernel_step (k : kernel) : P unit :=
  match k with
  | KAccept r =>
      o ← take_op is_accept;
      match o with None => mret tt | Some x => complete (user_data x) r end
  | KRecv f got error =>
      o ← take_op (is_op f EVENT_READ);
      match o with
      | None => mret tt
      | Some x =>
          match take BUFFER_LENGTH got with
          | [] => complete (user_data x) (Z.min error 0)
          | got =>
              p ← get;
              modify (set_buffer (got ++ drop (length got) (buffer p))) ;;
              complete (user_data x) (Z.of_nat (length got))
          end
      end
  | KSend f ok =>
      o ← take_op (is_op f EVENT_WRITE);
      match o with
      | None => mret tt
      | Some x =>
          if negb ok then complete (user_data x) (-1) else
          p ← get;
          if (s_len x <? 0)%Z || (Z.of_nat (length (response p)) <? s_len x)%Z then raise BufferOverflow else
          modify (set_sent (sent p ++ [(f, take (Z.to_nat (s_len x)) (response p))])) ;;
          complete (user_data x) (s_len x)
      end
  end.

Fixpoint kernel_steps (ks : list kernel) : P unit :=
  match ks with
  | [] => mret tt
  | k :: ks => kernel_step k ;; kernel_steps ks
  end.

(** ** The loop *)

Section proactor.
Context (localtime : Z -> Rdb.tm) (sockfd : Z).

(** [kvs_handler] is [kvs_tcp_protocol]; it writes the front of the response buffer. *)
Definition handle_completion (entries : cqe) : P unit :=
  let result := c_data entries in
  match c_event result with
  | EVENT_ACCEPT =>
      set_event_accept sockfd ;;
      set_event_recv (res entries)
  | EVENT_READ =>
      let ret := res entries in
      if (ret =? 0)%Z then modify (fun p => set_closed (closed p ++ [fd result]) p)
      else if (0 <? ret)%Z then
        p ← get;
        r ← on_kv (kvs_tcp_protocol localtime (buffer p) ret);
        modify (set_buffer r.1.2) ;;
        (if decide (length r.2 <= length (response p))
         then modify (set_response (r.2 ++ drop (length r.2) (response p)))
         else raise BufferOverflow) ;;
        set_event_send (fd result) r.1.1
      else mret tt
  | EVENT_WRITE => set_event_recv (fd result)
  end.

Fixpoint handle_completions (cqes : list cqe) : P unit :=
  match cqes with
  | [] => mret tt
  | e :: cqes => handle_completion e ;; handle_completions cqes
  end.

(** One round: at most 128 completions. *)
Definition proactor_round (ks : list kernel) : P unit :=
  io_uring_submit ;;
  kernel_steps ks ;;
  p ← get;
  handle_completions (take 128 (completions p)) ;;
  modify (set_completions (drop 128 (completions p))).

Fixpoint proactor_rounds (rounds : list (list kernel)) : P unit :=
  match rounds with
  | [] => mret tt
  | ks :: rounds => proactor_round ks ;; proactor_rounds rounds
  end.

Definition proactor_start (rounds : list (list kernel)) : P unit :=
  set_event_accept sockfd ;;
  proactor_rounds rounds.

End proactor.

Definition proactor0 (w : world) : proactor :=
  mk_proactor [] [] [] (replicate BUFFER_LENGTH x00) (replicate BUFFER_LENGTH x00) [] [] w.

End Proactor.
