(* ===== verification/ProactorSpec.v ===== *)
(** * What the completion loop guarantees

    As long as no request arrives before the answer to the one before is sent, whatever
    connection it is for, and requests and answers fit the buffers, the loop serves its clients
    as one database does the commands that [command_ok] admits.  Two requests in one batch share
    the buffer: the second overwrites the first. *)

From S2P Require Import Prelude Engine KvsArray KvsHash KvsRbtree RbtreeRep RbtreeInsert RbtreeMap.
From S2P Require Import KvsSkiptable CNum Stdio World RdbConfig Rdb Protocol ProtocolSpec DbSpec Ntyco NtycoSpec Proactor.
Import CNum Protocol Proactor.

#[local] Opaque BUFFER_LENGTH ENTRIES_LENGTH.

(** ** The abstract server *)

(** [a_busy]: the connection whose answer is not sent. *)
Record served := mk_served {
  a_db : db;
  a_idle : gset Z;
  a_busy : option (Z * list byte);
  a_sent : list (Z * list byte);
  a_closed : list Z
}.

Definition served0 (d : db) : served := mk_served d ∅ None [] [].

Section served.
Context (sockfd : Z).

Inductive serves : served -> kernel -> served -> Prop :=
  | serve_connect s f :
      f ∉ a_idle s -> f ∉ fst <$> option_list (a_busy s) ->
      serves s (KAccept f) (mk_served (a_db s) ({[f]} ∪ a_idle s) (a_busy s) (a_sent s) (a_closed s))
  | serve_request s f cm seq fl :
      f ∈ a_idle s -> a_busy s = None -> command_ok (a_db s) cm -> u32 seq -> u32 fl ->
      length (command_packet cm seq fl) < BUFFER_LENGTH ->
      length (db_answer (a_db s) cm seq) <= BUFFER_LENGTH ->
      serves s (KRecv f (command_packet cm seq fl) 0)
        (mk_served (db_after (a_db s) cm) (a_idle s ∖ {[f]}) (Some (f, db_answer (a_db s) cm seq))
           (a_sent s) (a_closed s))
  | serve_answer s f a :
      a_busy s = Some (f, a) ->
      serves s (KSend f true)
        (mk_served (a_db s) ({[f]} ∪ a_idle s) None (a_sent s ++ [(f, a)]) (a_closed s))
  | serve_hangup s f :
      f ∈ a_idle s ->
      serves s (KRecv f [] 0) (mk_served (a_db s) (a_idle s ∖ {[f]}) (a_busy s) (a_sent s) (a_closed s ++ [f])).

Inductive serves_all : served -> list kernel -> served -> Prop :=
  | serves_nil s : serves_all s [] s
  | serves_cons s k s' ks s'' : serves s k s' -> serves_all s' ks s'' -> serves_all s (k :: ks) s''.

(** ** The loop implements it *)

Definition accept_op : sqe := mk_sqe (mk_info sockfd EVENT_ACCEPT) 0.
Definition recv_op (f : Z) : sqe := mk_sqe (mk_info f EVENT_READ) (Z.of_nat BUFFER_LENGTH).
Definition send_op (x : Z * list byte) : sqe := mk_sqe (mk_info x.1 EVENT_WRITE) (Z.of_nat (length x.2)).

(** The operations the kernel has or is about to get. *)
Definition operations (s : served) : list sqe :=
  accept_op :: (recv_op <$> elements (a_idle s)) ++ (send_op <$> option_list (a_busy s)).

Record runs_as (p : proactor) (s : served) : Prop := {
  ra_ops : inflight p ++ queued p ≡ₚ operations s;
  ra_done : completions p = [];
  ra_buffer : length (buffer p) = BUFFER_LENGTH;
  ra_response : length (response p) = BUFFER_LENGTH;
  ra_answer : forall f a, a_busy s = Some (f, a) ->
    f ∉ a_idle s /\ length a <= BUFFER_LENGTH /\ take (length a) (response p) = a;
  ra_db : db_rep (kv p) (a_db s);
  ra_sent : sent p = a_sent s;
  ra_closed : closed p = a_closed s
}.

(** Taking the only operation with a property. *)
Lemma find_op (Q : sqe -> Prop) `{HQ : forall x, Decision (Q x)} l x ops :
  l ≡ₚ x :: ops -> Q x -> (forall y, y ∈ ops -> ~ Q y) ->
  exists i, list_find Q l = Some (i, x) /\ delete i l ≡ₚ ops.
Proof.
  intros Hp Hx Hops. destruct (list_find Q l) as [[i y]|] eqn:E.
  - apply list_find_Some in E as (Hi & Hy & _).
    assert (y = x) as ->.
    { apply list_elem_of_lookup_2 in Hi. rewrite Hp in Hi. apply elem_of_cons in Hi as [->|Hi]; [done|].
      by destruct (Hops y Hi). }
    exists i. split; [done|]. apply (Permutation_cons_inv (a := x)). rewrite <- Hp. symmetry. by apply delete_Permutation.
  - exfalso. apply list_find_None in E. rewrite Hp in E. apply list.Forall_cons in E as [E _]. done.
Qed.

Lemma take_op_found (Q : sqe -> Prop) `{HQ : forall x, Decision (Q x)} p i x :
  list_find Q (inflight p) = Some (i, x) ->
  take_op Q (p, []) = Ret (Some x, (set_inflight (delete i (inflight p)) p, [])).
Proof. intros E. unfold take_op. rewrite bind_get. cbn [fst]. by rewrite E, bind_modify. Qed.

Lemma take_op_run (Q : sqe -> Prop) `{HQ : forall x, Decision (Q x)} p x ops :
  inflight p ≡ₚ x :: ops -> Q x -> (forall y, y ∈ ops -> ~ Q y) ->
  exists l, take_op Q (p, []) = Ret (Some x, (set_inflight l p, [])) /\ l ≡ₚ ops.
Proof.
  intros Hp Hx Hops. destruct (find_op Q (inflight p) x ops Hp Hx Hops) as (i & E & Hd).
  exists (delete i (inflight p)). split; [by apply take_op_found|done].
Qed.

Lemma queue_run x p : length (queued p) < ENTRIES_LENGTH ->
  queue x (p, []) = Ret (tt, (set_queued (queued p ++ [x]) p, [])).
Proof. intros H. unfold queue. rewrite bind_get. cbn [fst]. by rewrite decide_True. Qed.

Lemma entries_Z : Z.of_nat ENTRIES_LENGTH = 1024%Z.
Proof. reflexivity. Qed.
Lemma buffer_Z : Z.of_nat BUFFER_LENGTH = 1024%Z.
Proof. reflexivity. Qed.

Context (localtime : Z -> Rdb.tm).

(** The state after a submission. *)
Definition submitted (p : proactor) : proactor := set_queued [] (set_inflight (inflight p ++ queued p) p).

Lemma round_submits ks p :
  proactor_round localtime sockfd ks (p, [])
  = (kernel_steps ks ;;
     p ← get;
     handle_completions localtime sockfd (take 128 (completions p)) ;;
     modify (set_completions (drop 128 (completions p)))) (submitted p, []).
Proof.
  unfold proactor_round, io_uring_submit. rewrite bind_bind, bind_get. cbn [fst].
  rewrite bind_bind, bind_modify. cbn [fst snd]. by rewrite bind_modify.
Qed.

(** A round in which the kernel carries out one operation. *)
Lemma round_run p k p2 e p3 :
  kernel_step k (submitted p, []) = Ret (tt, (p2, [])) -> completions p2 = [e] ->
  handle_completion localtime sockfd e (p2, []) = Ret (tt, (p3, [])) ->
  proactor_round localtime sockfd [k] (p, []) = Ret (tt, (set_completions [] p3, [])).
Proof.
  intros Ek Hc Eh. rewrite round_submits.
  cbn [kernel_steps]. rewrite bind_bind, (bind_ret _ _ _ _ _ Ek), bind_mret, bind_get.
  cbn [fst]. rewrite Hc. cbn [take drop handle_completions].
  by rewrite bind_bind, (bind_ret _ _ _ _ _ Eh), bind_mret.
Qed.

(** Operations of other connections and kinds. *)
Lemma operations_accept s : forall y,
  y ∈ (recv_op <$> elements (a_idle s)) ++ (send_op <$> option_list (a_busy s)) -> ~ is_accept y.
Proof.
  intros y Hy Ha. apply elem_of_app in Hy as [Hy|Hy]; apply list_elem_of_fmap in Hy as (z & -> & _); done.
Qed.

Lemma operations_recv s f : f ∈ a_idle s ->
  operations s ≡ₚ recv_op f :: accept_op :: (recv_op <$> elements (a_idle s ∖ {[f]})) ++ (send_op <$> option_list (a_busy s)) /\
  forall y, y ∈ accept_op :: (recv_op <$> elements (a_idle s ∖ {[f]})) ++ (send_op <$> option_list (a_busy s)) ->
    ~ is_op f EVENT_READ y.
Proof.
  intros Hf. split.
  - unfold operations. rewrite (union_difference_L {[f]} (a_idle s)) at 1 by set_solver.
    rewrite elements_union_singleton by set_solver. cbn [fmap list_fmap app]. apply Permutation_swap.
  - intros y Hy [H1 H2]. apply elem_of_cons in Hy as [->|Hy]; [done|].
    apply elem_of_app in Hy as [Hy|Hy]; apply list_elem_of_fmap in Hy as (z & -> & Hz); [|done].
    apply elem_of_elements in Hz. cbn in H1. set_solver.
Qed.

Lemma operations_send s x : a_busy s = Some x ->
  operations s ≡ₚ send_op x :: accept_op :: (recv_op <$> elements (a_idle s)) /\
  forall y, y ∈ accept_op :: (recv_op <$> elements (a_idle s)) -> ~ is_op x.1 EVENT_WRITE y.
Proof.
  intros Hb. split.
  - unfold operations. rewrite Hb. cbn [option_list fmap list_fmap].
    rewrite app_comm_cons. rewrite Permutation_app_comm. done.
  - intros y Hy [_ H2]. apply elem_of_cons in Hy as [->|Hy]; [done|].
    by apply list_elem_of_fmap in Hy as (z & -> & _).
Qed.

Lemma submitted_ops p s : runs_as p s -> inflight (submitted p) ≡ₚ operations s.
Proof. intros H. apply (ra_ops _ _ H). Qed.

Lemma uring_connect_runs p s f :
  runs_as p s -> f ∉ a_idle s -> f ∉ fst <$> option_list (a_busy s) ->
  exists p', proactor_round localtime sockfd [KAccept f] (p, []) = Ret (tt, (p', [])) /\
    runs_as p' (mk_served (a_db s) ({[f]} ∪ a_idle s) (a_busy s) (a_sent s) (a_closed s)).
Proof.
  intros Hr Hf Hfb. pose proof Hr as [H1 H2 H3 H4 H5 H6 H7 H8].
  destruct (take_op_run is_accept (submitted p) accept_op _ (submitted_ops p s Hr) eq_refl (operations_accept s))
    as (l & El & Hl).
  eexists. split.
  - eapply round_run.
    + cbn [kernel_step]. rewrite (bind_ret _ _ _ _ _ El). unfold complete. rewrite bind_get. cbn [fst].
      reflexivity.
    + cbn. by rewrite H2.
    + unfold handle_completion. cbn [c_data c_event res user_data accept_op]. unfold set_event_accept, set_event_recv.
      erewrite bind_ret; [|apply queue_run; cbn; pose proof entries_Z; lia].
      apply queue_run. cbn. pose proof entries_Z. lia.
  - split; cbn; try done.
    + unfold operations. cbn [a_idle a_busy]. rewrite elements_union_singleton by done. rewrite Hl.
      rewrite Permutation_app_comm. done.
    + intros g a Hb. destruct (H5 g a Hb) as (Hg & Ha). split; [|done].
      rewrite Hb in Hfb. cbn in Hfb. set_solver.
Qed.

Lemma uring_hangup_runs p s f :
  runs_as p s -> f ∈ a_idle s ->
  exists p', proactor_round localtime sockfd [KRecv f [] 0] (p, []) = Ret (tt, (p', [])) /\
    runs_as p' (mk_served (a_db s) (a_idle s ∖ {[f]}) (a_busy s) (a_sent s) (a_closed s ++ [f])).
Proof.
  intros Hr Hf. pose proof Hr as [H1 H2 H3 H4 H5 H6 H7 H8].
  destruct (operations_recv s f Hf) as [Ho Hno].
  destruct (take_op_run (is_op f EVENT_READ) (submitted p) (recv_op f) _
    (Permutation_trans (submitted_ops p s Hr) Ho) (conj eq_refl eq_refl) Hno) as (l & El & Hl).
  eexists. split.
  - eapply round_run.
    + cbn [kernel_step]. rewrite (bind_ret _ _ _ _ _ El). rewrite take_nil. unfold complete. rewrite bind_get. cbn [fst].
      reflexivity.
    + cbn. by rewrite H2.
    + unfold handle_completion. cbn [c_data c_event res user_data recv_op Z.min Z.compare Z.eqb]. reflexivity.
  - split; cbn; try done.
    + rewrite app_nil_r. exact Hl.
    + intros g a Hb. destruct (H5 g a Hb) as (Hg & Ha). split; [set_solver|done].
    + by rewrite H8.
Qed.

Lemma uring_answer_runs p s f a :
  runs_as p s -> a_busy s = Some (f, a) ->
  exists p', proactor_round localtime sockfd [KSend f true] (p, []) = Ret (tt, (p', [])) /\
    runs_as p' (mk_served (a_db s) ({[f]} ∪ a_idle s) None (a_sent s ++ [(f, a)]) (a_closed s)).
Proof.
  intros Hr Hb. pose proof Hr as [H1 H2 H3 H4 H5 H6 H7 H8].
  destruct (H5 f a Hb) as (Hf & Hla & Hta). destruct (operations_send s (f, a) Hb) as [Ho Hno].
  destruct (take_op_run (is_op f EVENT_WRITE) (submitted p) (send_op (f, a)) _
    (Permutation_trans (submitted_ops p s Hr) Ho) (conj eq_refl eq_refl) Hno) as (l & El & Hl).
  eexists. split.
  - eapply round_run.
    + cbn [kernel_step]. rewrite (bind_ret _ _ _ _ _ El). cbn [negb send_op s_len snd]. rewrite bind_get.
      cbn [fst set_inflight submitted set_queued response sent]. rewrite H4.
      destruct (Z.ltb_spec (Z.of_nat (length a)) 0); [lia|].
      destruct (Z.ltb_spec (Z.of_nat BUFFER_LENGTH) (Z.of_nat (length a))); [lia|]. cbn [orb].
      rewrite Nat2Z.id, Hta, bind_modify. cbn [fst snd]. unfold complete. rewrite bind_get. cbn [fst]. reflexivity.
    + cbn. by rewrite H2.
    + unfold handle_completion. cbn [c_data c_event user_data send_op fd fst]. unfold set_event_recv.
      apply queue_run. cbn. pose proof entries_Z. lia.
  - split; cbn; try done.
    + unfold operations. cbn [a_idle a_busy option_list fmap list_fmap]. rewrite elements_union_singleton by done.
      rewrite Hl, app_nil_r. cbn [fmap list_fmap app]. rewrite <- (Permutation_cons_append _ (recv_op f)).
      done.
    + by rewrite H7.
Qed.

Lemma uring_request_runs p s f cm seq fl :
  runs_as p s -> f ∈ a_idle s -> a_busy s = None -> command_ok (a_db s) cm -> u32 seq -> u32 fl ->
  length (command_packet cm seq fl) < BUFFER_LENGTH ->
  length (db_answer (a_db s) cm seq) <= BUFFER_LENGTH ->
  exists p', proactor_round localtime sockfd [KRecv f (command_packet cm seq fl) 0] (p, []) = Ret (tt, (p', [])) /\
    runs_as p' (mk_served (db_after (a_db s) cm) (a_idle s ∖ {[f]}) (Some (f, db_answer (a_db s) cm seq))
      (a_sent s) (a_closed s)).
Proof.
  intros Hr Hf Hb Hq Hs Hfl Hlen Hans. pose proof Hr as [H1 H2 H3 H4 H5 H6 H7 H8].
  destruct (operations_recv s f Hf) as [Ho Hno]. rewrite Hb in Ho, Hno. cbn [option_list fmap list_fmap] in Ho, Hno.
  destruct (take_op_run (is_op f EVENT_READ) (submitted p) (recv_op f) _
    (Permutation_trans (submitted_ops p s Hr) Ho) (conj eq_refl eq_refl) Hno) as (l & El & Hl).
  destruct (command_run localtime (kv p) (a_db s) cm seq fl H6 Hq Hs Hfl) as (w' & Hst' & Hrun).
  set (bytes := command_packet cm seq fl) in *. set (ans := db_answer (a_db s) cm seq) in *.
  assert (Hb0 : 0 < length bytes) by (unfold bytes, command_packet; rewrite length_packet; unfold TCP_HEADER_SIZE; lia).
  clearbody bytes ans.
  destruct (drop (length bytes) (buffer p)) as [|x rest] eqn:Ed.
  { apply (f_equal length) in Ed. rewrite length_drop in Ed. cbn [length] in Ed. lia. }
  destruct (Hrun x rest) as [b' Hb'].
  assert (Hb'len : length b' = BUFFER_LENGTH).
  { apply protocol_length in Hb'. rewrite Hb', <- Ed, length_app, length_drop. lia. }
  eexists. split.
  - eapply round_run.
    + cbn [kernel_step]. rewrite (bind_ret _ _ _ _ _ El). cbn beta iota. rewrite take_ge by lia.
      destruct bytes as [|y ys] eqn:Eb; [cbn in Hb0; lia|]. cbn beta iota. rewrite <- Eb in *. clear Eb y ys.
      rewrite bind_get. cbn [fst set_inflight submitted set_queued buffer]. rewrite Ed, bind_modify. cbn [fst snd].
      unfold complete. rewrite bind_get. cbn [fst]. reflexivity.
    + cbn. by rewrite H2.
    + unfold handle_completion. cbn [c_data c_event res user_data recv_op fd].
      destruct (Z.eqb_spec (Z.of_nat (length bytes)) 0); [lia|].
      destruct (Z.ltb_spec 0 (Z.of_nat (length bytes))); [|lia]. rewrite bind_get. cbn [fst].
      cbn [set_completions set_buffer buffer]. unfold on_kv.
      erewrite bind_ret; [|apply (zoom_run kv set_kv); exact Hb']. cbn [fst snd]. rewrite bind_modify. cbn [fst snd].
      cbn [set_kv set_buffer set_completions set_inflight submitted set_queued response]. rewrite H4.
      rewrite decide_True by exact Hans. rewrite bind_modify. cbn [fst snd]. unfold set_event_send.
      apply queue_run. cbn. pose proof entries_Z. lia.
  - split; cbn; try done.
    + unfold operations. cbn [a_idle a_busy option_list fmap list_fmap]. rewrite Hl, app_nil_r. done.
    + rewrite length_app, length_drop. lia.
    + intros g a [= <- <-]. split; [set_solver|]. split; [done|]. by rewrite take_app_length.
Qed.

Lemma uring_serves_runs p s k s' :
  runs_as p s -> serves s k s' ->
  exists p', proactor_round localtime sockfd [k] (p, []) = Ret (tt, (p', [])) /\ runs_as p' s'.
Proof.
  intros Hr Hs. destruct Hs.
  - by apply uring_connect_runs.
  - by apply uring_request_runs.
  - by apply uring_answer_runs.
  - by apply uring_hangup_runs.
Qed.

(** C4: the completion loop refines the server [serves], which runs one request at a time: in
    every round the kernel carries out one operation (a connection, a whole request, the sending
    of an answer, the end of a connection that waits for a request); no request arrives, on any
    connection, before the answer to the one before is sent (otherwise see
    [proactor_batch_loses_request]); the descriptor of a new connection is not in use; a
    request, with its header, has less than 1024 bytes and its answer at most 1024; the command
    is one that [command_ok] admits (listed at [tcp_command_refines_db]), and the calls of
    [malloc] succeed.  Such a sequence of rounds runs without a fault, keeps the engines equal
    to the database, and sends every client the answers of the database in the order of its
    requests. *)
Theorem proactor_refines_server p s ks s' :
  runs_as p s -> serves_all s ks s' ->
  exists p', proactor_rounds localtime sockfd ((fun k => [k]) <$> ks) (p, []) = Ret (tt, (p', [])) /\
    runs_as p' s' /\ sent p' = a_sent s'.
Proof.
  intros Hi Hs. revert p Hi. induction Hs as [s|s k s1 ks s2 Hk _ IH]; intros p Hi.
  - exists p. split; [done|]. split; [done|apply (ra_sent _ _ Hi)].
  - destruct (uring_serves_runs p s k s1 Hi Hk) as (p1 & E & Hi1). destruct (IH p1 Hi1) as (p2 & E2 & H2).
    exists p2. split; [|exact H2]. cbn [fmap list_fmap proactor_rounds]. by rewrite (bind_ret _ _ _ _ _ E).
Qed.

(** ** Requests in one batch *)

(** The state after the kernel received [got] for the operation [i]. *)
Definition received (f : Z) (i : nat) (got : list byte) (p : proactor) : proactor :=
  mk_proactor (queued p) (delete i (inflight p))
    (completions p ++ [mk_cqe (mk_info f EVENT_READ) (Z.of_nat (length got))])
    (got ++ drop (length got) (buffer p)) (response p) (sent p) (closed p) (kv p).

Lemma kernel_recv_run f i got err p :
  list_find (is_op f EVENT_READ) (inflight p) = Some (i, recv_op f) -> 0 < length got <= BUFFER_LENGTH ->
  kernel_step (KRecv f got err) (p, []) = Ret (tt, (received f i got p, [])).
Proof.
  intros Hi Hlen. cbn [kernel_step]. rewrite (bind_ret _ _ _ _ _ (take_op_found _ p i _ Hi)).
  cbn beta iota. rewrite take_ge by lia. destruct got as [|y ys]; [cbn in Hlen; lia|]. cbn beta iota.
  rewrite bind_get, bind_modify. cbn [fst snd]. unfold complete. by rewrite bind_get.
Qed.

Lemma overwritten f i g j b1 b1' b2 p :
  length b1 = length b1' -> drop (length b2) b1 = drop (length b2) b1' ->
  received g j b2 (received f i b1 p) = received g j b2 (received f i b1' p).
Proof.
  intros E H. unfold received. cbn [queued inflight completions buffer response sent closed kv].
  by rewrite !skipn_app, H, E.
Qed.

(** C39: when the bytes of two idle connections are received in one batch, the second overwrites
    the first in the shared buffer: nothing that happens afterwards depends on what the first
    client sent, as far as the second reaches; only the number of its bytes matters, and what it
    sent beyond the length of the second (which is nothing when it sent no more). *)
Theorem proactor_batch_loses_request p s f g got1 got1' got2 :
  runs_as p s -> f ∈ a_idle s -> g ∈ a_idle s -> f <> g ->
  length got1 = length got1' -> drop (length got2) got1 = drop (length got2) got1' ->
  0 < length got1 <= BUFFER_LENGTH -> 0 < length got2 <= BUFFER_LENGTH ->
  proactor_round localtime sockfd [KRecv f got1 0; KRecv g got2 0] (p, [])
  = proactor_round localtime sockfd [KRecv f got1' 0; KRecv g got2 0] (p, []).
Proof.
  intros Hr Hf Hg Hfg Hl Hd Hl1 Hl2.
  destruct (operations_recv s f Hf) as [Ho Hno].
  destruct (find_op (is_op f EVENT_READ) (inflight (submitted p)) (recv_op f) _
    (Permutation_trans (submitted_ops p s Hr) Ho) (conj eq_refl eq_refl) Hno) as (i & Ei & Hi).
  assert (Hg' : g ∈ a_idle s ∖ {[f]}) by set_solver.
  destruct (operations_recv (mk_served (a_db s) (a_idle s ∖ {[f]}) (a_busy s) [] []) g Hg') as [Ho2 Hno2].
  destruct (find_op (is_op g EVENT_READ) (delete i (inflight (submitted p))) (recv_op g) _
    (Permutation_trans Hi Ho2) (conj eq_refl eq_refl) Hno2) as (j & Ej & _).
  rewrite !round_submits. cbn [kernel_steps]. rewrite !bind_bind.
  rewrite (bind_ret _ _ _ _ _ (kernel_recv_run f i got1 0 (submitted p) Ei ltac:(lia))).
  rewrite (bind_ret _ _ _ _ _ (kernel_recv_run f i got1' 0 (submitted p) Ei ltac:(lia))).
  rewrite !bind_bind.
  rewrite (bind_ret _ _ _ _ _ (kernel_recv_run g j got2 0 (received f i got1 (submitted p)) Ej ltac:(lia))).
  rewrite (bind_ret _ _ _ _ _ (kernel_recv_run g j got2 0 (received f i got1' (submitted p)) Ej ltac:(lia))).
  by rewrite (overwritten f i g j got1 got1' got2 _ Hl Hd).
Qed.

End served.

(** ** Witnesses *)

Lemma start_runs sockfd w d :
  db_rep w d ->
  forall p, set_event_accept sockfd (proactor0 w, []) = Ret (tt, (p, [])) -> runs_as sockfd p (served0 d).
Proof.
  intros Hr p Hp. unfold set_event_accept in Hp.
  rewrite queue_run in Hp by (cbn; pose proof entries_Z; lia). injection Hp as <-.
  split; cbn; try done; apply length_replicate.
Qed.

Definition hset (k v : string) (seq : Z) : list byte := command_packet (Kv SHash (RSet (bs k) (bs v))) seq 0.
Definition hget (k : string) (seq : Z) : list byte := command_packet (Kv SHash (RGet (bs k))) seq 0.

(** Two clients, one after the other. *)
Definition in_turn : list kernel :=
  [KAccept 5; KAccept 6; KRecv 5 (hset "k" "v" 1) 0; KSend 5 true; KRecv 6 (hget "k" 9) 0; KSend 6 true;
   KRecv 5 [] 0].

Definition in_turn_sent : list (Z * list byte) :=
  [(5%Z, build_tcp_response CMD_HSET 1 (bs "OK")); (6%Z, build_tcp_response CMD_HGET 9 (bs "v"))].

Lemma hash_command_ok d c :
  c = Kv SHash (RSet (bs "k") (bs "v")) \/ c = Kv SHash (RGet (bs "k")) -> command_ok d c.
Proof.
  intros [-> | ->]; (split; [cbn; lia|]); (split; [cbn; lia|]); (split; [vm_compute; discriminate|]);
    (split; [split; vm_compute; set_solver|]); [vm_compute; set_solver|discriminate].
Qed.

Lemma short_1000 n : n <= 1000 -> n < BUFFER_LENGTH.
Proof. pose proof buffer_Z. lia. Qed.

Ltac request_and_answer f cm seq :=
  cbn [a_db a_idle a_busy a_sent a_closed];
  eapply serves_cons; [apply (serve_request _ f cm seq 0);
    [cbn; set_solver|reflexivity|apply hash_command_ok; auto|by split|by split
    |apply short_1000; vm_compute; lia|apply Nat.lt_le_incl, short_1000; vm_compute; lia]|];
  cbn [a_db a_idle a_busy a_sent a_closed]; eapply serves_cons; [apply serve_answer; reflexivity|].

Lemma in_turn_serves :
  exists s', serves_all (served0 (db0 NoSaves)) in_turn s' /\ a_sent s' = in_turn_sent.
Proof.
  eexists. split.
  - do 2 (eapply serves_cons; [apply serve_connect; cbn; set_solver|]).
    request_and_answer 5%Z (Kv SHash (RSet (bs "k") (bs "v"))) 1%Z.
    request_and_answer 6%Z (Kv SHash (RGet (bs "k"))) 9%Z.
    cbn [a_db a_idle a_busy a_sent a_closed].
    eapply serves_cons; [apply serve_hangup; cbn; set_solver|]. apply serves_nil.
  - by vm_compute.
Qed.

Example proactor_refines_server_witness :
  exists p p', set_event_accept 3 (proactor0 (db_world []), []) = Ret (tt, (p, [])) /\
    proactor_rounds some_tm 3 ((fun k => [k]) <$> in_turn) (p, []) = Ret (tt, (p', [])) /\
    sent p' = in_turn_sent.
Proof.
  destruct in_turn_serves as (s' & Hs & Hsent). eexists.
  assert (Hp : set_event_accept 3 (proactor0 (db_world []), [])
    = Ret (tt, (set_queued [accept_op 3] (proactor0 (db_world [])), []))).
  { unfold set_event_accept. rewrite queue_run; [done|]. cbn. pose proof entries_Z. lia. }
  pose proof (start_runs 3 (db_world []) (db0 NoSaves) (db_world_rep []) _ Hp) as Hr.
  destruct (proactor_refines_server 3 some_tm _ _ in_turn s' Hr Hs) as (p' & E & _ & Hse).
  exists p'. split; [exact Hp|]. split; [exact E|]. by rewrite Hse, Hsent.
Defined.

(** Two clients that wait. *)
Definition two_idle : proactor := set_inflight [accept_op 3; recv_op 5; recv_op 6] (proactor0 (db_world [])).

Lemma two_idle_runs : runs_as 3 two_idle (mk_served (db0 NoSaves) ({[5%Z]} ∪ {[6%Z]}) None [] []).
Proof.
  split; try done; try apply length_replicate. apply db_world_rep.
Qed.

(** The pair of the first client is not stored, whatever it was. *)
Example proactor_batch_loses_request_witness :
  proactor_round some_tm 3 [KRecv 5 (hset "a" "1" 1) 0; KRecv 6 (hset "b" "2" 1) 0] (two_idle, [])
  = proactor_round some_tm 3 [KRecv 5 (hset "c" "3" 1) 0; KRecv 6 (hset "b" "2" 1) 0] (two_idle, []) /\
  exists p' s2, proactor_round some_tm 3
      [KRecv 5 (hset "c" "3" 1) 0; KRecv 6 (hset "b" "2" 1) 0] (two_idle, [])
      = Ret (tt, (p', [])) /\
    Hash.kvs_hash_get (Some (bs "a")) (w_hash (kv p'), []) = Ret (Null, s2).
Proof.
  split.
  - apply (proactor_batch_loses_request 3 some_tm two_idle _ 5 6 _ _ _ two_idle_runs).
    + set_solver.
    + set_solver.
    + discriminate.
    + reflexivity.
    + vm_compute. reflexivity.
    + split; [apply Nat.ltb_lt; reflexivity|apply Nat.lt_le_incl, short_1000; apply Nat.leb_le; reflexivity].
    + split; [apply Nat.ltb_lt; reflexivity|apply Nat.lt_le_incl, short_1000; apply Nat.leb_le; reflexivity].
  - eexists _, _. split; [vm_compute; reflexivity|vm_compute; reflexivity].
Defined.
