(* ===== verification/AutoSave.v ===== *)
(** * The automatic save next to the server ([check_auto_save] of [src/kv_RDB.c])

    The thread that saves holds the array's mutex while it runs [kvs_rdb_save]; the locks
    of the tree and of the hash table are commented out.  Here the save is cut into the steps
    between which the server thread can run: [saver] is the place the thread has reached,
    [saver_step] one step.  The steps of the server thread are whole requests; a request that
    needs the array while the saver holds its mutex does not return, so it waits. *)

From S2P Require Import Prelude Engine KvsArray KvsHash KvsRbtree KvsSkiptable CNum Stdio World RdbConfig.
From S2P Require Import Rdb Protocol.
Import Rdb Protocol.

Module AutoSave.

(** The locals of [kvs_rdb_save]: the stream, the count, the time, the start of the data; and
    the configuration it runs with. *)
Record progress := mk_progress {
  p_fp : FILE; p_count : Z; p_time : Z; p_start : Z; p_conf : rdb_config_t
}.

Definition set_fp (fp : FILE) (p : progress) : progress :=
  mk_progress fp (p_count p) (p_time p) (p_start p) (p_conf p).
Definition set_stream (r : FILE * Z) (p : progress) : progress :=
  mk_progress r.1 r.2 (p_time p) (p_start p) (p_conf p).

Inductive saver :=
  | Asleep
  | Entered                                (** it has the mutex *)
  | InArray (p : progress) (n i : nat)     (** [n] items left, from [i] on *)
  | AtTree (p : progress)
  | InHash (p : progress) (n i : nat)      (** [n] slots left, from [i] on *)
  | AtFooter (p : progress)
  | Leaving (r : Z).                       (** [kvs_rdb_save] has returned [r] *)

Section saver.
Context (localtime : Z -> tm) (filename : cstr).

(** [kvs_rdb_save] up to the header; [inl]: it returns. *)
Definition begin_save : W (Z + progress) :=
  c ← config;
  if (rdb_enabled c =? 0)%Z then mret (inl 0%Z) else
  exists_ ← on_fs (access filename);
  (if negb (rdb_backup c =? 0)%Z && exists_
   then _ ← rdb_create_backup localtime filename; mret tt else mret tt) ;;
  o ← on_fs (fopen filename ModeW);
  match o with
  | None => mret (inl (-1)%Z)
  | Some fp =>
      t ← on_fs time;
      let header := mk_header RDB_MAGIC RDB_VERSION (save_flags c) 0 0 t 0 in
      fp ← on_fs (fwrite (header_bytes header) fp);
      mret (inr (mk_progress fp 0 t (ftell fp) c))
  end.

(** The rest after the records. *)
Definition end_save (p : progress) : W Z :=
  let data_size := wrap 32 (ftell (p_fp p) - p_start p) in
  let header := mk_header RDB_MAGIC RDB_VERSION (save_flags (p_conf p)) data_size
                  (wrap 32 (p_count p)) (p_time p) 0 in
  o ← (if (rdb_crc64 (p_conf p) =? 0)%Z then mret (Some (p_fp p))
       else save_footer (p_start p) data_size (p_fp p));
  match o with
  | None => mret (-1)%Z
  | Some fp =>
      _ ← on_fs (fwrite (header_bytes header) (fseek_set 0 fp));
      t ← on_fs time;
      modify (set_last_save t) ;;
      mret 0%Z
  end.

Definition saver_step (s : saver) : W saver :=
  match s with
  | Asleep =>
      c ← config;
      if (rdb_enabled c =? 0)%Z then mret Asleep else
      on_array Array.pthread_mutex_lock ;; mret Entered
  | Entered =>
      r ← begin_save;
      match r with
      | inl r => mret (Leaving r)
      | inr p => w ← get; mret (InArray p (Z.to_nat (Array.total (w_array w))) 0)
      end
  | InArray p O _ => mret (AtTree p)
  | InArray p (S n) i =>
      r ← save_array 1 i (p_fp p) (p_count p); mret (InArray (set_stream r p) n (S i))
  | AtTree p =>
      fp ← kvs_rbtree_traverse rbtree_save_callback (p_fp p);
      w ← get;
      mret (InHash (set_fp fp p) (Z.to_nat (Hash.max_slots (w_hash w))) 0)
  | InHash p O _ => mret (AtFooter p)
  | InHash p (S n) i =>
      fp ← kvs_hash_traverse 1 i hash_save_callback (p_fp p); mret (InHash (set_fp fp p) n (S i))
  | AtFooter p => r ← end_save p; mret (Leaving r)
  | Leaving _ => on_array Array.pthread_mutex_unlock ;; mret Asleep
  end.

Fixpoint saver_run (k : nat) (s : saver) : W saver :=
  match k with
  | O => mret s
  | S k => s ← saver_step s; saver_run k s
  end.

(** The command of a packet. *)
Definition packet_cmd (b : list byte) : Z := field b 8.

(** The two threads.  A request that saves is left out: it takes no lock and writes the
    same file. *)
Inductive step : world * saver -> world * saver -> Prop :=
  | saver_moves w al s s' w' al' :
      saver_step s (w, al) = Ret (s', (w', al')) -> step (w, s) (w', s')
  | request_served w al s b n r w' al' :
      packet_cmd b <> CMD_SAVE ->
      kvs_tcp_protocol localtime b n (w, al) = Ret (r, (w', al')) -> step (w, s) (w', s).

(** Any number of steps of both threads while the round goes on. *)
Definition in_round : world * saver -> world * saver -> Prop :=
  rtc (fun x y => step x y /\ y.2 <> Asleep).

End saver.
End AutoSave.
