(* ===== verification/AutoSaveSpec.v ===== *)
(** * What the automatic save guarantees

    Alone, the steps of the saver are [check_auto_save_round].  Next to the server's
    requests, the part of the snapshot that holds the array is the array at the moment the mutex
    was taken; the parts of the tree and of the hash table, which no mutex protects, can
    show states that never were together. *)

From S2P Require Import Prelude Engine KvsArray KvsHash KvsRbtree RbtreeRep RbtreeInsert RbtreeMap.
From S2P Require Import KvsSkiptable CNum Crc Stdio World RdbConfig Rdb RdbSave Protocol ProtocolSpec AutoSave.
Import CNum Rdb Protocol AutoSave.

(** ** The steps are those of the round *)

Lemma save_array_S n i fp c s :
  save_array (S n) i fp c s = (r ← save_array 1 i fp c; save_array n (S i) r.1 r.2) s.
Proof.
  cbn [save_array]. rewrite bind_bind. apply bind_ext. intros item s1.
  destruct (Array.key item); [done|..]; rewrite !bind_bind; apply bind_ext; intros k s2;
    rewrite !bind_bind; apply bind_ext; intros v s3; rewrite !bind_bind; by apply bind_ext.
Qed.

Lemma kvs_hash_traverse_S n i cb fp s :
  kvs_hash_traverse (S n) i cb fp s = (fp ← kvs_hash_traverse 1 i cb fp; kvs_hash_traverse n (S i) cb fp) s.
Proof.
  cbn [kvs_hash_traverse]. rewrite !bind_bind. apply bind_ext. intros w s1.
  rewrite !bind_bind. apply bind_ext. intros chain s2. rewrite !bind_bind. by apply bind_ext.
Qed.

Section alone.
Context (localtime : Z -> tm) (f : cstr).

Lemma saver_run_S k p s : saver_run localtime f (S k) p s = (q ← saver_step localtime f p; saver_run localtime f k q) s.
Proof. done. Qed.

Lemma saver_run_app k1 k2 p s :
  saver_run localtime f (k1 + k2) p s = (q ← saver_run localtime f k1 p; saver_run localtime f k2 q) s.
Proof.
  revert p s. induction k1 as [|k1 IH]; intros p s; [done|]. cbn [Nat.add saver_run].
  rewrite bind_bind. apply bind_ext. intros q s1. apply IH.
Qed.

Lemma run_array n : forall i p s,
  saver_run localtime f n (InArray p n i) s
  = (r ← save_array n i (p_fp p) (p_count p); mret (InArray (set_stream r p) 0 (i + n))) s.
Proof.
  induction n as [|n IH]; intros i p s.
  - cbn [saver_run save_array]. rewrite bind_mret. rewrite Nat.add_0_r. by destruct p.
  - rewrite saver_run_S. cbn [saver_step]. rewrite bind_bind.
    erewrite (bind_eq _ _ _ _ (save_array_S n i (p_fp p) (p_count p) s)). rewrite bind_bind.
    apply bind_ext. intros r s1. rewrite bind_mret, IH. cbn [set_stream p_fp p_count].
    apply bind_ext. intros r' s2. by rewrite Nat.add_succ_comm.
Qed.

Lemma run_hash n : forall i p s,
  saver_run localtime f n (InHash p n i) s
  = (fp ← kvs_hash_traverse n i hash_save_callback (p_fp p); mret (InHash (set_fp fp p) 0 (i + n))) s.
Proof.
  induction n as [|n IH]; intros i p s.
  - cbn [saver_run kvs_hash_traverse]. rewrite bind_mret, Nat.add_0_r. by destruct p.
  - rewrite saver_run_S. cbn [saver_step]. rewrite bind_bind.
    erewrite (bind_eq _ _ _ _ (kvs_hash_traverse_S n i _ (p_fp p) s)). rewrite bind_bind.
    apply bind_ext. intros fp s1. rewrite bind_mret, IH. cbn [set_fp p_fp].
    apply bind_ext. intros fp' s2. by rewrite Nat.add_succ_comm.
Qed.

(** [kvs_rdb_save] is its parts in order. *)
Lemma kvs_rdb_save_parts s :
  kvs_rdb_save localtime f s
  = (r ← begin_save localtime f;
     match r with
     | inl r => mret r
     | inr p =>
         w ← get;
         r ← save_array (Z.to_nat (Array.total (w_array w))) 0 (p_fp p) (p_count p);
         fp ← kvs_rbtree_traverse rbtree_save_callback r.1;
         w ← get;
         fp ← kvs_hash_traverse (Z.to_nat (Hash.max_slots (w_hash w))) 0 hash_save_callback fp;
         end_save (set_fp fp (set_stream r p))
     end) s.
Proof.
  unfold kvs_rdb_save, begin_save. rewrite !bind_bind. apply bind_ext. intros c s1.
  destruct (rdb_enabled c =? 0)%Z; [done|].
  rewrite !bind_bind. apply bind_ext. intros ex s2. rewrite !bind_bind. apply bind_ext. intros [] s3.
  rewrite !bind_bind. apply bind_ext. intros [fp|] s4; [|done].
  rewrite !bind_bind. apply bind_ext. intros t s5. rewrite !bind_bind. apply bind_ext. intros fp1 s6.
  rewrite bind_mret. apply bind_ext. intros w s7. apply bind_ext. intros [fp2 cnt] s8.
  apply bind_ext. intros fp3 s9. apply bind_ext. intros w' s10. by apply bind_ext.
Qed.

Lemma saver_run_step k p s q s1 :
  saver_step localtime f p s = Ret (q, s1) ->
  saver_run localtime f (S k) p s = saver_run localtime f k q s1.
Proof. intros E. rewrite saver_run_S. by rewrite (bind_ret _ _ _ _ _ E). Qed.

Lemma saver_run_many n k p s q s1 :
  saver_run localtime f n p s = Ret (q, s1) ->
  saver_run localtime f (n + k) p s = saver_run localtime f k q s1.
Proof. intros E. rewrite saver_run_app. by rewrite (bind_ret _ _ _ _ _ E). Qed.

(** The saver alone: if a round of [check_auto_save] returns, some number of steps leads from
    sleep back to sleep, with the same result. *)
Lemma saver_round_run s s' :
  check_auto_save_round localtime f s = Ret (tt, s') ->
  exists k, saver_run localtime f (S k) Asleep s = Ret (Asleep, s').
Proof.
  intros H. unfold check_auto_save_round in H. apply bind_inv in H as (c & s1 & E1 & H).
  destruct (rdb_enabled c =? 0)%Z eqn:Een.
  { apply mret_inv in H as [_ <-]. exists 0. erewrite saver_run_step; [done|]. cbn [saver_step].
    by rewrite (bind_ret _ _ _ _ _ E1), Een. }
  apply bind_inv in H as ([] & s2 & E2 & H).
  apply bind_inv in H as (r & s3 & E3 & H). rewrite kvs_rdb_save_parts in E3.
  assert (Henter : saver_step localtime f Asleep s = Ret (Entered, s2)).
  { cbn [saver_step]. by rewrite (bind_ret _ _ _ _ _ E1), Een, (bind_ret _ _ _ _ _ E2). }
  assert (Hleave : saver_step localtime f (Leaving r) s3 = Ret (Asleep, s')).
  { cbn [saver_step]. by rewrite (bind_ret _ _ _ _ _ H). }
  apply bind_inv in E3 as ([r0|p] & s4 & E4 & E3).
  - apply mret_inv in E3 as [-> ->]. exists 2. rewrite (saver_run_step _ _ _ _ _ Henter).
    erewrite saver_run_step; [|cbn [saver_step]; rewrite (bind_ret _ _ _ _ _ E4); reflexivity].
    by rewrite (saver_run_step _ _ _ _ _ Hleave).
  - apply bind_inv in E3 as (w & s5 & E5 & E3). apply bind_inv in E3 as (ra & s6 & E6 & E3).
    apply bind_inv in E3 as (fp & s7 & E7 & E3). apply bind_inv in E3 as (w2 & s8 & E8 & E3).
    apply bind_inv in E3 as (fp2 & s9 & E9 & E3).
    set (na := Z.to_nat (Array.total (w_array w))) in *.
    set (nh := Z.to_nat (Hash.max_slots (w_hash w2))) in *.
    exists (S (na + S (S (nh + 3)))). rewrite (saver_run_step _ _ _ _ _ Henter).
    erewrite saver_run_step; [|cbn [saver_step]; rewrite (bind_ret _ _ _ _ _ E4), (bind_ret _ _ _ _ _ E5); reflexivity].
    fold na. erewrite saver_run_many; [|rewrite run_array, (bind_ret _ _ _ _ _ E6); reflexivity].
    erewrite saver_run_step; [|reflexivity].
    erewrite saver_run_step; [|cbn [saver_step set_stream p_fp]; rewrite (bind_ret _ _ _ _ _ E7), (bind_ret _ _ _ _ _ E8); reflexivity].
    fold nh. erewrite saver_run_many; [|rewrite run_hash; cbn [set_fp p_fp]; rewrite (bind_ret _ _ _ _ _ E9); reflexivity].
    erewrite saver_run_step; [|reflexivity].
    erewrite saver_run_step; [|cbn [saver_step]; erewrite bind_ret; [|exact E3]; reflexivity].
    by rewrite (saver_run_step _ _ _ _ _ Hleave).
Qed.
End alone.

(** ** Requests while the saver has the mutex *)

(** What the requests leave alone: the files, the configuration, the number of slots of the
    hash table, and a locked array. *)
Definition same_files (w w' : world) : Prop :=
  w_fs w' = w_fs w /\ w_conf w' = w_conf w /\
  Hash.max_slots (w_hash w') = Hash.max_slots (w_hash w) /\
  (Array.array_mutex (w_array w) = Locked -> w_array w' = w_array w).

Definition calm {A} (m : W A) : Prop := forall w al a w' al',
  m (w, al) = Ret (a, (w', al')) -> same_files w w'.

#[export] Instance same_files_preorder : PreOrder same_files.
Proof.
  split; [done|]. intros w1 w2 w3 (H1 & H2 & H0 & H3) (H4 & H5 & H7 & H6).
  split; [congruence|]. split; [congruence|]. split; [congruence|].
  intros Hl. specialize (H3 Hl). rewrite <- H3 in Hl. rewrite (H6 Hl). exact H3.
Qed.

Lemma calm_bind {A B} (m : W A) (k : A -> W B) : calm m -> (forall a, calm (k a)) -> calm (m ≫= k).
Proof.
  intros Hm Hk w al b w' al' H. apply bind_inv in H as (a & [w1 al1] & E1 & E2).
  etrans; [by eapply Hm|by eapply Hk].
Qed.

Lemma calm_mret {A} (a : A) : calm (mret a).
Proof. intros w al b w' al' H. apply mret_inv in H as [_ [= <- <-]]. done. Qed.

Lemma calm_raise {A} x : calm (raise x : W A).
Proof. by intros w al a w' al' H. Qed.

Lemma calm_get : calm get.
Proof. intros w al b w' al' [= <- <- <-]. done. Qed.

Lemma calm_malloc : calm malloc_ok.
Proof. intros w [|b al] a w' al' H; cbn in H; injection H as <- <- <-; done. Qed.

Lemma zoom_inv {W S A} (gt : W -> S) st (m : M S A) w al a w' al' :
  zoom gt st m (w, al) = Ret (a, (w', al')) -> exists s, m (gt w, al) = Ret (a, (s, al')) /\ w' = st s w.
Proof.
  unfold zoom. cbn. destruct (m (gt w, al)) as [[b [s al1]]| |]; [|done|done]. intros [= <- <- <-]. eauto.
Qed.

Lemma calm_rbtree {A} (m : M Rbtree.rbtree A) : calm (on_rbtree m).
Proof. intros w al a w' al' H. apply zoom_inv in H as (s & _ & ->). done. Qed.

(** An operation of the hash table that keeps the number of slots. *)
Definition keeps_slots {A} (m : M Hash.hashtable_t A) : Prop := forall h al a h' al',
  m (h, al) = Ret (a, (h', al')) -> Hash.max_slots h' = Hash.max_slots h.

Lemma calm_hash {A} (m : M Hash.hashtable_t A) : keeps_slots m -> calm (on_hash m).
Proof.
  intros Hm w al a w' al' H. apply zoom_inv in H as (s & E & ->). split; [done|]. split; [done|].
  split; [by eapply Hm|done].
Qed.

Lemma slots_bind {A B} (m : M Hash.hashtable_t A) (k : A -> M Hash.hashtable_t B) :
  keeps_slots m -> (forall a, keeps_slots (k a)) -> keeps_slots (m ≫= k).
Proof.
  intros Hm Hk h al b h' al' H. apply bind_inv in H as (a & [h1 al1] & E1 & E2).
  etrans; [by eapply Hk|by eapply Hm].
Qed.

Lemma slots_same {A} (m : M Hash.hashtable_t A) :
  (forall s a s', m s = Ret (a, s') -> s'.1 = s.1) -> keeps_slots m.
Proof. intros H h al a h' al' E. apply H in E. cbn in E. by subst. Qed.

Lemma slots_mret {A} (a : A) : keeps_slots (mret a).
Proof. apply slots_same. intros s b s' H. by apply mret_inv in H as [_ ->]. Qed.
Lemma slots_get : keeps_slots get.
Proof. apply slots_same. by intros s b s' [= _ <-]. Qed.
Lemma slots_malloc : keeps_slots malloc_ok.
Proof. apply slots_same. intros [h [|b al]] a s' H; cbn in H; by injection H as <- <-. Qed.
Lemma slots_deref p : keeps_slots (deref p).
Proof. apply slots_same. intros s a s' H. destruct p; [done| |done]. by apply mret_inv in H as [_ ->]. Qed.
Lemma slots_read (b : blk (list Hash.hashnode_t)) i : keeps_slots (blk_read b i).
Proof.
  apply slots_same. intros s a s' H. destruct b; [done| |done]. cbn in H.
  destruct (i <? 0)%Z; [done|]. destruct (_ !! _) as [[x|]|]; [|done|done]. by apply mret_inv in H as [_ ->].
Qed.
Lemma slots_write (b : blk (list Hash.hashnode_t)) i x : keeps_slots (blk_write b i x).
Proof.
  apply slots_same. intros s a s' H. destruct b; [done| |done]. cbn in H.
  destruct (i <? 0)%Z; [done|]. destruct (_ <=? i)%Z; [done|]. by apply mret_inv in H as [_ ->].
Qed.
Lemma slots_modify g : (forall h, Hash.max_slots (g h) = Hash.max_slots h) -> keeps_slots (modify g).
Proof. intros Hg h al a h' al' H. cbn in H. injection H as <- <- <-. apply Hg. Qed.
Lemma slots_raise {A} x : keeps_slots (raise x : M _ A).
Proof. by intros h al a h' al' H. Qed.

Lemma slots_find k c : keeps_slots (Hash.find_node k c).
Proof.
  induction c as [|n c IH]; cbn [Hash.find_node]; [apply slots_mret|].
  apply slots_bind; [apply slots_deref|]. intros s. destruct (_ =? 0)%Z; [apply slots_mret|].
  apply slots_bind; [done|]. intros. apply slots_mret.
Qed.

Create HintDb slotsdb.
#[export] Hint Resolve slots_mret slots_get slots_malloc slots_deref slots_read slots_write slots_raise
  slots_find : slotsdb.
#[export] Hint Extern 1 (keeps_slots (modify _)) => apply slots_modify; intros; reflexivity : slotsdb.

Ltac slots :=
  repeat (cbv beta zeta; match goal with
  | |- keeps_slots (_ ≫= _) => apply slots_bind; [|intros ?]
  | |- keeps_slots (match ?x with _ => _ end) => destruct x
  | |- keeps_slots (if ?x then _ else _) => destruct x
  end); eauto with slotsdb.

Lemma slots_set k v : keeps_slots (Hash.kvs_hash_set k v).
Proof. unfold Hash.kvs_hash_set, Hash._create_node. slots. Qed.
Lemma slots_hget k : keeps_slots (Hash.kvs_hash_get k).
Proof. unfold Hash.kvs_hash_get. slots. Qed.

Lemma calm_skip {A} (m : M Skip.SkipList A) : calm (on_skip m).
Proof. intros w al a w' al' H. apply zoom_inv in H as (s & _ & ->). done. Qed.

(** An operation of the array that begins with its mutex. *)
Definition locks {A} (m : M Array.kvs_array_t A) : Prop :=
  forall a al, Array.array_mutex a = Locked -> m (a, al) = Fault Deadlock.

Lemma locks_bind {A} (k : unit -> M Array.kvs_array_t A) : locks (Array.pthread_mutex_lock ≫= k).
Proof.
  intros a al H. apply bind_fault. unfold Array.pthread_mutex_lock. mcbn. by rewrite H.
Qed.

Lemma calm_array {A} (m : M Array.kvs_array_t A) : locks m -> calm (on_array m).
Proof.
  intros Hm w al a w' al' H. apply zoom_inv in H as (s & E & ->). repeat split.
  intros Hl. by rewrite (Hm _ _ Hl) in E.
Qed.

Lemma locks_exist k : locks (Array.kvs_array_exist k).
Proof.
  intros a al H. unfold Array.kvs_array_exist. destruct k; by apply locks_bind.
Qed.

Create HintDb calmdb.
#[export] Hint Resolve calm_mret calm_raise calm_get calm_malloc calm_rbtree calm_skip
  slots_set slots_hget locks_bind locks_exist : calmdb.
#[export] Hint Extern 1 (calm (on_hash _)) => apply calm_hash : calmdb.
#[export] Hint Extern 1 (calm (on_array _)) => apply calm_array : calmdb.

(** Takes an operation apart. *)
Ltac calm :=
  repeat (cbv beta zeta; match goal with
  | |- calm (_ ≫= _) => apply calm_bind; [|intros ?]
  | |- calm (match ?x with _ => _ end) => destruct x
  | |- calm (if ?x then _ else _) => destruct x
  end); eauto with calmdb.

Lemma calm_text s : calm (text s).
Proof. unfold text, to_result. calm. Qed.

Lemma calm_put_nul i b : calm (put_nul i b).
Proof. unfold put_nul. calm. Qed.

Lemma calm_deref {A} (p : cptr) (k : cstr -> W A) : (forall s, calm (k s)) -> calm (deref p ≫= k).
Proof. intros H. apply calm_bind; [destruct p; cbn; calm|done]. Qed.

#[export] Hint Resolve calm_text calm_put_nul : calmdb.
#[export] Hint Extern 1 (calm (deref _ ≫= _)) => apply calm_deref : calmdb.

Lemma calm_set_answer r : calm (set_answer r).
Proof. unfold set_answer. calm. Qed.
Lemma calm_found_answer r : calm (found_answer r).
Proof. unfold found_answer. calm. Qed.
Lemma calm_get_answer p : calm (get_answer p).
Proof. unfold get_answer, to_result. destruct p; [calm|apply calm_deref; intros; calm..]. Qed.

#[export] Hint Resolve calm_set_answer calm_found_answer calm_get_answer : calmdb.

Lemma calm_dispatch localtime cmd k v b : cmd <> CMD_SAVE -> calm (dispatch localtime cmd k v b).
Proof.
  intros Hc. unfold dispatch. rewrite (proj2 (Z.eqb_neq cmd CMD_SAVE) Hc).
  repeat (case_match; [unfold cmd_zadd, cmd_zrem, cmd_zrange; calm|]). calm.
Qed.

(** A request that does not save. *)
Lemma calm_request localtime b n :
  packet_cmd b <> CMD_SAVE -> calm (kvs_tcp_protocol localtime b n).
Proof.
  intros Hc. unfold kvs_tcp_protocol. cbn [parse_tcp_header cmd_type data_len seq_id]. unfold split_data.
  destruct (n <? _)%Z; [calm|]. destruct (_ <? 0)%Z; [calm|]. destruct (n <? _)%Z; [calm|].
  apply calm_bind; [calm|]. intros kvb. apply calm_bind; [by apply calm_dispatch|]. calm.
Qed.

(** ** What a step of the saver does to the file *)

(** Operations that change nothing but the file system. *)
Definition on_files {A} (m : W A) : Prop := forall w al a w' al',
  m (w, al) = Ret (a, (w', al')) -> w' = set_fs (w_fs w') w.

Lemma on_files_bind {A B} (m : W A) (k : A -> W B) :
  on_files m -> (forall a, on_files (k a)) -> on_files (m ≫= k).
Proof.
  intros Hm Hk w al b w' al' H. apply bind_inv in H as (a & [w1 al1] & E1 & E2).
  apply Hm in E1. apply Hk in E2. rewrite E2, E1. done.
Qed.

Lemma on_files_fs {A} (m : io A) : on_files (on_fs m).
Proof. intros w al a w' al' H. apply zoom_inv in H as (s & _ & ->). done. Qed.

Lemma on_files_same {A} (m : W A) : (forall w al a w' al', m (w, al) = Ret (a, (w', al')) -> w' = w) -> on_files m.
Proof. intros H w al a w' al' E. apply H in E as ->. by destruct w. Qed.

Lemma on_files_mret {A} (a : A) : on_files (mret a).
Proof. apply on_files_same. intros w al b w' al' H. apply mret_inv in H as [_ [= <- <-]]. done. Qed.

Lemma on_files_get : on_files get.
Proof. apply on_files_same. by intros w al b w' al' [= <- <- <-]. Qed.

Create HintDb filesdb.
#[export] Hint Resolve on_files_fs on_files_mret on_files_get : filesdb.

Ltac on_files :=
  repeat (cbv beta zeta; match goal with
  | |- on_files (_ ≫= _) => apply on_files_bind; [|intros ?]
  | |- on_files (match ?x with _ => _ end) => destruct x
  | |- on_files (if ?x then _ else _) => destruct x
  end); eauto with filesdb.

Lemma on_files_backup localtime f : on_files (rdb_create_backup localtime f).
Proof. unfold rdb_create_backup, config. on_files. Qed.

#[export] Hint Resolve on_files_backup : filesdb.

Lemma on_files_begin localtime f : on_files (begin_save localtime f).
Proof. unfold begin_save, config. on_files. Qed.

Lemma wfile_id f d w : files (w_fs w) !! f = Some d -> wfile f d w = w.
Proof. intros H. unfold wfile. rewrite insert_id by done. destruct w as [? ? ? ? ? []]. done. Qed.

(** The stream is at the end of the file, which holds [d]. *)
Definition stream_at (f : cstr) (w : world) (fp : FILE) (d : list byte) : Prop :=
  files (w_fs w) !! f = Some d /\ fp = at_end f d.

Lemma write_header_run f w al h :
  files (w_fs w) !! f = Some [] ->
  exists w', on_fs (fwrite (header_bytes h) (mk_FILE f ModeW 0 false)) (w, al)
    = Ret (at_end f (header_bytes h), (w', al)) /\ files (w_fs w') !! f = Some (header_bytes h).
Proof.
  intros H. pose proof (fwrite_wfile f [] (header_bytes h) w al) as E. rewrite wfile_id in E by done.
  eexists. split; [exact E|]. cbn. apply lookup_insert_eq.
Qed.

Lemma begin_save_inv localtime f w al r w' al' :
  begin_save localtime f (w, al) = Ret (r, (w', al')) -> rdb_enabled (w_conf w) <> 0%Z ->
  w' = set_fs (w_fs w') w /\
  match r with
  | inl r => r = (-1)%Z
  | inr p => p_conf p = w_conf w /\ p_count p = 0%Z /\ p_start p = 32%Z /\
      exists h, length h = RDB_HEADER_BYTES /\ stream_at f w' (p_fp p) h
  end.
Proof.
  intros H Hen. split; [by eapply on_files_begin|]. unfold begin_save, config in H.
  rewrite bind_bind, bind_get, bind_mret in H. cbn [fst] in H.
  destruct (Z.eqb_spec (rdb_enabled (w_conf w)) 0); [done|].
  apply bind_inv in H as (ex & [w1 al1] & _ & H). apply bind_inv in H as ([] & [w2 al2] & _ & H).
  apply bind_inv in H as (o & [w3 al3] & E3 & H).
  destruct o as [fp|]; [|by apply mret_inv in H as [<- _]].
  assert (Hfp : fp = mk_FILE f ModeW 0 false /\ files (w_fs w3) !! f = Some []).
  { apply zoom_inv in E3 as (s & E3 & ->). unfold fopen in E3. rewrite bind_get in E3. cbn in E3.
    destruct (may_write _ _ _); [|done]. injection E3 as <- <- _. cbn. by rewrite lookup_insert_eq. }
  destruct Hfp as [-> Hf].
  apply bind_inv in H as (t & [w4 al4] & E4 & H).
  assert (files (w_fs w4) !! f = Some []) as Hf4.
  { apply zoom_inv in E4 as (s & E4 & ->). unfold time in E4. rewrite bind_get in E4.
    apply mret_inv in E4 as [_ [= <- _]]. done. }
  apply bind_inv in H as (fp & [w5 al5] & E5 & H). cbv zeta in E5.
  match type of E5 with on_fs (fwrite (header_bytes ?hd) _) _ = _ =>
    destruct (write_header_run f w4 al4 hd Hf4) as (w6 & E6 & Hf6);
    rewrite E6 in E5; injection E5 as <- <- <-;
    apply mret_inv in H as [<- [= <- <-]]; cbn [p_conf p_count p_start p_fp];
    split; [done|]; split; [done|]; split;
      [unfold ftell, at_end; cbn [f_pos]; by rewrite length_header_bytes|];
    exists (header_bytes hd); split; [apply length_header_bytes|done] end.
Qed.

(** One item of a locked array. *)
Lemma save_item_inv f w al fp c d j l junk i r w' al' :
  w_array w = Array.instm Locked j l junk -> i < length l -> stream_at f w fp d ->
  save_array 1 i fp c (w, al) = Ret (r, (w', al')) ->
  w' = set_fs (w_fs w') w /\
  stream_at f w' r.1 (d ++ recs_bytes (of_pairs 0 (Array.pairs (take 1 (drop i l))))) /\
  r.2 = (c + Z.of_nat (length (Array.pairs (take 1 (drop i l)))))%Z.
Proof.
  intros Ha Hi [Hf ->] H. destruct (lookup_lt_is_Some_2 l i Hi) as [o Ho].
  pose proof (take_drop_middle _ _ _ Ho) as Hl. rewrite (drop_S _ _ _ Ho). cbn [take].
  assert (Hlen : length (take i l) = i) by (rewrite length_take; lia).
  cbn [save_array] in H.
  assert (Hg : on_array (Array.get_item i) (w, al) = Ret (Array.item_of o, (w, al))).
  { apply on_array_get_run. rewrite Ha, <- Hl. rewrite <- Hlen at 1. apply Array.get_item_inst. }
  rewrite (bind_ret _ _ _ _ _ Hg) in H. destruct o as [[k v]|]; cbn [Array.item_of Array.key Array.value] in H.
  - cbn [deref] in H. rewrite !bind_mret in H.
    pose proof (write_record_wfile f d 0 k v w al) as Ew. rewrite wfile_id in Ew by done.
    rewrite (bind_ret _ _ _ _ _ Ew) in H. apply mret_inv in H as [<- [= <- <-]]. cbn [fst snd].
    split; [done|]. split; [|done]. split.
    + cbn. rewrite app_nil_r. apply lookup_insert_eq.
    + cbn. by rewrite app_nil_r.
  - apply mret_inv in H as [<- [= <- <-]]. cbn. rewrite app_nil_r. split; [by destruct w|]. split; [done|].
    rewrite take_0. cbn. lia.
Qed.

(** Steps that append something to the file. *)
Definition appends (f : cstr) (w : world) (d : list byte) (fp : FILE) (w' : world) : Prop :=
  w' = set_fs (w_fs w') w /\ exists d', stream_at f w' fp (d ++ d').

Lemma appends_none f w d fp : stream_at f w fp d -> appends f w d fp w.
Proof. intros H. split; [by destruct w|]. exists []. by rewrite app_nil_r. Qed.

Lemma record_appends f w al d t k v fp r w' al' :
  stream_at f w fp d -> on_fs (write_record t k v fp) (w, al) = Ret (r, (w', al')) ->
  appends f w d r w'.
Proof.
  intros [Hf ->] H. pose proof (write_record_wfile f d t k v w al) as Ew. rewrite wfile_id in Ew by done.
  rewrite Ew in H. injection H as <- <- <-. split; [done|].
  exists (rec_bytes (mk_rec t k v)). split; [cbn; apply lookup_insert_eq|done].
Qed.

Lemma appends_trans f w d fp w1 d1 fp1 w2 :
  w1 = set_fs (w_fs w1) w -> stream_at f w1 fp (d ++ d1) -> appends f w1 (d ++ d1) fp1 w2 ->
  appends f w d fp1 w2.
Proof.
  intros H1 _ (H2 & d' & Hd). split; [rewrite H2, H1; done|]. exists (d1 ++ d'). by rewrite app_assoc.
Qed.

Lemma deref_inv {S} p (s : S * alloc) k s' : deref p s = Ret (k, s') -> s' = s.
Proof. destruct p; cbn; [done| |done]. intros H. by apply mret_inv in H as [_ <-]. Qed.

Lemma rd_inv {A} (g : Rbtree.rbtree_node -> option A) p s a s' : Rbtree.rd g p s = Ret (a, s') -> s' = s.
Proof.
  intros H. unfold Rbtree.rd in H. apply bind_inv in H as (n & s1 & E & H).
  unfold Rbtree.load in E. rewrite bind_get in E.
  case_decide; [done|]. destruct (_ !! _); [|done]. apply mret_inv in E as [_ <-].
  destruct (g n); [|done]. by apply mret_inv in H as [_ <-].
Qed.

Lemma on_rbtree_same {A} (m : M Rbtree.rbtree A) w al a w' al' :
  (forall s a s', m s = Ret (a, s') -> s' = s) ->
  on_rbtree m (w, al) = Ret (a, (w', al')) -> w' = w.
Proof.
  intros Hm H. apply zoom_inv in H as (s & E & ->). apply Hm in E as [= -> ->]. by destruct w.
Qed.

Lemma tree_appends f w al d fp r w' al' :
  stream_at f w fp d -> kvs_rbtree_traverse rbtree_save_callback fp (w, al) = Ret (r, (w', al')) ->
  appends f w d r w'.
Proof.
  intros Hs H. unfold kvs_rbtree_traverse in H. rewrite bind_get in H. cbn [fst] in H.
  assert (Hdone : (mret fp : W FILE) (w, al) = Ret (r, (w', al')) -> appends f w d r w').
  { intros E. apply mret_inv in E as [<- [= <- <-]]. by apply appends_none. }
  case_decide; [by apply Hdone|]. case_decide; [by apply Hdone|].
  unfold rbtree_save_callback in H. case_decide; [by apply Hdone|].
  apply bind_inv in H as (k & [w1 al1] & E1 & H).
  assert (w1 = w) as -> by (eapply on_rbtree_same; [|exact E1]; intros; by eapply rd_inv).
  assert (al1 = al) as ->.
  { apply zoom_inv in E1 as (s & E1 & _). apply rd_inv in E1. by injection E1. }
  destruct k as [|k|]; [by apply Hdone| |done].
  apply bind_inv in H as (k' & s2 & E2 & H). apply deref_inv in E2 as ->.
  apply bind_inv in H as (v & [w3 al3] & E3 & H).
  assert (w3 = w) as ->.
  { eapply on_rbtree_same; [|exact E3]. intros s a s' E. unfold Rbtree.rd_str in E.
    apply bind_inv in E as (v' & s4 & E & E'). apply rd_inv in E as ->. by apply deref_inv in E'. }
  by eapply record_appends.
Qed.

Lemma chain_appends f c : forall w al d fp r w' al',
  stream_at f w fp d -> hash_save_callback c fp (w, al) = Ret (r, (w', al')) -> appends f w d r w'.
Proof.
  induction c as [|n c IH]; intros w al d fp r w' al' Hs H; cbn [hash_save_callback] in H.
  { apply mret_inv in H as [<- [= <- <-]]. by apply appends_none. }
  apply bind_inv in H as (k & s1 & E1 & H). apply deref_inv in E1 as ->.
  apply bind_inv in H as (v & s2 & E2 & H). apply deref_inv in E2 as ->.
  apply bind_inv in H as (fp1 & [w1 al1] & E3 & H).
  apply (record_appends f w al d) in E3 as (Hw & d1 & Hd1); [|done].
  eapply appends_trans; [exact Hw|exact Hd1|]. by eapply IH.
Qed.

Lemma hash_appends f w al d fp i r w' al' :
  stream_at f w fp d -> kvs_hash_traverse 1 i hash_save_callback fp (w, al) = Ret (r, (w', al')) ->
  appends f w d r w'.
Proof.
  intros Hs H. cbn [kvs_hash_traverse] in H. rewrite bind_get in H. cbn [fst] in H.
  apply bind_inv in H as (c & [w1 al1] & E1 & H).
  assert ((w1, al1) = (w, al)) as [= -> ->].
  { unfold blk_read in E1. destruct (Hash.nodes (w_hash w)); [done| |done].
    destruct (_ <? 0)%Z; [done|]. destruct (_ !! _) as [[x|]|]; [|done|done].
    by apply mret_inv in E1 as [_ ->]. }
  apply bind_inv in H as (fp1 & [w2 al2] & E2 & H). apply mret_inv in H as [<- [= <- <-]].
  destruct c as [|n c]; [apply mret_inv in E2 as [<- [= <- <-]]; by apply appends_none|].
  by eapply chain_appends.
Qed.

(** Without checksums the end of the save writes the final header over the first. *)
Lemma end_save_inv f w al p h d r w' al' :
  rdb_crc64 (p_conf p) = 0%Z -> length h = RDB_HEADER_BYTES -> stream_at f w (p_fp p) (h ++ d) ->
  end_save p (w, al) = Ret (r, (w', al')) ->
  w_array w' = w_array w /\ w_conf w' = w_conf w /\
  exists hd, files (w_fs w') !! f = Some (header_bytes hd ++ d) /\ h_record_count hd = wrap 32 (p_count p).
Proof.
  intros Hc Hh [Hf Hfp] H. unfold end_save in H. rewrite Hc, Z.eqb_refl, bind_mret in H. cbv zeta in H.
  apply bind_inv in H as (fp1 & [w1 al1] & E1 & H).
  match type of E1 with on_fs (fwrite (header_bytes ?hd) _) _ = _ => set (hd0 := hd) in * end.
  apply zoom_inv in E1 as (s1 & E1 & ->). unfold fwrite in E1. rewrite bind_modify in E1.
  apply mret_inv in E1 as [_ [= <- <-]]. rewrite Hfp in H. cbn [fseek_set at_end f_path f_pos] in H.
  apply bind_inv in H as (t & [w2 al2] & E2 & H).
  apply zoom_inv in E2 as (s2 & E2 & ->). unfold time in E2. rewrite bind_get in E2.
  apply mret_inv in E2 as [_ [= <- <-]]. rewrite bind_modify in H. apply mret_inv in H as [_ [= <- <-]].
  split; [done|]. split; [done|]. exists hd0. split; [|done].
  cbn [w_fs set_last_save set_fs files set_files]. rewrite lookup_insert_eq. f_equal.
  unfold contents. rewrite Hf. cbn [default]. apply overwrite_front. by rewrite length_header_bytes.
Qed.

(** ** The invariant of a round *)

Section round.
Context (localtime : Z -> tm) (f : cstr) (j : Z) (l : Array.items)
  (junk : list (option Array.kvs_array_item_t)) (c0 : rdb_config_t).
Context (Hen : rdb_enabled c0 <> 0%Z) (Hcrc : rdb_crc64 c0 = 0%Z).

(** The records of the first [i] items. *)
Definition item_recs (i : nat) : list byte := recs_bytes (of_pairs 0 (Array.pairs (take i l))).
Definition item_count (i : nat) : Z := Z.of_nat (length (Array.pairs (take i l))).

(** The file holds a header, the records of the first [i] items, and [rest]. *)
Definition written (w : world) (p : progress) (i : nat) (rest : list byte) : Prop :=
  p_conf p = c0 /\ p_count p = item_count i /\
  exists h, length h = RDB_HEADER_BYTES /\ stream_at f w (p_fp p) (h ++ item_recs i ++ rest).

(** The snapshot that holds the array and the number of its pairs. *)
Definition holds_array (w : world) : Prop := exists hd rest,
  files (w_fs w) !! f = Some (header_bytes hd ++ recs_bytes (of_pairs 0 (Array.pairs l)) ++ rest) /\
  h_record_count hd = wrap 32 (Z.of_nat (length (Array.pairs l))).

Definition reached (w : world) (s : saver) : Prop :=
  match s with
  | Asleep => False
  | Entered => True
  | InArray p n i => i + n = length l /\ written w p i []
  | AtTree p | AtFooter p => exists rest, written w p (length l) rest
  | InHash p n i => i + n = Z.to_nat (Hash.max_slots (w_hash w)) /\ exists rest, written w p (length l) rest
  | Leaving r => r = 0%Z -> holds_array w
  end.

Definition round_inv (x : world * saver) : Prop :=
  w_array x.1 = Array.instm Locked j l junk /\ w_conf x.1 = c0 /\ reached x.1 x.2.

Lemma item_recs_S i : i < length l ->
  item_recs (S i) = item_recs i ++ recs_bytes (of_pairs 0 (Array.pairs (take 1 (drop i l)))) /\
  item_count (S i) = (item_count i + Z.of_nat (length (Array.pairs (take 1 (drop i l)))))%Z.
Proof.
  intros Hi. unfold item_recs, item_count.
  assert (E : take (S i) l = take i l ++ take 1 (drop i l)).
  { destruct (lookup_lt_is_Some_2 l i Hi) as [o Ho]. rewrite (drop_S _ _ _ Ho). cbn [take].
    by apply take_S_r. }
  rewrite E. unfold Array.pairs. rewrite omap_app, length_app. unfold of_pairs.
  rewrite fmap_app. fold (of_pairs 0). rewrite recs_bytes_app. split; [done|]. lia.
Qed.

Lemma written_appends w p i rest fp w' :
  written w p i rest ->
  (forall d, stream_at f w (p_fp p) d -> appends f w d fp w') ->
  w' = set_fs (w_fs w') w /\ exists rest', written w' (set_fp fp p) i rest'.
Proof.
  intros (Hc & Hn & h & Hh & Hs) H. destruct (H _ Hs) as (Hw & d' & Hs'). split; [done|].
  exists (rest ++ d'). split; [done|]. split; [done|]. exists h. split; [done|].
  cbn [p_fp set_fp]. by rewrite <- !app_assoc in Hs'.
Qed.

(** Requests keep the invariant. *)
Lemma same_files_inv w w' s : same_files w w' -> round_inv (w, s) -> round_inv (w', s).
Proof.
  intros (Hf & Hc & Hm & Ha) (H1 & H2 & H3). cbn [fst snd] in *.
  split; [cbn; by rewrite Ha, H1 by (by rewrite H1)|]. split; [cbn; congruence|]. cbn [fst snd].
  destruct s; cbn [reached] in *; unfold written, stream_at, holds_array in *; rewrite ?Hf, ?Hm; done.
Qed.

Lemma files_inv w w' s :
  w_array w = Array.instm Locked j l junk -> w_conf w = c0 -> w' = set_fs (w_fs w') w ->
  reached w' s -> round_inv (w', s).
Proof. intros H1 H2 Hw H3. split; [cbn; by rewrite Hw|]. split; [cbn; by rewrite Hw|done]. Qed.

(** So do the steps of the saver. *)
Lemma saver_inv w al s s' w' al' :
  round_inv (w, s) -> saver_step localtime f s (w, al) = Ret (s', (w', al')) -> s' <> Asleep ->
  round_inv (w', s').
Proof.
  intros (Ha & Hc & Hr) H Hs'. cbn [fst snd] in *.
  destruct s as [| |p [|n] i|p|p [|n] i|p|r]; cbn [saver_step reached] in *; [done|..].
  - apply bind_inv in H as (r & [w1 al1] & E & H).
    apply begin_save_inv in E as [Hw E]; [|by rewrite Hc]. destruct r as [r|p].
    + apply mret_inv in H as [<- [= <- <-]]. apply (files_inv w); [done..|]. cbn. by intros ->.
    + rewrite bind_get in H. apply mret_inv in H as [<- [= <- <-]]. cbn [fst].
      destruct E as (Hpc & Hn & _ & h & Hh & Hst). apply (files_inv w); [done..|]. cbn [reached].
      assert (Ha1 : w_array w1 = w_array w) by (by rewrite Hw).
      rewrite Ha1, Ha, Array.total_inst, Nat2Z.id. split; [done|].
      split; [congruence|]. split; [done|]. exists h. split; [done|]. cbn. by rewrite app_nil_r.
  - apply mret_inv in H as [<- [= <- <-]]. apply (files_inv w); [done..|by destruct w|]. cbn.
    destruct Hr as [Hi Hr]. rewrite Nat.add_0_r in Hi. subst i. by exists [].
  - destruct Hr as (Hi & Hpc & Hn & h & Hh & Hst). apply bind_inv in H as (r & [w1 al1] & E & H).
    apply mret_inv in H as [<- [= <- <-]]. rewrite app_nil_r in Hst.
    destruct (save_item_inv f w al _ _ _ j l junk i _ _ _ Ha ltac:(lia) Hst E) as (Hw & Hst1 & Hn1).
    destruct (item_recs_S i ltac:(lia)) as [Er Ec].
    apply (files_inv w); [done..|]. cbn [reached]. split; [lia|]. split; [done|].
    split; [cbn [p_count set_stream]; by rewrite Hn1, Hn, Ec|]. exists h. split; [done|].
    cbn [p_fp set_stream]. rewrite Er, app_nil_r. by rewrite <- app_assoc in Hst1.
  - destruct Hr as [rest Hr]. apply bind_inv in H as (fp & [w1 al1] & E & H).
    rewrite bind_get in H. apply mret_inv in H as [<- [= <- <-]].
    destruct (written_appends w p _ rest fp w1 Hr) as (Hw & Hr').
    { intros d Hd. by eapply tree_appends. }
    by apply (files_inv w).
  - apply mret_inv in H as [<- [= <- <-]]. apply (files_inv w); [done..|by destruct w|]. by destruct Hr.
  - destruct Hr as [Hi [rest Hr]]. apply bind_inv in H as (fp & [w1 al1] & E & H).
    apply mret_inv in H as [<- [= <- <-]].
    destruct (written_appends w p _ rest fp w1 Hr) as (Hw & Hr').
    { intros d Hd. by eapply hash_appends. }
    apply (files_inv w); [done..|]. cbn [reached]. split; [rewrite Hw; cbn [w_hash set_fs]; lia|done].
  - destruct Hr as (rest & Hpc & Hn & h & Hh & Hst). apply bind_inv in H as (r & [w1 al1] & E & H).
    apply mret_inv in H as [<- [= <- <-]].
    apply (end_save_inv f w al p h (item_recs (length l) ++ rest)) in E as (Ha1 & Hc1 & hd & Hf & Hcnt);
      [|by rewrite Hpc|done|done].
    split; [cbn; congruence|]. split; [cbn; congruence|]. cbn [snd fst reached]. intros _.
    exists hd, rest. unfold item_recs in Hf. rewrite Hn in Hcnt. unfold item_count in Hcnt.
    rewrite firstn_all in *. done.
  - apply bind_inv in H as ([] & [w1 al1] & _ & H). apply mret_inv in H as [<- _]. done.
Qed.

Lemma round_inv_steps x y : round_inv x -> in_round localtime f x y -> round_inv y.
Proof.
  intros Hx Hr. induction Hr as [x|x y z [Hstep Hy] _ IH]; [done|]. apply IH. clear IH.
  inversion Hstep as [w al s s' w' al' E|w al s b n r w' al' Hb E]; subst.
  - by eapply saver_inv.
  - eapply same_files_inv; [|exact Hx]. by eapply calm_request.
Qed.
End round.

(** ** The length of a round *)

(** [k] steps of the saver and any number of requests. *)
Inductive moves localtime f : nat -> world * saver -> world * saver -> Prop :=
  | moves_refl x : moves localtime f 0 x x
  | moves_saver k w al s s' w' al' y :
      saver_step localtime f s (w, al) = Ret (s', (w', al')) -> s' <> Asleep ->
      moves localtime f k (w', s') y -> moves localtime f (S k) (w, s) y
  | moves_request k w al s b n r w' al' y :
      packet_cmd b <> CMD_SAVE -> kvs_tcp_protocol localtime b n (w, al) = Ret (r, (w', al')) ->
      moves localtime f k (w', s) y -> moves localtime f k (w, s) y.

(** The steps the saver has left. *)
Definition left_over (items slots : nat) (s : saver) : nat :=
  match s with
  | Asleep => 0
  | Entered => items + slots + 5
  | InArray _ n _ => n + slots + 4
  | AtTree _ => slots + 3
  | InHash _ n _ => n + 2
  | AtFooter _ => 1
  | Leaving _ => 0
  end.

(** ** The saver does not get stuck *)

(** The tree and the hash table hold maps, as the requests leave them. *)
Definition whole (w : world) : Prop :=
  (exists m, store_rep SRbtree w m) /\ (exists m, store_rep SHash w m).

Definition same_stores (w w' : world) : Prop := w_rbtree w' = w_rbtree w /\ w_hash w' = w_hash w.

Lemma whole_same w w' : same_stores w w' -> whole w -> whole w'.
Proof. intros [Ht Hh]. unfold whole. cbn [store_rep]. by rewrite Ht, Hh. Qed.

(** An operation that returns, and leaves tree and table alone. *)
Definition goes_on {A} (m : W A) (w : world) (al : alloc) : Prop :=
  exists a w', m (w, al) = Ret (a, (w', al)) /\ same_stores w w'.

Lemma begin_goes_on localtime f w al : goes_on (begin_save localtime f) w al.
Proof.
  unfold goes_on, begin_save, config. mcbn. cbn [fst].
  destruct (Z.eqb_spec (rdb_enabled (w_conf w)) 0); [by exists (inl 0%Z), w|].
  erewrite bind_ret; [|apply on_fs_get_run; unfold access; mcbn; reflexivity].
  cbn [fst]. fold (on_disk (w_fs w) f). rewrite (bind_ret _ _ _ _ _ (backup_run localtime f w al)).
  set (w1 := set_fs _ w). destruct (may_write (w_fs w1) (dirs (w_fs w1)) f) eqn:E.
  - rewrite (bind_ret _ _ _ _ _ (open_wfile w1 al f E)).
    erewrite bind_ret; [|apply on_fs_get_run; unfold time; mcbn; reflexivity].
    rewrite (bind_ret _ _ _ _ _ (fwrite_wfile f [] _ w1 al)). by eexists _, _.
  - erewrite bind_ret; [|apply on_fs_get_run; unfold fopen; mcbn; cbn [fst]; rewrite E; reflexivity].
    by eexists _, _.
Qed.

Lemma item_goes_on f w al fp c d j l junk i :
  w_array w = Array.instm Locked j l junk -> i < length l -> stream_at f w fp d ->
  goes_on (save_array 1 i fp c) w al.
Proof.
  intros Ha Hi [Hf ->]. destruct (lookup_lt_is_Some_2 l i Hi) as [o Ho].
  pose proof (take_drop_middle _ _ _ Ho) as Hl.
  assert (Hlen : length (take i l) = i) by (rewrite length_take; lia). unfold goes_on. cbn [save_array].
  assert (Hg : on_array (Array.get_item i) (w, al) = Ret (Array.item_of o, (w, al))).
  { apply on_array_get_run. rewrite Ha, <- Hl. rewrite <- Hlen at 1. apply Array.get_item_inst. }
  rewrite (bind_ret _ _ _ _ _ Hg). destruct o as [[k v]|]; cbn [Array.item_of Array.key Array.value]; [|by eexists _, _].
  cbn [deref]. mcbn. pose proof (write_record_wfile f d 0 k v w al) as Ew. rewrite wfile_id in Ew by done.
  rewrite (bind_ret _ _ _ _ _ Ew). by eexists _, _.
Qed.

Lemma tree_goes_on f w al fp d :
  stream_at f w fp d -> whole w -> goes_on (kvs_rbtree_traverse rbtree_save_callback fp) w al.
Proof.
  intros [Hf ->] Hw. pose proof Hw as [[m (nl & T & HT & _)] _]. destruct HT as (Hst & _).
  pose proof (rbtree_traverse_run f w al nl T d Hst) as Et. rewrite wfile_id in Et by done.
  eexists _, _. by split; [exact Et|].
Qed.

Lemma hash_goes_on f w al fp d i :
  stream_at f w fp d -> i < Z.to_nat (Hash.max_slots (w_hash w)) -> whole w ->
  goes_on (kvs_hash_traverse 1 i hash_save_callback fp) w al.
Proof.
  intros [Hf ->] Hi Hw. pose proof Hw as [_ [m (slots & Hs & Hok & _)]].
  assert (Hlen : i < length slots) by (rewrite Hs in Hi; destruct Hok; cbn in Hi; lia).
  destruct (lookup_lt_is_Some_2 slots i Hlen) as [c Hc]. pose proof (take_drop_middle _ _ _ Hc) as Hsl.
  assert (Er0 : blk_read (Hash.nodes (w_hash w)) (Z.of_nat i) (w, al) = Ret (Hash.node_of <$> c, (w, al))).
  { rewrite Hs. cbn [Hash.nodes Hash.table]. rewrite <- Hsl, fmap_app, fmap_cons.
    pose proof (blk_read_app (Hash.cell_of <$> take i slots) (Hash.node_of <$> c)
      (Hash.cell_of <$> drop (S i) slots) (w, al)) as E.
    rewrite length_fmap, length_take, Nat.min_l in E by lia. exact E. }
  unfold goes_on. cbn [kvs_hash_traverse]. mcbn. cbn [fst]. rewrite (bind_ret _ _ _ _ _ Er0).
  assert (Ecb : (match Hash.node_of <$> c with [] => mret (at_end f d)
                 | _ => hash_save_callback (Hash.node_of <$> c) (at_end f d) end) (w, al)
    = hash_save_callback (Hash.node_of <$> c) (at_end f d) (w, al)) by (by destruct c).
  pose proof (hash_callback_run f w al c d) as Er. rewrite wfile_id in Er by done.
  erewrite bind_ret; [|rewrite Ecb; exact Er]. by eexists _, _.
Qed.

Lemma end_goes_on w al p : rdb_crc64 (p_conf p) = 0%Z -> goes_on (end_save p) w al.
Proof.
  intros Hc. unfold goes_on, end_save. rewrite Hc, Z.eqb_refl, bind_mret. cbv zeta.
  erewrite bind_ret; [|unfold on_fs; apply zoom_run; unfold fwrite; mcbn; reflexivity].
  erewrite bind_ret; [|apply on_fs_get_run; unfold time; mcbn; reflexivity].
  mcbn. by eexists _, _.
Qed.

(** Steps of the saver that do not reach its sleep. *)
Fixpoint awake_run localtime f (k : nat) (s : saver) (w : world) : option (saver * world) :=
  match k with
  | O => Some (s, w)
  | S k =>
      match saver_step localtime f s (w, []) with
      | Ret (Asleep, _) => None
      | Ret (s', (w', [])) => awake_run localtime f k s' w'
      | _ => None
      end
  end.

Section bounded.
Context (localtime : Z -> tm) (f : cstr) (j : Z) (l : Array.items)
  (junk : list (option Array.kvs_array_item_t)) (c0 : rdb_config_t).
Context (Hen : rdb_enabled c0 <> 0%Z) (Hcrc : rdb_crc64 c0 = 0%Z).

Lemma saver_step_left w al s s' w' al' :
  round_inv f j l junk c0 (w, s) -> saver_step localtime f s (w, al) = Ret (s', (w', al')) -> s' <> Asleep ->
  left_over (length l) (Z.to_nat (Hash.max_slots (w_hash w))) s'
    < left_over (length l) (Z.to_nat (Hash.max_slots (w_hash w))) s /\
  Hash.max_slots (w_hash w') = Hash.max_slots (w_hash w).
Proof.
  intros (Ha & Hc & Hr) H Hs'. cbn [fst snd] in *.
  destruct s as [| |p [|n] i|p|p [|n] i|p|r]; cbn [saver_step reached] in *; [done|..].
  - apply bind_inv in H as (r & [w1 al1] & E & H).
    apply begin_save_inv in E as [Hw _]; [|by rewrite Hc].
    assert (Hh : w_hash w1 = w_hash w) by (by rewrite Hw).
    assert (Ha1 : w_array w1 = w_array w) by (by rewrite Hw). destruct r as [r|p].
    + apply mret_inv in H as [<- [= <- <-]]. rewrite Hh. cbn. split; [lia|done].
    + rewrite bind_get in H. apply mret_inv in H as [<- [= <- <-]]. cbn [fst].
      rewrite Ha1, Ha, Array.total_inst, Nat2Z.id, Hh. cbn. split; [lia|done].
  - apply mret_inv in H as [<- [= <- <-]]. cbn. split; [lia|done].
  - destruct Hr as (Hi & Hpc & Hn & h & Hh & Hst). apply bind_inv in H as (r & [w1 al1] & E & H).
    apply mret_inv in H as [<- [= <- <-]]. rewrite app_nil_r in Hst.
    destruct (save_item_inv f w al _ _ _ j l junk i _ _ _ Ha ltac:(lia) Hst E) as (Hw & _).
    rewrite Hw. cbn. split; [lia|done].
  - destruct Hr as [rest (_ & _ & h & _ & Hst)]. apply bind_inv in H as (fp & [w1 al1] & E & H).
    rewrite bind_get in H. apply mret_inv in H as [<- [= <- <-]].
    eapply tree_appends in E as [Hw _]; [|done]. cbn [fst].
    assert (Hh : w_hash w1 = w_hash w) by (by rewrite Hw). rewrite Hh. cbn. split; [lia|done].
  - apply mret_inv in H as [<- [= <- <-]]. cbn. split; [lia|done].
  - destruct Hr as [_ [rest (_ & _ & h & _ & Hst)]]. apply bind_inv in H as (fp & [w1 al1] & E & H).
    apply mret_inv in H as [<- [= <- <-]].
    eapply hash_appends in E as [Hw _]; [|done]. rewrite Hw. cbn. split; [lia|done].
  - destruct Hr as (rest & Hpc & Hn & h & Hh & Hst). apply bind_inv in H as (r & [w1 al1] & E & H).
    apply mret_inv in H as [<- [= <- <-]]. split; [cbn; lia|].
    unfold end_save in E. rewrite Hpc, Hcrc, Z.eqb_refl, bind_mret in E. cbv zeta in E.
    apply bind_inv in E as (fp1 & [w2 al2] & E1 & E). apply zoom_inv in E1 as (s1 & _ & ->).
    apply bind_inv in E as (t & [w3 al3] & E2 & E). apply zoom_inv in E2 as (s2 & _ & ->).
    rewrite bind_modify in E. apply mret_inv in E as [_ [= <- <-]]. done.
  - apply bind_inv in H as ([] & [w1 al1] & _ & H). apply mret_inv in H as [<- _]. done.
Qed.

Lemma moves_left k x y :
  moves localtime f k x y -> round_inv f j l junk c0 x ->
  k + left_over (length l) (Z.to_nat (Hash.max_slots (w_hash x.1))) y.2
    <= left_over (length l) (Z.to_nat (Hash.max_slots (w_hash x.1))) x.2 /\
  round_inv f j l junk c0 y /\ Hash.max_slots (w_hash y.1) = Hash.max_slots (w_hash x.1).
Proof.
  induction 1 as [x|k w al s s' w' al' y E Hs' _ IH|k w al s b n r w' al' y Hb E _ IH]; intros Hx.
  - split; [lia|done].
  - destruct (saver_step_left _ _ _ _ _ _ Hx E Hs') as [Hlt Hm].
    destruct (IH (saver_inv localtime f j l junk c0 Hen Hcrc _ _ _ _ _ _ Hx E Hs')) as (Hle & Hy & Hsl).
    cbn [fst snd] in *. rewrite Hm in Hle, Hsl. split; [lia|done].
  - apply calm_request in E as Hf; [|done].
    destruct (IH (same_files_inv f j l junk c0 _ _ _ Hf Hx)) as (Hle & Hy & Hsl).
    destruct Hf as (_ & _ & Hm & _). cbn [fst snd] in *. rewrite Hm in Hle, Hsl. split; [lia|done].
Qed.

(** From every state of a round the saver can take its next step, *)
Lemma saver_step_goes_on w al s :
  round_inv f j l junk c0 (w, s) -> whole w -> s <> Asleep -> (forall r, s <> Leaving r) ->
  exists s' w', saver_step localtime f s (w, al) = Ret (s', (w', al)) /\ s' <> Asleep /\ same_stores w w'.
Proof.
  intros (Ha & Hc & Hr) Hw Hs Hl. cbn [fst snd] in *.
  destruct s as [| |p [|n] i|p|p [|n] i|p|r]; cbn [saver_step reached] in *; try done.
  - destruct (begin_goes_on localtime f w al) as (r & w' & E & Hw'). rewrite (bind_ret _ _ _ _ _ E).
    destruct r; [by eexists _, _|]. mcbn. by eexists _, _.
  - by eexists _, _.
  - destruct Hr as (Hi & _ & _ & h & _ & Hst).
    destruct (item_goes_on f w al _ (p_count p) _ j l junk i Ha ltac:(lia) Hst) as (r & w' & E & Hw').
    rewrite (bind_ret _ _ _ _ _ E). by eexists _, _.
  - destruct Hr as [rest (_ & _ & h & _ & Hst)].
    destruct (tree_goes_on f w al _ _ Hst Hw) as (r & w' & E & Hw'). rewrite (bind_ret _ _ _ _ _ E). mcbn. by eexists _, _.
  - by eexists _, _.
  - destruct Hr as [Hi [rest (_ & _ & h & _ & Hst)]].
    destruct (hash_goes_on f w al _ _ i Hst ltac:(lia) Hw) as (r & w' & E & Hw').
    rewrite (bind_ret _ _ _ _ _ E). by eexists _, _.
  - destruct Hr as [rest (Hpc & _)].
    destruct (end_goes_on w al p ltac:(by rewrite Hpc)) as (r & w' & E & Hw').
    rewrite (bind_ret _ _ _ _ _ E). by eexists _, _.
  - by destruct (Hl r).
Qed.

(** so alone it gets to the end of the save, *)
Lemma saver_gets_through n : forall w al s,
  left_over (length l) (Z.to_nat (Hash.max_slots (w_hash w))) s <= n ->
  round_inv f j l junk c0 (w, s) -> whole w -> s <> Asleep ->
  exists k r w', k <= n /\ saver_run localtime f k s (w, al) = Ret (Leaving r, (w', al)) /\
    round_inv f j l junk c0 (w', Leaving r).
Proof.
  induction n as [|n IH]; intros w al s Hn Hi Hw Hs.
  all: assert (Hl : (exists r, s = Leaving r) \/ forall r, s <> Leaving r) by (destruct s; naive_solver).
  all: destruct Hl as [[r ->]|Hl]; [exists 0, r, w; split; [lia|done]|].
  all: destruct (saver_step_goes_on w al s Hi Hw Hs) as (s' & w' & E & Hs' & Hw'); [done|].
  all: destruct (saver_step_left _ _ _ _ _ _ Hi E Hs') as [Hlt Hm].
  { lia. }
  destruct (IH w' al s') as (k & r & w2 & Hk & Er & H2); [rewrite Hm; lia|by eapply saver_inv|by eapply whole_same|done|].
  exists (S k), r, w2. split; [lia|]. split; [|done]. by rewrite (saver_run_step _ _ _ _ _ _ _ E).
Qed.

(** and releases the mutex. *)
Lemma saver_leaves w al r :
  round_inv f j l junk c0 (w, Leaving r) ->
  saver_step localtime f (Leaving r) (w, al) = Ret (Asleep, (set_array (Array.instm Unlocked j l junk) w, al)).
Proof.
  intros (Ha & _). cbn [fst saver_step] in *. unfold on_array.
  erewrite bind_ret; [|apply zoom_run; rewrite Ha; reflexivity]. done.
Qed.
(** Its steps leave the tree and the table as they are. *)
Lemma saver_keeps_stores w al s s' w' al' :
  round_inv f j l junk c0 (w, s) -> saver_step localtime f s (w, al) = Ret (s', (w', al')) -> s' <> Asleep ->
  whole w -> same_stores w w'.
Proof.
  intros Hi E Hs' Hw. assert (Hs : s <> Asleep) by (intros ->; by destruct Hi as (_ & _ & ?)).
  assert (Hl : (exists r, s = Leaving r) \/ forall r, s <> Leaving r) by (destruct s; naive_solver).
  destruct Hl as [[r ->]|Hl].
  - rewrite (saver_leaves w al r Hi) in E. by injection E as <- _ _.
  - destruct (saver_step_goes_on w al s Hi Hw Hs Hl) as (s1 & w1 & E1 & _ & Hw1). rewrite E1 in E. by injection E as _ <- _.
Qed.

Lemma awake_run_keeps k : forall s w s' w',
  awake_run localtime f k s w = Some (s', w') -> round_inv f j l junk c0 (w, s) -> whole w -> same_stores w w'.
Proof.
  induction k as [|k IH]; intros s w s' w' H Hi Hw; cbn [awake_run] in H; [by injection H as _ <-|].
  destruct (saver_step localtime f s (w, [])) as [[s1 [w1 al1]]| |] eqn:E; [|done..].
  assert (Hs1 : s1 <> Asleep /\ awake_run localtime f k s1 w1 = Some (s', w')) by (destruct s1, al1; done).
  destruct Hs1 as (Hs1 & H1). pose proof (saver_keeps_stores _ _ _ _ _ _ Hi E Hs1 Hw) as Hk.
  destruct (IH _ _ _ _ H1) as [Ht Hh]; [by eapply saver_inv|by eapply whole_same|].
  destruct Hk. split; congruence.
Qed.
End bounded.

(** *** Requests leave the tree and the table whole *)

(** A request for the tree or the hash table that [request_ok] admits. *)
Lemma request_keeps_whole localtime st w m q seq fl c rest r w' al' :
  store_rep st w m -> short_values m -> request_ok st m q -> u32 seq -> u32 fl ->
  let req := packet (request_cmd st q) seq fl (request_data q) in
  kvs_tcp_protocol localtime (req ++ c :: rest) (Z.of_nat (length req)) (w, []) = Ret (r, (w', al')) ->
  whole w -> whole w'.
Proof.
  intros Hr Hm Hq Hs Hf req E [[mt Ht] [mh Hh]].
  destruct (request_run localtime st w m q seq fl Hr Hm Hq Hs Hf) as (w1 & Hr1 & Hfr & E1).
  destruct (E1 c rest) as [b' E2]. fold req in E2. rewrite E2 in E. injection E as _ <- _.
  destruct st; cbn [frame] in Hfr; split; try (by eexists); rewrite Hfr; by eexists.
Qed.

(** Operations that leave both alone. *)
Definition spares {A} (m : W A) : Prop := forall w al a w' al',
  m (w, al) = Ret (a, (w', al')) -> same_stores w w'.

Lemma spares_bind {A B} (m : W A) (k : A -> W B) : spares m -> (forall a, spares (k a)) -> spares (m ≫= k).
Proof.
  intros Hm Hk w al b w' al' H. apply bind_inv in H as (a & [w1 al1] & E1 & E2).
  apply Hm in E1 as [E1 E1']. apply Hk in E2 as [E2 E2']. split; congruence.
Qed.

Lemma spares_mret {A} (a : A) : spares (mret a).
Proof. intros w al b w' al' H. by apply mret_inv in H as [_ [= <- <-]]. Qed.
Lemma spares_raise {A} x : spares (raise x : W A).
Proof. by intros w al a w' al' H. Qed.
Lemma spares_get : spares get.
Proof. by intros w al b w' al' [= <- <- <-]. Qed.
Lemma spares_malloc : spares malloc_ok.
Proof. intros w [|b al] a w' al' H; cbn in H; by injection H as <- <- <-. Qed.
Lemma spares_array {A} (m : M Array.kvs_array_t A) : spares (on_array m).
Proof. intros w al a w' al' H. by apply zoom_inv in H as (s & _ & ->). Qed.
Lemma spares_skip {A} (m : M Skip.SkipList A) : spares (on_skip m).
Proof. intros w al a w' al' H. by apply zoom_inv in H as (s & _ & ->). Qed.
Lemma spares_deref (p : cptr) : spares (deref p).
Proof. destruct p; [apply spares_raise|apply spares_mret|apply spares_raise]. Qed.

Create HintDb sparesdb.
#[export] Hint Resolve spares_mret spares_raise spares_get spares_malloc spares_array spares_skip spares_deref : sparesdb.

Ltac spares :=
  repeat (cbv beta zeta; match goal with
  | |- spares (_ ≫= _) => apply spares_bind; [|intros ?]
  | |- spares (match ?x with _ => _ end) => destruct x
  | |- spares (if ?x then _ else _) => destruct x
  end); eauto with sparesdb.

Lemma spares_text s : spares (text s).
Proof. unfold text, to_result. spares. Qed.
Lemma spares_put_nul i b : spares (put_nul i b).
Proof. unfold put_nul. spares. Qed.
Lemma spares_set_answer r : spares (set_answer r).
Proof. unfold set_answer. case_match; [apply spares_text|]. case_match; apply spares_text. Qed.
#[export] Hint Resolve spares_text spares_put_nul spares_set_answer : sparesdb.

(** Any other request that does not save. *)
Lemma other_request_keeps_whole localtime b n w al r w' al' :
  packet_cmd b ∉ [CMD_RSET; CMD_RGET; CMD_HSET; CMD_HGET; CMD_SAVE] ->
  kvs_tcp_protocol localtime b n (w, al) = Ret (r, (w', al')) -> whole w -> whole w'.
Proof.
  intros Hc E. enough (Hs : spares (kvs_tcp_protocol localtime b n)) by (apply Hs in E; by apply whole_same).
  rewrite !not_elem_of_cons in Hc. destruct Hc as (H1 & H2 & H3 & H4 & H5 & _). unfold packet_cmd in *.
  unfold kvs_tcp_protocol. cbn [parse_tcp_header cmd_type data_len seq_id]. unfold split_data.
  destruct (n <? _)%Z; [spares|]. destruct (_ <? 0)%Z; [spares|]. destruct (n <? _)%Z; [spares|].
  apply spares_bind; [spares|]. intros kvb. apply spares_bind; [|spares]. unfold dispatch.
  rewrite (proj2 (Z.eqb_neq _ _) H1), (proj2 (Z.eqb_neq _ _) H2), (proj2 (Z.eqb_neq _ _) H3),
    (proj2 (Z.eqb_neq _ _) H4), (proj2 (Z.eqb_neq _ _) H5).
  unfold get_answer, found_answer, cmd_zadd, cmd_zrem, cmd_zrange, to_result. spares.
Qed.

(** The step with which a round begins. *)
Lemma enter_inv localtime f j l junk w0 al0 w1 al1 :
  w_array w0 = Array.instm Unlocked j l junk -> rdb_enabled (w_conf w0) <> 0%Z ->
  saver_step localtime f Asleep (w0, al0) = Ret (Entered, (w1, al1)) ->
  w1 = set_array (Array.instm Locked j l junk) w0 /\ round_inv f j l junk (w_conf w0) (w1, Entered).
Proof.
  intros Ha Hen Hstep. cbn [saver_step] in Hstep. unfold config in Hstep.
  rewrite bind_bind, bind_get, bind_mret in Hstep. cbn [fst] in Hstep.
  destruct (Z.eqb_spec (rdb_enabled (w_conf w0)) 0); [done|].
  apply bind_inv in Hstep as ([] & [w2 al2] & E & Hstep). apply mret_inv in Hstep as [_ [= <- <-]].
  apply zoom_inv in E as (a & E & ->). unfold Array.pthread_mutex_lock in E.
  rewrite bind_get in E. cbn [fst] in E. rewrite Ha in E. cbn in E. injection E as <- <-. done.
Qed.

(** ** Properties *)

(** Steps of the saver alone lead from sleep back to sleep. *)
Definition completes_round localtime f (s s' : world * alloc) : Prop :=
  exists k, saver_run localtime f (S k) Asleep s = Ret (Asleep, s').

(** C36: the saver that runs step by step does, when nothing interferes, what one round of
    [check_auto_save] does: lock, the whole of [kvs_rdb_save], unlock. *)
Theorem autosave_steps_are_round localtime f s s' :
  check_auto_save_round localtime f s = Ret (tt, s') -> completes_round localtime f s s'.
Proof. apply saver_round_run. Qed.

(** C5: with checksums off, whatever requests other than SAVE the server answers while an
    automatic save runs, and whenever it answers them, the array does not change before the
    mutex is released, and a snapshot that succeeds holds exactly the pairs that the array had
    when the mutex was taken, and their number. *)
Theorem autosave_array_is_atomic localtime f j l junk w0 al0 w1 al1 w :
  w_array w0 = Array.instm Unlocked j l junk ->
  rdb_enabled (w_conf w0) <> 0%Z -> rdb_crc64 (w_conf w0) = 0%Z ->
  saver_step localtime f Asleep (w0, al0) = Ret (Entered, (w1, al1)) ->
  in_round localtime f (w1, Entered) (w, Leaving 0) ->
  holds_array f l w /\ w_array w = Array.instm Locked j l junk.
Proof.
  intros Ha Hen Hcrc Hstep Hr. destruct (enter_inv _ _ _ _ _ _ _ _ _ Ha Hen Hstep) as [_ Hinv].
  destruct (round_inv_steps localtime f j l junk (w_conf w0) Hen Hcrc _ _ Hinv Hr) as (H1 & _ & H3).
  split; [by apply H3|exact H1].
Qed.

(** C6: the array is not blocked for ever.  With checksums off, and whatever requests other than
    SAVE the server answers in between, a round takes at most as many steps of the saver as the
    array has items and the hash table slots, and five more; and from every state that a round
    reaches, the saver alone gets through the rest of it, without a fault and without waiting
    for a lock, in the steps it has left and one more, in which it releases the mutex: the array
    is then unlocked, with the items it had when the round began.  For this the tree and the
    hash table have to hold maps in that state ([whole]); they do if they did at the start of
    the round, the requests on them are those [request_ok] admits and their calls of [malloc]
    succeed ([saver_keeps_stores], [request_keeps_whole], [other_request_keeps_whole]). *)
Theorem autosave_round_is_bounded localtime f j l junk w0 al0 w1 al1 k w s al :
  w_array w0 = Array.instm Unlocked j l junk ->
  rdb_enabled (w_conf w0) <> 0%Z -> rdb_crc64 (w_conf w0) = 0%Z ->
  saver_step localtime f Asleep (w0, al0) = Ret (Entered, (w1, al1)) ->
  moves localtime f k (w1, Entered) (w, s) ->
  let left := left_over (length l) (Z.to_nat (Hash.max_slots (w_hash w0))) s in
  k + left <= length l + Z.to_nat (Hash.max_slots (w_hash w0)) + 5 /\
  (whole w -> exists k' w', k' <= left + 1 /\
    saver_run localtime f k' s (w, al) = Ret (Asleep, (w', al)) /\
    w_array w' = Array.instm Unlocked j l junk).
Proof.
  intros Ha Hen Hcrc Hstep Hm left. destruct (enter_inv _ _ _ _ _ _ _ _ _ Ha Hen Hstep) as [Hw Hinv].
  destruct (moves_left localtime f j l junk (w_conf w0) Hen Hcrc _ _ _ Hm Hinv) as (Hle & Hi & Hsl).
  cbn [fst snd] in *. rewrite Hw in Hle, Hsl. cbn [w_hash set_array left_over] in Hle, Hsl. split; [exact Hle|].
  intros Hwh. unfold left. rewrite <- Hsl.
  destruct (saver_gets_through localtime f j l junk (w_conf w0) Hen Hcrc _ w al s (le_n _) Hi Hwh) as (k' & r & w' & Hk & E & Hi').
  { intros ->. by destruct Hi as (_ & _ & ?). }
  exists (k' + 1), (set_array (Array.instm Unlocked j l junk) w'). split; [lia|]. split; [|done].
  rewrite (saver_run_many _ _ _ _ _ _ _ _ E), (saver_run_step _ _ _ _ _ _ _ (saver_leaves localtime f j l junk (w_conf w0) w' al r Hi')).
  done.
Qed.

Lemma awake_run_in_round localtime f k : forall s w s' w',
  awake_run localtime f k s w = Some (s', w') -> in_round localtime f (w, s) (w', s').
Proof.
  induction k as [|k IH]; intros s w s' w' H; cbn [awake_run] in H; [injection H as <- <-; constructor|].
  destruct (saver_step localtime f s (w, [])) as [[s1 [w1 al1]]| |] eqn:E; [|done..].
  assert (Hs1 : s1 <> Asleep /\ al1 = [] /\ awake_run localtime f k s1 w1 = Some (s', w'))
    by (destruct s1, al1; done).
  destruct Hs1 as (Hs1 & -> & H1). eapply rtc_l; [|by apply IH].
  split; [by eapply saver_moves|done].
Qed.

(** A request, and the world it leaves. *)
Definition served localtime (b : list byte) (w : world) : option world :=
  match kvs_tcp_protocol localtime (b ++ [x00]) (Z.of_nat (length b)) (w, []) with
  | Ret (_, (w', [])) => Some w'
  | _ => None
  end.

Lemma served_step localtime f b w w' s :
  packet_cmd (b ++ [x00]) <> CMD_SAVE -> s <> Asleep -> served localtime b w = Some w' ->
  in_round localtime f (w, s) (w', s).
Proof.
  intros Hb Hs H. unfold served in H.
  destruct (kvs_tcp_protocol _ _ _ _) as [[r [w1 al1]]| |] eqn:E; [|done..].
  destruct al1; [|done]. injection H as ->. apply rtc_once. split; [by eapply request_served|done].
Qed.

(** The server of the race: the array has one pair, the tree and the table are empty. *)
Definition race_world : world := one_pair 0.
Definition race_tm (_ : Z) : tm := mk_tm 0 0 0 0 0 0.
Definition race_file : cstr := bs "kvs.rdb".
Definition rset_a : list byte := packet CMD_RSET 1 0 (bs "a 1").
Definition hset_b : list byte := packet CMD_HSET 2 0 (bs "b 2").

(** The saver gets past the tree, the server answers the two requests, the saver goes on. *)
Definition race : option (world * world * world * world * saver * world) :=
  match saver_step race_tm race_file Asleep (race_world, []) with
  | Ret (Entered, (w1, [])) =>
      '(p, w2) ← awake_run race_tm race_file 4 Entered w1;
      w3 ← served race_tm rset_a w2;
      w4 ← served race_tm hset_b w3;
      '(q, w5) ← awake_run race_tm race_file 1026 p w4;
      match p, q with InHash _ _ _, Leaving 0 => Some (w1, w2, w3, w4, p, w5) | _, _ => None end
  | _ => None
  end.

Lemma race_result :
  (fun x => files (w_fs x.2) !! race_file) <$> race
  = Some (Some (header_bytes (mk_header RDB_MAGIC RDB_VERSION 0 14 1 0 0) ++
                recs_bytes [mk_rec 0 (bs "k") (bs "v"); mk_rec 2 (bs "b") (bs "2")])).
Proof. vm_compute. reflexivity. Qed.

Lemma race_inv x : race = Some x ->
  let '(w1, w2, w3, w4, p, w5) := x in
  saver_step race_tm race_file Asleep (race_world, []) = Ret (Entered, (w1, [])) /\
  in_round race_tm race_file (w1, Entered) (w2, p) /\ p <> Asleep /\
  served race_tm rset_a w2 = Some w3 /\ served race_tm hset_b w3 = Some w4 /\
  in_round race_tm race_file (w4, p) (w5, Leaving 0).
Proof.
  unfold race. destruct (saver_step race_tm race_file Asleep (race_world, [])) as [[s [w1 al]]| |]; [|done..].
  destruct s; try done. destruct al; [|done]. intros H.
  apply bind_Some in H as ([p w2] & E1 & H). apply bind_Some in H as (w3 & E2 & H).
  apply bind_Some in H as (w4 & E3 & H). apply bind_Some in H as ([q w5] & E4 & H).
  destruct p, q as [| | | | | |[| |]]; try done. injection H as <-.
  apply awake_run_in_round in E1, E4. done.
Qed.

(** The tree and the hash table are saved without their mutexes: there is a run in which
    the server answers RSET of a new key and then HSET of another one during an automatic save,
    and the snapshot has the second pair and not the first. *)
Theorem autosave_loses_earlier_pair :
  exists w1 w2 w3 w4 w5 p,
    saver_step race_tm race_file Asleep (race_world, []) = Ret (Entered, (w1, [])) /\
    in_round race_tm race_file (w1, Entered) (w2, p) /\ p <> Asleep /\
    served race_tm rset_a w2 = Some w3 /\ served race_tm hset_b w3 = Some w4 /\
    in_round race_tm race_file (w4, p) (w5, Leaving 0) /\
    files (w_fs w5) !! race_file
    = Some (header_bytes (mk_header RDB_MAGIC RDB_VERSION 0 14 1 0 0) ++
            recs_bytes [mk_rec 0 (bs "k") (bs "v"); mk_rec 2 (bs "b") (bs "2")]).
Proof.
  pose proof race_result as Hf. destruct race as [[[[[[w1 w2] w3] w4] p] w5]|] eqn:E; [|done].
  apply race_inv in E as (H1 & H2 & H3 & H4 & H5 & H6).
  exists w1, w2, w3, w4, w5, p. repeat (split; [done|]). by injection Hf.
Qed.

Example autosave_array_is_atomic_witness :
  exists w, holds_array race_file [Some (bs "k", bs "v")] w /\
    w_array w = Array.instm Locked 0 [Some (bs "k", bs "v")] (replicate 1023 None).
Proof.
  pose proof race_result as Hf. destruct race as [[[[[[w1 w2] w3] w4] p] w5]|] eqn:E; [|done].
  apply race_inv in E as (H1 & H2 & H3 & H4 & H5 & H6). exists w5.
  apply (autosave_array_is_atomic race_tm race_file 0 _ _ race_world [] w1 []); [done|done|done|exact H1|].
  assert (Hc1 : packet_cmd (rset_a ++ [x00]) <> CMD_SAVE) by (vm_compute; discriminate).
  assert (Hc2 : packet_cmd (hset_b ++ [x00]) <> CMD_SAVE) by (vm_compute; discriminate).
  etrans; [exact H2|]. etrans; [exact (served_step _ _ _ _ _ _ Hc1 H3 H4)|].
  etrans; [exact (served_step _ _ _ _ _ _ Hc2 H3 H5)|exact H6].
Defined.

Example autosave_steps_are_round_witness :
  exists s', check_auto_save_round race_tm race_file (race_world, []) = Ret (tt, s') /\
    completes_round race_tm race_file (race_world, []) s'.
Proof.
  assert (H : exists s', check_auto_save_round race_tm race_file (race_world, []) = Ret (tt, s')).
  { destruct (check_auto_save_round race_tm race_file (race_world, [])) as [[[] s']| |] eqn:E; [by exists s'| |];
      exfalso; revert E; vm_compute; discriminate. }
  destruct H as [s' H]. exists s'. split; [exact H|].
  exact (autosave_steps_are_round race_tm race_file (race_world, []) s' H).
Defined.

Lemma awake_run_moves localtime f k : forall s w s' w' m y,
  awake_run localtime f k s w = Some (s', w') ->
  moves localtime f m (w', s') y -> moves localtime f (k + m) (w, s) y.
Proof.
  induction k as [|k IH]; intros s w s' w' m y H Hy; cbn [awake_run] in H; [by injection H as <- <-|].
  destruct (saver_step localtime f s (w, [])) as [[s1 [w1 al1]]| |] eqn:E; [|done..].
  assert (Hs1 : s1 <> Asleep /\ al1 = [] /\ awake_run localtime f k s1 w1 = Some (s', w')) by (destruct s1, al1; done).
  destruct Hs1 as (Hs1 & -> & H1). eapply moves_saver; [exact E|done|]. by eapply IH.
Qed.

Lemma served_moves localtime f b w w' s m y :
  packet_cmd (b ++ [x00]) <> CMD_SAVE -> served localtime b w = Some w' ->
  moves localtime f m (w', s) y -> moves localtime f m (w, s) y.
Proof.
  intros Hb H Hy. unfold served in H. destruct (kvs_tcp_protocol _ _ _ _) as [[r [w1 al1]]| |] eqn:E; [|done..].
  destruct al1; [|done]. injection H as ->. by eapply moves_request.
Qed.

Lemma rset_a_ok : request_ok SRbtree ∅ (RSet (bs "a") (bs "1")).
Proof.
  split; [cbn; lia|]. split; [done|]. split; [split; vm_compute; set_solver|vm_compute; set_solver].
Qed.

Lemma race_whole w1 p w2 w3 :
  saver_step race_tm race_file Asleep (race_world, []) = Ret (Entered, (w1, [])) ->
  awake_run race_tm race_file 4 Entered w1 = Some (p, w2) -> served race_tm rset_a w2 = Some w3 -> whole w3.
Proof.
  intros E1 E2 E3. assert (Ht0 : store_rep SRbtree race_world ∅) by exact (empty_world_rep SRbtree).
  assert (Hw0 : whole race_world) by (split; [by exists ∅|exists ∅; exact (empty_world_rep SHash)]).
  destruct (enter_inv race_tm race_file 0 [Some (bs "k", bs "v")] (replicate 1023 None) race_world [] w1 []
    eq_refl ltac:(done) E1) as [-> Hi].
  destruct (awake_run_keeps race_tm race_file 0 [Some (bs "k", bs "v")] (replicate 1023 None) (w_conf race_world)
    ltac:(done) eq_refl _ _ _ _ _ E2 Hi Hw0) as [Ht Hh].
  assert (Hw2 : whole w2) by (apply (whole_same race_world); [by split|done]).
  unfold served in E3. destruct (kvs_tcp_protocol _ _ _ _) as [[r [w4 al4]]| |] eqn:E; [|done..].
  destruct al4; [|done]. injection E3 as ->.
  assert (Hr : store_rep SRbtree w2 ∅) by (cbn [store_rep]; rewrite Ht; exact Ht0).
  pose proof (request_keeps_whole race_tm SRbtree w2 ∅ (RSet (bs "a") (bs "1")) 1 0 x00 [] r w3 []
    Hr (map_Forall_empty _) rset_a_ok ltac:(by split) ltac:(by split)) as H. exact (H E Hw2).
Qed.

(** The saver of the race after its first steps and the first request, and the rest of its round. *)
Example autosave_round_is_bounded_witness :
  exists w1 w s,
    saver_step race_tm race_file Asleep (race_world, []) = Ret (Entered, (w1, [])) /\
    moves race_tm race_file 4 (w1, Entered) (w, s) /\
    4 + left_over 1 1024 s <= 1030 /\
    exists k w', saver_run race_tm race_file k s (w, []) = Ret (Asleep, (w', [])) /\
      w_array w' = Array.instm Unlocked 0 [Some (bs "k", bs "v")] (replicate 1023 None).
Proof.
  pose proof race_result as Hf. unfold race in Hf. set (l0 := [Some (bs "k", bs "v")]). set (j0 := replicate 1023 None).
  destruct (saver_step race_tm race_file Asleep (race_world, [])) as [[s1 [w1 al]]| |] eqn:E1; [|done..].
  destruct s1; try done. destruct al; [|done].
  destruct (awake_run race_tm race_file 4 Entered w1) as [[p w2]|] eqn:E2; [|done]. cbn [mbind option_bind] in Hf.
  destruct (served race_tm rset_a w2) as [w3|] eqn:E3; [|done]. clear Hf.
  assert (Hc : packet_cmd (rset_a ++ [x00]) <> CMD_SAVE) by (vm_compute; discriminate).
  assert (Hm : moves race_tm race_file 4 (w1, Entered) (w3, p)).
  { apply (awake_run_moves _ _ 4 _ _ _ _ 0 _ E2), (served_moves _ _ _ _ _ _ _ _ Hc E3), moves_refl. }
  assert (Hw : whole w3).
  { exact (race_whole _ _ _ _ E1 E2 E3). }
  destruct (autosave_round_is_bounded race_tm race_file 0 l0 j0 race_world [] w1 [] 4 w3 p []
    eq_refl ltac:(done) eq_refl E1 Hm) as [Hb Hp].
  destruct (Hp Hw) as (k & w' & _ & E & Ha). exists w1, w3, p.
  split; [done|]. split; [exact Hm|]. split; [exact Hb|]. by exists k, w'.
Defined.
